(** * gprMax: the per-iteration update engine and the model-building commands

    A shallow embedding of [gprMax/updates.py] (the host backend
    [CPUUpdates] and the accelerator backend [CUDAUpdates]) and of the
    commands of [gprMax/cmds_multiple.py] that validate sources, snapshots,
    dispersive poles and PML orders.

    Python statements become computations in a state-and-exception monad:
    an exception leaves the state as it was at the [raise], as in Python.
    Calls into code outside the two files (Cython and CUDA kernels, methods
    of sources, PML slabs and snapshots, the user-input helper) are recorded
    in a trace, in call order, and their effect on the grid is a parameter.
    Real-valued parameters (times, pole parameters) are rationals. *)

From Stdlib Require Import List String Ascii ZArith QArith Qminmax Qround Bool Lia.
From Stdlib Require Import DecimalString.
Import ListNotations.

Local Open Scope string_scope.
Local Open Scope Z_scope.

(** ** Python exceptions *)

Inductive exn : Type :=
| NameError (name : string)             (* an unbound name is read *)
| AttributeError (obj attr : string)    (* [obj] has no attribute [attr] *)
| TypeError (msg : string)
| IndexError (msg : string)
| ZeroDivisionError
| CmdInputError (msg : string)          (* gprMax.exceptions.CmdInputError *)
| GeneralError (msg : string)           (* gprMax.exceptions.GeneralError *)
| ExternalError (what : string).        (* raised inside code outside the model *)

Definition is_CmdInputError (e : exn) : bool :=
  match e with CmdInputError _ => true | _ => false end.

Definition is_NameError (e : exn) : bool :=
  match e with NameError _ => true | _ => false end.

(** ** The state-and-exception monad *)

Definition M (St A : Type) : Type := St -> (exn + A) * St.

Definition ret {St A : Type} (a : A) : M St A := fun s => (inr a, s).

Definition bind {St A B : Type} (m : M St A) (k : A -> M St B) : M St B :=
  fun s => match m s with
           | (inr a, s') => k a s'
           | (inl e, s') => (inl e, s')
           end.

Definition raise {St A : Type} (e : exn) : M St A := fun s => (inl e, s).

Definition gets {St A : Type} (f : St -> A) : M St A := fun s => (inr (f s), s).

Definition modify {St : Type} (f : St -> St) : M St unit := fun s => (inr tt, f s).

(** A result computed outside the monad (a helper that returns or raises). *)
Definition lift {St A : Type} (r : exn + A) : M St A :=
  match r with inl e => raise e | inr a => ret a end.

Declare Scope py_scope.
Delimit Scope py_scope with py.
Notation "x <- c1 ;; c2" := (bind c1 (fun x => c2))
  (at level 61, c1 at next level, right associativity) : py_scope.
Notation "' pat <- c1 ;; c2" := (bind c1 (fun x => match x with pat => c2 end))
  (at level 61, pat pattern, c1 at next level, right associativity) : py_scope.
Notation "c1 ;; c2" := (bind c1 (fun _ => c2))
  (at level 61, right associativity) : py_scope.
Local Open Scope py_scope.

(** [for x in l: body(x)] *)
Fixpoint for_each {St A : Type} (l : list A) (body : A -> M St unit) : M St unit :=
  match l with
  | [] => ret tt
  | x :: l' => body x ;; for_each l' body
  end.

(** [if c: body] with no [else]. *)
Definition when {St : Type} (c : bool) (body : M St unit) : M St unit :=
  if c then body else ret tt.

(** [enumerate(l)] *)
Definition enumerate {A : Type} (l : list A) : list (nat * A) :=
  combine (seq 0 (List.length l)) l.

(** [range(0, n)] as list indices. *)
Definition range (n : Z) : list nat := seq 0 (Z.to_nat n).

(** [l[i]] for a non-negative index. *)
Definition index {St A : Type} (l : list A) (i : nat) : M St A :=
  match nth_error l i with
  | Some x => ret x
  | None => raise (IndexError "list index out of range")
  end.

(** Truth value of a list: [if l:]. *)
Definition nonempty {A : Type} (l : list A) : bool :=
  match l with [] => false | _ :: _ => true end.

(** ** Names and scopes

    A name read in a function body is looked up among the function's
    locals, then the module's globals, then the builtins; a name in none of
    them raises [NameError]. *)

Definition mem (n : string) (names : list string) : bool :=
  existsb (String.eqb n) names.

Definition builtins : list string :=
  ["len"; "enumerate"; "range"; "getattr"; "isinstance"; "any"; "float";
   "str"; "round"; "super"; "tuple"; "list"; "KeyError"; "ValueError";
   "None"; "True"; "False"].

Definition lookup_name {St : Type} (locals globals : list string) (n : string)
  : M St unit :=
  if mem n locals || mem n globals || mem n builtins
  then ret tt else raise (NameError n).

(** Module scope of [updates.py]: its imports, [log] and its two classes. *)
Definition updates_globals : list string :=
  ["import_module"; "logging"; "sys"; "config";
   "kernel_template_fields"; "kernel_template_store_snapshot";
   "kernel_template_sources"; "update_electric"; "update_magnetic";
   "store_outputs"; "gpu_initialise_rx_arrays"; "gpu_get_rx_array";
   "Snapshot"; "gpu_initialise_snapshot_array"; "gpu_get_snapshot_array";
   "gpu_initialise_src_arrays"; "timer"; "log"; "CPUUpdates"; "CUDAUpdates"].

(** Module scope of [cmds_multiple.py]. *)
Definition cmds_globals : list string :=
  ["logging"; "sys"; "np"; "config"; "UserObjectGeometry"; "CmdInputError";
   "GeometryObjectsUser"; "MaterialUser"; "PeplinskiSoilUser";
   "CFSParameter"; "CFS"; "RxUser"; "SnapshotUser"; "VoltageSourceUser";
   "HertzianDipoleUser"; "MagneticDipoleUser"; "TransmissionLineUser";
   "SubGridBase"; "round_value"; "WaveformUser"; "log";
   "UserObjectMulti"; "Waveform"; "VoltageSource"; "HertzianDipole";
   "MagneticDipole"; "TransmissionLine"; "Rx"; "RxArray"; "Snapshot";
   "Material"; "AddDebyeDispersion"; "AddLorentzDispersion";
   "AddDrudeDispersion"; "SoilPeplinski"; "GeometryView";
   "GeometryObjectsWrite"; "PMLCFS"; "Subgrid"; "SubgridHSG"].

(** ** Strings *)

(** [s.lower()] on ASCII letters. *)
Definition lower_ascii (c : ascii) : ascii :=
  let n := nat_of_ascii c in
  if (65 <=? n)%nat && (n <=? 90)%nat then ascii_of_nat (n + 32) else c.

Fixpoint lower (s : string) : string :=
  match s with
  | EmptyString => EmptyString
  | String c s' => String (lower_ascii c) (lower s')
  end.

(** [needle in hay] for strings. *)
Fixpoint contains (needle hay : string) : bool :=
  String.prefix needle hay ||
  match hay with
  | EmptyString => false
  | String _ hay' => contains needle hay'
  end.

(** ** Comparisons of real-valued parameters *)

Definition Qgtb (x y : Q) : bool := negb (Qle_bool x y).   (* x > y *)
Definition Qltb (x y : Q) : bool := negb (Qle_bool y x).   (* x < y *)

Lemma Qgtb_lt (x y : Q) : Qgtb x y = true <-> (y < x)%Q.
Proof.
  unfold Qgtb. rewrite negb_true_iff. split; intro H.
  - apply Qnot_le_lt. intro Hle. apply Qle_bool_iff in Hle. congruence.
  - destruct (Qle_bool x y) eqn:E; [|reflexivity].
    apply Qle_bool_iff in E. exfalso. exact (Qlt_not_le _ _ H E).
Qed.

Lemma Qgtb_le (x y : Q) : Qgtb x y = false <-> (x <= y)%Q.
Proof.
  unfold Qgtb. rewrite negb_false_iff. apply Qle_bool_iff.
Qed.

Lemma Qltb_lt (x y : Q) : Qltb x y = true <-> (x < y)%Q.
Proof. apply Qgtb_lt. Qed.

Lemma Qltb_le (x y : Q) : Qltb x y = false <-> (y <= x)%Q.
Proof. apply Qgtb_le. Qed.

(** ** Data model: the objects held by the grid *)

(** [grid.gpu]: the device the accelerator backend runs on. *)
Record GPU : Type := {
  deviceID : Z;
  gpu_name : string;
  constmem : Z          (* capacity of the constant memory, in bytes *)
}.

Inductive SourceClass : Type :=
| VoltageSourceUser | HertzianDipoleUser | MagneticDipoleUser | TransmissionLineUser.

Definition class_name (c : SourceClass) : string :=
  match c with
  | VoltageSourceUser => "VoltageSource"
  | HertzianDipoleUser => "HertzianDipole"
  | MagneticDipoleUser => "MagneticDipole"
  | TransmissionLineUser => "TransmissionLine"
  end.

(** A source object of [gprMax.sources], with the attributes the commands set. *)
Record Source : Type := {
  src_class : SourceClass;
  src_ID : string;
  polarisation : string;
  xcoord : Z;
  ycoord : Z;
  zcoord : Z;
  resistance : option Q;     (* voltage source and transmission line only *)
  dl : option Q;             (* Hertzian dipole only *)
  waveformID : string;
  start : Q;
  stop : Q
}.

(** [gprMax.snapshots.Snapshot(xs, ys, zs, xf, yf, zf, dx, dy, dz, time, filename)] *)
Record SnapshotUser : Type := {
  snap_xs : Z; snap_ys : Z; snap_zs : Z;
  snap_xf : Z; snap_yf : Z; snap_zf : Z;
  snap_dx : Z; snap_dy : Z; snap_dz : Z;
  snap_time : Z;              (* the target iteration number *)
  basefilename : string
}.

(** [gprMax.materials.Material], with the attributes the dispersion commands set. *)
Record Material : Type := {
  numID : Z;
  mat_ID : string;
  mat_type : string;
  poles : Z;
  averagable : bool;
  deltaer : list Q;
  tau : list Q;
  alpha : list Q
}.

(** A PML slab and a receiver: the update engine only passes them on. *)
Record PML : Type := { pml_ID : string; thickness : Z }.
Record Rx : Type := { rx_ID : string; rx_xcoord : Z; rx_ycoord : Z; rx_zcoord : Z }.

(** ** Calls into code outside the two files, as the trace records them *)

Inductive Call : Type :=
(* host backend *)
| call_store_outputs                               (* fields_outputs.store_outputs(G) *)
| call_snap_store (i : nat) (snap : SnapshotUser)  (* snap.store(G), snap = G.snapshots[i] *)
| call_update_magnetic                             (* cython update_magnetic(...) *)
| call_pml_update_magnetic (pml : PML)             (* pml.update_magnetic(G) *)
| call_src_update_magnetic (src : Source) (iteration : Z)
| call_update_electric                             (* cython update_electric(...) *)
| call_dispersive_update (name : string) (maxpoles : Z)
| call_pml_update_electric (pml : PML)             (* pml.update_electric(G) *)
| call_src_update_electric (src : Source) (iteration : Z)
(* accelerator backend *)
| call_gpu_kernel (kernel : string) (args : list Z) (* a kernel launch and its leading integer arguments *)
| call_pml_gpu_update_magnetic (pml : PML)
| call_pml_gpu_update_electric (pml : PML)
| call_gpu_store_snapshot (i snapno : nat)         (* the store_snapshot kernel, G.snapshots[i] *)
| call_gpu_get_snapshot_array (i : nat)            (* gpu_get_snapshot_array(..., 0, G.snapshots[i]) *)
| call_driver (what : string)                      (* pycuda driver and compiler *)
| call_grid_gpu (method : string)                  (* G.gpu_initialise_arrays() and the like *)
(* model building *)
| call_calculate_waveform_values (src : Source)
| call_calculate_incident_V_I (src : Source)
| call_TransmissionLineUser.                       (* TransmissionLineUser(grid) *)

(** The user-input helper [uip] handed to every [create]. *)
Record UserInput : Type := {
  check_src_rx_point : Q * Q * Q -> exn + Z * Z * Z;
  check_box_points : Q * Q * Q -> Q * Q * Q -> exn + (Z * Z * Z) * (Z * Z * Z);
  discretise_point : Q * Q * Q -> Z * Z * Z
}.

Section Model.

(** The numeric arrays owned by the grid (field components, material index,
    auxiliary dispersive state, PML and receiver buffers): only the kernels
    outside the two files read and write their contents. *)
Context {Arrays : Type}.

(** ** Grid State: [gprMax.grid.FDTDGrid] *)

Record FDTDGrid : Type := {
  iteration : Z;                      (* the iteration counter *)
  iterations : Z;                     (* total iteration count of the run *)
  dt : Q;
  timewindow : Q;
  dx : Q;
  dy : Q;
  dz : Q;
  mode : string;
  gpu : option GPU;                   (* None on a host-only grid *)
  is_subgrid : bool;                  (* isinstance(grid, SubGridBase) *)
  waveforms : list string;            (* the IDs of the waveforms *)
  materials : list Material;
  voltagesources : list Source;
  hertziandipoles : list Source;
  magneticdipoles : list Source;
  transmissionlines : list Source;
  rxs : list Rx;
  snapshots : list SnapshotUser;
  pmls : list PML;
  snapsgpu2cpu : bool;
  updatecoeffsE_nbytes : Z;
  updatecoeffsH_nbytes : Z;
  arrays : Arrays
}.

Definition set_iteration (n : Z) (g : FDTDGrid) : FDTDGrid :=
  {| iteration := n; iterations := iterations g; dt := dt g;
     timewindow := timewindow g; dx := dx g; dy := dy g; dz := dz g;
     mode := mode g; gpu := gpu g; is_subgrid := is_subgrid g;
     waveforms := waveforms g; materials := materials g;
     voltagesources := voltagesources g; hertziandipoles := hertziandipoles g;
     magneticdipoles := magneticdipoles g;
     transmissionlines := transmissionlines g; rxs := rxs g;
     snapshots := snapshots g; pmls := pmls g; snapsgpu2cpu := snapsgpu2cpu g;
     updatecoeffsE_nbytes := updatecoeffsE_nbytes g;
     updatecoeffsH_nbytes := updatecoeffsH_nbytes g; arrays := arrays g |}.

Definition set_materials (l : list Material) (g : FDTDGrid) : FDTDGrid :=
  {| iteration := iteration g; iterations := iterations g; dt := dt g;
     timewindow := timewindow g; dx := dx g; dy := dy g; dz := dz g;
     mode := mode g; gpu := gpu g; is_subgrid := is_subgrid g;
     waveforms := waveforms g; materials := l;
     voltagesources := voltagesources g; hertziandipoles := hertziandipoles g;
     magneticdipoles := magneticdipoles g;
     transmissionlines := transmissionlines g; rxs := rxs g;
     snapshots := snapshots g; pmls := pmls g; snapsgpu2cpu := snapsgpu2cpu g;
     updatecoeffsE_nbytes := updatecoeffsE_nbytes g;
     updatecoeffsH_nbytes := updatecoeffsH_nbytes g; arrays := arrays g |}.

Definition set_voltagesources (l : list Source) (g : FDTDGrid) : FDTDGrid :=
  {| iteration := iteration g; iterations := iterations g; dt := dt g;
     timewindow := timewindow g; dx := dx g; dy := dy g; dz := dz g;
     mode := mode g; gpu := gpu g; is_subgrid := is_subgrid g;
     waveforms := waveforms g; materials := materials g;
     voltagesources := l; hertziandipoles := hertziandipoles g;
     magneticdipoles := magneticdipoles g;
     transmissionlines := transmissionlines g; rxs := rxs g;
     snapshots := snapshots g; pmls := pmls g; snapsgpu2cpu := snapsgpu2cpu g;
     updatecoeffsE_nbytes := updatecoeffsE_nbytes g;
     updatecoeffsH_nbytes := updatecoeffsH_nbytes g; arrays := arrays g |}.

Definition set_hertziandipoles (l : list Source) (g : FDTDGrid) : FDTDGrid :=
  {| iteration := iteration g; iterations := iterations g; dt := dt g;
     timewindow := timewindow g; dx := dx g; dy := dy g; dz := dz g;
     mode := mode g; gpu := gpu g; is_subgrid := is_subgrid g;
     waveforms := waveforms g; materials := materials g;
     voltagesources := voltagesources g; hertziandipoles := l;
     magneticdipoles := magneticdipoles g;
     transmissionlines := transmissionlines g; rxs := rxs g;
     snapshots := snapshots g; pmls := pmls g; snapsgpu2cpu := snapsgpu2cpu g;
     updatecoeffsE_nbytes := updatecoeffsE_nbytes g;
     updatecoeffsH_nbytes := updatecoeffsH_nbytes g; arrays := arrays g |}.

Definition set_magneticdipoles (l : list Source) (g : FDTDGrid) : FDTDGrid :=
  {| iteration := iteration g; iterations := iterations g; dt := dt g;
     timewindow := timewindow g; dx := dx g; dy := dy g; dz := dz g;
     mode := mode g; gpu := gpu g; is_subgrid := is_subgrid g;
     waveforms := waveforms g; materials := materials g;
     voltagesources := voltagesources g; hertziandipoles := hertziandipoles g;
     magneticdipoles := l;
     transmissionlines := transmissionlines g; rxs := rxs g;
     snapshots := snapshots g; pmls := pmls g; snapsgpu2cpu := snapsgpu2cpu g;
     updatecoeffsE_nbytes := updatecoeffsE_nbytes g;
     updatecoeffsH_nbytes := updatecoeffsH_nbytes g; arrays := arrays g |}.

Definition set_transmissionlines (l : list Source) (g : FDTDGrid) : FDTDGrid :=
  {| iteration := iteration g; iterations := iterations g; dt := dt g;
     timewindow := timewindow g; dx := dx g; dy := dy g; dz := dz g;
     mode := mode g; gpu := gpu g; is_subgrid := is_subgrid g;
     waveforms := waveforms g; materials := materials g;
     voltagesources := voltagesources g; hertziandipoles := hertziandipoles g;
     magneticdipoles := magneticdipoles g;
     transmissionlines := l; rxs := rxs g;
     snapshots := snapshots g; pmls := pmls g; snapsgpu2cpu := snapsgpu2cpu g;
     updatecoeffsE_nbytes := updatecoeffsE_nbytes g;
     updatecoeffsH_nbytes := updatecoeffsH_nbytes g; arrays := arrays g |}.

Definition set_snapshots (l : list SnapshotUser) (g : FDTDGrid) : FDTDGrid :=
  {| iteration := iteration g; iterations := iterations g; dt := dt g;
     timewindow := timewindow g; dx := dx g; dy := dy g; dz := dz g;
     mode := mode g; gpu := gpu g; is_subgrid := is_subgrid g;
     waveforms := waveforms g; materials := materials g;
     voltagesources := voltagesources g; hertziandipoles := hertziandipoles g;
     magneticdipoles := magneticdipoles g;
     transmissionlines := transmissionlines g; rxs := rxs g;
     snapshots := l; pmls := pmls g; snapsgpu2cpu := snapsgpu2cpu g;
     updatecoeffsE_nbytes := updatecoeffsE_nbytes g;
     updatecoeffsH_nbytes := updatecoeffsH_nbytes g; arrays := arrays g |}.

(** ** The process state

    The grid, the global configuration [gprMax.config], the class
    attributes [Material.maxpoles] and [PMLCFS.count], and the trace of
    calls into code outside the two files. *)

Record World : Type := {
  G : FDTDGrid;
  config_maxpoles : Z;                (* config.materials['maxpoles'] *)
  config_precision : string;          (* config.precision *)
  config_dispersive_complex : bool;   (* materials['dispersivedtype'] == dtypes['complex'] *)
  platform : string;                  (* sys.platform *)
  MaterialUser_maxpoles : Z;          (* the class attribute Material.maxpoles *)
  PMLCFS_count : Z;                   (* the class attribute PMLCFS.count *)
  trace : list Call
}.

Definition set_G (g : FDTDGrid) (w : World) : World :=
  {| G := g; config_maxpoles := config_maxpoles w;
     config_precision := config_precision w;
     config_dispersive_complex := config_dispersive_complex w;
     platform := platform w;
     MaterialUser_maxpoles := MaterialUser_maxpoles w;
     PMLCFS_count := PMLCFS_count w; trace := trace w |}.

Definition set_MaterialUser_maxpoles (n : Z) (w : World) : World :=
  {| G := G w; config_maxpoles := config_maxpoles w;
     config_precision := config_precision w;
     config_dispersive_complex := config_dispersive_complex w;
     platform := platform w;
     MaterialUser_maxpoles := n;
     PMLCFS_count := PMLCFS_count w; trace := trace w |}.

Definition set_PMLCFS_count (n : Z) (w : World) : World :=
  {| G := G w; config_maxpoles := config_maxpoles w;
     config_precision := config_precision w;
     config_dispersive_complex := config_dispersive_complex w;
     platform := platform w;
     MaterialUser_maxpoles := MaterialUser_maxpoles w;
     PMLCFS_count := n; trace := trace w |}.

(** The effect on the grid of each call into code outside the two files. *)
Variable run : Call -> FDTDGrid -> FDTDGrid.

(** The state after the outside call [c] returns. *)
Definition after (c : Call) (w : World) : World :=
  {| G := run c (G w); config_maxpoles := config_maxpoles w;
     config_precision := config_precision w;
     config_dispersive_complex := config_dispersive_complex w;
     platform := platform w;
     MaterialUser_maxpoles := MaterialUser_maxpoles w;
     PMLCFS_count := PMLCFS_count w; trace := trace w ++ [c] |}.

Definition call (c : Call) : M World unit := modify (after c).

(** What a computation adds to the trace when run from [w]. *)
Definition events {A : Type} (m : M World A) (w : World) : list Call :=
  skipn (List.length (trace w)) (trace (snd (m w))).

Definition py := M World.

(** A call that is handed neither the grid nor its arrays: recorded only. *)
Definition note (c : Call) : py unit :=
  modify (fun w =>
    {| G := G w; config_maxpoles := config_maxpoles w;
       config_precision := config_precision w;
       config_dispersive_complex := config_dispersive_complex w;
       platform := platform w;
       MaterialUser_maxpoles := MaterialUser_maxpoles w;
       PMLCFS_count := PMLCFS_count w; trace := trace w ++ [c] |}).

(** [self.grid.iteration += 1] *)
Definition increment_iteration : py unit :=
  modify (fun w => set_G (set_iteration (iteration (G w) + 1) (G w)) w).

(** * updates.py *)

(** ** The host backend: [class CPUUpdates] *)

(** The attributes of a [CPUUpdates] object besides [self.grid] (the grid of
    the state): the two dispersive update functions, by the name of the
    Cython function bound to them. *)
Record CPUUpdates : Type := {
  dispersive_update_a : option string;
  dispersive_update_b : option string
}.

Definition CPUUpdates_init : CPUUpdates :=
  {| dispersive_update_a := None; dispersive_update_b := None |}.

Definition CPUUpdates_store_outputs : py unit :=
  call call_store_outputs.

Definition CPUUpdates_store_snapshots (it : Z) : py unit :=
  snaps <- gets (fun w => snapshots (G w)) ;;
  for_each (enumerate snaps) (fun p =>
    when (snap_time (snd p) =? it + 1) (call (call_snap_store (fst p) (snd p)))).

Definition CPUUpdates_update_magnetic : py unit :=
  call call_update_magnetic.

Definition CPUUpdates_update_magnetic_pml : py unit :=
  slabs <- gets (fun w => pmls (G w)) ;;
  for_each slabs (fun pml => call (call_pml_update_magnetic pml)).

Definition CPUUpdates_update_magnetic_sources : py unit :=
  g <- gets G ;;
  for_each (transmissionlines g ++ magneticdipoles g) (fun source =>
    it <- gets (fun w => iteration (G w)) ;;
    call (call_src_update_magnetic source it)).

Definition CPUUpdates_update_electric_a (self : CPUUpdates) : py unit :=
  mp <- gets config_maxpoles ;;
  if mp =? 0 then call call_update_electric
  else match dispersive_update_a self with
       | Some f => call (call_dispersive_update f mp)
       | None => raise (TypeError "'NoneType' object is not callable")
       end.

Definition CPUUpdates_update_electric_pml : py unit :=
  slabs <- gets (fun w => pmls (G w)) ;;
  for_each slabs (fun pml => call (call_pml_update_electric pml)).

Definition CPUUpdates_update_electric_sources : py unit :=
  g <- gets G ;;
  for_each (voltagesources g ++ transmissionlines g ++ hertziandipoles g)
    (fun source =>
       it <- gets (fun w => iteration (G w)) ;;
       call (call_src_update_electric source it)) ;;
  increment_iteration.

Definition CPUUpdates_update_electric_b (self : CPUUpdates) : py unit :=
  mp <- gets config_maxpoles ;;
  if negb (mp =? 0) then
    match dispersive_update_b self with
    | Some f => call (call_dispersive_update f mp)
    | None => raise (TypeError "'NoneType' object is not callable")
    end
  else ret tt.

Record Props : Type := {
  props_poles : string;
  props_precision : string;
  props_dispersion_type : string
}.

Definition CPUUpdates_adapt_dispersive_config (w : World) : Props :=
  {| props_poles := if 1 <? config_maxpoles w then "multi" else "1";
     props_precision :=
       if String.eqb (config_precision w) "single" then "float" else "double";
     props_dispersion_type :=
       if config_dispersive_complex w then "complex" else "real" |}.

(** ['update_electric_dispersive_{}pole_{}_{}_{}'.format(poles, part, precision, dispersion)] *)
Definition update_f (poles part precision dispersion : string) : string :=
  "update_electric_dispersive_" ++ poles ++ "pole_" ++ part ++ "_"
    ++ precision ++ "_" ++ dispersion.

(** The functions are looked up by name in
    [gprMax.cython.fields_updates_dispersive], which defines one for every
    name [update_f] can build from [adapt_dispersive_config]. *)
Definition CPUUpdates_set_dispersive_updates (props : Props) (self : CPUUpdates)
  : CPUUpdates :=
  {| dispersive_update_a :=
       Some (update_f (props_poles props) "A" (props_precision props)
               (props_dispersion_type props));
     dispersive_update_b :=
       Some (update_f (props_poles props) "B" (props_precision props)
               (props_dispersion_type props)) |}.

Definition CPUUpdates_finalise : py unit := ret tt.

Definition CPUUpdates_cleanup : py unit := ret tt.

(** ** The accelerator backend: [class CUDAUpdates] *)

(** A [CUDAUpdates] object is the set of attribute names bound on the
    instance, and those of them that hold [None] where a kernel is expected;
    reading an attribute bound neither on the instance nor on the class
    raises [AttributeError]. *)
Record CUDAUpdates : Type := {
  attrs : list string;
  no_kernel : list string
}.

Definition CUDAUpdates_methods : list string :=
  ["set_field_kernels"; "set_pml_kernels"; "set_rx_kernel"; "set_src_kernels";
   "set_snapshot_kernel"; "copy_mat_coeffs"; "store_outputs"; "store_snapshots";
   "update_magnetic"; "update_magnetic_pml"; "update_magnetic_sources";
   "update_electric_a"; "update_electric_pml"; "update_electric_sources";
   "update_electric_b"; "time_start"; "calculate_tsolve"; "finalise"; "cleanup"].

Definition has_attr (self : CUDAUpdates) (a : string) : bool :=
  mem a (attrs self) || mem a CUDAUpdates_methods.

Definition getattr_self (self : CUDAUpdates) (a : string) : py unit :=
  if has_attr self a then ret tt else raise (AttributeError "CUDAUpdates" a).

(** [self.a = v], for a value [v] that is not [None]. *)
Definition setattr_self (a : string) (self : CUDAUpdates) : CUDAUpdates :=
  {| attrs := a :: attrs self;
     no_kernel := filter (fun b => negb (String.eqb a b)) (no_kernel self) |}.

(** [self.grid.gpu], read for one of its attributes. *)
Definition grid_gpu (a : string) : py GPU :=
  g <- gets G ;;
  match gpu g with
  | Some d => ret d
  | None => raise (AttributeError "NoneType" a)
  end.

(** The methods of the class read their global names in the module scope,
    the parameter [globals] of every definition below; the module as it
    stands is [updates_globals]. *)

(** A name is bound for a method whose only local is [self]. *)
Definition has_name (globals : list string) (n : string) : bool :=
  mem n ["self"] || mem n globals || mem n builtins.

Definition method_name (globals : list string) (n : string) : py unit :=
  lookup_name ["self"] globals n.

(** What an expression reads: an attribute of [self] or a global name. *)
Inductive Read : Type :=
| read_attr (a : string)
| read_name (n : string).

Definition readable (globals : list string) (self : CUDAUpdates) (r : Read) : bool :=
  match r with
  | read_attr a => has_attr self a
  | read_name n => has_name globals n
  end.

Definition read (globals : list string) (self : CUDAUpdates) (r : Read) : py unit :=
  match r with
  | read_attr a => getattr_self self a
  | read_name n => method_name globals n
  end.

(** A kernel launch [self.kernel(arg, ..., block=..., grid=...)]: the
    attribute holding the kernel and then the arguments are evaluated from
    left to right ([reads] lists what the arguments read of [self] and of
    the module scope; attributes of [self.grid] are taken as bound), and
    only then is the kernel called, which fails if the attribute holds
    [None]. *)
Definition launch (globals : list string) (self : CUDAUpdates)
    (kernel : string) (reads : list Read) (c : Call) : py unit :=
  getattr_self self kernel ;;
  for_each reads (read globals self) ;;
  if mem kernel (no_kernel self)
  then raise (TypeError "'NoneType' object is not callable")
  else call c.

(** The exception of a read that finds nothing. *)
Definition read_error (r : Read) : exn :=
  match r with
  | read_attr a => AttributeError "CUDAUpdates" a
  | read_name n => NameError n
  end.

Definition first_unreadable (globals : list string) (self : CUDAUpdates)
    (reads : list Read) : option Read :=
  find (fun r => negb (readable globals self r)) reads.

Definition all_readable (globals : list string) (self : CUDAUpdates)
    (reads : list Read) : bool :=
  forallb (readable globals self) reads.

(** The kernel is bound and everything the arguments read is. *)
Definition launchable (globals : list string) (self : CUDAUpdates)
    (kernel : string) (reads : list Read) : bool :=
  all_readable globals self (read_attr kernel :: reads)
  && negb (mem kernel (no_kernel self)).

(** What the CUDA driver and compiler do when called: the exception they
    raise, if any. *)
Record CudaEnv : Type := {
  import_pycuda : option exn;       (* import pycuda.driver, pycuda.compiler *)
  drv_init : option exn;            (* drv.init() *)
  drv_Device : Z -> option exn      (* drv.Device(deviceID) *)
}.

Definition attempt (r : option exn) : py unit :=
  match r with None => ret tt | Some e => raise e end.

(** [copy_mat_coeffs]: the kernel module [kernels_sources] is a local of
    [set_src_kernels], and [self.drv] is assigned nowhere. *)
Definition CUDAUpdates_copy_mat_coeffs (globals : list string)
    (self : CUDAUpdates) : py unit :=
  method_name globals "kernels_sources" ;;
  note (call_driver "get_global updatecoeffsE") ;;
  method_name globals "kernels_sources" ;;
  note (call_driver "get_global updatecoeffsH") ;;
  getattr_self self "drv" ;;
  note (call_driver "memcpy_htod updatecoeffsE") ;;
  getattr_self self "drv" ;;
  note (call_driver "memcpy_htod updatecoeffsH").

Definition CUDAUpdates_set_field_kernels (globals : list string)
    (self : CUDAUpdates) : py CUDAUpdates :=
  mp <- gets config_maxpoles ;;
  (* kernels_fields = SourceModule(kernels_template_fields.substitute(
       REAL=cudafloattype, COMPLEX=cudacomplextype, ...), options=...),
     in both branches of [if maxpoles > 0] *)
  method_name globals "SourceModule" ;;
  method_name globals "kernels_template_fields" ;;
  method_name globals "cudafloattype" ;;
  method_name globals "cudacomplextype" ;;
  getattr_self self "compiler_opts" ;;
  note (call_driver (if 0 <? mp then "SourceModule fields dispersive"
                     else "SourceModule fields")) ;;
  let self := setattr_self "update_electric" self in
  let self := setattr_self "update_magnetic" self in
  g <- gets G ;;
  d <- grid_gpu "constmem" ;;
  (if updatecoeffsE_nbytes g + updatecoeffsH_nbytes g >? constmem d then
     (* raise GeneralError(log.exception(f'... {human_size(...)} ...')) *)
     method_name globals "GeneralError" ;;
     method_name globals "log" ;;
     method_name globals "human_size" ;;
     raise (GeneralError
              "Too many materials in the model to fit onto constant memory")
   else ret tt) ;;
  CUDAUpdates_copy_mat_coeffs globals self ;;
  self <- (if 0 <? mp then
             call (call_grid_gpu "gpu_initialise_dispersive_arrays") ;;
             ret (setattr_self "dispersive_update_b"
                    (setattr_self "dispersive_update_a" self))
           else ret self) ;;
  call (call_grid_gpu "gpu_set_blocks_per_grid") ;;
  call (call_grid_gpu "gpu_initialise_arrays") ;;
  ret self.

Definition CUDAUpdates_set_pml_kernels (globals : list string)
    (self : CUDAUpdates) : py CUDAUpdates :=
  g <- gets G ;;
  if nonempty (pmls g) then
    method_name globals "import_module" ;;
    note (call_driver "import_module pml_updates_electric") ;;
    method_name globals "import_module" ;;
    note (call_driver "import_module pml_updates_magnetic") ;;
    method_name globals "SourceModule" ;;
    method_name globals "cudafloattype" ;;
    getattr_self self "compiler_opts" ;;
    note (call_driver "SourceModule pml electric") ;;
    method_name globals "SourceModule" ;;
    method_name globals "cudafloattype" ;;
    getattr_self self "gridG" ;;
    getattr_self self "compiler_opts" ;;
    note (call_driver "SourceModule pml magnetic") ;;
    CUDAUpdates_copy_mat_coeffs globals self ;;
    for_each (pmls g) (fun pml =>
      call (call_grid_gpu "pml.gpu_initialise_arrays") ;;
      note (call_driver "pml.gpu_get_update_funcs") ;;
      call (call_grid_gpu "pml.gpu_set_blocks_per_grid")) ;;
    ret self
  else ret self.

Definition CUDAUpdates_set_rx_kernel (globals : list string)
    (self : CUDAUpdates) : py CUDAUpdates :=
  g <- gets G ;;
  if nonempty (rxs g) then
    (* rxcoords_gpu, rxs_gpu = ...: two locals, not attributes of self *)
    method_name globals "gpu_initialise_rx_arrays" ;;
    call (call_grid_gpu "gpu_initialise_rx_arrays") ;;
    method_name globals "SourceModule" ;;
    method_name globals "kernel_template_store_outputs" ;;
    method_name globals "cudafloattype" ;;
    getattr_self self "compiler_opts" ;;
    note (call_driver "SourceModule store_outputs") ;;
    ret (setattr_self "store_outputs" self)
  else ret self.

Definition CUDAUpdates_set_src_kernels (globals : list string)
    (self : CUDAUpdates) : py CUDAUpdates :=
  g <- gets G ;;
  if nonempty (voltagesources g ++ hertziandipoles g ++ magneticdipoles g) then
    method_name globals "SourceModule" ;;
    method_name globals "kernels_template_sources" ;;
    method_name globals "cudafloattype" ;;
    getattr_self self "compiler_opts" ;;
    note (call_driver "SourceModule sources") ;;
    CUDAUpdates_copy_mat_coeffs globals self ;;
    self <- (if nonempty (hertziandipoles g) then
               method_name globals "gpu_initialise_src_arrays" ;;
               call (call_grid_gpu "gpu_initialise_src_arrays hertzian") ;;
               ret (fold_right setattr_self self
                      ["update_hertzian_dipole_gpu"; "srcwaves_hertzian_gpu";
                       "srcinfo2_hertzian_gpu"; "srcinfo1_hertzian_gpu"])
             else ret self) ;;
    self <- (if nonempty (magneticdipoles g) then
               method_name globals "gpu_initialise_src_arrays" ;;
               call (call_grid_gpu "gpu_initialise_src_arrays magnetic") ;;
               ret (fold_right setattr_self self
                      ["update_magnetic_dipole_gpu"; "srcwaves_magnetic_gpu";
                       "srcinfo2_magnetic_gpu"; "srcinfo1_magnetic_gpu"])
             else ret self) ;;
    (if nonempty (voltagesources g) then
       method_name globals "gpu_initialise_src_arrays" ;;
       call (call_grid_gpu "gpu_initialise_src_arrays voltage") ;;
       ret (fold_right setattr_self self
              ["update_voltage_source_gpu"; "srcwaves_voltage_gpu";
               "srcinfo2_voltage_gpu"; "srcinfo1_voltage_gpu"])
     else ret self)
  else ret self.

Definition CUDAUpdates_set_snapshot_kernel (globals : list string)
    (self : CUDAUpdates) : py CUDAUpdates :=
  g <- gets G ;;
  if nonempty (snapshots g) then
    method_name globals "gpu_initialise_snapshot_array" ;;
    call (call_grid_gpu "gpu_initialise_snapshot_array") ;;
    let self := fold_right setattr_self self
                  ["snapHz_gpu"; "snapHy_gpu"; "snapHx_gpu";
                   "snapEz_gpu"; "snapEy_gpu"; "snapEx_gpu"] in
    method_name globals "SourceModule" ;;
    method_name globals "kernel_template_store_snapshot" ;;
    method_name globals "cudafloattype" ;;
    method_name globals "Snapshot" ;;
    getattr_self self "compiler_opts" ;;
    note (call_driver "SourceModule store_snapshot") ;;
    ret (setattr_self "store_snapshot_gpu" self)
  else ret self.

(** [CUDAUpdates.__init__(self, G)]: the locals are [self], [G] and the two
    names bound by the imports inside the body, [drv] and [SourceModule]. *)
Definition init_name (globals : list string) (n : string) : py unit :=
  lookup_name ["self"; "G"; "drv"; "SourceModule"] globals n.

Definition CUDAUpdates_init (globals : list string) (env : CudaEnv)
  : py CUDAUpdates :=
  (* self.grid = G; self.dispersive_update_a = None;
     self.dispersive_update_b = None *)
  let self := {| attrs := ["dispersive_update_b"; "dispersive_update_a"; "grid"];
                 no_kernel := ["dispersive_update_b"; "dispersive_update_a"] |} in
  attempt (import_pycuda env) ;;
  attempt (drv_init env) ;;
  note (call_driver "drv.init") ;;
  init_name globals "log" ;;
  init_name globals "sys" ;;
  let self := setattr_self "compiler_opts" self in
  init_name globals "drv" ;;
  d <- grid_gpu "deviceID" ;;
  attempt (drv_Device env (deviceID d)) ;;
  note (call_driver "drv.Device") ;;
  let self := setattr_self "dev" self in
  (* self.ctx = dev.make_context() *)
  init_name globals "dev" ;;
  note (call_driver "make_context") ;;
  let self := setattr_self "ctx" self in
  self <- CUDAUpdates_set_field_kernels globals self ;;
  self <- CUDAUpdates_set_pml_kernels globals self ;;
  self <- CUDAUpdates_set_rx_kernel globals self ;;
  self <- CUDAUpdates_set_src_kernels globals self ;;
  self <- CUDAUpdates_set_snapshot_kernel globals self ;;
  ret self.

(** The per-iteration operations. *)

Definition store_outputs_reads : list Read :=
  [read_name "np"; read_name "np";
   read_attr "rxcoords_gpu"; read_attr "rxs_gpu"; read_name "round32"].

Definition CUDAUpdates_store_outputs (globals : list string)
    (self : CUDAUpdates) : py unit :=
  g <- gets G ;;
  when (nonempty (rxs g))
    (launch globals self "store_outputs" store_outputs_reads
       (call_gpu_kernel "store_outputs"
          [Z.of_nat (List.length (rxs g)); iteration g])).

(** Ten [np.int32(...)], the six buffers of the snapshot, and
    [Snapshot.tpb] and [Snapshot.bpg] for the launch shape. *)
Definition store_snapshot_reads : list Read :=
  [read_name "np"; read_name "np"; read_name "np"; read_name "np";
   read_name "np"; read_name "np"; read_name "np"; read_name "np";
   read_name "np"; read_name "np";
   read_attr "snapEx_gpu"; read_attr "snapEy_gpu"; read_attr "snapEz_gpu";
   read_attr "snapHx_gpu"; read_attr "snapHy_gpu"; read_attr "snapHz_gpu";
   read_name "Snapshot"; read_name "Snapshot"].

Definition CUDAUpdates_store_snapshots (globals : list string)
    (self : CUDAUpdates) (it : Z) : py unit :=
  snaps <- gets (fun w => snapshots (G w)) ;;
  for_each (enumerate snaps) (fun p =>
    when (snap_time (snd p) =? it + 1)
      (g <- gets G ;;
       let snapno := if snapsgpu2cpu g then 0%nat else fst p in
       launch globals self "store_snapshot_gpu" store_snapshot_reads
         (call_gpu_store_snapshot (fst p) snapno) ;;
       g <- gets G ;;
       when (snapsgpu2cpu g)
         (method_name globals "gpu_get_snapshot_array" ;;
          call (call_gpu_get_snapshot_array (fst p))))).

Definition field_reads : list Read :=
  [read_name "np"; read_name "np"; read_name "np"].

Definition CUDAUpdates_update_magnetic (globals : list string)
    (self : CUDAUpdates) : py unit :=
  launch globals self "update_magnetic" field_reads
    (call_gpu_kernel "update_magnetic" []).

Definition CUDAUpdates_update_magnetic_pml (self : CUDAUpdates) : py unit :=
  slabs <- gets (fun w => pmls (G w)) ;;
  for_each slabs (fun pml => call (call_pml_gpu_update_magnetic pml)).

(** The arguments of a source kernel: the count and the counter through
    [np.int32], the three spatial steps through [config.dtypes], the three
    device arrays of the kind of source ([srcinfo1_voltage_gpu],
    [srcinfo1_hertzian_gpu], [srcinfo1_magnetic_gpu] and the like), and
    [round32] for the launch grid. *)
Definition source_reads (kind : string) : list Read :=
  [read_name "np"; read_name "np";
   read_name "config"; read_name "config"; read_name "config";
   read_attr ("srcinfo1_" ++ kind ++ "_gpu");
   read_attr ("srcinfo2_" ++ kind ++ "_gpu");
   read_attr ("srcwaves_" ++ kind ++ "_gpu"); read_name "round32"].

Definition source_launch (kernel : string) (l : list Source) (g : FDTDGrid) : Call :=
  call_gpu_kernel kernel [Z.of_nat (List.length l); iteration g].

Definition CUDAUpdates_update_magnetic_sources (globals : list string)
    (self : CUDAUpdates) : py unit :=
  g <- gets G ;;
  when (nonempty (magneticdipoles g))
    (launch globals self "update_magnetic_dipole_gpu" (source_reads "magnetic")
       (source_launch "update_magnetic_dipole" (magneticdipoles g) g)).

(** Four [np.int32(...)], the last one of [config.materials['maxpoles']]. *)
Definition dispersive_reads : list Read :=
  [read_name "np"; read_name "np"; read_name "np"; read_name "np";
   read_name "config"].

Definition CUDAUpdates_update_electric_a (globals : list string)
    (self : CUDAUpdates) : py unit :=
  mp <- gets config_maxpoles ;;
  if mp =? 0 then
    launch globals self "update_electric" field_reads
      (call_gpu_kernel "update_electric" [])
  else
    launch globals self "dispersive_update_a" dispersive_reads
      (call_gpu_kernel "update_electric_dispersive_A" [mp]).

Definition CUDAUpdates_update_electric_pml (self : CUDAUpdates) : py unit :=
  slabs <- gets (fun w => pmls (G w)) ;;
  for_each slabs (fun pml => call (call_pml_gpu_update_electric pml)).

Definition CUDAUpdates_update_electric_sources (globals : list string)
    (self : CUDAUpdates) : py unit :=
  g <- gets G ;;
  when (nonempty (voltagesources g))
    (launch globals self "update_voltage_source_gpu" (source_reads "voltage")
       (source_launch "update_voltage_source" (voltagesources g) g)) ;;
  g <- gets G ;;
  when (nonempty (hertziandipoles g))
    (launch globals self "update_hertzian_dipole_gpu" (source_reads "hertzian")
       (source_launch "update_hertzian_dipole" (hertziandipoles g) g)) ;;
  increment_iteration.

Definition CUDAUpdates_update_electric_b (globals : list string)
    (self : CUDAUpdates) : py unit :=
  mp <- gets config_maxpoles ;;
  if negb (mp =? 0) then
    launch globals self "dispersive_update_b" dispersive_reads
      (call_gpu_kernel "update_electric_dispersive_B" [mp])
  else ret tt.

(** An accelerator object with every attribute the initialiser and its
    helpers assign. *)
Definition CUDAUpdates_all_attrs : CUDAUpdates :=
  {| attrs :=
       ["grid"; "dispersive_update_a"; "dispersive_update_b"; "compiler_opts";
        "dev"; "ctx"; "update_electric"; "update_magnetic"; "store_outputs";
        "srcinfo1_hertzian_gpu"; "srcinfo2_hertzian_gpu"; "srcwaves_hertzian_gpu";
        "update_hertzian_dipole_gpu";
        "srcinfo1_magnetic_gpu"; "srcinfo2_magnetic_gpu"; "srcwaves_magnetic_gpu";
        "update_magnetic_dipole_gpu";
        "srcinfo1_voltage_gpu"; "srcinfo2_voltage_gpu"; "srcwaves_voltage_gpu";
        "update_voltage_source_gpu";
        "snapEx_gpu"; "snapEy_gpu"; "snapEz_gpu";
        "snapHx_gpu"; "snapHy_gpu"; "snapHz_gpu"; "store_snapshot_gpu"];
     no_kernel := [] |}.

(** A module scope that binds, besides the names of the module, the names
    the accelerator methods read and the module does not bind: in it the
    methods do what they are written to do. *)
Definition bound_globals : list string :=
  ["np"; "round32"; "SourceModule"; "kernels_template_fields";
   "kernels_template_sources"; "kernel_template_store_outputs";
   "cudafloattype"; "cudacomplextype"; "GeneralError"; "human_size"; "dev"]
  ++ updates_globals.

(** ** One iteration of the solve loop *)

Inductive Backend : Type :=
| Host (self : CPUUpdates)
| Accelerator (self : CUDAUpdates).

(** The nine per-iteration backend operations. *)
Inductive Operation : Type :=
| update_magnetic
| update_magnetic_pml
| update_magnetic_sources
| update_electric_a
| update_electric_pml
| update_electric_sources
| update_electric_b
| store_outputs
| store_snapshots (it : Z).

Definition perform (b : Backend) (op : Operation) : py unit :=
  match b, op with
  | Host _, update_magnetic => CPUUpdates_update_magnetic
  | Host _, update_magnetic_pml => CPUUpdates_update_magnetic_pml
  | Host _, update_magnetic_sources => CPUUpdates_update_magnetic_sources
  | Host u, update_electric_a => CPUUpdates_update_electric_a u
  | Host _, update_electric_pml => CPUUpdates_update_electric_pml
  | Host _, update_electric_sources => CPUUpdates_update_electric_sources
  | Host u, update_electric_b => CPUUpdates_update_electric_b u
  | Host _, store_outputs => CPUUpdates_store_outputs
  | Host _, store_snapshots it => CPUUpdates_store_snapshots it
  | Accelerator u, update_magnetic => CUDAUpdates_update_magnetic updates_globals u
  | Accelerator u, update_magnetic_pml => CUDAUpdates_update_magnetic_pml u
  | Accelerator u, update_magnetic_sources => CUDAUpdates_update_magnetic_sources updates_globals u
  | Accelerator u, update_electric_a => CUDAUpdates_update_electric_a updates_globals u
  | Accelerator u, update_electric_pml => CUDAUpdates_update_electric_pml u
  | Accelerator u, update_electric_sources => CUDAUpdates_update_electric_sources updates_globals u
  | Accelerator u, update_electric_b => CUDAUpdates_update_electric_b updates_globals u
  | Accelerator u, store_outputs => CUDAUpdates_store_outputs updates_globals u
  | Accelerator u, store_snapshots it =>
      CUDAUpdates_store_snapshots updates_globals u it
  end.

(** Modelled from the spec: the solve loop that calls the backend is not in
    the two files.  The spec (section 4.1) fixes the order of the phases of
    one iteration: magnetic update, magnetic boundary correction, magnetic
    sources, electric update A, electric boundary correction, electric
    sources, electric update B, output capture (receivers, then snapshots);
    the loop index [it] runs over [range(iterations)]. *)
Definition iteration_phases (it : Z) : list Operation :=
  [update_magnetic; update_magnetic_pml; update_magnetic_sources;
   update_electric_a; update_electric_pml; update_electric_sources;
   update_electric_b; store_outputs; store_snapshots it].

Definition solve (b : Backend) (n : nat) : py unit :=
  for_each (flat_map iteration_phases (map Z.of_nat (seq 0 n))) (perform b).

(** * cmds_multiple.py *)

(** [str(n)] for an integer. *)
Definition str_Z (z : Z) : string := NilZero.string_of_int (Z.to_int z).

(** A name read inside a [create] method: none of the names this model looks
    up is a local of the method. *)
Definition create_name (n : string) : py unit :=
  lookup_name ["self"; "grid"; "uip"] cmds_globals n.

(** [self.kwargs[k]] inside [try: ... except KeyError: raise CmdInputError]. *)
Definition required {A : Type} (o : option A) (msg : string) : py A :=
  match o with
  | Some a => ret a
  | None => raise (CmdInputError msg)
  end.

(** The keyword arguments of the four source commands. *)
Record SourceKwargs : Type := {
  kw_p1 : option (Q * Q * Q);
  kw_polarisation : option string;
  kw_resistance : option Q;
  kw_waveform_id : option string;
  kw_start : option Q;
  kw_stop : option Q
}.

(** The polarisation checks, the same text in the four source commands. *)
Definition check_polarisation (polarisation : string) : py unit :=
  g <- gets G ;;
  if negb (mem polarisation ["x"; "y"; "z"]) then
    raise (CmdInputError "polarisation must be x, y, or z")
  else if contains "2D TMx" (mode g)
          && (String.eqb polarisation "y" || String.eqb polarisation "z") then
    raise (CmdInputError "polarisation must be x in 2D TMx mode")
  else if contains "2D TMy" (mode g)
          && (String.eqb polarisation "x" || String.eqb polarisation "z") then
    raise (CmdInputError "polarisation must be y in 2D TMy mode")
  else if contains "2D TMz" (mode g)
          && (String.eqb polarisation "x" || String.eqb polarisation "y") then
    raise (CmdInputError "polarisation must be z in 2D TMz mode")
  else ret tt.

(** The start and stop times, the same text in the four source commands:
    [try: start = kwargs['start']; stop = kwargs['stop']; ...
     except KeyError: start = 0; stop = grid.timewindow]. *)
Definition start_stop (kw : SourceKwargs) : py (Q * Q) :=
  match kw_start kw, kw_stop kw with
  | Some start, Some stop =>
      if Qltb start 0 then
        raise (CmdInputError
          "delay of the initiation of the source should not be less than zero")
      else if Qltb stop 0 then
        raise (CmdInputError
          "time to remove the source should not be less than zero")
      else if Qle_bool (stop - start) 0 then
        raise (CmdInputError
          "duration of the source should not be zero or less")
      else
        tw <- gets (fun w => timewindow (G w)) ;;
        ret (start, if Qgtb stop tw then tw else stop)
  | _, _ =>
      tw <- gets (fun w => timewindow (G w)) ;;
      ret (0%Q, tw)
  end.

(** [cls.__name__ + '(' + str(x) + ',' + str(y) + ',' + str(z) + ')'] *)
Definition source_ID (c : SourceClass) (x y z : Z) : string :=
  class_name c ++ "(" ++ str_Z x ++ "," ++ str_Z y ++ "," ++ str_Z z ++ ")".

Definition VoltageSource_create (kw : SourceKwargs) (uip : UserInput) : py unit :=
  let missing := "requires at least six parameters" in
  p1 <- required (kw_p1 kw) missing ;;
  pol <- required (option_map lower (kw_polarisation kw)) missing ;;
  res <- required (kw_resistance kw) missing ;;
  waveform_id <- required (kw_waveform_id kw) missing ;;
  check_polarisation pol ;;
  c <- lift (check_src_rx_point uip p1) ;;
  (if Qltb res 0 then
     raise (CmdInputError "requires a source resistance of zero or greater")
   else ret tt) ;;
  g <- gets G ;;
  (if negb (mem waveform_id (waveforms g)) then
     (* raise CmdInputError(f"... identifier {tmp[5]}") *)
     create_name "CmdInputError" ;;
     create_name "tmp" ;;
     raise (CmdInputError "there is no waveform with the identifier")
   else ret tt) ;;
  t <- start_stop kw ;;
  let v := {| src_class := VoltageSourceUser;
              src_ID := source_ID VoltageSourceUser (fst (fst c)) (snd (fst c)) (snd c);
              polarisation := pol;
              xcoord := fst (fst c); ycoord := snd (fst c); zcoord := snd c;
              resistance := Some res; dl := None; waveformID := waveform_id;
              start := fst t; stop := snd t |} in
  call (call_calculate_waveform_values v) ;;
  modify (fun w => set_G (set_voltagesources (voltagesources (G w) ++ [v]) (G w)) w).

Definition HertzianDipole_create (kw : SourceKwargs) (uip : UserInput) : py unit :=
  let missing := "requires at least 3 parameters" in
  pol <- required (option_map lower (kw_polarisation kw)) missing ;;
  p1 <- required (kw_p1 kw) missing ;;
  waveform_id <- required (kw_waveform_id kw) missing ;;
  check_polarisation pol ;;
  c <- lift (check_src_rx_point uip p1) ;;
  g <- gets G ;;
  (if negb (mem waveform_id (waveforms g)) then
     create_name "CmdInputError" ;;
     create_name "tmp" ;;
     raise (CmdInputError "there is no waveform with the identifier")
   else ret tt) ;;
  let dipole_length :=
                if String.eqb pol "x" then Some (dx g)
                else if String.eqb pol "y" then Some (dy g)
                else if String.eqb pol "z" then Some (dz g)
                else None in
  t <- start_stop kw ;;
  let h := {| src_class := HertzianDipoleUser;
              src_ID := source_ID HertzianDipoleUser (fst (fst c)) (snd (fst c)) (snd c);
              polarisation := pol;
              xcoord := fst (fst c); ycoord := snd (fst c); zcoord := snd c;
              resistance := None; dl := dipole_length; waveformID := waveform_id;
              start := fst t; stop := snd t |} in
  call (call_calculate_waveform_values h) ;;
  modify (fun w => set_G (set_hertziandipoles (hertziandipoles (G w) ++ [h]) (G w)) w).

Definition MagneticDipole_create (kw : SourceKwargs) (uip : UserInput) : py unit :=
  let missing := "requires at least five parameters" in
  pol <- required (option_map lower (kw_polarisation kw)) missing ;;
  p1 <- required (kw_p1 kw) missing ;;
  waveform_id <- required (kw_waveform_id kw) missing ;;
  check_polarisation pol ;;
  c <- lift (check_src_rx_point uip p1) ;;
  g <- gets G ;;
  (if negb (mem waveform_id (waveforms g)) then
     raise (CmdInputError "there is no waveform with the identifier")
   else ret tt) ;;
  t <- start_stop kw ;;
  let m := {| src_class := MagneticDipoleUser;
              src_ID := source_ID MagneticDipoleUser (fst (fst c)) (snd (fst c)) (snd c);
              polarisation := pol;
              xcoord := fst (fst c); ycoord := snd (fst c); zcoord := snd c;
              resistance := None; dl := None; waveformID := waveform_id;
              start := fst t; stop := snd t |} in
  call (call_calculate_waveform_values m) ;;
  modify (fun w => set_G (set_magneticdipoles (magneticdipoles (G w) ++ [m]) (G w)) w).

(** The value the error message of [TransmissionLine.create] gives for the
    impedance of free space; the name [z0] itself is bound nowhere in the
    module. *)
Definition z0_of_message : Q := 37673 # 100.

Definition TransmissionLine_create (kw : SourceKwargs) (uip : UserInput) : py unit :=
  let missing := "requires at least six parameters" in
  pol <- required (option_map lower (kw_polarisation kw)) missing ;;
  p1 <- required (kw_p1 kw) missing ;;
  waveform_id <- required (kw_waveform_id kw) missing ;;
  res <- required (kw_resistance kw) missing ;;
  g <- gets G ;;
  (match gpu g with
   | Some _ =>
       raise (CmdInputError
         "A #transmission_line cannot currently be used with GPU solving.")
   | None => ret tt
   end) ;;
  check_polarisation pol ;;
  c <- lift (check_src_rx_point uip p1) ;;
  (* if resistance <= 0 or resistance >= z0 *)
  out_of_range <- (if Qle_bool res 0 then ret true
                   else create_name "z0" ;; ret (Qle_bool z0_of_message res)) ;;
  (if out_of_range : bool then
     raise (CmdInputError
       "requires a resistance greater than zero and less than the impedance of free space")
   else ret tt) ;;
  g <- gets G ;;
  (if negb (mem waveform_id (waveforms g)) then
     create_name "CmdInputError" ;;
     create_name "tmp" ;;
     raise (CmdInputError "there is no waveform with the identifier")
   else ret tt) ;;
  call call_TransmissionLineUser ;;
  t <- start_stop kw ;;
  let tl := {| src_class := TransmissionLineUser;
               src_ID := source_ID TransmissionLineUser (fst (fst c)) (snd (fst c)) (snd c);
               polarisation := pol;
               xcoord := fst (fst c); ycoord := snd (fst c); zcoord := snd c;
               resistance := Some res; dl := None; waveformID := waveform_id;
               start := fst t; stop := snd t |} in
  call (call_calculate_waveform_values tl) ;;
  call (call_calculate_incident_V_I tl) ;;
  modify (fun w =>
    set_G (set_transmissionlines (transmissionlines (G w) ++ [tl]) (G w)) w).

(** ** [Snapshot.create] *)

Record SnapshotKwargs : Type := {
  snap_kw_p1 : option (Q * Q * Q);
  snap_kw_p2 : option (Q * Q * Q);
  snap_kw_dl : option (Q * Q * Q);
  snap_kw_filename : option string;
  snap_kw_iterations : option Z;
  snap_kw_time : option Q
}.

(** [gprMax.utilities.round_value], imported by the module. *)
Variable round_value : Q -> Z.

Definition Snapshot_create (kw : SnapshotKwargs) (uip : UserInput) : py unit :=
  g <- gets G ;;
  (if is_subgrid g then
     raise (CmdInputError "do not add Snapshots to Subgrids.")
   else ret tt) ;;
  let missing := "requires exactly 11 parameters" in
  p1 <- required (snap_kw_p1 kw) missing ;;
  p2 <- required (snap_kw_p2 kw) missing ;;
  dl <- required (snap_kw_dl kw) missing ;;
  filename <- required (snap_kw_filename kw) missing ;;
  box <- lift (check_box_points uip p1 p2) ;;
  let lo := fst box in
  let hi := snd box in
  let d := discretise_point uip dl in
  let sx := fst (fst d) in
  let sy := snd (fst d) in
  let sz := snd d in
  n <- match snap_kw_iterations kw with
       | Some n => ret n
       | None =>
           match snap_kw_time kw with
           | None => raise (CmdInputError "requires exactly 5 parameters")
           | Some time =>
               if Qgtb time 0 then
                 if Qeq_bool (dt g) 0 then raise ZeroDivisionError
                 else ret (round_value (time / dt g) + 1)
               else raise (CmdInputError "time value must be greater than zero")
           end
       end ;;
  (if (sx <? 0) || (sy <? 0) || (sz <? 0) then
     raise (CmdInputError "the step size should not be less than zero")
   else ret tt) ;;
  (if (sx <? 1) || (sy <? 1) || (sz <? 1) then
     raise (CmdInputError
       "the step size should not be less than the spatial discretisation")
   else ret tt) ;;
  (if (n <=? 0) || (n >? iterations g) then
     raise (CmdInputError "time value is not valid")
   else ret tt) ;;
  let s := {| snap_xs := fst (fst lo); snap_ys := snd (fst lo); snap_zs := snd lo;
              snap_xf := fst (fst hi); snap_yf := snd (fst hi); snap_zf := snd hi;
              snap_dx := sx; snap_dy := sy; snap_dz := sz;
              snap_time := n; basefilename := filename |} in
  modify (fun w => set_G (set_snapshots (snapshots (G w) ++ [s]) (G w)) w).

(** ** The dispersion commands *)

Record DispersionKwargs : Type := {
  kw_n_poles : option Z;
  kw_er_delta : option (list Q);
  kw_tau : option (list Q);
  kw_omega : option (list Q);
  kw_delta : option (list Q);
  kw_alpha : option (list Q);
  kw_material_ids : option (list string)
}.

(** [[y for x in material_ids for y in grid.materials if y.ID == x]]: the
    materials found are objects of the grid, so they are kept as positions
    in [grid.materials]. *)
Definition find_materials (material_ids : list string) (ms : list Material)
  : list nat :=
  flat_map (fun x =>
    map fst (filter (fun p => String.eqb (mat_ID (snd p)) x) (enumerate ms)))
    material_ids.

Fixpoint alter_nth {A : Type} (i : nat) (f : A -> A) (l : list A) : list A :=
  match l, i with
  | [], _ => []
  | x :: l', O => f x :: l'
  | x :: l', S i' => x :: alter_nth i' f l'
  end.

(** An assignment to attributes of the material at position [m]. *)
Definition alter_material (m : nat) (f : Material -> Material) : py unit :=
  modify (fun w => set_G (set_materials (alter_nth m f (materials (G w))) (G w)) w).

(** [material.type = t; material.poles = n; material.averagable = False] *)
Definition make_dispersive (t : string) (n : Z) (x : Material) : Material :=
  {| numID := numID x; mat_ID := mat_ID x; mat_type := t; poles := n;
     averagable := false; deltaer := deltaer x; tau := tau x; alpha := alpha x |}.

Definition append_deltaer (q : Q) (x : Material) : Material :=
  {| numID := numID x; mat_ID := mat_ID x; mat_type := mat_type x;
     poles := poles x; averagable := averagable x;
     deltaer := deltaer x ++ [q]; tau := tau x; alpha := alpha x |}.

Definition append_tau (q : Q) (x : Material) : Material :=
  {| numID := numID x; mat_ID := mat_ID x; mat_type := mat_type x;
     poles := poles x; averagable := averagable x;
     deltaer := deltaer x; tau := tau x ++ [q]; alpha := alpha x |}.

Definition append_alpha (q : Q) (x : Material) : Material :=
  {| numID := numID x; mat_ID := mat_ID x; mat_type := mat_type x;
     poles := poles x; averagable := averagable x;
     deltaer := deltaer x; tau := tau x; alpha := alpha x ++ [q] |}.

(** The body shared by the three commands, after the keyword arguments are
    read: the check of [n_poles], the look-up of the materials, and for each
    material the loop over its poles ([pole m i] is the body of that loop
    for the material at position [m] and the pole [i]). *)
Definition add_dispersion (t : string) (n_poles : Z) (material_ids : list string)
    (pole : nat -> nat -> py unit) : py unit :=
  (if n_poles <? 0 then
     raise (CmdInputError "requires a positive value for number of poles")
   else ret tt) ;;
  g <- gets G ;;
  let found := find_materials material_ids (materials g) in
  (if negb (List.length found =? List.length material_ids)%nat then
     raise (CmdInputError "material(s) do not exist")
   else ret tt) ;;
  for_each found (fun m =>
    alter_material m (make_dispersive t n_poles) ;;
    for_each (range n_poles) (pole m) ;;
    mx <- gets MaterialUser_maxpoles ;;
    when (n_poles >? mx) (modify (set_MaterialUser_maxpoles n_poles))).

(** Debye: [if tau[i] > 0: deltaer.append(er_delta[i]); tau.append(tau[i])]. *)
Definition debye_pole (er_delta taus : list Q) (m i : nat) : py unit :=
  t <- index taus i ;;
  if Qgtb t 0 then
    e <- index er_delta i ;;
    alter_material m (append_deltaer e) ;;
    t <- index taus i ;;
    alter_material m (append_tau t)
  else
    raise (CmdInputError "requires positive values for the permittivity difference.").

(** Lorentz: [if er_delta[i] > 0 and tau[i] > grid.dt and alpha[i] > grid.dt]. *)
Definition lorentz_pole (er_delta taus alphas : list Q) (m i : nat) : py unit :=
  e <- index er_delta i ;;
  ok <- (if Qgtb e 0 then
           t <- index taus i ;;
           step <- gets (fun w => dt (G w)) ;;
           if Qgtb t step then
             a <- index alphas i ;;
             step <- gets (fun w => dt (G w)) ;;
             ret (Qgtb a step)
           else ret false
         else ret false) ;;
  if ok : bool then
    e <- index er_delta i ;;
    alter_material m (append_deltaer e) ;;
    t <- index taus i ;;
    alter_material m (append_tau t) ;;
    a <- index alphas i ;;
    alter_material m (append_alpha a)
  else
    raise (CmdInputError
      "requires positive values for the permittivity difference and frequencies, and associated times that are greater than the time step for the model.").

(** Drude: [if tau[i] > 0 and alpha[i] > grid.dt]. *)
Definition drude_pole (taus alphas : list Q) (m i : nat) : py unit :=
  t <- index taus i ;;
  ok <- (if Qgtb t 0 then
           a <- index alphas i ;;
           step <- gets (fun w => dt (G w)) ;;
           ret (Qgtb a step)
         else ret false) ;;
  if ok : bool then
    t <- index taus i ;;
    alter_material m (append_tau t) ;;
    a <- index alphas i ;;
    alter_material m (append_alpha a)
  else
    raise (CmdInputError
      "requires positive values for the frequencies, and associated times that are greater than the time step for the model.").

Definition AddDebyeDispersion_create (kw : DispersionKwargs) : py unit :=
  let missing := "requires at least four parameters" in
  n_poles <- required (kw_n_poles kw) missing ;;
  er_delta <- required (kw_er_delta kw) missing ;;
  taus <- required (kw_tau kw) missing ;;
  material_ids <- required (kw_material_ids kw) missing ;;
  add_dispersion "debye" n_poles material_ids (debye_pole er_delta taus).

Definition AddLorentzDispersion_create (kw : DispersionKwargs) : py unit :=
  let missing := "requires at least five parameters" in
  n_poles <- required (kw_n_poles kw) missing ;;
  er_delta <- required (kw_er_delta kw) missing ;;
  taus <- required (kw_omega kw) missing ;;
  alphas <- required (kw_delta kw) missing ;;
  material_ids <- required (kw_material_ids kw) missing ;;
  add_dispersion "lorentz" n_poles material_ids (lorentz_pole er_delta taus alphas).

Definition AddDrudeDispersion_create (kw : DispersionKwargs) : py unit :=
  let missing := "requires at least four parameters" in
  n_poles <- required (kw_n_poles kw) missing ;;
  taus <- required (kw_tau kw) missing ;;
  alphas <- required (kw_alpha kw) missing ;;
  material_ids <- required (kw_material_ids kw) missing ;;
  add_dispersion "drude" n_poles material_ids (drude_pole taus alphas).

(** ** [PMLCFS.__init__] *)

(** The attributes [UserObjectMulti.__init__] assigns. *)
Record UserObject : Type := {
  order : option Z;
  hash : string;
  autotranslate : bool
}.

Definition UserObjectMulti_init : UserObject :=
  {| order := None; hash := "#example"; autotranslate := true |}.

Definition PMLCFS_init : py UserObject :=
  let self := UserObjectMulti_init in
  let self := {| order := Some 15; hash := "#pml_cfs";
                 autotranslate := autotranslate self |} in
  modify (fun w => set_PMLCFS_count (PMLCFS_count w + 1) w) ;;
  count <- gets PMLCFS_count ;;
  if count =? 2 then
    raise (CmdInputError
      "can only be used up to two times, for up to a 2nd order PML")
  else ret self.

(** * Properties *)

Local Open Scope list_scope.

(** ** Loops and traces *)

Lemma for_each_app {St A : Type} (l1 l2 : list A) (body : A -> M St unit) (s : St) :
  for_each (l1 ++ l2) body s = (for_each l1 body ;; for_each l2 body) s.
Proof.
  revert s. induction l1 as [|x l1 IH]; intro s; simpl.
  - reflexivity.
  - unfold bind. destruct (body x s) as [[e|[]] s1]; [reflexivity|].
    rewrite IH. reflexivity.
Qed.

(** A loop whose body always returns is the fold of the body's effect. *)
Lemma for_each_total {St A : Type} (body : A -> M St unit) (step : A -> St -> St) :
  (forall x s, body x s = (inr tt, step x s)) ->
  forall l s, for_each l body s = (inr tt, fold_left (fun s x => step x s) l s).
Proof.
  intros Hbody l. induction l as [|x l IH]; intro s; simpl.
  - reflexivity.
  - unfold bind. rewrite Hbody. apply IH.
Qed.

(** A loop over a body that keeps an invariant keeps it, however it ends. *)
Lemma for_each_invariant {St A : Type} (P : St -> Prop) (body : A -> M St unit) :
  (forall x s, P s -> P (snd (body x s))) ->
  forall l s, P s -> P (snd (for_each l body s)).
Proof.
  intros Hbody l. induction l as [|x l IH]; intros s Hs; simpl.
  - exact Hs.
  - unfold bind. specialize (Hbody x s Hs).
    destruct (body x s) as [[e|[]] s1]; simpl in *; auto.
Qed.

Lemma skipn_length_app {A : Type} (l1 l2 : list A) :
  skipn (List.length l1) (l1 ++ l2) = l2.
Proof. induction l1; simpl; auto. Qed.

(** The trace only grows: what a run adds is a suffix. *)
Definition extends (w w' : World) : Prop :=
  exists evs, trace w' = trace w ++ evs.

Lemma extends_refl (w : World) : extends w w.
Proof. exists []. symmetry. apply app_nil_r. Qed.

Lemma extends_trans (w1 w2 w3 : World) :
  extends w1 w2 -> extends w2 w3 -> extends w1 w3.
Proof.
  intros [e1 H1] [e2 H2]. exists (e1 ++ e2).
  rewrite H2, H1. symmetry. apply app_assoc.
Qed.

Lemma events_of_trace {A : Type} (m : M World A) (w : World) (evs : list Call) :
  trace (snd (m w)) = trace w ++ evs -> events m w = evs.
Proof. intro H. unfold events. rewrite H. apply skipn_length_app. Qed.

(** The trace after a run of source updates. *)
Definition sources_step (mk : Source -> Z -> Call) (w : World) (s : Source) : World :=
  after (mk s (iteration (G w))) w.

Definition apply_sources (mk : Source -> Z -> Call) (l : list Source) (w : World)
  : World :=
  fold_left (sources_step mk) l w.

Lemma apply_sources_app mk (l1 l2 : list Source) (w : World) :
  apply_sources mk (l1 ++ l2) w = apply_sources mk l2 (apply_sources mk l1 w).
Proof. apply fold_left_app. Qed.

(** The sources whose [update_electric] was called, in call order. *)
Definition electric_sources_updated (evs : list Call) : list Source :=
  flat_map (fun c => match c with
                     | call_src_update_electric s _ => [s]
                     | _ => []
                     end) evs.

Lemma apply_sources_trace mk (l : list Source) (w : World) :
  exists its, List.length its = List.length l /\
    trace (apply_sources mk l w)
      = trace w ++ map (fun p => mk (fst p) (snd p)) (combine l its).
Proof.
  unfold apply_sources. revert w. induction l as [|s l IH]; intro w; simpl.
  - exists []. split; [reflexivity|]. symmetry. apply app_nil_r.
  - destruct (IH (sources_step mk w s)) as [its [Hlen Htr]].
    exists (iteration (G w) :: its). split; [simpl; congruence|].
    rewrite Htr. simpl. rewrite <- app_assoc. reflexivity.
Qed.

Lemma electric_sources_updated_map (l : list Source) (its : list Z) :
  List.length its = List.length l ->
  electric_sources_updated
    (map (fun p => call_src_update_electric (fst p) (snd p)) (combine l its)) = l.
Proof.
  revert its. induction l as [|s l IH]; intros [|i its] Hlen; simpl in *;
    try discriminate; try reflexivity.
  f_equal. apply IH. congruence.
Qed.

(** ** The host backend's electric source step *)

Lemma CPUUpdates_update_electric_sources_run (w : World) :
  CPUUpdates_update_electric_sources w
  = (inr tt,
     let w1 := apply_sources call_src_update_electric
                 (voltagesources (G w) ++ transmissionlines (G w)
                    ++ hertziandipoles (G w)) w in
     set_G (set_iteration (iteration (G w1) + 1) (G w1)) w1).
Proof.
  unfold CPUUpdates_update_electric_sources, bind, gets. simpl.
  rewrite (for_each_total _ (fun s w => sources_step call_src_update_electric w s)).
  - reflexivity.
  - intros x s. reflexivity.
Qed.

(** ** The accelerator backend's kernel launches *)

Lemma read_run (globals : list string) (self : CUDAUpdates) (r : Read) (w : World) :
  read globals self r w
  = (if readable globals self r then inr tt else inl (read_error r), w).
Proof.
  destruct r as [a|n]; simpl.
  - unfold getattr_self. destruct (has_attr self a); reflexivity.
  - unfold method_name, lookup_name, has_name.
    destruct (mem n ["self"] || mem n globals || mem n builtins); reflexivity.
Qed.

Lemma reads_run (globals : list string) (self : CUDAUpdates) (reads : list Read)
    (w : World) :
  for_each reads (read globals self) w
  = (match first_unreadable globals self reads with
     | Some r => inl (read_error r)
     | None => inr tt
     end, w).
Proof.
  unfold first_unreadable. induction reads as [|r reads IH]; simpl.
  - reflexivity.
  - unfold bind. rewrite read_run.
    destruct (readable globals self r); simpl; [exact IH|reflexivity].
Qed.

(** A launch runs the kernel when the kernel and everything its arguments
    read are bound; otherwise it raises at the first read that is not, or
    at the call of [None], and the state is as it was. *)
Lemma launch_run (globals : list string) (self : CUDAUpdates) (kernel : string)
    (reads : list Read) (c : Call) (w : World) :
  launch globals self kernel reads c w
  = match first_unreadable globals self (read_attr kernel :: reads) with
    | Some r => (inl (read_error r), w)
    | None => if mem kernel (no_kernel self)
              then (inl (TypeError "'NoneType' object is not callable"), w)
              else (inr tt, after c w)
    end.
Proof.
  unfold launch, bind.
  change (getattr_self self kernel w) with (read globals self (read_attr kernel) w).
  rewrite read_run. unfold first_unreadable. simpl.
  destruct (has_attr self kernel); simpl; [|reflexivity].
  rewrite reads_run. fold (first_unreadable globals self reads).
  destruct (first_unreadable globals self reads); [reflexivity|].
  destruct (mem kernel (no_kernel self)); reflexivity.
Qed.

Lemma first_unreadable_none (globals : list string) (self : CUDAUpdates)
    (reads : list Read) :
  all_readable globals self reads = true ->
  first_unreadable globals self reads = None.
Proof.
  unfold all_readable, first_unreadable.
  induction reads as [|r reads IH]; simpl; [reflexivity|].
  destruct (readable globals self r); simpl; [exact IH|discriminate].
Qed.

Lemma first_unreadable_some (globals : list string) (self : CUDAUpdates)
    (reads : list Read) (n : string) :
  In (read_name n) reads -> has_name globals n = false ->
  exists r, first_unreadable globals self reads = Some r.
Proof.
  unfold first_unreadable. intros Hin Hn.
  destruct (find (fun r => negb (readable globals self r)) reads) as [r|] eqn:E.
  - exists r. reflexivity.
  - apply (find_none _ _ E) in Hin. simpl in Hin. rewrite Hn in Hin. discriminate.
Qed.

Lemma launch_bound (globals : list string) (self : CUDAUpdates) (kernel : string)
    (reads : list Read) (c : Call) (w : World) :
  launchable globals self kernel reads = true ->
  launch globals self kernel reads c w = (inr tt, after c w).
Proof.
  unfold launchable. intro H. apply andb_prop in H. destruct H as [H1 H2].
  rewrite launch_run, (first_unreadable_none _ _ _ H1).
  destruct (mem kernel (no_kernel self)); [discriminate|reflexivity].
Qed.

Lemma launch_unbound (globals : list string) (self : CUDAUpdates)
    (kernel : string) (reads : list Read) (c : Call) (w : World) (n : string) :
  In (read_name n) reads -> has_name globals n = false ->
  exists e, launch globals self kernel reads c w = (inl e, w).
Proof.
  intros Hin Hn. rewrite launch_run.
  destruct (first_unreadable_some globals self (read_attr kernel :: reads) n
              (or_intror Hin) Hn) as [r ->].
  eauto.
Qed.

(** Whether it runs the kernel or raises, a launch adds at most its own
    call to the trace. *)
Lemma launch_trace (globals : list string) (self : CUDAUpdates) (kernel : string)
    (reads : list Read) (c : Call) (w : World) :
  (exists e, launch globals self kernel reads c w = (inl e, w))
  \/ launch globals self kernel reads c w = (inr tt, after c w).
Proof.
  rewrite launch_run.
  destruct (first_unreadable globals self (read_attr kernel :: reads)); [eauto|].
  destruct (mem kernel (no_kernel self)); eauto.
Qed.

(** [np] is not a name of the module: [updates.py] imports no numpy. *)
Lemma np_unbound : has_name updates_globals "np" = false.
Proof. reflexivity. Qed.

Lemma np_in_source_reads (kind : string) : In (read_name "np") (source_reads kind).
Proof. simpl. auto. Qed.

(** The electric source step in a scope without [np]: the counter is
    incremented only when there is neither a voltage source nor a Hertzian
    dipole; otherwise the first launch raises and the state is as it
    was. *)
Lemma CUDAUpdates_update_electric_sources_cases (globals : list string)
    (self : CUDAUpdates) (w : World) :
  has_name globals "np" = false ->
  (voltagesources (G w) = [] /\ hertziandipoles (G w) = [] /\
   CUDAUpdates_update_electric_sources globals self w
   = (inr tt, set_G (set_iteration (iteration (G w) + 1) (G w)) w))
  \/ ((voltagesources (G w) <> [] \/ hertziandipoles (G w) <> []) /\
      exists e, CUDAUpdates_update_electric_sources globals self w = (inl e, w)).
Proof.
  intro Hnp.
  unfold CUDAUpdates_update_electric_sources, increment_iteration, when,
    nonempty, bind, gets.
  destruct (voltagesources (G w)) as [|v vs] eqn:Ev.
  - unfold ret. cbv beta iota.
    destruct (hertziandipoles (G w)) as [|h hs] eqn:Eh.
    + left. split; [reflexivity|]. split; reflexivity.
    + right. split; [right; discriminate|].
      destruct (launch_unbound globals self "update_hertzian_dipole_gpu"
                  (source_reads "hertzian")
                  (source_launch "update_hertzian_dipole" (h :: hs) (G w)) w "np"
                  (np_in_source_reads _) Hnp) as [e He].
      rewrite He. eauto.
  - right. split; [left; discriminate|].
    destruct (launch_unbound globals self "update_voltage_source_gpu"
                (source_reads "voltage")
                (source_launch "update_voltage_source" (v :: vs) (G w)) w "np"
                (np_in_source_reads _) Hnp) as [e He].
    rewrite He. eauto.
Qed.

Lemma events_unchanged {A : Type} (m : M World A) (w : World) (r : exn + A) :
  m w = (r, w) -> events m w = [].
Proof.
  intro H. apply events_of_trace. rewrite H. simpl. symmetry. apply app_nil_r.
Qed.

Lemma CUDAUpdates_update_electric_sources_events (self : CUDAUpdates) (w : World) :
  events (CUDAUpdates_update_electric_sources updates_globals self) w = [].
Proof.
  destruct (CUDAUpdates_update_electric_sources_cases updates_globals self w
              np_unbound) as [[_ [_ H]]|[_ [e H]]].
  - apply events_of_trace. rewrite H. simpl. symmetry. apply app_nil_r.
  - eapply events_unchanged. exact H.
Qed.

(** The state after the voltage launch, if there is one, and after the
    Hertzian launch, if there is one. *)
Definition after_voltage_launch (w : World) : World :=
  if nonempty (voltagesources (G w))
  then after (source_launch "update_voltage_source" (voltagesources (G w)) (G w)) w
  else w.

Definition after_hertzian_launch (w : World) : World :=
  if nonempty (hertziandipoles (G w))
  then after (source_launch "update_hertzian_dipole" (hertziandipoles (G w)) (G w)) w
  else w.

(** The two launches can run: the scope binds what they read and the
    object holds the kernels and their arrays. *)
Definition sources_launchable (globals : list string) (self : CUDAUpdates) : bool :=
  launchable globals self "update_voltage_source_gpu" (source_reads "voltage")
  && launchable globals self "update_hertzian_dipole_gpu" (source_reads "hertzian").

(** Then the step returns: the voltage kernel, the Hertzian kernel, then
    the increment. *)
Lemma CUDAUpdates_update_electric_sources_bound (globals : list string)
    (self : CUDAUpdates) (w : World) :
  sources_launchable globals self = true ->
  CUDAUpdates_update_electric_sources globals self w
  = (inr tt,
     let w2 := after_hertzian_launch (after_voltage_launch w) in
     set_G (set_iteration (iteration (G w2) + 1) (G w2)) w2).
Proof.
  intro H. apply andb_prop in H. destruct H as [Hv Hh].
  unfold CUDAUpdates_update_electric_sources, after_hertzian_launch,
    after_voltage_launch, increment_iteration, when, bind, gets.
  destruct (nonempty (voltagesources (G w))).
  - rewrite (launch_bound _ _ _ _ _ _ Hv).
    destruct (nonempty (hertziandipoles (G (after _ w)))).
    + rewrite (launch_bound _ _ _ _ _ _ Hh). reflexivity.
    + reflexivity.
  - unfold ret. cbv beta iota. destruct (nonempty (hertziandipoles (G w))).
    + rewrite (launch_bound _ _ _ _ _ _ Hh). reflexivity.
    + reflexivity.
Qed.

(** The kernels launched by a list of events, in launch order. *)
Definition kernels_launched (evs : list Call) : list string :=
  flat_map (fun c => match c with call_gpu_kernel k _ => [k] | _ => [] end) evs.

(** Whatever the scope binds and the object holds, the step launches the
    voltage kernel at most once, the Hertzian kernel at most once, and
    never the Hertzian kernel before the voltage kernel. *)
Lemma CUDAUpdates_update_electric_sources_launches (globals : list string)
    (self : CUDAUpdates) (w : World) :
  In (kernels_launched
        (events (CUDAUpdates_update_electric_sources globals self) w))
     [[]; ["update_voltage_source"]; ["update_hertzian_dipole"];
      ["update_voltage_source"; "update_hertzian_dipole"]].
Proof.
  set (V := source_launch "update_voltage_source" (voltagesources (G w)) (G w)).
  assert (Hsuffix : forall evs,
            trace (snd (CUDAUpdates_update_electric_sources globals self w))
            = trace w ++ evs ->
            events (CUDAUpdates_update_electric_sources globals self) w = evs).
  { intros evs H. apply events_of_trace. exact H. }
  unfold CUDAUpdates_update_electric_sources, increment_iteration, when, bind,
    gets in *.
  destruct (nonempty (voltagesources (G w))).
  - fold V in Hsuffix |- *.
    destruct (launch_trace globals self "update_voltage_source_gpu"
                (source_reads "voltage") V w) as [[e He]|He];
      rewrite He in *.
    + rewrite (Hsuffix []); [simpl; auto|]. simpl. symmetry. apply app_nil_r.
    + set (H := source_launch "update_hertzian_dipole"
                  (hertziandipoles (G (after V w))) (G (after V w))) in *.
      destruct (nonempty (hertziandipoles (G (after V w)))).
      * destruct (launch_trace globals self "update_hertzian_dipole_gpu"
                    (source_reads "hertzian") H (after V w)) as [[e He']|He'];
          rewrite He' in *.
        -- rewrite (Hsuffix [V]); [simpl; auto|]. reflexivity.
        -- rewrite (Hsuffix [V; H]); [simpl; auto|].
           simpl. rewrite <- app_assoc. reflexivity.
      * rewrite (Hsuffix [V]); [simpl; auto|]. reflexivity.
  - unfold ret in *. cbv beta iota in *.
    set (H := source_launch "update_hertzian_dipole"
                (hertziandipoles (G w)) (G w)) in *.
    destruct (nonempty (hertziandipoles (G w))).
    + destruct (launch_trace globals self "update_hertzian_dipole_gpu"
                  (source_reads "hertzian") H w) as [[e He]|He];
        rewrite He in *.
      * rewrite (Hsuffix []); [simpl; auto|]. simpl. symmetry. apply app_nil_r.
      * rewrite (Hsuffix [H]); [simpl; auto 6|]. reflexivity.
    + rewrite (Hsuffix []); [simpl; auto|]. simpl. symmetry. apply app_nil_r.
Qed.

(** The host backend applies the electric sources in the order: every
    voltage source, then every transmission line, then every Hertzian
    dipole.  The call returns, the sources whose [update_electric] ran are
    exactly [voltagesources + transmissionlines + hertziandipoles] in that
    order, the state is the one obtained by applying the voltage sources,
    then the transmission lines to that result, then the Hertzian dipoles to
    that result, and only then is the counter incremented. *)
Lemma CPUUpdates_update_electric_sources_order (w : World) :
  let vs := voltagesources (G w) in
  let tls := transmissionlines (G w) in
  let hds := hertziandipoles (G w) in
  let apply := apply_sources call_src_update_electric in
  let w1 := apply hds (apply tls (apply vs w)) in
  CPUUpdates_update_electric_sources w
    = (inr tt, set_G (set_iteration (iteration (G w1) + 1) (G w1)) w1)
  /\ electric_sources_updated (events CPUUpdates_update_electric_sources w)
     = vs ++ tls ++ hds.
Proof.
  intros vs tls hds apply w1.
  assert (Hrun := CPUUpdates_update_electric_sources_run w).
  cbv zeta in Hrun. rewrite !apply_sources_app in Hrun.
  split; [exact Hrun|].
  destruct (apply_sources_trace call_src_update_electric (vs ++ tls ++ hds) w)
    as [its [Hlen Htr]].
  rewrite (events_of_trace _ w
             (map (fun p => call_src_update_electric (fst p) (snd p))
                  (combine (vs ++ tls ++ hds) its))).
  - apply electric_sources_updated_map. exact Hlen.
  - rewrite (CPUUpdates_update_electric_sources_run w). cbv zeta. simpl.
    exact Htr.
Qed.

(** The launches of the accelerator method in a scope that binds every name
    they read: the kernel of the voltage sources, if there is one, on the
    grid as found; then the kernel of the Hertzian dipoles, if there is one,
    on the grid the first launch left. *)
Definition source_launches (w : World) : list Call :=
  (if nonempty (voltagesources (G w))
   then [source_launch "update_voltage_source" (voltagesources (G w)) (G w)]
   else [])
  ++ (let w' := after_voltage_launch w in
      if nonempty (hertziandipoles (G w'))
      then [source_launch "update_hertzian_dipole" (hertziandipoles (G w'))
              (G w')]
      else []).

Lemma CUDAUpdates_update_electric_sources_applied (globals : list string)
    (self : CUDAUpdates) (w : World) :
  sources_launchable globals self = true ->
  events (CUDAUpdates_update_electric_sources globals self) w
  = source_launches w.
Proof.
  intro H. apply events_of_trace.
  rewrite (CUDAUpdates_update_electric_sources_bound globals self w H).
  unfold source_launches, after_hertzian_launch, after_voltage_launch.
  cbv zeta. cbn [snd].
  destruct (nonempty (voltagesources (G w))).
  - destruct (nonempty (hertziandipoles (G (after _ w)))); simpl.
    + rewrite <- app_assoc. reflexivity.
    + reflexivity.
  - destruct (nonempty (hertziandipoles (G w))); simpl.
    + reflexivity.
    + symmetry. apply app_nil_r.
Qed.

(** ** The two phases of the electric update on the host backend *)

Lemma events_after {A : Type} (m : M World A) (c : Call) (w : World) (r : exn + A) :
  m w = (r, after c w) -> events m w = [c].
Proof. intro H. apply events_of_trace. rewrite H. reflexivity. Qed.

(** C2. On the host backend, phase A performs the standard update exactly
    when the maximum pole count is zero and otherwise calls only the first
    half (the function named [..._A_...]) of the dispersive update; phase B
    calls the second half (the function named [..._B_...]) exactly when the
    maximum pole count is not zero, and otherwise leaves the whole state as
    it was.  The dispersive functions are the ones [set_dispersive_updates]
    binds; with a zero pole count the statement holds for any updater. *)
Theorem update_electric_phases (self : CPUUpdates) (props : Props) (w : World) :
  let ready := CPUUpdates_set_dispersive_updates props self in
  let name := fun part => update_f (props_poles props) part
                            (props_precision props) (props_dispersion_type props) in
  let mp := config_maxpoles w in
  (mp = 0 ->
     CPUUpdates_update_electric_a self w = (inr tt, after call_update_electric w)
     /\ CPUUpdates_update_electric_b self w = (inr tt, w))
  /\ (mp <> 0 ->
     CPUUpdates_update_electric_a ready w
       = (inr tt, after (call_dispersive_update (name "A") mp) w)
     /\ CPUUpdates_update_electric_b ready w
       = (inr tt, after (call_dispersive_update (name "B") mp) w))
  /\ (events (CPUUpdates_update_electric_a ready) w = [call_update_electric]
      <-> mp = 0)
  /\ (events (CPUUpdates_update_electric_a ready) w
        = [call_dispersive_update (name "A") mp] <-> mp <> 0)
  /\ (events (CPUUpdates_update_electric_b ready) w
        = [call_dispersive_update (name "B") mp] <-> mp <> 0)
  /\ (events (CPUUpdates_update_electric_b ready) w = [] <-> mp = 0).
Proof.
  intros ready name mp.
  assert (Hzero : mp = 0 ->
            (forall u, CPUUpdates_update_electric_a u w
                       = (inr tt, after call_update_electric w))
            /\ (forall u, CPUUpdates_update_electric_b u w = (inr tt, w))).
  { intro H. unfold mp in H.
    split; intro u;
      unfold CPUUpdates_update_electric_a, CPUUpdates_update_electric_b,
        bind, gets, call, modify, ret;
      rewrite H; reflexivity. }
  assert (Hpoles : mp <> 0 ->
            CPUUpdates_update_electric_a ready w
              = (inr tt, after (call_dispersive_update (name "A") mp) w)
            /\ CPUUpdates_update_electric_b ready w
              = (inr tt, after (call_dispersive_update (name "B") mp) w)).
  { intro H. apply Z.eqb_neq in H. unfold mp in H.
    split;
      unfold CPUUpdates_update_electric_a, CPUUpdates_update_electric_b,
        bind, gets, call, modify, ret;
      rewrite H; reflexivity. }
  split; [intro H; destruct (Hzero H) as [Ha Hb]; split; [apply Ha|apply Hb]|].
  split; [exact Hpoles|].
  destruct (Z.eq_dec mp 0) as [E|E].
  - destruct (Hzero E) as [Ha Hb].
    rewrite (events_after _ _ _ _ (Ha ready)).
    rewrite (events_unchanged _ _ _ (Hb ready)).
    repeat split; intros; try congruence; try discriminate.
  - destruct (Hpoles E) as [Ha Hb].
    rewrite (events_after _ _ _ _ Ha), (events_after _ _ _ _ Hb).
    repeat split; intros; try congruence; try discriminate.
Qed.

(** ** The iteration counter on the host backend *)

Section Frame.

(** The code outside the two files leaves the counter alone. *)
Hypothesis run_keeps_iteration : forall c g, iteration (run c g) = iteration g.

Lemma after_iteration (c : Call) (w : World) :
  iteration (G (after c w)) = iteration (G w).
Proof. apply run_keeps_iteration. Qed.

Lemma apply_sources_iteration mk (l : list Source) (w : World) :
  iteration (G (apply_sources mk l w)) = iteration (G w).
Proof.
  unfold apply_sources. revert w. induction l as [|s l IH]; intro w; simpl.
  - reflexivity.
  - rewrite IH. apply after_iteration.
Qed.

Lemma apply_sources_maxpoles mk (l : list Source) (w : World) :
  config_maxpoles (apply_sources mk l w) = config_maxpoles w.
Proof.
  unfold apply_sources. revert w. induction l as [|s l IH]; intro w; simpl.
  - reflexivity.
  - rewrite IH. reflexivity.
Qed.

(** One call on the host backend returns and adds exactly one. *)
Lemma CPUUpdates_update_electric_sources_increments (w : World) :
  fst (CPUUpdates_update_electric_sources w) = inr tt
  /\ iteration (G (snd (CPUUpdates_update_electric_sources w)))
     = iteration (G w) + 1.
Proof.
  rewrite CPUUpdates_update_electric_sources_run. cbv zeta. simpl.
  split; [reflexivity|]. now rewrite apply_sources_iteration.
Qed.

(** So does one call on the accelerator backend when its two launches can
    run. *)
Lemma CUDAUpdates_update_electric_sources_increments (globals : list string)
    (self : CUDAUpdates) (w : World) :
  sources_launchable globals self = true ->
  fst (CUDAUpdates_update_electric_sources globals self w) = inr tt
  /\ iteration (G (snd (CUDAUpdates_update_electric_sources globals self w)))
     = iteration (G w) + 1.
Proof.
  intro H. rewrite (CUDAUpdates_update_electric_sources_bound _ _ _ H).
  cbv zeta. simpl. split; [reflexivity|].
  unfold after_hertzian_launch, after_voltage_launch.
  destruct (nonempty (voltagesources (G w)));
    destruct (nonempty (hertziandipoles _));
    rewrite ?after_iteration; reflexivity.
Qed.

(** Every source is handed the counter as it stood before the call: the
    increment comes after the last contribution. *)
Lemma apply_sources_events mk (l : list Source) (w : World) :
  trace (apply_sources mk l w)
  = trace w ++ map (fun s => mk s (iteration (G w))) l.
Proof.
  unfold apply_sources. revert w. induction l as [|s l IH]; intro w; simpl.
  - symmetry. apply app_nil_r.
  - rewrite IH. unfold sources_step. rewrite after_iteration.
    simpl. rewrite <- app_assoc. reflexivity.
Qed.

Lemma CPUUpdates_update_electric_sources_counter_seen (w : World) :
  events CPUUpdates_update_electric_sources w
  = map (fun s => call_src_update_electric s (iteration (G w)))
        (voltagesources (G w) ++ transmissionlines (G w) ++ hertziandipoles (G w)).
Proof.
  apply events_of_trace. rewrite CPUUpdates_update_electric_sources_run.
  cbv zeta. simpl. apply apply_sources_events.
Qed.

(** What a step does to the counter: it returns, adds [k] to the counter and
    leaves the pole count of the configuration alone. *)
Definition advances (k : Z) (w : World) (r : (exn + unit) * World) : Prop :=
  fst r = inr tt
  /\ iteration (G (snd r)) = iteration (G w) + k
  /\ config_maxpoles (snd r) = config_maxpoles w.

Lemma advances_call (c : Call) (w : World) : advances 0 w (call c w).
Proof.
  unfold advances, call, modify. simpl.
  rewrite run_keeps_iteration. repeat split. lia.
Qed.

Lemma advances_bind (j k : Z) (m1 m2 : py unit) (w : World) :
  advances j w (m1 w) ->
  (forall w1, advances k w1 (m2 w1)) ->
  advances (j + k) w ((m1 ;; m2) w).
Proof.
  unfold advances, bind. intros [H1 [H2 H3]] Hk.
  destruct (m1 w) as [[e|[]] w1]; simpl in *; [discriminate|].
  destruct (Hk w1) as [K1 [K2 K3]]. repeat split; auto; try congruence. lia.
Qed.

Lemma advances_for_each {A : Type} (l : list A) (body : A -> py unit) :
  (forall x w, advances 0 w (body x w)) ->
  forall w, advances 0 w (for_each l body w).
Proof.
  intros Hbody. induction l as [|x l IH]; intro w; simpl.
  - unfold advances, ret. simpl. repeat split. lia.
  - change 0 with (0 + 0). apply advances_bind; auto.
Qed.

(** What each of the nine operations of the host backend adds to the
    counter. *)
Definition counts (op : Operation) : Z :=
  match op with update_electric_sources => 1 | _ => 0 end.

(** The electric phases can run: no material is dispersive, or the
    dispersive functions are bound. *)
Definition usable (self : CPUUpdates) (w : World) : Prop :=
  config_maxpoles w = 0
  \/ (dispersive_update_a self <> None /\ dispersive_update_b self <> None).

Lemma host_operation_counter (self : CPUUpdates) (op : Operation) (w : World) :
  usable self w -> advances (counts op) w (perform (Host self) op w).
Proof.
  intro U. destruct op; simpl.
  - apply advances_call.
  - unfold CPUUpdates_update_magnetic_pml, bind, gets.
    apply advances_for_each. intros. apply advances_call.
  - unfold CPUUpdates_update_magnetic_sources, bind, gets.
    apply advances_for_each. intros. apply advances_call.
  - unfold CPUUpdates_update_electric_a, bind, gets.
    destruct (config_maxpoles w =? 0) eqn:E; [apply advances_call|].
    destruct U as [U|[U _]]; [apply Z.eqb_neq in E; contradiction|].
    destruct (dispersive_update_a self); [apply advances_call|congruence].
  - unfold CPUUpdates_update_electric_pml, bind, gets.
    apply advances_for_each. intros. apply advances_call.
  - destruct (CPUUpdates_update_electric_sources_increments w) as [H1 H2].
    repeat split; auto.
    rewrite CPUUpdates_update_electric_sources_run. cbv zeta. simpl.
    apply apply_sources_maxpoles.
  - unfold CPUUpdates_update_electric_b, bind, gets.
    destruct (config_maxpoles w =? 0) eqn:E; simpl.
    + unfold advances, ret. simpl. repeat split. lia.
    + destruct U as [U|[_ U]]; [apply Z.eqb_neq in E; contradiction|].
      destruct (dispersive_update_b self); [apply advances_call|congruence].
  - apply advances_call.
  - unfold CPUUpdates_store_snapshots, bind, gets.
    apply advances_for_each. intros p w0. unfold when.
    destruct (snap_time (snd p) =? it + 1); [apply advances_call|].
    unfold advances, ret. simpl. repeat split. lia.
Qed.

Lemma for_each_keeps_counter {A : Type} (l : list A) (body : A -> py unit) :
  (forall x s, iteration (G (snd (body x s))) = iteration (G s)) ->
  forall w, iteration (G (snd (for_each l body w))) = iteration (G w).
Proof.
  intros Hbody w.
  apply (for_each_invariant (fun s => iteration (G s) = iteration (G w))).
  - intros x s Hs. rewrite Hbody. exact Hs.
  - reflexivity.
Qed.

(** The other eight operations leave the counter as it is, whether they
    return or raise. *)
Lemma host_other_operations_keep_counter (self : CPUUpdates) (op : Operation)
    (w : World) :
  op <> update_electric_sources ->
  iteration (G (snd (perform (Host self) op w))) = iteration (G w).
Proof.
  intro Hop. destruct op; cbn [perform]; try (exfalso; apply Hop; reflexivity).
  - apply after_iteration.
  - unfold CPUUpdates_update_magnetic_pml, bind, gets.
    apply for_each_keeps_counter. intros. apply after_iteration.
  - unfold CPUUpdates_update_magnetic_sources, bind, gets.
    apply for_each_keeps_counter. intros. apply after_iteration.
  - unfold CPUUpdates_update_electric_a, bind, gets.
    destruct (config_maxpoles w =? 0); [apply after_iteration|].
    destruct (dispersive_update_a self); [apply after_iteration|reflexivity].
  - unfold CPUUpdates_update_electric_pml, bind, gets.
    apply for_each_keeps_counter. intros. apply after_iteration.
  - unfold CPUUpdates_update_electric_b, bind, gets.
    destruct (config_maxpoles w =? 0); [reflexivity|].
    destruct (dispersive_update_b self); [apply after_iteration|reflexivity].
  - apply after_iteration.
  - unfold CPUUpdates_store_snapshots, bind, gets.
    apply for_each_keeps_counter. intros p s. unfold when.
    destruct (snap_time (snd p) =? it + 1); [apply after_iteration|reflexivity].
Qed.

(** A run of operations adds one per electric source step. *)
Lemma host_operations_counter (self : CPUUpdates) (ops : list Operation)
    (w : World) :
  usable self w ->
  advances (fold_right Z.add 0 (map counts ops)) w
    (for_each ops (perform (Host self)) w).
Proof.
  revert w. induction ops as [|op ops IH]; intros w U;
    cbn [for_each map fold_right].
  - unfold advances, ret. simpl. repeat split. lia.
  - destruct (host_operation_counter self op w U) as [H1 [H2 H3]].
    unfold advances, bind.
    destruct (perform (Host self) op w) as [[e|[]] w1]; cbn [fst snd] in *;
      [discriminate|].
    assert (U1 : usable self w1).
    { unfold usable in *. rewrite H3. exact U. }
    destruct (IH w1 U1) as [K1 [K2 K3]].
    repeat split; [exact K1 | rewrite K2, H2; lia | congruence].
Qed.

Lemma counts_solve (n : nat) :
  fold_right Z.add 0
    (map counts (flat_map iteration_phases (map Z.of_nat (seq 0 n))))
  = Z.of_nat n.
Proof.
  generalize 0%nat. induction n as [|n IH]; intro a.
  - reflexivity.
  - change (seq a (S n)) with (a :: seq (S a) n).
    cbn [map flat_map iteration_phases app counts fold_right].
    rewrite IH. lia.
Qed.

(** After [n] iterations of the loop on the host backend the counter has
    grown by [n]: from 0 it reads [n]. *)
Lemma host_solve_counter (self : CPUUpdates) (n : nat) (w : World) :
  usable self w ->
  fst (solve (Host self) n w) = inr tt
  /\ iteration (G (snd (solve (Host self) n w))) = iteration (G w) + Z.of_nat n.
Proof.
  intro U. unfold solve.
  destruct (host_operations_counter self
              (flat_map iteration_phases (map Z.of_nat (seq 0 n))) w U)
    as [H1 [H2 _]].
  rewrite counts_solve in H2. auto.
Qed.

End Frame.

(** ** Snapshots *)

Lemma call_run (c : Call) (w : World) : call c w = (inr tt, after c w).
Proof. reflexivity. Qed.

Lemma in_combine_seq {A : Type} (l : list A) (a i : nat) (x : A) :
  In (i, x) (combine (seq a (List.length l)) l)
  <-> (a <= i)%nat /\ nth_error l (i - a) = Some x.
Proof.
  revert a. induction l as [|y l IH]; intro a; simpl.
  - split; [tauto|]. intros [_ H]. destruct (i - a)%nat; discriminate.
  - rewrite IH. split.
    + intros [H|[H1 H2]].
      * injection H as -> ->. rewrite Nat.sub_diag. split; [lia|reflexivity].
      * split; [lia|]. replace (i - a)%nat with (S (i - S a)) by lia. exact H2.
    + intros [H1 H2]. destruct (Nat.eq_dec a i) as [->|Hne].
      * left. rewrite Nat.sub_diag in H2. simpl in H2. congruence.
      * right. split; [lia|].
        replace (i - a)%nat with (S (i - S a)) in H2 by lia. exact H2.
Qed.

Lemma in_enumerate {A : Type} (l : list A) (i : nat) (x : A) :
  In (i, x) (enumerate l) <-> nth_error l i = Some x.
Proof.
  unfold enumerate. rewrite in_combine_seq, Nat.sub_0_r.
  split; [tauto|]. intro H. split; [lia|exact H].
Qed.

Lemma enumerate_indices {A : Type} (l : list A) :
  map fst (enumerate l) = seq 0 (List.length l).
Proof.
  unfold enumerate. generalize 0%nat.
  induction l as [|x l IH]; intro a; simpl; [reflexivity|]. now rewrite IH.
Qed.

(** Keeping some of the numbered snapshots keeps their positions distinct. *)
Lemma kept_positions_distinct (keep : nat * SnapshotUser -> bool)
    (numbered : list (nat * SnapshotUser)) :
  NoDup (map fst numbered) -> NoDup (map fst (filter keep numbered)).
Proof.
  induction numbered as [|p ps IH]; simpl; intro Hdistinct.
  - constructor.
  - apply NoDup_cons_iff in Hdistinct. destruct Hdistinct as [Hfresh Hrest].
    destruct (keep p); simpl; [|auto].
    constructor; [|auto].
    rewrite in_map_iff. intros [q [Hq Hin]].
    apply filter_In in Hin. apply Hfresh.
    rewrite in_map_iff. exists q. tauto.
Qed.

(** The snapshots one call on the host backend stores, in order. *)
Definition due (it : Z) (snaps : list SnapshotUser) : list (nat * SnapshotUser) :=
  filter (fun p => snap_time (snd p) =? it + 1) (enumerate snaps).

Lemma CPUUpdates_store_snapshots_events (it : Z) (w : World) :
  fst (CPUUpdates_store_snapshots it w) = inr tt
  /\ events (CPUUpdates_store_snapshots it) w
     = map (fun p => call_snap_store (fst p) (snd p)) (due it (snapshots (G w))).
Proof.
  unfold due, CPUUpdates_store_snapshots.
  unfold bind at 1 2. unfold gets at 1 2. cbv beta iota.
  set (body := fun p : nat * SnapshotUser =>
                 when (snap_time (snd p) =? it + 1)
                      (call (call_snap_store (fst p) (snd p)))).
  assert (H : forall l w0,
    fst (for_each l body w0) = inr tt
    /\ trace (snd (for_each l body w0))
       = trace w0 ++ map (fun p => call_snap_store (fst p) (snd p))
                     (filter (fun p => snap_time (snd p) =? it + 1) l)).
  { induction l as [|p l IH]; intro w0; simpl.
    - split; [reflexivity|]. symmetry. apply app_nil_r.
    - unfold bind.
      assert (Hb : body p w0
                   = (inr tt, if snap_time (snd p) =? it + 1
                              then after (call_snap_store (fst p) (snd p)) w0
                              else w0)).
      { unfold body, when. destruct (snap_time (snd p) =? it + 1); reflexivity. }
      rewrite Hb. destruct (snap_time (snd p) =? it + 1).
      + destruct (IH (after (call_snap_store (fst p) (snd p)) w0)) as [H1 H2].
        split; [exact H1|]. rewrite H2. simpl. rewrite <- app_assoc. reflexivity.
      + apply IH. }
  destruct (H (enumerate (snapshots (G w))) w) as [H1 H2].
  split; [exact H1|].
  unfold events. cbv beta iota.
  rewrite H2. apply skipn_length_app.
Qed.

(** On the host backend [store_snapshots(it)] stores the snapshot at position
    [i] exactly when its target iteration number is [it + 1]. *)
Lemma CPUUpdates_store_snapshots_exactly (it : Z) (w : World) (i : nat)
    (s : SnapshotUser) :
  In (call_snap_store i s) (events (CPUUpdates_store_snapshots it) w)
  <-> nth_error (snapshots (G w)) i = Some s /\ snap_time s = it + 1.
Proof.
  destruct (CPUUpdates_store_snapshots_events it w) as [_ ->].
  rewrite in_map_iff. unfold due. split.
  - intros [[j t] [Heq Hin]]. simpl in Heq. injection Heq as -> ->.
    apply filter_In in Hin. destruct Hin as [Hin Ht]. simpl in Ht.
    apply in_enumerate in Hin. apply Z.eqb_eq in Ht. tauto.
  - intros [Hn Ht]. exists (i, s). split; [reflexivity|].
    apply filter_In. split; [apply in_enumerate; exact Hn|].
    simpl. apply Z.eqb_eq. exact Ht.
Qed.

(** The positions stored by a list of events. *)
Definition stored (evs : list Call) : list nat :=
  flat_map (fun c => match c with call_snap_store i _ => [i] | _ => [] end) evs.

(** No snapshot is stored twice by one call, and none by two calls with
    different loop indices. *)
Lemma CPUUpdates_store_snapshots_once (it : Z) (w : World) :
  NoDup (stored (events (CPUUpdates_store_snapshots it) w)).
Proof.
  destruct (CPUUpdates_store_snapshots_events it w) as [_ ->].
  assert (E : forall l : list (nat * SnapshotUser),
             stored (map (fun p => call_snap_store (fst p) (snd p)) l) = map fst l).
  { induction l as [|p l IH]; simpl; [reflexivity|]. now rewrite IH. }
  rewrite E. unfold due. apply kept_positions_distinct.
  rewrite enumerate_indices. apply seq_NoDup.
Qed.

Lemma CPUUpdates_store_snapshots_not_again (it1 it2 : Z) (w1 w2 : World) (i : nat)
    (s : SnapshotUser) :
  In (call_snap_store i s) (events (CPUUpdates_store_snapshots it1) w1) ->
  In (call_snap_store i s) (events (CPUUpdates_store_snapshots it2) w2) ->
  it1 = it2.
Proof.
  rewrite !CPUUpdates_store_snapshots_exactly. intros [_ H1] [_ H2]. lia.
Qed.

(** On the accelerator backend, in a scope without [np], the launch of the
    store kernel raises before the kernel runs: a snapshot that is due is
    never stored. *)
Lemma for_each_same_state {A : Type} (l : list A) (body : A -> py unit) (w : World) :
  (forall x, In x l -> snd (body x w) = w) ->
  snd (for_each l body w) = w
  /\ ((exists x, In x l /\ exists e, fst (body x w) = inl e)
      <-> exists e, fst (for_each l body w) = inl e).
Proof.
  induction l as [|x l IH]; intro H; simpl.
  - split; [reflexivity|]. split; [intros [x [[] _]]|intros [e He]; discriminate].
  - assert (Hx := H x (or_introl eq_refl)).
    destruct IH as [IH1 IH2]; [intros y Hy; apply H; right; exact Hy|].
    unfold bind. destruct (body x w) as [[e|[]] w1] eqn:E; simpl in *; subst w1.
    + split; [reflexivity|]. split; [intros _; exists e; reflexivity|].
      intros _. exists x. split; [auto|]. rewrite E. exists e. reflexivity.
    + split; [exact IH1|]. rewrite <- IH2. split.
      * intros [y [[->|Hy] [e He]]]; [rewrite E in He; discriminate|eauto].
      * intros [y [Hy He]]. eauto.
Qed.

(** What [store_snapshots] does for one snapshot. *)
Definition store_snapshot_step (globals : list string) (self : CUDAUpdates)
    (it : Z) (p : nat * SnapshotUser) : py unit :=
  when (snap_time (snd p) =? it + 1)
    (g <- gets G ;;
     let snapno := if snapsgpu2cpu g then 0%nat else fst p in
     launch globals self "store_snapshot_gpu" store_snapshot_reads
       (call_gpu_store_snapshot (fst p) snapno) ;;
     g <- gets G ;;
     when (snapsgpu2cpu g)
       (method_name globals "gpu_get_snapshot_array" ;;
        call (call_gpu_get_snapshot_array (fst p)))).

Lemma CUDAUpdates_store_snapshots_loop (globals : list string)
    (self : CUDAUpdates) (it : Z) (w : World) :
  CUDAUpdates_store_snapshots globals self it w
  = for_each (enumerate (snapshots (G w))) (store_snapshot_step globals self it) w.
Proof. reflexivity. Qed.

Lemma np_in_store_snapshot_reads : In (read_name "np") store_snapshot_reads.
Proof. simpl. auto. Qed.

Lemma store_snapshot_step_unbound (globals : list string) (self : CUDAUpdates)
    (it : Z) (p : nat * SnapshotUser) (w : World) :
  has_name globals "np" = false ->
  snd (store_snapshot_step globals self it p w) = w
  /\ ((exists e, fst (store_snapshot_step globals self it p w) = inl e)
      <-> snap_time (snd p) = it + 1).
Proof.
  intro Hnp. unfold store_snapshot_step, when, bind, gets.
  destruct (snap_time (snd p) =? it + 1) eqn:E.
  - apply Z.eqb_eq in E.
    match goal with
    | |- context [launch globals self "store_snapshot_gpu"
                    store_snapshot_reads ?c w] =>
        destruct (launch_unbound globals self "store_snapshot_gpu"
                    store_snapshot_reads c w "np"
                    np_in_store_snapshot_reads Hnp) as [e He]; rewrite He
    end.
    simpl. split; [reflexivity|]. split; eauto.
  - apply Z.eqb_neq in E. simpl. split; [reflexivity|].
    split; [intros [e He]; discriminate|contradiction].
Qed.

Lemma CUDAUpdates_store_snapshots_unbound (globals : list string)
    (self : CUDAUpdates) (it : Z) (w : World) :
  has_name globals "np" = false ->
  snd (CUDAUpdates_store_snapshots globals self it w) = w
  /\ events (CUDAUpdates_store_snapshots globals self it) w = []
  /\ ((exists i s, nth_error (snapshots (G w)) i = Some s /\ snap_time s = it + 1)
      <-> exists e, fst (CUDAUpdates_store_snapshots globals self it w) = inl e).
Proof.
  intro Hnp. rewrite CUDAUpdates_store_snapshots_loop.
  destruct (for_each_same_state (enumerate (snapshots (G w)))
              (store_snapshot_step globals self it) w) as [H1 H2].
  { intros p _. apply (store_snapshot_step_unbound globals self it p w Hnp). }
  split; [exact H1|]. split.
  - apply events_of_trace. rewrite CUDAUpdates_store_snapshots_loop, H1.
    symmetry. apply app_nil_r.
  - rewrite <- H2. split.
    + intros [i [s [Hn Ht]]]. exists (i, s). split; [apply in_enumerate; exact Hn|].
      apply (store_snapshot_step_unbound globals self it (i, s) w Hnp). exact Ht.
    + intros [[i s] [Hin He]]. exists i, s. split; [apply in_enumerate; exact Hin|].
      apply (store_snapshot_step_unbound globals self it (i, s) w Hnp) in He.
      exact He.
Qed.

(** The module as it stands. *)
Lemma CUDAUpdates_store_snapshots_never (self : CUDAUpdates) (it : Z) (w : World) :
  snd (CUDAUpdates_store_snapshots updates_globals self it w) = w
  /\ events (CUDAUpdates_store_snapshots updates_globals self it) w = []
  /\ ((exists i s, nth_error (snapshots (G w)) i = Some s /\ snap_time s = it + 1)
      <-> exists e,
            fst (CUDAUpdates_store_snapshots updates_globals self it w) = inl e).
Proof. apply CUDAUpdates_store_snapshots_unbound. reflexivity. Qed.

(** The positions whose store kernel was launched, in launch order. *)
Definition gpu_stored (evs : list Call) : list nat :=
  flat_map (fun c => match c with
                     | call_gpu_store_snapshot i _ => [i]
                     | _ => []
                     end) evs.

Lemma gpu_stored_app (l1 l2 : list Call) :
  gpu_stored (l1 ++ l2) = gpu_stored l1 ++ gpu_stored l2.
Proof. apply flat_map_app. Qed.

(** When the launch can run (the scope binds what it reads, the object
    holds the kernel and its buffers), the call returns and launches the
    store kernel for the snapshots that are due, each once, in order. *)
Lemma store_snapshot_step_bound (globals : list string) (self : CUDAUpdates)
    (it : Z) (p : nat * SnapshotUser) (w : World) :
  launchable globals self "store_snapshot_gpu" store_snapshot_reads = true ->
  has_name globals "gpu_get_snapshot_array" = true ->
  exists evs,
    fst (store_snapshot_step globals self it p w) = inr tt
    /\ trace (snd (store_snapshot_step globals self it p w)) = trace w ++ evs
    /\ gpu_stored evs = if snap_time (snd p) =? it + 1 then [fst p] else [].
Proof.
  intros Hreads Hget. unfold store_snapshot_step, when, bind, gets.
  destruct (snap_time (snd p) =? it + 1).
  - rewrite (launch_bound _ _ _ _ _ _ Hreads).
    set (w1 := after _ w).
    destruct (snapsgpu2cpu (G w1)).
    + unfold method_name, lookup_name. unfold has_name in Hget. rewrite Hget.
      eexists. split; [reflexivity|]. split.
      * simpl. rewrite <- app_assoc. reflexivity.
      * reflexivity.
    + eexists. split; [reflexivity|]. split; reflexivity.
  - exists []. split; [reflexivity|]. split; [|reflexivity].
    simpl. symmetry. apply app_nil_r.
Qed.

Lemma CUDAUpdates_store_snapshots_bound (globals : list string)
    (self : CUDAUpdates) (it : Z) (w : World) :
  launchable globals self "store_snapshot_gpu" store_snapshot_reads = true ->
  has_name globals "gpu_get_snapshot_array" = true ->
  fst (CUDAUpdates_store_snapshots globals self it w) = inr tt
  /\ gpu_stored (events (CUDAUpdates_store_snapshots globals self it) w)
     = map fst (due it (snapshots (G w))).
Proof.
  intros Hreads Hget.
  assert (H : forall l w0, exists evs,
    fst (for_each l (store_snapshot_step globals self it) w0) = inr tt
    /\ trace (snd (for_each l (store_snapshot_step globals self it) w0))
       = trace w0 ++ evs
    /\ gpu_stored evs
       = map fst (filter (fun p => snap_time (snd p) =? it + 1) l)).
  { induction l as [|p l IH]; intro w0; simpl.
    - exists []. split; [reflexivity|]. split; [|reflexivity].
      symmetry. apply app_nil_r.
    - destruct (store_snapshot_step_bound globals self it p w0 Hreads Hget)
        as [evs [H1 [H2 H3]]].
      unfold bind.
      destruct (store_snapshot_step globals self it p w0) as [[e|[]] w1];
        simpl in H1, H2; [discriminate|].
      destruct (IH w1) as [evs' [K1 [K2 K3]]].
      exists (evs ++ evs'). split; [exact K1|]. split.
      + rewrite K2, H2. symmetry. apply app_assoc.
      + rewrite gpu_stored_app, H3, K3.
        destruct (snap_time (snd p) =? it + 1); reflexivity. }
  rewrite CUDAUpdates_store_snapshots_loop.
  destruct (H (enumerate (snapshots (G w))) w) as [evs [H1 [H2 H3]]].
  split; [exact H1|].
  rewrite (events_of_trace _ w evs).
  - exact H3.
  - rewrite CUDAUpdates_store_snapshots_loop. exact H2.
Qed.

(** ** Initialising the accelerator backend *)

(** The driver calls before the context is created all return. *)
Definition driver_ready (env : CudaEnv) (w : World) : Prop :=
  import_pycuda env = None /\ drv_init env = None /\
  exists d, gpu (G w) = Some d /\ drv_Device env (deviceID d) = None.

Lemma CUDAUpdates_init_raises (env : CudaEnv) (w : World) :
  exists e w', CUDAUpdates_init updates_globals env w = (inl e, w') /\ G w' = G w
               /\ (driver_ready env w -> e = NameError "dev").
Proof.
  unfold CUDAUpdates_init, grid_gpu, driver_ready, attempt, bind, gets.
  destruct (import_pycuda env) as [e1|].
  { exists e1, w. split; [reflexivity|]. split; [reflexivity|].
    intros [H _]. discriminate. }
  destruct (drv_init env) as [e2|].
  { exists e2, w. split; [reflexivity|]. split; [reflexivity|].
    intros [_ [H _]]. discriminate. }
  simpl. destruct (gpu (G w)) as [d|] eqn:Eg.
  - simpl. destruct (drv_Device env (deviceID d)) as [e3|] eqn:Ed.
    + eexists. eexists. split; [reflexivity|]. split; [reflexivity|].
      intros [_ [_ [d' [Hd' Hdev]]]]. congruence.
    + simpl. eexists. eexists. split; [reflexivity|]. split; [reflexivity|].
      reflexivity.
  - simpl. eexists. eexists. split; [reflexivity|]. split; [reflexivity|].
    intros [_ [_ [d' [Hd' _]]]]. discriminate.
Qed.

(** C10, as amended.  For every grid and whatever the driver does,
    constructing the accelerator backend raises, so the constructor returns
    no object; and when the steps before the context is created go through
    (the driver imports and initialises, the grid has a device and the
    driver finds it), the exception is the [NameError] of the unbound name
    [dev].  The grid is as it was. *)
Theorem CUDAUpdates_init_never_returns (env : CudaEnv) (w : World) :
  (forall self w', CUDAUpdates_init updates_globals env w <> (inr self, w'))
  /\ G (snd (CUDAUpdates_init updates_globals env w)) = G w
  /\ (driver_ready env w ->
      fst (CUDAUpdates_init updates_globals env w) = inl (NameError "dev")).
Proof.
  destruct (CUDAUpdates_init_raises env w) as [e [w' [H [HG Hdev]]]].
  split; [|split].
  - intros self w'' Habs. rewrite H in Habs. discriminate.
  - rewrite H. exact HG.
  - intro Hready. rewrite H, (Hdev Hready). reflexivity.
Qed.

(** In the module as it stands [set_field_kernels] reads [SourceModule]
    before anything else: the name is a local of [__init__], unbound here.
    The test of the coefficient tables against the constant memory is never
    reached. *)
Lemma CUDAUpdates_set_field_kernels_raises (self : CUDAUpdates) (w : World) :
  CUDAUpdates_set_field_kernels updates_globals self w
  = (inl (NameError "SourceModule"), w).
Proof. reflexivity. Qed.

(** The two coefficient tables exceed the constant memory of the device. *)
Definition over_budget (g : FDTDGrid) : bool :=
  match gpu g with
  | Some d => updatecoeffsE_nbytes g + updatecoeffsH_nbytes g >? constmem d
  | None => false
  end.

(** The names read on the way to the capacity error. *)
Definition capacity_check_names : list string :=
  ["log"; "sys"; "dev"; "SourceModule"; "kernels_template_fields";
   "cudafloattype"; "cudacomplextype"; "GeneralError"; "human_size"].

(** The test as written, in a scope that binds the names it reads: a grid
    whose two coefficient tables exceed the constant memory is rejected with
    the capacity error before [copy_mat_coeffs] and before any array of the
    grid is initialised on the device. *)
Lemma CUDAUpdates_set_field_kernels_rejects (globals : list string)
    (self : CUDAUpdates) (w : World) :
  (forall n, In n capacity_check_names -> mem n globals = true) ->
  has_attr self "compiler_opts" = true ->
  over_budget (G w) = true ->
  exists w',
    CUDAUpdates_set_field_kernels globals self w
    = (inl (GeneralError
              "Too many materials in the model to fit onto constant memory"),
       w')
    /\ G w' = G w.
Proof.
  intros Hnames Hattr Hover.
  unfold CUDAUpdates_set_field_kernels, over_budget, grid_gpu, getattr_self,
    method_name, lookup_name, bind, gets in *.
  rewrite !Hnames by (simpl; tauto). rewrite Hattr. simpl.
  destruct (gpu (G w)) as [d|]; [|discriminate]. simpl.
  rewrite Hover. simpl. eexists. split; reflexivity.
Qed.

(** So would the constructor, in such a scope, once the driver is ready:
    the capacity error, and the grid as it was. *)
Lemma CUDAUpdates_init_rejects (globals : list string) (env : CudaEnv)
    (w : World) :
  (forall n, In n capacity_check_names -> mem n globals = true) ->
  driver_ready env w ->
  over_budget (G w) = true ->
  fst (CUDAUpdates_init globals env w)
  = inl (GeneralError
           "Too many materials in the model to fit onto constant memory")
  /\ G (snd (CUDAUpdates_init globals env w)) = G w.
Proof.
  intros Hnames [Himp [Hinit [d [Hd Hdev]]]] Hover.
  unfold CUDAUpdates_init, init_name, grid_gpu, attempt, lookup_name, bind, gets.
  rewrite Himp, Hinit. simpl.
  rewrite !Hnames by (simpl; tauto). simpl.
  rewrite Hd. simpl. rewrite Hdev. simpl.
  match goal with
  | |- context [CUDAUpdates_set_field_kernels globals ?self ?w0] =>
      destruct (CUDAUpdates_set_field_kernels_rejects globals self w0 Hnames)
        as [w' [Hrun HG]]; [reflexivity|exact Hover|]; rewrite Hrun
  end.
  split; [reflexivity|exact HG].
Qed.

(** ** Snapshot creation *)

Definition valid_snapshot (g : FDTDGrid) (s : SnapshotUser) : Prop :=
  0 < snap_time s <= iterations g
  /\ 1 <= snap_dx s /\ 1 <= snap_dy s /\ 1 <= snap_dz s.

(** The target iteration number a command asks for: the keyword
    [iterations], or else [round_value(time / dt) + 1] for a positive
    [time]. *)
Definition requested_iteration (kw : SnapshotKwargs) (g : FDTDGrid) : option Z :=
  match snap_kw_iterations kw with
  | Some n => Some n
  | None =>
      match snap_kw_time kw with
      | Some time =>
          if Qgtb time 0 && negb (Qeq_bool (dt g) 0)
          then Some (round_value (time / dt g) + 1) else None
      | None => None
      end
  end.

Ltac snapshot_checks d n w :=
  let E1 := fresh "E" in
  let E2 := fresh "E" in
  let E1a := fresh "E" in
  let E1b := fresh "E" in
  let E1c := fresh "E" in
  let E2a := fresh "E" in
  let E2b := fresh "E" in
  destruct ((fst (fst d) <? 0) || (snd (fst d) <? 0) || (snd d <? 0));
    [left; eauto|];
  destruct ((fst (fst d) <? 1) || (snd (fst d) <? 1) || (snd d <? 1)) eqn:E1;
    [left; eauto|];
  destruct ((n <=? 0) || (n >? iterations (G w))) eqn:E2; [left; eauto|];
  right; eexists; split; [reflexivity|];
  apply orb_false_iff in E1; destruct E1 as [E1 E1c];
  apply orb_false_iff in E1; destruct E1 as [E1a E1b];
  apply orb_false_iff in E2; destruct E2 as [E2a E2b];
  rewrite Z.gtb_ltb in E2b;
  apply Z.ltb_ge in E1a, E1b, E1c, E2b; apply Z.leb_gt in E2a;
  unfold valid_snapshot; simpl; lia.

Lemma Snapshot_create_cases (kw : SnapshotKwargs) (uip : UserInput) (w : World) :
  (exists e, Snapshot_create kw uip w = (inl e, w))
  \/ (exists s, Snapshot_create kw uip w
                = (inr tt, set_G (set_snapshots (snapshots (G w) ++ [s]) (G w)) w)
                /\ valid_snapshot (G w) s).
Proof.
  unfold Snapshot_create, required, lift, bind, gets, modify, ret, raise.
  destruct (is_subgrid (G w)); [left; eauto|].
  destruct (snap_kw_p1 kw) as [p1|]; [|left; eauto].
  destruct (snap_kw_p2 kw) as [p2|]; [|left; eauto].
  destruct (snap_kw_dl kw) as [dl|]; [|left; eauto].
  destruct (snap_kw_filename kw) as [filename|]; [|left; eauto].
  destruct (check_box_points uip p1 p2) as [e|box]; [left; eauto|].
  set (d := discretise_point uip dl).
  destruct (snap_kw_iterations kw) as [n|]; [snapshot_checks d n w|].
  destruct (snap_kw_time kw) as [time|]; [|left; eauto].
  destruct (Qgtb time 0); [|left; eauto].
  destruct (Qeq_bool (dt (G w)) 0); [left; eauto|].
  snapshot_checks d (round_value (time / dt (G w)) + 1) w.
Qed.

Ltac snapshot_rejects d n w :=
  let E0 := fresh "E" in
  let E1 := fresh "E" in
  let E2 := fresh "E" in
  let E1a := fresh "E" in
  let E1b := fresh "E" in
  let E1c := fresh "E" in
  let E2a := fresh "E" in
  let E2b := fresh "E" in
  destruct ((fst (fst d) <? 0) || (snd (fst d) <? 0) || (snd d <? 0));
    [eexists; reflexivity|];
  destruct ((fst (fst d) <? 1) || (snd (fst d) <? 1) || (snd d <? 1)) eqn:E1;
    [eexists; reflexivity|];
  destruct ((n <=? 0) || (n >? iterations (G w))) eqn:E2;
    [eexists; reflexivity|];
  exfalso;
  apply orb_false_iff in E1; destruct E1 as [E1 E1c];
  apply orb_false_iff in E1; destruct E1 as [E1a E1b];
  apply orb_false_iff in E2; destruct E2 as [E2a E2b];
  rewrite Z.gtb_ltb in E2b;
  apply Z.ltb_ge in E1a, E1b, E1c, E2b; apply Z.leb_gt in E2a; lia.

Lemma Snapshot_create_rejects (kw : SnapshotKwargs) (uip : UserInput) (w : World)
    (p1 p2 dl : Q * Q * Q) (filename : string)
    (box : (Z * Z * Z) * (Z * Z * Z)) (n : Z) :
  is_subgrid (G w) = false ->
  snap_kw_p1 kw = Some p1 -> snap_kw_p2 kw = Some p2 ->
  snap_kw_dl kw = Some dl -> snap_kw_filename kw = Some filename ->
  check_box_points uip p1 p2 = inr box ->
  requested_iteration kw (G w) = Some n ->
  n <= 0 \/ iterations (G w) < n
  \/ fst (fst (discretise_point uip dl)) < 1
  \/ snd (fst (discretise_point uip dl)) < 1
  \/ snd (discretise_point uip dl) < 1 ->
  exists msg, Snapshot_create kw uip w = (inl (CmdInputError msg), w).
Proof.
  intros Hsub Hp1 Hp2 Hdl Hfile Hbox Hn Hbad.
  unfold Snapshot_create, requested_iteration, required, lift, bind, gets,
    modify, ret, raise in *.
  rewrite Hsub, Hp1, Hp2, Hdl, Hfile, Hbox.
  set (d := discretise_point uip dl) in *.
  destruct (snap_kw_iterations kw) as [m|].
  - injection Hn as ->. snapshot_rejects d n w.
  - destruct (snap_kw_time kw) as [time|]; [|discriminate].
    destruct (Qgtb time 0); [|discriminate].
    destruct (Qeq_bool (dt (G w)) 0); [discriminate|].
    simpl in Hn. injection Hn as Hn. rewrite Hn. snapshot_rejects d n w.
Qed.

(** C9. [Snapshot.create] appends a snapshot to the grid only when its target
    iteration number [n] satisfies [0 < n <= grid.iterations] and its three
    strides are at least 1; whenever the command reaches the checks with a
    target number that is not positive or exceeds the iteration count, or
    with a stride below 1 (negative ones included), it raises
    [CmdInputError] and the grid is as it was. *)
Theorem Snapshot_create_validates (kw : SnapshotKwargs) (uip : UserInput)
    (w : World) :
  (snapshots (G (snd (Snapshot_create kw uip w))) = snapshots (G w)
   \/ exists s, snapshots (G (snd (Snapshot_create kw uip w)))
                = snapshots (G w) ++ [s]
                /\ valid_snapshot (G w) s)
  /\ (fst (Snapshot_create kw uip w) = inr tt ->
      exists s, snapshots (G (snd (Snapshot_create kw uip w)))
                = snapshots (G w) ++ [s]
                /\ valid_snapshot (G w) s)
  /\ (forall p1 p2 dl filename box n,
        is_subgrid (G w) = false ->
        snap_kw_p1 kw = Some p1 -> snap_kw_p2 kw = Some p2 ->
        snap_kw_dl kw = Some dl -> snap_kw_filename kw = Some filename ->
        check_box_points uip p1 p2 = inr box ->
        requested_iteration kw (G w) = Some n ->
        n <= 0 \/ iterations (G w) < n
        \/ fst (fst (discretise_point uip dl)) < 1
        \/ snd (fst (discretise_point uip dl)) < 1
        \/ snd (discretise_point uip dl) < 1 ->
        exists msg, Snapshot_create kw uip w = (inl (CmdInputError msg), w)).
Proof.
  split; [|split].
  - destruct (Snapshot_create_cases kw uip w) as [[e H]|[s [H Hs]]]; rewrite H.
    + left. reflexivity.
    + right. exists s. split; [reflexivity|exact Hs].
  - destruct (Snapshot_create_cases kw uip w) as [[e H]|[s [H Hs]]]; rewrite H.
    + discriminate.
    + intros _. exists s. split; [reflexivity|exact Hs].
  - intros. eapply Snapshot_create_rejects; eauto.
Qed.

(** ** Start and stop times of a source *)

Definition bad_times (a b : Q) : Prop := (a < 0 \/ b < 0 \/ b - a <= 0)%Q.

(** [stop] clamped to the time window. *)
Definition clamp (b tw : Q) : Q := if Qgtb b tw then tw else b.

Lemma clamp_min (b tw : Q) : (clamp b tw == Qmin b tw)%Q.
Proof.
  unfold clamp. destruct (Qgtb b tw) eqn:E.
  - apply Qgtb_lt in E. symmetry. apply Q.min_r. apply Qlt_le_weak. exact E.
  - apply Qgtb_le in E. symmetry. apply Q.min_l. exact E.
Qed.

Lemma start_stop_spec (kw : SourceKwargs) (w : World) :
  match kw_start kw, kw_stop kw with
  | Some a, Some b =>
      (bad_times a b /\ exists msg, start_stop kw w = (inl (CmdInputError msg), w))
      \/ (~ bad_times a b
          /\ start_stop kw w = (inr (a, clamp b (timewindow (G w))), w))
  | _, _ => start_stop kw w = (inr (0%Q, timewindow (G w)), w)
  end.
Proof.
  unfold start_stop, bad_times, clamp.
  destruct (kw_start kw) as [a|]; [|reflexivity].
  destruct (kw_stop kw) as [b|]; [|reflexivity].
  destruct (Qltb a 0) eqn:Ea.
  { left. apply Qltb_lt in Ea. split; [tauto|eexists; reflexivity]. }
  destruct (Qltb b 0) eqn:Eb.
  { left. apply Qltb_lt in Eb. split; [tauto|eexists; reflexivity]. }
  destruct (Qle_bool (b - a) 0) eqn:Ed.
  { left. apply Qle_bool_iff in Ed. split; [tauto|eexists; reflexivity]. }
  right. split; [|reflexivity].
  apply Qltb_le in Ea, Eb.
  intros [H|[H|H]].
  - exact (Qlt_not_le _ _ H Ea).
  - exact (Qlt_not_le _ _ H Eb).
  - apply Qle_bool_iff in H. congruence.
Qed.

Lemma start_stop_state (kw : SourceKwargs) (w : World) :
  snd (start_stop kw w) = w.
Proof.
  assert (H := start_stop_spec kw w).
  destruct (kw_start kw) as [a|]; [destruct (kw_stop kw) as [b|]|].
  - destruct H as [[_ [msg H]]|[_ H]]; rewrite H; reflexivity.
  - rewrite H. reflexivity.
  - rewrite H. reflexivity.
Qed.

Lemma check_polarisation_state (pol : string) (w : World) :
  snd (check_polarisation pol w) = w.
Proof.
  unfold check_polarisation, bind, gets.
  repeat match goal with
         | |- context [if ?c then _ else _] => destruct c
         end; reflexivity.
Qed.

(** What a source command does once its other checks have passed: it raises
    exactly when the given times are bad, and otherwise appends a source
    with the given start and the stop clamped to the time window; with a
    time left out, the source runs from 0 to the time window. *)
Definition times_outcome (kw : SourceKwargs) (w : World)
    (sources : FDTDGrid -> list Source) (r : (exn + unit) * World) : Prop :=
  let stored a b :=
    fst r = inr tt
    /\ exists v before, sources (G (snd r)) = before ++ [v]
                        /\ start v = a /\ stop v = b in
  match kw_start kw, kw_stop kw with
  | Some a, Some b =>
      (bad_times a b /\ exists msg, r = (inl (CmdInputError msg), w))
      \/ (~ bad_times a b /\ stored a (clamp b (timewindow (G w))))
  | _, _ => stored 0%Q (timewindow (G w))
  end.

Ltac source_times kw w :=
  let H := fresh "H" in
  assert (H := start_stop_spec kw w);
  unfold times_outcome;
  destruct (kw_start kw); [destruct (kw_stop kw)|];
  [destruct H as [[? [? H]]|[? H]]| |];
  rewrite H; simpl;
  first [ left; split; [assumption|eexists; reflexivity]
        | right; split; [assumption|]; split; [reflexivity|];
          eexists; eexists; split; [reflexivity|split; reflexivity]
        | split; [reflexivity|];
          eexists; eexists; split; [reflexivity|split; reflexivity] ].

Lemma VoltageSource_create_times (kw : SourceKwargs) (uip : UserInput) (w : World)
    (p1 : Q * Q * Q) (pol wid : string) (res : Q) (c : Z * Z * Z) :
  kw_p1 kw = Some p1 -> kw_polarisation kw = Some pol ->
  kw_resistance kw = Some res -> kw_waveform_id kw = Some wid ->
  fst (check_polarisation (lower pol) w) = inr tt ->
  check_src_rx_point uip p1 = inr c ->
  (0 <= res)%Q ->
  mem wid (waveforms (G w)) = true ->
  times_outcome kw w voltagesources (VoltageSource_create kw uip w).
Proof.
  intros Hp1 Hpol Hres Hwid Hcheck Hpoint Hpos Hwave.
  assert (Hst := check_polarisation_state (lower pol) w).
  apply Qltb_le in Hpos.
  unfold VoltageSource_create, required, lift, bind, gets, modify, ret, raise.
  rewrite Hp1, Hpol, Hres, Hwid. simpl.
  destruct (check_polarisation (lower pol) w) as [[e|[]] w1]; simpl in *;
    [discriminate|]. subst w1.
  rewrite Hpoint, Hpos, Hwave. simpl.
  source_times kw w.
Qed.

Lemma HertzianDipole_create_times (kw : SourceKwargs) (uip : UserInput) (w : World)
    (p1 : Q * Q * Q) (pol wid : string) (c : Z * Z * Z) :
  kw_p1 kw = Some p1 -> kw_polarisation kw = Some pol ->
  kw_waveform_id kw = Some wid ->
  fst (check_polarisation (lower pol) w) = inr tt ->
  check_src_rx_point uip p1 = inr c ->
  mem wid (waveforms (G w)) = true ->
  times_outcome kw w hertziandipoles (HertzianDipole_create kw uip w).
Proof.
  intros Hp1 Hpol Hwid Hcheck Hpoint Hwave.
  assert (Hst := check_polarisation_state (lower pol) w).
  unfold HertzianDipole_create, required, lift, bind, gets, modify, ret, raise.
  rewrite Hp1, Hpol, Hwid. simpl.
  destruct (check_polarisation (lower pol) w) as [[e|[]] w1]; simpl in *;
    [discriminate|]. subst w1.
  rewrite Hpoint, Hwave. simpl.
  source_times kw w.
Qed.

Lemma MagneticDipole_create_times (kw : SourceKwargs) (uip : UserInput) (w : World)
    (p1 : Q * Q * Q) (pol wid : string) (c : Z * Z * Z) :
  kw_p1 kw = Some p1 -> kw_polarisation kw = Some pol ->
  kw_waveform_id kw = Some wid ->
  fst (check_polarisation (lower pol) w) = inr tt ->
  check_src_rx_point uip p1 = inr c ->
  mem wid (waveforms (G w)) = true ->
  times_outcome kw w magneticdipoles (MagneticDipole_create kw uip w).
Proof.
  intros Hp1 Hpol Hwid Hcheck Hpoint Hwave.
  assert (Hst := check_polarisation_state (lower pol) w).
  unfold MagneticDipole_create, required, lift, bind, gets, modify, ret, raise.
  rewrite Hp1, Hpol, Hwid. simpl.
  destruct (check_polarisation (lower pol) w) as [[e|[]] w1]; simpl in *;
    [discriminate|]. subst w1.
  rewrite Hpoint, Hwave. simpl.
  source_times kw w.
Qed.

(** [TransmissionLine.create] never appends a source: a resistance that is
    not positive is rejected, and for a positive one the comparison with
    [z0] reads a name that is bound nowhere. *)
Lemma TransmissionLine_create_raises (kw : SourceKwargs) (uip : UserInput)
    (w : World) :
  exists e, TransmissionLine_create kw uip w = (inl e, w)
    /\ (forall p1 pol wid res c,
          kw_p1 kw = Some p1 -> kw_polarisation kw = Some pol ->
          kw_resistance kw = Some res -> kw_waveform_id kw = Some wid ->
          gpu (G w) = None ->
          fst (check_polarisation (lower pol) w) = inr tt ->
          check_src_rx_point uip p1 = inr c ->
          (0 < res)%Q ->
          e = NameError "z0").
Proof.
  assert (Hpol : forall pol, snd (check_polarisation pol w) = w)
    by (intro; apply check_polarisation_state).
  unfold TransmissionLine_create, required, lift, bind, gets, modify, ret, raise.
  destruct (kw_polarisation kw) as [pol|]; simpl;
    [|eexists; split; [reflexivity|intros; discriminate]].
  destruct (kw_p1 kw) as [p1|]; simpl;
    [|eexists; split; [reflexivity|intros; discriminate]].
  destruct (kw_waveform_id kw) as [wid|]; simpl;
    [|eexists; split; [reflexivity|intros; discriminate]].
  destruct (kw_resistance kw) as [res|]; simpl;
    [|eexists; split; [reflexivity|intros; discriminate]].
  destruct (gpu (G w)) as [d|]; simpl;
    [eexists; split; [reflexivity|intros; discriminate]|].
  specialize (Hpol (lower pol)).
  destruct (check_polarisation (lower pol) w) as [[e|[]] w1] eqn:Ec;
    simpl in *; subst w1.
  { eexists; split; [reflexivity|]. intros ? ? ? ? ? _ H _ _ _ Hc.
    injection H as <-. rewrite Ec in Hc. discriminate. }
  destruct (check_src_rx_point uip p1) as [e|c] eqn:Ep; simpl.
  { eexists; split; [reflexivity|]. intros ? ? ? ? ? H _ _ _ _ _ Hc.
    injection H as <-. rewrite Ep in Hc. discriminate. }
  destruct (Qle_bool res 0) eqn:E; simpl.
  - eexists; split; [reflexivity|]. intros ? ? ? ? ? _ _ H _ _ _ _ Hres.
    injection H as <-. apply Qle_bool_iff in E.
    exfalso. exact (Qlt_not_le _ _ Hres E).
  - eexists; split; [reflexivity|]. intros. reflexivity.
Qed.

(** ** Dispersive poles *)

Section PoleLoop.

(** The body of the loop over the poles of one material, and the condition
    it tests on pole [i] for a time step [q]. *)
Variable pole : nat -> nat -> py unit.
Variable valid : Q -> nat -> Prop.

Hypothesis valid_dec : forall q i, valid q i \/ ~ valid q i.
Hypothesis pole_sound :
  forall m i s s', pole m i s = (inr tt, s') -> valid (dt (G s)) i.
Hypothesis pole_accepts :
  forall m i s, valid (dt (G s)) i -> fst (pole m i s) = inr tt.
Hypothesis pole_dt :
  forall m i s, dt (G (snd (pole m i s))) = dt (G s).

(** Pole [i] has all its parameters, so the test itself can be made. *)
Variable supplied : nat -> Prop.
Hypothesis pole_rejects :
  forall m i s, supplied i -> ~ valid (dt (G s)) i ->
    exists msg, fst (pole m i s) = inl (CmdInputError msg).

Lemma pole_loop_sound (m n : nat) :
  forall a s s', for_each (seq a n) (pole m) s = (inr tt, s') ->
  forall i, (a <= i < a + n)%nat -> valid (dt (G s)) i.
Proof.
  induction n as [|n IH]; intros a s s' H i Hi; [lia|].
  simpl in H. unfold bind in H.
  destruct (pole m a s) as [[e|[]] s1] eqn:E; [discriminate|].
  destruct (Nat.eq_dec i a) as [->|Hne].
  - eapply pole_sound. exact E.
  - assert (Hdt := pole_dt m a s). rewrite E in Hdt. simpl in Hdt.
    rewrite <- Hdt. eapply IH; [exact H|lia].
Qed.

Lemma pole_loop_rejects (m n : nat) :
  forall a s,
  (forall i, (a <= i < a + n)%nat -> supplied i) ->
  (exists i, (a <= i < a + n)%nat /\ ~ valid (dt (G s)) i) ->
  exists msg, fst (for_each (seq a n) (pole m) s) = inl (CmdInputError msg).
Proof.
  induction n as [|n IH]; intros a s Hsup [i [Hi Hbad]]; [lia|].
  simpl. unfold bind.
  destruct (valid_dec (dt (G s)) a) as [Hok|Hno].
  - assert (Ha := pole_accepts m a s Hok).
    assert (Hdt := pole_dt m a s).
    destruct (pole m a s) as [[e|[]] s1]; simpl in *; [discriminate|].
    apply IH.
    + intros j Hj. apply Hsup. lia.
    + exists i. rewrite Hdt. split; [|exact Hbad].
      destruct (Nat.eq_dec i a) as [->|Hne]; [contradiction|lia].
  - destruct (pole_rejects m a s) as [msg Hmsg]; [apply Hsup; lia|exact Hno|].
    destruct (pole m a s) as [[e|[]] s1]; simpl in *; [|discriminate].
    exists msg. exact Hmsg.
Qed.

Lemma find_materials_nonempty (ids : list string) (ms : list Material) :
  ids <> [] ->
  List.length (find_materials ids ms) = List.length ids ->
  exists m rest, find_materials ids ms = m :: rest.
Proof.
  intros Hids Hlen. destruct (find_materials ids ms) as [|m rest].
  - destruct ids; [contradiction|discriminate].
  - eauto.
Qed.

(** A command that names at least one material and returns has tested every
    pole. *)
Lemma add_dispersion_sound (t : string) (n : Z) (ids : list string)
    (w w' : World) :
  add_dispersion t n ids pole w = (inr tt, w') ->
  ids <> [] ->
  forall i, (i < Z.to_nat n)%nat -> valid (dt (G w)) i.
Proof.
  unfold add_dispersion, bind, gets, raise, ret.
  destruct (n <? 0); [discriminate|].
  destruct (negb (List.length (find_materials ids (materials (G w)))
                  =? List.length ids)%nat) eqn:El; [discriminate|].
  apply negb_false_iff, Nat.eqb_eq in El.
  intros H Hids i Hi.
  destruct (find_materials_nonempty ids (materials (G w)) Hids El)
    as [m [rest Hfound]].
  rewrite Hfound in H. simpl in H. unfold bind at 1 in H.
  unfold range in H.
  match type of H with
  | context [for_each (seq 0 (Z.to_nat n)) (pole m) ?s0] =>
      destruct (for_each (seq 0 (Z.to_nat n)) (pole m) s0) as [[e|[]] s1] eqn:E;
        [discriminate|];
      apply (pole_loop_sound m (Z.to_nat n) 0 s0 s1 E i); lia
  end.
Qed.

(** A command that names existing materials, at least one, and supplies the
    parameters of every pole raises [CmdInputError] when a pole fails its
    test. *)
Lemma add_dispersion_rejects (t : string) (n : Z) (ids : list string) (w : World) :
  ids <> [] ->
  List.length (find_materials ids (materials (G w))) = List.length ids ->
  (forall i, (i < Z.to_nat n)%nat -> supplied i) ->
  (exists i, (i < Z.to_nat n)%nat /\ ~ valid (dt (G w)) i) ->
  exists msg, fst (add_dispersion t n ids pole w) = inl (CmdInputError msg).
Proof.
  intros Hids Hlen Hsup [i [Hi Hbad]].
  unfold add_dispersion, bind, gets, raise, ret.
  destruct (n <? 0) eqn:En; [apply Z.ltb_lt in En; lia|].
  rewrite Hlen, Nat.eqb_refl. simpl.
  destruct (find_materials_nonempty ids (materials (G w)) Hids Hlen)
    as [m [rest Hfound]].
  rewrite Hfound. simpl. unfold bind at 1.
  unfold range.
  match goal with
  | |- context [for_each (seq 0 (Z.to_nat n)) (pole m) ?s0] =>
      destruct (pole_loop_rejects m (Z.to_nat n) 0 s0) as [msg Hmsg];
        [intros j Hj; apply Hsup; lia
        |exists i; split; [lia|exact Hbad]
        |destruct (for_each (seq 0 (Z.to_nat n)) (pole m) s0) as [[e|[]] s1];
           simpl in *; [exists msg; exact Hmsg|discriminate]]
  end.
Qed.

End PoleLoop.

(** The test each command makes on pole [i], for a time step [q]. *)
Definition debye_ok (er_delta taus : list Q) (q : Q) (i : nat) : Prop :=
  exists e t, nth_error er_delta i = Some e /\ nth_error taus i = Some t
              /\ (0 < t)%Q.

Definition lorentz_ok (er_delta taus alphas : list Q) (q : Q) (i : nat) : Prop :=
  exists e t a, nth_error er_delta i = Some e /\ nth_error taus i = Some t
                /\ nth_error alphas i = Some a
                /\ (0 < e)%Q /\ (q < t)%Q /\ (q < a)%Q.

Definition drude_ok (taus alphas : list Q) (q : Q) (i : nat) : Prop :=
  exists t a, nth_error taus i = Some t /\ nth_error alphas i = Some a
              /\ (0 < t)%Q /\ (q < a)%Q.

Lemma Qgtb_dec (x y : Q) : (y < x)%Q \/ ~ (y < x)%Q.
Proof.
  destruct (Qgtb x y) eqn:E.
  - left. apply Qgtb_lt. exact E.
  - right. apply Qgtb_le in E. intro H. exact (Qlt_not_le _ _ H E).
Qed.

Ltac pole_run :=
  unfold debye_pole, lorentz_pole, drude_pole, index, alter_material,
    bind, gets, modify, raise, ret in *.

Ltac pole_split :=
  repeat match goal with
         | |- context [match nth_error ?l ?i with _ => _ end] =>
             destruct (nth_error l i) eqn:?
         | |- context [if Qgtb ?x ?y then _ else _] =>
             destruct (Qgtb x y) eqn:?
         end.

Ltac pole_facts :=
  repeat match goal with
         | H : Qgtb _ _ = true |- _ => apply Qgtb_lt in H
         | H : Qgtb _ _ = false |- _ => apply Qgtb_le in H
         | H : Some _ = Some _ |- _ => injection H as <-
         | H : (?x < ?y)%Q, K : (?y <= ?x)%Q |- _ =>
             exfalso; exact (Qlt_not_le _ _ H K)
         end.

Lemma debye_ok_dec er taus q i : debye_ok er taus q i \/ ~ debye_ok er taus q i.
Proof.
  unfold debye_ok.
  destruct (nth_error er i) as [e|]; [|right; intros [? [? [H _]]]; discriminate].
  destruct (nth_error taus i) as [t|];
    [|right; intros [? [? [_ [H _]]]]; discriminate].
  destruct (Qgtb_dec t 0) as [H|H].
  - left. eauto.
  - right. intros [e' [t' [_ [Ht Hpos]]]]. injection Ht as <-. contradiction.
Qed.

Lemma lorentz_ok_dec er taus alphas q i :
  lorentz_ok er taus alphas q i \/ ~ lorentz_ok er taus alphas q i.
Proof.
  unfold lorentz_ok.
  destruct (nth_error er i) as [e|];
    [|right; intros [? [? [? [H _]]]]; discriminate].
  destruct (nth_error taus i) as [t|];
    [|right; intros [? [? [? [_ [H _]]]]]; discriminate].
  destruct (nth_error alphas i) as [a|];
    [|right; intros [? [? [? [_ [_ [H _]]]]]]; discriminate].
  destruct (Qgtb_dec e 0) as [He|He];
    [|right; intros [? [? [? [H1 [_ [_ [H _]]]]]]]; injection H1 as <-;
      contradiction].
  destruct (Qgtb_dec t q) as [Ht|Ht];
    [|right; intros [? [? [? [_ [H1 [_ [_ [H _]]]]]]]]; injection H1 as <-;
      contradiction].
  destruct (Qgtb_dec a q) as [Ha|Ha];
    [|right; intros [? [? [? [_ [_ [H1 [_ [_ H]]]]]]]]; injection H1 as <-;
      contradiction].
  left. exists e, t, a. repeat split; assumption || reflexivity.
Qed.

Lemma drude_ok_dec taus alphas q i :
  drude_ok taus alphas q i \/ ~ drude_ok taus alphas q i.
Proof.
  unfold drude_ok.
  destruct (nth_error taus i) as [t|];
    [|right; intros [? [? [H _]]]; discriminate].
  destruct (nth_error alphas i) as [a|];
    [|right; intros [? [? [_ [H _]]]]; discriminate].
  destruct (Qgtb_dec t 0) as [Ht|Ht];
    [|right; intros [? [? [H1 [_ [H _]]]]]; injection H1 as <-; contradiction].
  destruct (Qgtb_dec a q) as [Ha|Ha];
    [|right; intros [? [? [_ [H1 [_ H]]]]]; injection H1 as <-; contradiction].
  left. exists t, a. repeat split; assumption || reflexivity.
Qed.

Lemma debye_pole_sound er taus m i s s' :
  debye_pole er taus m i s = (inr tt, s') -> debye_ok er taus (dt (G s)) i.
Proof.
  unfold debye_ok. pole_run. pole_split; intro H; try discriminate.
  pole_facts. eauto.
Qed.

Lemma debye_pole_accepts er taus m i s :
  debye_ok er taus (dt (G s)) i -> fst (debye_pole er taus m i s) = inr tt.
Proof.
  intros [e [t [He [Ht Hpos]]]]. pole_run. rewrite Ht.
  apply Qgtb_lt in Hpos. rewrite Hpos, He. reflexivity.
Qed.

Lemma debye_pole_dt er taus m i s :
  dt (G (snd (debye_pole er taus m i s))) = dt (G s).
Proof. pole_run. pole_split; reflexivity. Qed.

Lemma debye_pole_rejects er taus m i s :
  (i < List.length er /\ i < List.length taus)%nat ->
  ~ debye_ok er taus (dt (G s)) i ->
  exists msg, fst (debye_pole er taus m i s) = inl (CmdInputError msg).
Proof.
  intros [H1 H2] Hbad. unfold debye_ok in Hbad.
  apply nth_error_Some in H1, H2. pole_run.
  destruct (nth_error taus i) as [t|]; [|congruence].
  destruct (nth_error er i) as [e|]; [|congruence].
  destruct (Qgtb t 0) eqn:E; [|eexists; reflexivity].
  exfalso. apply Hbad. apply Qgtb_lt in E. eauto.
Qed.

Lemma lorentz_pole_sound er taus alphas m i s s' :
  lorentz_pole er taus alphas m i s = (inr tt, s') ->
  lorentz_ok er taus alphas (dt (G s)) i.
Proof.
  unfold lorentz_ok. pole_run. pole_split; intro H; try discriminate.
  pole_facts. do 3 eexists. repeat split; eassumption || reflexivity.
Qed.

Lemma lorentz_pole_accepts er taus alphas m i s :
  lorentz_ok er taus alphas (dt (G s)) i ->
  fst (lorentz_pole er taus alphas m i s) = inr tt.
Proof.
  intros [e [t [a [He [Ht [Ha [H1 [H2 H3]]]]]]]]. pole_run.
  apply Qgtb_lt in H1, H2, H3. rewrite He, H1, Ht, H2, Ha, H3. reflexivity.
Qed.

Lemma lorentz_pole_dt er taus alphas m i s :
  dt (G (snd (lorentz_pole er taus alphas m i s))) = dt (G s).
Proof. pole_run. pole_split; reflexivity. Qed.

Lemma lorentz_pole_rejects er taus alphas m i s :
  (i < List.length er /\ i < List.length taus /\ i < List.length alphas)%nat ->
  ~ lorentz_ok er taus alphas (dt (G s)) i ->
  exists msg, fst (lorentz_pole er taus alphas m i s) = inl (CmdInputError msg).
Proof.
  intros [H1 [H2 H3]] Hbad. unfold lorentz_ok in Hbad.
  apply nth_error_Some in H1, H2, H3. pole_run.
  destruct (nth_error er i) as [e|]; [|congruence].
  destruct (nth_error taus i) as [t|]; [|congruence].
  destruct (nth_error alphas i) as [a|]; [|congruence].
  destruct (Qgtb e 0) eqn:E1; [|eexists; reflexivity].
  destruct (Qgtb t (dt (G s))) eqn:E2; [|eexists; reflexivity].
  destruct (Qgtb a (dt (G s))) eqn:E3; [|eexists; reflexivity].
  exfalso. apply Hbad. apply Qgtb_lt in E1, E2, E3.
  exists e, t, a. repeat split; assumption || reflexivity.
Qed.

Lemma drude_pole_sound taus alphas m i s s' :
  drude_pole taus alphas m i s = (inr tt, s') ->
  drude_ok taus alphas (dt (G s)) i.
Proof.
  unfold drude_ok. pole_run. pole_split; intro H; try discriminate.
  pole_facts. do 2 eexists. repeat split; eassumption || reflexivity.
Qed.

Lemma drude_pole_accepts taus alphas m i s :
  drude_ok taus alphas (dt (G s)) i ->
  fst (drude_pole taus alphas m i s) = inr tt.
Proof.
  intros [t [a [Ht [Ha [H1 H2]]]]]. pole_run.
  apply Qgtb_lt in H1, H2. rewrite Ht, H1, Ha, H2. reflexivity.
Qed.

Lemma drude_pole_dt taus alphas m i s :
  dt (G (snd (drude_pole taus alphas m i s))) = dt (G s).
Proof. pole_run. pole_split; reflexivity. Qed.

Lemma drude_pole_rejects taus alphas m i s :
  (i < List.length taus /\ i < List.length alphas)%nat ->
  ~ drude_ok taus alphas (dt (G s)) i ->
  exists msg, fst (drude_pole taus alphas m i s) = inl (CmdInputError msg).
Proof.
  intros [H1 H2] Hbad. unfold drude_ok in Hbad.
  apply nth_error_Some in H1, H2. pole_run.
  destruct (nth_error taus i) as [t|]; [|congruence].
  destruct (nth_error alphas i) as [a|]; [|congruence].
  destruct (Qgtb t 0) eqn:E1; [|eexists; reflexivity].
  destruct (Qgtb a (dt (G s))) eqn:E2; [|eexists; reflexivity].
  exfalso. apply Hbad. apply Qgtb_lt in E1, E2.
  exists t, a. repeat split; assumption || reflexivity.
Qed.

Lemma fst_inr_run {A : Type} (m : py A) (w : World) (a : A) :
  fst (m w) = inr a -> exists w', m w = (inr a, w').
Proof. destruct (m w) as [r w']. simpl. intros ->. eauto. Qed.

(** C7, as amended.  For each of the three add-dispersion commands, when the
    command names at least one material: if creation returns, every pole
    has passed the command's test; and if the named materials exist and
    every pole's parameters are supplied, a pole that fails the test makes
    the command raise [CmdInputError].  The tests are: Lorentz, the
    permittivity difference is positive and both the frequency and the
    damping parameter exceed the time step; Drude, the frequency is positive
    and the relaxation parameter exceeds the time step; Debye, the
    relaxation time is positive (it is not compared with the time step). *)
Theorem dispersion_poles_validated (kw : DispersionKwargs) (w : World) (n : Z)
    (ids : list string) :
  kw_n_poles kw = Some n ->
  kw_material_ids kw = Some ids ->
  ids <> [] ->
  let found :=
    List.length (find_materials ids (materials (G w))) = List.length ids in
  let count := Z.to_nat n in
  let step := dt (G w) in
  (forall er taus,
     kw_er_delta kw = Some er -> kw_tau kw = Some taus ->
     (fst (AddDebyeDispersion_create kw w) = inr tt ->
      forall i, (i < count)%nat -> debye_ok er taus step i)
     /\ (found ->
         (count <= List.length er)%nat -> (count <= List.length taus)%nat ->
         (exists i, (i < count)%nat /\ ~ debye_ok er taus step i) ->
         exists msg, fst (AddDebyeDispersion_create kw w)
                     = inl (CmdInputError msg)))
  /\ (forall er omega delta,
     kw_er_delta kw = Some er -> kw_omega kw = Some omega ->
     kw_delta kw = Some delta ->
     (fst (AddLorentzDispersion_create kw w) = inr tt ->
      forall i, (i < count)%nat -> lorentz_ok er omega delta step i)
     /\ (found ->
         (count <= List.length er)%nat -> (count <= List.length omega)%nat ->
         (count <= List.length delta)%nat ->
         (exists i, (i < count)%nat /\ ~ lorentz_ok er omega delta step i) ->
         exists msg, fst (AddLorentzDispersion_create kw w)
                     = inl (CmdInputError msg)))
  /\ (forall taus alphas,
     kw_tau kw = Some taus -> kw_alpha kw = Some alphas ->
     (fst (AddDrudeDispersion_create kw w) = inr tt ->
      forall i, (i < count)%nat -> drude_ok taus alphas step i)
     /\ (found ->
         (count <= List.length taus)%nat -> (count <= List.length alphas)%nat ->
         (exists i, (i < count)%nat /\ ~ drude_ok taus alphas step i) ->
         exists msg, fst (AddDrudeDispersion_create kw w)
                     = inl (CmdInputError msg))).
Proof.
  intros Hn Hids Hne found count step. split; [|split].
  - intros er taus Her Htau.
    unfold AddDebyeDispersion_create, required, bind, ret.
    rewrite Hn, Her, Htau, Hids. split.
    + intros H i Hi. apply fst_inr_run in H. destruct H as [w' H].
      eapply (add_dispersion_sound (debye_pole er taus) (debye_ok er taus));
        eauto using debye_pole_sound, debye_pole_dt.
    + intros Hfound Hl1 Hl2 Hbad.
      apply (add_dispersion_rejects (debye_pole er taus) (debye_ok er taus)
               (debye_ok_dec er taus) (debye_pole_accepts er taus)
               (debye_pole_dt er taus)
               (fun i => (i < List.length er /\ i < List.length taus)%nat)
               (debye_pole_rejects er taus)); auto.
      intros i Hi. unfold count in *. lia.
  - intros er omega delta Her Hom Hde.
    unfold AddLorentzDispersion_create, required, bind, ret.
    rewrite Hn, Her, Hom, Hde, Hids. split.
    + intros H i Hi. apply fst_inr_run in H. destruct H as [w' H].
      eapply (add_dispersion_sound (lorentz_pole er omega delta)
                (lorentz_ok er omega delta));
        eauto using lorentz_pole_sound, lorentz_pole_dt.
    + intros Hfound Hl1 Hl2 Hl3 Hbad.
      apply (add_dispersion_rejects (lorentz_pole er omega delta)
               (lorentz_ok er omega delta)
               (lorentz_ok_dec er omega delta)
               (lorentz_pole_accepts er omega delta)
               (lorentz_pole_dt er omega delta)
               (fun i => (i < List.length er /\ i < List.length omega
                          /\ i < List.length delta)%nat)
               (lorentz_pole_rejects er omega delta)); auto.
      intros i Hi. unfold count in *. lia.
  - intros taus alphas Htau Hal.
    unfold AddDrudeDispersion_create, required, bind, ret.
    rewrite Hn, Htau, Hal, Hids. split.
    + intros H i Hi. apply fst_inr_run in H. destruct H as [w' H].
      eapply (add_dispersion_sound (drude_pole taus alphas)
                (drude_ok taus alphas));
        eauto using drude_pole_sound, drude_pole_dt.
    + intros Hfound Hl1 Hl2 Hbad.
      apply (add_dispersion_rejects (drude_pole taus alphas)
               (drude_ok taus alphas)
               (drude_ok_dec taus alphas) (drude_pole_accepts taus alphas)
               (drude_pole_dt taus alphas)
               (fun i => (i < List.length taus /\ i < List.length alphas)%nat)
               (drude_pole_rejects taus alphas)); auto.
      intros i Hi. unfold count in *. lia.
Qed.

(** ** The count of [PMLCFS] objects *)

Lemma PMLCFS_init_run (w : World) :
  PMLCFS_init w
  = (if PMLCFS_count w + 1 =? 2
     then inl (CmdInputError
                 "can only be used up to two times, for up to a 2nd order PML")
     else inr {| order := Some 15; hash := "#pml_cfs"; autotranslate := true |},
     set_PMLCFS_count (PMLCFS_count w + 1) w).
Proof.
  unfold PMLCFS_init, bind, modify, gets, raise, ret. simpl.
  destruct (PMLCFS_count w + 1 =? 2); reflexivity.
Qed.

(** Only the second creation is refused: a [PMLCFS] is created whenever the
    count of earlier creations is not 1. *)
Lemma PMLCFS_init_refuses_second_only (w : World) :
  (exists e, fst (PMLCFS_init w) = inl e) <-> PMLCFS_count w = 1.
Proof.
  rewrite PMLCFS_init_run. simpl.
  destruct (PMLCFS_count w + 1 =? 2) eqn:E.
  - apply Z.eqb_eq in E. split; [lia|eauto].
  - apply Z.eqb_neq in E. split; [intros [e He]; discriminate|lia].
Qed.

End Model.

Arguments FDTDGrid : clear implicits.
Arguments World : clear implicits.
Arguments py : clear implicits.

(** * Concrete runs

    The model is run on a small grid.  The arrays are abstracted to the
    number of outside calls that were handed them, so that every such call
    is visible in the state. *)

Local Open Scope list_scope.

Definition run_count (c : Call) (g : FDTDGrid nat) : FDTDGrid nat :=
  {| iteration := iteration g; iterations := iterations g; dt := dt g;
     timewindow := timewindow g; dx := dx g; dy := dy g; dz := dz g;
     mode := mode g; gpu := gpu g; is_subgrid := is_subgrid g;
     waveforms := waveforms g; materials := materials g;
     voltagesources := voltagesources g; hertziandipoles := hertziandipoles g;
     magneticdipoles := magneticdipoles g;
     transmissionlines := transmissionlines g; rxs := rxs g;
     snapshots := snapshots g; pmls := pmls g; snapsgpu2cpu := snapsgpu2cpu g;
     updatecoeffsE_nbytes := updatecoeffsE_nbytes g;
     updatecoeffsH_nbytes := updatecoeffsH_nbytes g;
     arrays := S (arrays g) |}.

(** [round_value] taken as rounding half up. *)
Definition round_half_up (q : Q) : Z := Qfloor (q + (1 # 2)).

(** A device with 64 KiB of constant memory. *)
Definition example_gpu : GPU :=
  {| deviceID := 0; gpu_name := "GPU"; constmem := 65536 |}.

Definition example_source (c : SourceClass) : Source :=
  {| src_class := c; src_ID := source_ID c 5 5 5; polarisation := "z";
     xcoord := 5; ycoord := 5; zcoord := 5;
     resistance := None; dl := None; waveformID := "pulse";
     start := 0; stop := 3 # 1 |}.

Definition example_snapshot (n : Z) : SnapshotUser :=
  {| snap_xs := 0; snap_ys := 0; snap_zs := 0;
     snap_xf := 10; snap_yf := 10; snap_zf := 10;
     snap_dx := 1; snap_dy := 1; snap_dz := 1;
     snap_time := n; basefilename := "snap" |}.

Definition example_material : Material :=
  {| numID := 2; mat_ID := "soil"; mat_type := ""; poles := 0;
     averagable := true; deltaer := []; tau := []; alpha := [] |}.

(** A grid of 100 iterations with time step 1 and time window 100, one
    waveform and one material. *)
Definition example_grid (device : option GPU) (vs hds : list Source)
    (snaps : list SnapshotUser) (nbytesE nbytesH : Z) : FDTDGrid nat :=
  {| iteration := 0; iterations := 100; dt := 1; timewindow := 100 # 1;
     dx := 1 # 100; dy := 1 # 100; dz := 1 # 100;
     mode := "3D"; gpu := device; is_subgrid := false;
     waveforms := ["pulse"]; materials := [example_material];
     voltagesources := vs; hertziandipoles := hds;
     magneticdipoles := []; transmissionlines := []; rxs := [];
     snapshots := snaps; pmls := []; snapsgpu2cpu := false;
     updatecoeffsE_nbytes := nbytesE; updatecoeffsH_nbytes := nbytesH;
     arrays := O |}.

Definition example_world (g : FDTDGrid nat) (maxpoles : Z) : World nat :=
  {| G := g; config_maxpoles := maxpoles; config_precision := "double";
     config_dispersive_complex := false; platform := "linux";
     MaterialUser_maxpoles := 0; PMLCFS_count := 0; trace := [] |}.

(** A driver whose every call returns. *)
Definition working_driver : CudaEnv :=
  {| import_pycuda := None; drv_init := None; drv_Device := fun _ => None |}.

(** A user-input helper that accepts every point and rounds it down. *)
Definition example_uip : UserInput :=
  let cell := fun p : Q * Q * Q =>
    (Qfloor (fst (fst p)), Qfloor (snd (fst p)), Qfloor (snd p)) in
  {| check_src_rx_point := fun p => inr (cell p);
     check_box_points := fun p q => inr (cell p, cell q);
     discretise_point := cell |}.

(** A host-only grid, the same grid with a device, and a grid whose two
    coefficient tables (40000 bytes each) exceed the 65536 bytes of constant
    memory.  The first two hold one voltage source, one Hertzian dipole and
    one snapshot due at iteration 3. *)
Definition host_world : World nat :=
  example_world
    (example_grid None [example_source VoltageSourceUser]
       [example_source HertzianDipoleUser] [example_snapshot 3] 1024 1024) 0.

Definition dispersive_world : World nat :=
  example_world
    (example_grid None [example_source VoltageSourceUser]
       [example_source HertzianDipoleUser] [example_snapshot 3] 1024 1024) 2.

Definition accelerator_world : World nat :=
  example_world
    (example_grid (Some example_gpu) [example_source VoltageSourceUser]
       [example_source HertzianDipoleUser] [example_snapshot 3] 1024 1024) 0.

Definition over_budget_world : World nat :=
  example_world (example_grid (Some example_gpu) [] [] [] 40000 40000) 0.

(** ** The iteration counter (C1) *)

(** C1 (defect in the accelerator backend).  The claim holds on the host
    backend: one call to [update_electric_sources] returns and adds exactly
    one to the counter, after the last source
    ([CPUUpdates_update_electric_sources_increments],
    [CPUUpdates_update_electric_sources_counter_seen]), no other operation
    changes it ([host_other_operations_keep_counter]), and after [n]
    iterations from 0 it reads [n] ([host_solve_counter]).  On the
    accelerator backend, for a grid with a voltage source the same call
    raises [NameError] on the unbound name [np] before the increment: the
    counter is still 0, where the host backend has counted to 1, and where
    the accelerator backend itself counts to 1 once the module binds the
    names its launches read
    ([CUDAUpdates_update_electric_sources_increments]). *)
Theorem accelerator_electric_sources_counter_stuck :
  CUDAUpdates_update_electric_sources run_count updates_globals
    CUDAUpdates_all_attrs accelerator_world
  = (inl (NameError "np"), accelerator_world)
  /\ iteration (G accelerator_world) = 0
  /\ fst (CPUUpdates_update_electric_sources run_count accelerator_world) = inr tt
  /\ iteration (G (snd (CPUUpdates_update_electric_sources run_count
                          accelerator_world))) = 1
  /\ iteration (G (snd (CUDAUpdates_update_electric_sources run_count
                          bound_globals CUDAUpdates_all_attrs
                          accelerator_world))) = 1.
Proof.
  split; [vm_compute; reflexivity|].
  split; [reflexivity|].
  split; [vm_compute; reflexivity|].
  split; vm_compute; reflexivity.
Qed.

(** ** The order of the electric sources (C5) *)

(** C5 (defect in the accelerator backend).  The claim holds on the host
    backend: one call to [update_electric_sources] returns and has called
    [update_electric] on exactly the voltage sources, then the transmission
    lines, then the Hertzian dipoles, each on the state the ones before it
    left.  The accelerator method is written to launch the kernel of the
    voltage sources and then the kernel of the Hertzian dipoles (the backend
    has no transmission lines), and does exactly that in a scope that binds
    the names its launches read; in the module as it stands the first launch
    reads the unbound name [np]: on a grid with a voltage source or a
    Hertzian dipole the call raises, no kernel is launched and no
    contribution is applied.  On the grid of the example, with one voltage
    source and one Hertzian dipole, the host backend updates both in order
    and the accelerator backend raises [NameError] with the state as it
    was. *)
Theorem accelerator_electric_sources_not_applied
    (run : Call -> FDTDGrid nat -> FDTDGrid nat) (self : CUDAUpdates)
    (w : World nat) :
  let vs := voltagesources (G w) in
  let tls := transmissionlines (G w) in
  let hds := hertziandipoles (G w) in
  let apply := apply_sources run call_src_update_electric in
  let w1 := apply hds (apply tls (apply vs w)) in
  (CPUUpdates_update_electric_sources run w
   = (inr tt, set_G (set_iteration (iteration (G w1) + 1) (G w1)) w1)
   /\ electric_sources_updated
        (events (CPUUpdates_update_electric_sources run) w)
      = vs ++ tls ++ hds)
  /\ (forall globals, sources_launchable globals self = true ->
        events (CUDAUpdates_update_electric_sources run globals self) w
        = source_launches run w)
  /\ ((vs <> [] \/ hds <> []) ->
      exists e,
        CUDAUpdates_update_electric_sources run updates_globals self w
        = (inl e, w))
  /\ events (CUDAUpdates_update_electric_sources run updates_globals self) w
     = []
  /\ (CUDAUpdates_update_electric_sources run_count updates_globals
        CUDAUpdates_all_attrs accelerator_world
      = (inl (NameError "np"), accelerator_world)
      /\ electric_sources_updated
           (events (CPUUpdates_update_electric_sources run_count)
              accelerator_world)
         = [example_source VoltageSourceUser;
            example_source HertzianDipoleUser]
      /\ kernels_launched
           (events (CUDAUpdates_update_electric_sources run_count
                      bound_globals CUDAUpdates_all_attrs) accelerator_world)
         = ["update_voltage_source"; "update_hertzian_dipole"]).
Proof.
  intros vs tls hds apply w1.
  split; [exact (CPUUpdates_update_electric_sources_order run w)|].
  split; [intros globals H;
          exact (CUDAUpdates_update_electric_sources_applied run globals self
                   w H)|].
  split.
  - intro Hsrc.
    destruct (CUDAUpdates_update_electric_sources_cases run updates_globals
                self w eq_refl) as [[Hv [Hh _]]|[_ He]]; [|exact He].
    destruct Hsrc as [Hn|Hn]; contradiction.
  - split; [exact (CUDAUpdates_update_electric_sources_events run self w)|].
    split; [vm_compute; reflexivity|].
    split; vm_compute; reflexivity.
Qed.

(** ** The two electric phases (C2) *)

Definition example_props : Props :=
  CPUUpdates_adapt_dispersive_config dispersive_world.

Lemma update_electric_phases_witness :
  (CPUUpdates_update_electric_a run_count CPUUpdates_init host_world
   = (inr tt, after run_count call_update_electric host_world)
   /\ CPUUpdates_update_electric_b run_count CPUUpdates_init host_world
      = (inr tt, host_world))
  /\ (CPUUpdates_update_electric_a run_count
        (CPUUpdates_set_dispersive_updates example_props CPUUpdates_init)
        dispersive_world
      = (inr tt,
         after run_count
           (call_dispersive_update
              "update_electric_dispersive_multipole_A_double_real" 2)
           dispersive_world)
      /\ CPUUpdates_update_electric_b run_count
           (CPUUpdates_set_dispersive_updates example_props CPUUpdates_init)
           dispersive_world
         = (inr tt,
            after run_count
              (call_dispersive_update
                 "update_electric_dispersive_multipole_B_double_real" 2)
              dispersive_world)).
Proof.
  split.
  - apply (proj1 (update_electric_phases run_count CPUUpdates_init
                    example_props host_world)).
    reflexivity.
  - apply (proj1 (proj2 (update_electric_phases run_count CPUUpdates_init
                           example_props dispersive_world))).
    simpl. lia.
Defined.

(** ** Snapshots (C3) *)

(** C3 (defect in the accelerator backend).  The claim holds on the host
    backend: [store_snapshots(it)] stores a snapshot exactly when its target
    iteration number is [it + 1], the number of the iteration just
    completed, and never twice ([CPUUpdates_store_snapshots_exactly],
    [CPUUpdates_store_snapshots_once],
    [CPUUpdates_store_snapshots_not_again]).  On the accelerator backend the
    snapshot due at iteration 3 is not stored when iteration 3 completes
    (loop index 2): the launch of the store kernel raises [NameError] on the
    unbound name [np], and nothing is added to the trace; the host backend
    stores it on the same grid, and so does the accelerator backend once
    the module binds the names the launch reads
    ([CUDAUpdates_store_snapshots_bound]). *)
Theorem accelerator_snapshot_not_stored :
  CUDAUpdates_store_snapshots run_count updates_globals CUDAUpdates_all_attrs 2
    accelerator_world
  = (inl (NameError "np"), accelerator_world)
  /\ events (CUDAUpdates_store_snapshots run_count updates_globals
               CUDAUpdates_all_attrs 2) accelerator_world = []
  /\ events (CPUUpdates_store_snapshots run_count 2) accelerator_world
     = [call_snap_store 0 (example_snapshot 3)]
  /\ events (CUDAUpdates_store_snapshots run_count bound_globals
               CUDAUpdates_all_attrs 2) accelerator_world
     = [call_gpu_store_snapshot 0 0].
Proof.
  split; [vm_compute; reflexivity|].
  split; [vm_compute; reflexivity|].
  split; vm_compute; reflexivity.
Qed.

(** ** The constant-memory budget (C4) *)

(** C4 (defect).  The test of the coefficient tables against the constant
    memory is written in [set_field_kernels], and in a scope that binds the
    names read on the way it rejects a grid over the budget with the
    capacity error, before any array is initialised on the device
    ([CUDAUpdates_set_field_kernels_rejects], [CUDAUpdates_init_rejects]).
    As the module stands it is never reached: for a grid whose tables take
    80000 bytes against 65536, initialisation raises the [NameError] of
    [dev] before [set_field_kernels] is called, and [set_field_kernels]
    called on its own raises the [NameError] of [SourceModule] at its first
    statement.  No capacity error is raised; the grid is as it was. *)
Theorem accelerator_capacity_check_unreached :
  over_budget (G over_budget_world) = true
  /\ fst (CUDAUpdates_init run_count updates_globals working_driver
            over_budget_world)
     = inl (NameError "dev")
  /\ G (snd (CUDAUpdates_init run_count updates_globals working_driver
               over_budget_world))
     = G over_budget_world
  /\ CUDAUpdates_set_field_kernels run_count updates_globals
       CUDAUpdates_all_attrs over_budget_world
     = (inl (NameError "SourceModule"), over_budget_world)
  /\ fst (CUDAUpdates_init run_count bound_globals working_driver
            over_budget_world)
     = inl (GeneralError
              "Too many materials in the model to fit onto constant memory").
Proof.
  split; [reflexivity|].
  split; [vm_compute; reflexivity|].
  split; [vm_compute; reflexivity|].
  split; vm_compute; reflexivity.
Qed.

(** ** PML orders (C6) *)

(** C6 (defect).  The message of [PMLCFS.__init__] allows the command up to
    two times, but the test is [count == 2]: of four creations in one
    process the first returns, the second is refused, and the third and the
    fourth return. *)
Theorem PMLCFS_second_creation_refused :
  let r1 := PMLCFS_init host_world in
  let r2 := PMLCFS_init (snd r1) in
  let r3 := PMLCFS_init (snd r2) in
  let r4 := PMLCFS_init (snd r3) in
  (exists self, fst r1 = inr self)
  /\ fst r2 = inl (CmdInputError
                    "can only be used up to two times, for up to a 2nd order PML")
  /\ (exists self, fst r3 = inr self)
  /\ (exists self, fst r4 = inr self)
  /\ PMLCFS_count (snd r4) = 4.
Proof.
  cbv zeta. split; [eexists; vm_compute; reflexivity|].
  split; [vm_compute; reflexivity|].
  split; [eexists; vm_compute; reflexivity|].
  split; [eexists; vm_compute; reflexivity|].
  vm_compute. reflexivity.
Qed.

(** ** Dispersive poles (C7) *)

Definition example_kwargs (n : Z) (er_delta taus omega delta alphas : list Q)
  : DispersionKwargs :=
  {| kw_n_poles := Some n; kw_er_delta := Some er_delta; kw_tau := Some taus;
     kw_omega := Some omega; kw_delta := Some delta; kw_alpha := Some alphas;
     kw_material_ids := Some ["soil"] |}.

(** One pole with permittivity difference 2, relaxation time or frequency
    3 and damping or relaxation parameter 4, each above the time step 1. *)
Definition good_poles : DispersionKwargs :=
  example_kwargs 1 [2 # 1] [3 # 1] [3 # 1] [4 # 1] [4 # 1].

(** The same pole with its last parameter lowered to 1/2, below the time
    step. *)
Definition slow_poles : DispersionKwargs :=
  example_kwargs 1 [2 # 1] [3 # 1] [3 # 1] [1 # 2] [1 # 2].

(** A Debye pole whose relaxation time 1/2 is positive and below the time
    step 1. *)
Definition short_debye_pole : DispersionKwargs :=
  example_kwargs 1 [2 # 1] [1 # 2] [] [] [].

Lemma dispersion_poles_validated_witness :
  lorentz_ok [2 # 1] [3 # 1] [4 # 1] 1 0
  /\ (exists msg, fst (AddLorentzDispersion_create slow_poles host_world)
                  = inl (CmdInputError msg))
  /\ (exists msg, fst (AddDrudeDispersion_create slow_poles host_world)
                  = inl (CmdInputError msg))
  /\ debye_ok [2 # 1] [3 # 1] 1 0.
Proof.
  assert (Hids : ["soil"] <> @nil string) by discriminate.
  split; [|split; [|split]].
  - apply (proj1 (proj1 (proj2 (dispersion_poles_validated good_poles host_world
                     1 ["soil"] eq_refl eq_refl Hids))
                     [2 # 1] [3 # 1] [4 # 1] eq_refl eq_refl eq_refl)).
    + vm_compute. reflexivity.
    + simpl. lia.
  - apply (proj2 (proj1 (proj2 (dispersion_poles_validated slow_poles host_world
                     1 ["soil"] eq_refl eq_refl Hids))
                     [2 # 1] [3 # 1] [1 # 2] eq_refl eq_refl eq_refl)).
    + reflexivity.
    + simpl. lia.
    + simpl. lia.
    + simpl. lia.
    + exists 0%nat. split; [simpl; lia|].
      intros [e [t [a [_ [_ [Ha [_ [_ H]]]]]]]]. simpl in Ha.
      injection Ha as <-. vm_compute in H. discriminate.
  - apply (proj2 (proj2 (proj2 (dispersion_poles_validated slow_poles host_world
                     1 ["soil"] eq_refl eq_refl Hids))
                     [3 # 1] [1 # 2] eq_refl eq_refl)).
    + reflexivity.
    + simpl. lia.
    + simpl. lia.
    + exists 0%nat. split; [simpl; lia|].
      intros [t [a [_ [Ha [_ H]]]]]. simpl in Ha.
      injection Ha as <-. vm_compute in H. discriminate.
  - apply (proj1 (proj1 (dispersion_poles_validated good_poles host_world
                     1 ["soil"] eq_refl eq_refl Hids)
                     [2 # 1] [3 # 1] eq_refl eq_refl)).
    + vm_compute. reflexivity.
    + simpl. lia.
Defined.

(** The claim as stated fails for Debye: creation returns for a pole whose
    relaxation time, 1/2, does not exceed the time step, 1.  The source
    says so at the test: "N.B Not checking if relaxation times are greater
    than time-step". *)
Lemma debye_accepts_relaxation_time_below_dt :
  fst (AddDebyeDispersion_create short_debye_pole host_world) = inr tt
  /\ kw_tau short_debye_pole = Some [1 # 2]
  /\ dt (G host_world) = 1%Q
  /\ ~ (dt (G host_world) < 1 # 2)%Q.
Proof.
  split; [vm_compute; reflexivity|].
  split; [reflexivity|]. split; [reflexivity|].
  intro H. vm_compute in H. discriminate.
Qed.

(** With no material named no pole is tested: a Lorentz pole whose
    permittivity difference is -1 is let through. *)
Definition unnamed_poles : DispersionKwargs :=
  {| kw_n_poles := Some 1; kw_er_delta := Some [-1 # 1]; kw_tau := Some [3 # 1];
     kw_omega := Some [3 # 1]; kw_delta := Some [4 # 1];
     kw_alpha := Some [4 # 1]; kw_material_ids := Some [] |}.

Lemma AddLorentzDispersion_create_without_material :
  AddLorentzDispersion_create unnamed_poles host_world = (inr tt, host_world).
Proof. vm_compute. reflexivity. Qed.

(** ** Source times (C8) *)

Definition example_source_kwargs : SourceKwargs :=
  {| kw_p1 := Some (5 # 1, 5 # 1, 5 # 1); kw_polarisation := Some "z";
     kw_resistance := Some (50 # 1); kw_waveform_id := Some "pulse";
     kw_start := Some 0%Q; kw_stop := Some (200 # 1) |}.

(** C8 (defect in the transmission-line command).  The claim holds for the
    voltage source, the Hertzian dipole and the magnetic dipole
    ([VoltageSource_create_times], [HertzianDipole_create_times],
    [MagneticDipole_create_times]): with the given start 0 and stop 200 on a
    time window of 100 the voltage source is stored with start 0 and stop
    100.  [TransmissionLine.create] on the same arguments stores nothing: it
    raises [NameError] at [resistance >= z0], because [z0] is bound nowhere
    in the module ([TransmissionLine_create_raises]). *)
Theorem TransmissionLine_create_stores_nothing :
  TransmissionLine_create run_count example_source_kwargs example_uip host_world
  = (inl (NameError "z0"), host_world)
  /\ fst (VoltageSource_create run_count example_source_kwargs example_uip
            host_world) = inr tt
  /\ map (fun v => (start v, stop v))
       (voltagesources
          (G (snd (VoltageSource_create run_count example_source_kwargs
                     example_uip host_world))))
     = [(0%Q, 3 # 1); (0%Q, 100 # 1)].
Proof.
  split; [vm_compute; reflexivity|].
  split; vm_compute; reflexivity.
Qed.

(** ** Snapshot creation (C9) *)

Definition example_snapshot_kwargs (n : Z) (stride : Q) : SnapshotKwargs :=
  {| snap_kw_p1 := Some (0, 0, 0)%Q;
     snap_kw_p2 := Some (10 # 1, 10 # 1, 10 # 1);
     snap_kw_dl := Some (stride, stride, stride);
     snap_kw_filename := Some "snap";
     snap_kw_iterations := Some n; snap_kw_time := None |}.

Lemma Snapshot_create_validates_witness :
  (exists s,
     snapshots (G (snd (Snapshot_create round_half_up
                          (example_snapshot_kwargs 5 (1 # 1)) example_uip
                          host_world)))
     = snapshots (G host_world) ++ [s]
     /\ valid_snapshot (G host_world) s)
  /\ (exists msg,
        Snapshot_create round_half_up (example_snapshot_kwargs 0 (1 # 1))
          example_uip host_world
        = (inl (CmdInputError msg), host_world))
  /\ (exists msg,
        Snapshot_create round_half_up (example_snapshot_kwargs 101 (1 # 1))
          example_uip host_world
        = (inl (CmdInputError msg), host_world))
  /\ (exists msg,
        Snapshot_create round_half_up (example_snapshot_kwargs 5 (1 # 2))
          example_uip host_world
        = (inl (CmdInputError msg), host_world)).
Proof.
  split; [|split; [|split]].
  - apply (proj1 (proj2 (Snapshot_create_validates round_half_up
                           (example_snapshot_kwargs 5 (1 # 1)) example_uip
                           host_world))).
    vm_compute. reflexivity.
  - apply (proj2 (proj2 (Snapshot_create_validates round_half_up
                           (example_snapshot_kwargs 0 (1 # 1)) example_uip
                           host_world))
             (0, 0, 0)%Q (10 # 1, 10 # 1, 10 # 1) (1 # 1, 1 # 1, 1 # 1) "snap"
             ((0, 0, 0), (10, 10, 10)) 0);
      try reflexivity.
    left. lia.
  - apply (proj2 (proj2 (Snapshot_create_validates round_half_up
                           (example_snapshot_kwargs 101 (1 # 1)) example_uip
                           host_world))
             (0, 0, 0)%Q (10 # 1, 10 # 1, 10 # 1) (1 # 1, 1 # 1, 1 # 1) "snap"
             ((0, 0, 0), (10, 10, 10)) 101);
      try reflexivity.
    right. left. simpl. lia.
  - apply (proj2 (proj2 (Snapshot_create_validates round_half_up
                           (example_snapshot_kwargs 5 (1 # 2)) example_uip
                           host_world))
             (0, 0, 0)%Q (10 # 1, 10 # 1, 10 # 1) (1 # 2, 1 # 2, 1 # 2) "snap"
             ((0, 0, 0), (10, 10, 10)) 5);
      try reflexivity.
    right. right. left. vm_compute. reflexivity.
Defined.

(** ** Initialising the accelerator backend (C10) *)

Lemma CUDAUpdates_init_never_returns_witness :
  fst (CUDAUpdates_init run_count updates_globals working_driver
         accelerator_world)
  = inl (NameError "dev").
Proof.
  apply (proj2 (proj2 (CUDAUpdates_init_never_returns run_count working_driver
                         accelerator_world))).
  unfold driver_ready. split; [reflexivity|]. split; [reflexivity|].
  exists example_gpu. split; reflexivity.
Defined.

(** The claim as stated fails on a grid without a device ([grid.gpu] is
    [None], as the transmission-line command tests for): with a driver whose
    calls all return, the attribute [deviceID] is read off [None] before the
    context is created, and the exception is an [AttributeError], not a
    [NameError]. *)
Lemma CUDAUpdates_init_without_device :
  gpu (G host_world) = None
  /\ fst (CUDAUpdates_init run_count updates_globals working_driver host_world)
     = inl (AttributeError "NoneType" "deviceID")
  /\ fst (CUDAUpdates_init run_count updates_globals working_driver host_world)
     <> inl (NameError "dev").
Proof.
  split; [reflexivity|].
  split; [vm_compute; reflexivity|].
  intro H. vm_compute in H. discriminate.
Qed.

(** * More of the update engine

    The operations of [updates.py] beside the electric source step and the
    snapshots: the magnetic source step, the boundary corrections, the
    dispersive functions of a fresh host backend, and on the accelerator
    backend the field launches, the kernel set-up and the copy back. *)

Section Engine.

Context {Arrays : Type}.
Variable run : Call -> FDTDGrid Arrays -> FDTDGrid Arrays.

#[local] Abbreviation World := (World Arrays).
#[local] Abbreviation py := (py Arrays).

(** A loop of outside calls, one per element, returns: the state is the one
    after the calls in list order, and the trace has grown by them. *)
Lemma for_each_call {A : Type} (mk : A -> Call) (l : list A) (w : World) :
  for_each l (fun x => call run (mk x)) w
  = (inr tt, fold_left (fun s x => after run (mk x) s) l w).
Proof. apply (for_each_total _ (fun x s => after run (mk x) s)). reflexivity. Qed.

Lemma fold_after_trace {A : Type} (mk : A -> Call) (l : list A) (w : World) :
  trace (fold_left (fun s x => after run (mk x) s) l w) = trace w ++ map mk l.
Proof.
  revert w. induction l as [|x l IH]; intro w; simpl.
  - symmetry. apply app_nil_r.
  - rewrite IH. simpl. rewrite <- app_assoc. reflexivity.
Qed.

Lemma for_each_call_events {A : Type} (mk : A -> Call) (l : World -> list A)
    (w : World) :
  events (x <- gets l ;; for_each x (fun x => call run (mk x))) w = map mk (l w).
Proof.
  apply events_of_trace. unfold bind, gets. rewrite for_each_call. simpl.
  apply fold_after_trace.
Qed.

(** ** The magnetic source step on the host backend *)

(** The sources whose [update_magnetic] was called, in call order. *)
Definition magnetic_sources_updated (evs : list Call) : list Source :=
  flat_map (fun c => match c with
                     | call_src_update_magnetic s _ => [s]
                     | _ => []
                     end) evs.

Lemma magnetic_sources_updated_map (l : list Source) (its : list Z) :
  List.length its = List.length l ->
  magnetic_sources_updated
    (map (fun p => call_src_update_magnetic (fst p) (snd p)) (combine l its)) = l.
Proof.
  revert its. induction l as [|s l IH]; intros [|i its] Hlen; simpl in *;
    try discriminate; try reflexivity.
  f_equal. apply IH. congruence.
Qed.

Lemma CPUUpdates_update_magnetic_sources_run (w : World) :
  CPUUpdates_update_magnetic_sources run w
  = (inr tt,
     apply_sources run call_src_update_magnetic
       (transmissionlines (G w) ++ magneticdipoles (G w)) w).
Proof.
  unfold CPUUpdates_update_magnetic_sources, bind, gets. simpl.
  rewrite (for_each_total _
             (fun s w => sources_step run call_src_update_magnetic w s)).
  - reflexivity.
  - intros x s. reflexivity.
Qed.

(** X1. One call to [update_magnetic_sources] on the host backend returns;
    the sources whose [update_magnetic] ran are the transmission lines
    followed by the magnetic dipoles, each once and in list order, and the
    state is the one obtained by applying the magnetic dipoles to the
    result of the transmission lines.  When the code outside leaves the
    iteration counter alone, every source is handed the counter as it
    stood before the call, and the call leaves it as it was. *)
Theorem CPUUpdates_update_magnetic_sources_order (w : World) :
  let tls := transmissionlines (G w) in
  let mds := magneticdipoles (G w) in
  let apply := apply_sources run call_src_update_magnetic in
  CPUUpdates_update_magnetic_sources run w = (inr tt, apply mds (apply tls w))
  /\ magnetic_sources_updated (events (CPUUpdates_update_magnetic_sources run) w)
     = tls ++ mds
  /\ ((forall c g, iteration (run c g) = iteration g) ->
      events (CPUUpdates_update_magnetic_sources run) w
      = map (fun s => call_src_update_magnetic s (iteration (G w))) (tls ++ mds)
      /\ iteration (G (snd (CPUUpdates_update_magnetic_sources run w)))
         = iteration (G w)).
Proof.
  intros tls mds apply.
  assert (Hrun := CPUUpdates_update_magnetic_sources_run w).
  split; [rewrite Hrun; unfold apply; now rewrite apply_sources_app|].
  split.
  - destruct (apply_sources_trace run call_src_update_magnetic (tls ++ mds) w)
      as [its [Hlen Htr]].
    rewrite (events_of_trace _ w
               (map (fun p => call_src_update_magnetic (fst p) (snd p))
                    (combine (tls ++ mds) its))).
    + apply magnetic_sources_updated_map. exact Hlen.
    + rewrite Hrun. exact Htr.
  - intro Hkeep. split.
    + apply events_of_trace. rewrite Hrun. simpl.
      apply (apply_sources_events run Hkeep).
    + rewrite Hrun. simpl. apply (apply_sources_iteration run Hkeep).
Qed.

(** ** The boundary corrections *)

(** X2. The four boundary corrections (magnetic and electric, host and
    accelerator backend) return and call the correction of every PML slab
    of the grid exactly once, in list order; with no slab they leave the
    state as it was.  On the accelerator backend they read no name the
    module leaves unbound. *)
Theorem pml_corrections_visit_every_slab (self : CUDAUpdates) (w : World) :
  let slabs := pmls (G w) in
  (fst (CPUUpdates_update_magnetic_pml run w) = inr tt
   /\ events (CPUUpdates_update_magnetic_pml run) w
      = map call_pml_update_magnetic slabs)
  /\ (fst (CPUUpdates_update_electric_pml run w) = inr tt
      /\ events (CPUUpdates_update_electric_pml run) w
         = map call_pml_update_electric slabs)
  /\ (fst (CUDAUpdates_update_magnetic_pml run self w) = inr tt
      /\ events (CUDAUpdates_update_magnetic_pml run self) w
         = map call_pml_gpu_update_magnetic slabs)
  /\ (fst (CUDAUpdates_update_electric_pml run self w) = inr tt
      /\ events (CUDAUpdates_update_electric_pml run self) w
         = map call_pml_gpu_update_electric slabs)
  /\ (slabs = [] ->
      CPUUpdates_update_magnetic_pml run w = (inr tt, w)
      /\ CPUUpdates_update_electric_pml run w = (inr tt, w)
      /\ CUDAUpdates_update_magnetic_pml run self w = (inr tt, w)
      /\ CUDAUpdates_update_electric_pml run self w = (inr tt, w)).
Proof.
  intro slabs.
  unfold CPUUpdates_update_magnetic_pml, CPUUpdates_update_electric_pml,
    CUDAUpdates_update_magnetic_pml, CUDAUpdates_update_electric_pml.
  repeat split;
    try (unfold bind, gets; rewrite for_each_call; reflexivity);
    try (apply (for_each_call_events _ (fun w => pmls (G w)))).
  all: unfold bind, gets; fold slabs; rewrite H; reflexivity.
Qed.

(** ** A fresh host backend and the dispersive functions *)

(** X3. [CPUUpdates.__init__] leaves the two dispersive functions unset:
    when the pole count of the configuration is not zero, the two electric
    phases of a fresh host backend raise [TypeError] and leave the state as
    it was; once [set_dispersive_updates] has been given the properties of
    [adapt_dispersive_config], both return. *)
Theorem CPUUpdates_fresh_dispersive_phases (w : World) :
  config_maxpoles w <> 0 ->
  let ready := CPUUpdates_set_dispersive_updates
                 (CPUUpdates_adapt_dispersive_config w) CPUUpdates_init in
  CPUUpdates_update_electric_a run CPUUpdates_init w
  = (inl (TypeError "'NoneType' object is not callable"), w)
  /\ CPUUpdates_update_electric_b run CPUUpdates_init w
     = (inl (TypeError "'NoneType' object is not callable"), w)
  /\ fst (CPUUpdates_update_electric_a run ready w) = inr tt
  /\ fst (CPUUpdates_update_electric_b run ready w) = inr tt.
Proof.
  intros Hmp ready. apply Z.eqb_neq in Hmp.
  unfold CPUUpdates_update_electric_a, CPUUpdates_update_electric_b, bind, gets.
  rewrite Hmp. simpl. repeat split.
Qed.

(** ** The field launches of the accelerator backend *)

Lemma np_in_field_reads : In (read_name "np") field_reads.
Proof. simpl. auto. Qed.

Lemma np_in_dispersive_reads : In (read_name "np") dispersive_reads.
Proof. simpl. auto. Qed.

Lemma np_in_store_outputs_reads : In (read_name "np") store_outputs_reads.
Proof. simpl. auto. Qed.

(** X4. In the module as it stands the accelerator backend launches no
    field kernel: [update_magnetic] and [update_electric_a] always raise,
    [update_electric_b] raises when the pole count is not zero,
    [update_magnetic_sources] when the grid has a magnetic dipole and
    [store_outputs] when it has a receiver, each leaving the state as it
    was; they return, having done nothing, in the remaining cases.  For
    [update_magnetic] the exception is the [NameError] of [np]. *)
Theorem accelerator_field_updates_never_launch (self : CUDAUpdates) (w : World) :
  CUDAUpdates_update_magnetic run updates_globals self w
  = (inl (NameError "np"), w)
  /\ (exists e, CUDAUpdates_update_electric_a run updates_globals self w
                = (inl e, w))
  /\ (if config_maxpoles w =? 0
      then CUDAUpdates_update_electric_b run updates_globals self w = (inr tt, w)
      else exists e, CUDAUpdates_update_electric_b run updates_globals self w
                     = (inl e, w))
  /\ (if nonempty (magneticdipoles (G w))
      then exists e, CUDAUpdates_update_magnetic_sources run updates_globals self w
                     = (inl e, w)
      else CUDAUpdates_update_magnetic_sources run updates_globals self w
           = (inr tt, w))
  /\ (if nonempty (rxs (G w))
      then exists e, CUDAUpdates_store_outputs run updates_globals self w
                     = (inl e, w)
      else CUDAUpdates_store_outputs run updates_globals self w = (inr tt, w)).
Proof.
  split; [|split; [|split; [|split]]].
  - unfold CUDAUpdates_update_magnetic. rewrite launch_run.
    unfold first_unreadable. simpl.
    replace (has_attr self "update_magnetic") with true; [reflexivity|].
    unfold has_attr. symmetry. apply orb_true_iff. right. reflexivity.
  - unfold CUDAUpdates_update_electric_a, bind, gets.
    destruct (config_maxpoles w =? 0).
    + apply (launch_unbound run _ _ _ _ _ _ "np" np_in_field_reads np_unbound).
    + apply (launch_unbound run _ _ _ _ _ _ "np" np_in_dispersive_reads
               np_unbound).
  - unfold CUDAUpdates_update_electric_b, bind, gets.
    destruct (config_maxpoles w =? 0); simpl; [reflexivity|].
    apply (launch_unbound run _ _ _ _ _ _ "np" np_in_dispersive_reads np_unbound).
  - unfold CUDAUpdates_update_magnetic_sources, when, bind, gets.
    destruct (nonempty (magneticdipoles (G w))); [|reflexivity].
    apply (launch_unbound run _ _ _ _ _ _ "np" (np_in_source_reads _)
             np_unbound).
  - unfold CUDAUpdates_store_outputs, when, bind, gets.
    destruct (nonempty (rxs (G w))); [|reflexivity].
    apply (launch_unbound run _ _ _ _ _ _ "np" np_in_store_outputs_reads
             np_unbound).
Qed.

(** ** Setting up the kernels of the accelerator backend *)

(** X5. In the module as it stands each of the four helpers that set up
    the kernels of the boundary corrections, the receivers, the sources and
    the snapshots returns the object as it was and touches nothing when the
    grid has none of them, and otherwise raises the [NameError] of
    [SourceModule], a local of [__init__]. *)
Theorem accelerator_kernel_setup (self : CUDAUpdates) (w : World) :
  (if nonempty (pmls (G w))
   then fst (CUDAUpdates_set_pml_kernels run updates_globals self w)
        = inl (NameError "SourceModule")
   else CUDAUpdates_set_pml_kernels run updates_globals self w = (inr self, w))
  /\ (if nonempty (rxs (G w))
      then fst (CUDAUpdates_set_rx_kernel run updates_globals self w)
           = inl (NameError "SourceModule")
      else CUDAUpdates_set_rx_kernel run updates_globals self w = (inr self, w))
  /\ (if nonempty (voltagesources (G w) ++ hertziandipoles (G w)
                     ++ magneticdipoles (G w))
      then CUDAUpdates_set_src_kernels run updates_globals self w
           = (inl (NameError "SourceModule"), w)
      else CUDAUpdates_set_src_kernels run updates_globals self w = (inr self, w))
  /\ (if nonempty (snapshots (G w))
      then fst (CUDAUpdates_set_snapshot_kernel run updates_globals self w)
           = inl (NameError "SourceModule")
      else CUDAUpdates_set_snapshot_kernel run updates_globals self w
           = (inr self, w)).
Proof.
  unfold CUDAUpdates_set_pml_kernels, CUDAUpdates_set_rx_kernel,
    CUDAUpdates_set_src_kernels, CUDAUpdates_set_snapshot_kernel, bind, gets.
  cbv beta iota.
  split; [|split; [|split]].
  - destruct (nonempty (pmls (G w))); reflexivity.
  - destruct (nonempty (rxs (G w))); reflexivity.
  - destruct (nonempty (voltagesources (G w) ++ hertziandipoles (G w)
                          ++ magneticdipoles (G w))); reflexivity.
  - destruct (nonempty (snapshots (G w))); reflexivity.
Qed.

(** ** Copying back from the device: [CUDAUpdates.finalise] *)

Definition snapshot_buffers : list string :=
  ["snapEx_gpu"; "snapEy_gpu"; "snapEz_gpu";
   "snapHx_gpu"; "snapHy_gpu"; "snapHz_gpu"].

(** [finalise]: the arrays of the receivers are copied back when the grid
    has receivers, then every snapshot when the grid has snapshots that
    were not copied during the run. *)
Definition CUDAUpdates_finalise (globals : list string) (self : CUDAUpdates)
  : py unit :=
  g <- gets G ;;
  when (nonempty (rxs g))
    (* gpu_get_rx_array(self.rxs_gpu.get(), self.rxcoords_gpu.get(), self.grid) *)
    (method_name globals "gpu_get_rx_array" ;;
     getattr_self self "rxs_gpu" ;;
     getattr_self self "rxcoords_gpu" ;;
     call run (call_grid_gpu "gpu_get_rx_array")) ;;
  g <- gets G ;;
  when (nonempty (snapshots g) && negb (snapsgpu2cpu g))
    (for_each (enumerate (snapshots g)) (fun p =>
       (* gpu_get_snapshot_array(self.snapEx_gpu.get(), ..., i, snap) *)
       method_name globals "gpu_get_snapshot_array" ;;
       for_each snapshot_buffers (getattr_self self) ;;
       call run (call_gpu_get_snapshot_array (fst p)))).

Lemma getattr_self_bound (self : CUDAUpdates) (a : string) (w : World) :
  has_attr self a = true -> getattr_self self a w = (inr tt, w).
Proof. unfold getattr_self. intros ->. reflexivity. Qed.

Lemma getattr_self_unbound (self : CUDAUpdates) (a : string) (w : World) :
  has_attr self a = false ->
  getattr_self self a w = (inl (AttributeError "CUDAUpdates" a), w).
Proof. unfold getattr_self. intros ->. reflexivity. Qed.

Lemma getattr_self_all (self : CUDAUpdates) (l : list string) (w : World) :
  forallb (has_attr self) l = true ->
  for_each l (getattr_self self) w = (inr tt, w).
Proof.
  induction l as [|a l IH]; simpl; [reflexivity|].
  intro H. apply andb_prop in H. destruct H as [Ha Hl].
  unfold bind. rewrite (getattr_self_bound _ _ _ Ha). apply IH. exact Hl.
Qed.

Lemma enumerate_positions {A : Type} (mk : nat -> Call) (l : list A) :
  map (fun p : nat * A => mk (fst p)) (enumerate l)
  = map mk (seq 0 (List.length l)).
Proof. rewrite <- (enumerate_indices l), map_map. reflexivity. Qed.

(** X6. On a grid without receivers, with the six snapshot buffers bound
    on the object, [finalise] returns in the module as it stands: it copies
    back every snapshot of the grid exactly once, in list order, unless the
    snapshots were copied to the host during the run, in which case it
    copies nothing. *)
Theorem CUDAUpdates_finalise_copies_snapshots (self : CUDAUpdates) (w : World) :
  rxs (G w) = [] ->
  forallb (has_attr self) snapshot_buffers = true ->
  fst (CUDAUpdates_finalise updates_globals self w) = inr tt
  /\ events (CUDAUpdates_finalise updates_globals self) w
     = if snapsgpu2cpu (G w) then []
       else map call_gpu_get_snapshot_array
              (seq 0 (List.length (snapshots (G w)))).
Proof.
  intros Hrx Hbuf.
  assert (Hbody : forall (p : nat * SnapshotUser) (s : World),
            (method_name updates_globals "gpu_get_snapshot_array" ;;
             for_each snapshot_buffers (getattr_self self) ;;
             call run (call_gpu_get_snapshot_array (fst p))) s
            = (inr tt, after run (call_gpu_get_snapshot_array (fst p)) s)).
  { intros p s. unfold bind. change (method_name updates_globals
      "gpu_get_snapshot_array" s) with (@inr exn unit tt, s).
    cbv beta iota. rewrite (getattr_self_all _ _ _ Hbuf). reflexivity. }
  assert (Hrun : CUDAUpdates_finalise updates_globals self w
                 = (inr tt,
                    if nonempty (snapshots (G w)) && negb (snapsgpu2cpu (G w))
                    then fold_left
                           (fun s (p : nat * SnapshotUser) =>
                              after run (call_gpu_get_snapshot_array (fst p)) s)
                           (enumerate (snapshots (G w))) w
                    else w)).
  { unfold CUDAUpdates_finalise, when, bind, gets. rewrite Hrx. cbv beta iota.
    unfold nonempty at 1. unfold ret at 1. cbv beta iota.
    destruct (nonempty (snapshots (G w)) && negb (snapsgpu2cpu (G w)));
      [|reflexivity].
    apply (for_each_total _
             (fun (p : nat * SnapshotUser) s =>
                after run (call_gpu_get_snapshot_array (fst p)) s)).
    exact Hbody. }
  split; [rewrite Hrun; reflexivity|].
  apply events_of_trace. rewrite Hrun. simpl.
  destruct (snapshots (G w)) as [|s0 snaps] eqn:Es.
  - simpl. destruct (snapsgpu2cpu (G w)); symmetry; apply app_nil_r.
  - destruct (snapsgpu2cpu (G w)); simpl negb; cbv beta iota.
    + simpl. symmetry. apply app_nil_r.
    + change (nonempty (s0 :: snaps) && true) with true. cbv iota.
      rewrite (fold_after_trace
                 (fun p : nat * SnapshotUser => call_gpu_get_snapshot_array (fst p))).
      rewrite (enumerate_positions call_gpu_get_snapshot_array). reflexivity.
Qed.

(** X7. [set_rx_kernel] keeps the two device arrays of the receivers in
    locals: whatever the module scope binds, the object it returns holds
    [rxs_gpu] and [rxcoords_gpu] only if the object held them before.  On
    an object without [rxs_gpu], for a grid with receivers, [finalise]
    raises [AttributeError] in the module as it stands and copies nothing
    back. *)
Theorem receiver_arrays_never_bound (globals : list string) (self : CUDAUpdates)
    (w : World) :
  (forall self' w',
     CUDAUpdates_set_rx_kernel run globals self w = (inr self', w') ->
     has_attr self' "rxs_gpu" = has_attr self "rxs_gpu"
     /\ has_attr self' "rxcoords_gpu" = has_attr self "rxcoords_gpu")
  /\ (rxs (G w) <> [] -> has_attr self "rxs_gpu" = false ->
      CUDAUpdates_finalise updates_globals self w
      = (inl (AttributeError "CUDAUpdates" "rxs_gpu"), w)).
Proof.
  split.
  - intros self' w'. unfold CUDAUpdates_set_rx_kernel, bind, gets.
    destruct (nonempty (rxs (G w))).
    + repeat match goal with
             | |- context [method_name globals ?n ?s] =>
                 destruct (method_name globals n s) as [[?|[]] ?];
                 [discriminate|]
             | |- context [getattr_self self ?n ?s] =>
                 destruct (getattr_self self n s) as [[?|[]] ?];
                 [discriminate|]
             | |- context [call run ?c ?s] =>
                 rewrite (call_run run c s)
             | |- context [note ?c ?s] =>
                 destruct (note c s) as [[?|[]] ?];
                 [discriminate|]
             end.
      unfold ret. intro H. injection H as <- _. split; reflexivity.
    + unfold ret. intro H. injection H as <- _. split; reflexivity.
  - intros Hrx Hattr. unfold CUDAUpdates_finalise, when, bind, gets.
    destruct (rxs (G w)) as [|r l]; [contradiction|].
    change (nonempty (r :: l)) with true.
    cbv beta iota. change (method_name updates_globals "gpu_get_rx_array" w)
      with (@inr exn unit tt, w). cbv beta iota.
    rewrite (getattr_self_unbound _ _ _ Hattr). reflexivity.
Qed.

End Engine.

(** * More of the source commands

    What [VoltageSource.create], [HertzianDipole.create] and
    [MagneticDipole.create] check beside the start and stop times, and what
    the source they store looks like. *)

Section Sources.

Context {Arrays : Type}.
Variable run : Call -> FDTDGrid Arrays -> FDTDGrid Arrays.

#[local] Abbreviation World := (World Arrays).

(** The polarisations the checks of a source command let through. *)
Definition allowed_polarisation (g : FDTDGrid Arrays) (p : string) : Prop :=
  In p ["x"; "y"; "z"]
  /\ (contains "2D TMx" (mode g) = true -> p = "x")
  /\ (contains "2D TMy" (mode g) = true -> p = "y")
  /\ (contains "2D TMz" (mode g) = true -> p = "z").

Lemma mem_In (n : string) (l : list string) : mem n l = true <-> In n l.
Proof.
  unfold mem. rewrite existsb_exists. split.
  - intros [x [Hin Heq]]. apply String.eqb_eq in Heq. subst. exact Hin.
  - intro H. exists n. split; [exact H|apply String.eqb_refl].
Qed.

Lemma polarisation_cases (p : string) :
  In p ["x"; "y"; "z"] ->
  (p = "x" /\ String.eqb p "x" = true /\ String.eqb p "y" = false
   /\ String.eqb p "z" = false)
  \/ (p = "y" /\ String.eqb p "x" = false /\ String.eqb p "y" = true
      /\ String.eqb p "z" = false)
  \/ (p = "z" /\ String.eqb p "x" = false /\ String.eqb p "y" = false
      /\ String.eqb p "z" = true).
Proof.
  simpl. intros [<-|[<-|[<-|[]]]]; [left|right; left|right; right];
    repeat split.
Qed.

(** The checks return exactly for the allowed polarisations. *)
Lemma check_polarisation_allowed (p : string) (w : World) :
  fst (check_polarisation p w) = inr tt <-> allowed_polarisation (G w) p.
Proof.
  unfold check_polarisation, allowed_polarisation, bind, gets. cbv beta iota.
  destruct (mem p ["x"; "y"; "z"]) eqn:Em.
  - assert (Hin := proj1 (mem_In _ _) Em).
    destruct (polarisation_cases p Hin) as [[-> _]|[[-> _]|[-> _]]];
      cbn [negb String.eqb Ascii.eqb Bool.eqb orb andb];
      destruct (contains "2D TMx" (mode (G w)));
      destruct (contains "2D TMy" (mode (G w)));
      destruct (contains "2D TMz" (mode (G w)));
      cbn [andb fst raise ret];
      (split;
       [ intro H;
         first [ discriminate H
               | split; [exact Hin|];
                 repeat split; intro H';
                 first [reflexivity | discriminate H'] ]
       | intros [_ [Hx [Hy Hz]]];
         first [ reflexivity
               | specialize (Hx eq_refl); discriminate Hx
               | specialize (Hy eq_refl); discriminate Hy
               | specialize (Hz eq_refl); discriminate Hz ] ]).
  - cbn [negb fst raise]. split; [discriminate|].
    intros [Hin _]. apply (proj2 (mem_In _ _)) in Hin. congruence.
Qed.

(** What the three commands store: a source at the cell the input helper
    returned for [p1], named after its class and its cell, with an allowed
    polarisation and the ID of a waveform of the grid, whose start is not
    below 0 and whose stop is not above the time window: the comparisons
    [start < 0] and [stop > grid.timewindow] are false on what is stored. *)
Definition well_formed (kw : SourceKwargs) (uip : UserInput) (w : World)
    (c : SourceClass) (v : Source) : Prop :=
  src_class v = c
  /\ (exists p1, kw_p1 kw = Some p1
                 /\ check_src_rx_point uip p1 = inr (xcoord v, ycoord v, zcoord v))
  /\ src_ID v = source_ID c (xcoord v) (ycoord v) (zcoord v)
  /\ (exists pol, kw_polarisation kw = Some pol /\ polarisation v = lower pol)
  /\ allowed_polarisation (G w) (polarisation v)
  /\ kw_waveform_id kw = Some (waveformID v)
  /\ In (waveformID v) (waveforms (G w))
  /\ ~ (start v < 0)%Q
  /\ ~ (timewindow (G w) < stop v)%Q.

Lemma start_stop_bounds (kw : SourceKwargs) (w w' : World) (t : Q * Q) :
  start_stop kw w = (inr t, w') ->
  w' = w /\ ~ (fst t < 0)%Q /\ ~ (timewindow (G w) < snd t)%Q.
Proof.
  cut (start_stop kw w = (inr t, w') ->
       w' = w /\ (0 <= fst t)%Q /\ (snd t <= timewindow (G w))%Q).
  { intros C H. destruct (C H) as [E [Hs He]].
    split; [exact E|]. split; apply Qle_not_lt; assumption. }
  intro H. assert (S := start_stop_spec (fun _ => 0) kw w).
  destruct (kw_start kw) as [a|]; [destruct (kw_stop kw) as [b|]|].
  - destruct S as [[_ [msg S]]|[Hok S]]; rewrite S in H; [discriminate|].
    injection H as <- <-. split; [reflexivity|]. simpl. split.
    + apply Qnot_lt_le. intro Hlt. apply Hok. left. exact Hlt.
    + unfold clamp. destruct (Qgtb b (timewindow (G w))) eqn:E.
      * apply Qle_refl.
      * apply Qgtb_le. exact E.
  - rewrite S in H. injection H as <- <-. simpl.
    split; [reflexivity|]. split; [apply Qle_refl|apply Qle_refl].
  - rewrite S in H. injection H as <- <-. simpl.
    split; [reflexivity|]. split; [apply Qle_refl|apply Qle_refl].
Qed.

(** X8. A voltage source, Hertzian dipole or magnetic dipole that is
    stored sits at the cell the input helper returned, is named after its
    class and cell, has the lower-cased polarisation of the command, which
    is x, y or z and the one the 2D mode of the grid allows, and names a
    waveform of the grid; its start is not below 0 and its stop is not
    above the time window.  A stored voltage source has a resistance that
    is not negative, and a stored Hertzian dipole has the grid spacing
    along its polarisation as its length.  The statements on the start,
    the stop and the resistance are the comparisons the commands make
    ([start < 0], [stop > grid.timewindow], [resistance < 0]), each false
    on the value stored. *)
Theorem stored_source_well_formed (kw : SourceKwargs) (uip : UserInput)
    (w : World) :
  (fst (VoltageSource_create run kw uip w) = inr tt ->
   exists v before,
     voltagesources (G (snd (VoltageSource_create run kw uip w))) = before ++ [v]
     /\ well_formed kw uip w VoltageSourceUser v
     /\ exists res, resistance v = Some res /\ ~ (res < 0)%Q)
  /\ (fst (HertzianDipole_create run kw uip w) = inr tt ->
      exists v before,
        hertziandipoles (G (snd (HertzianDipole_create run kw uip w)))
        = before ++ [v]
        /\ well_formed kw uip w HertzianDipoleUser v
        /\ ((polarisation v = "x" /\ dl v = Some (dx (G w)))
            \/ (polarisation v = "y" /\ dl v = Some (dy (G w)))
            \/ (polarisation v = "z" /\ dl v = Some (dz (G w)))))
  /\ (fst (MagneticDipole_create run kw uip w) = inr tt ->
      exists v before,
        magneticdipoles (G (snd (MagneticDipole_create run kw uip w)))
        = before ++ [v]
        /\ well_formed kw uip w MagneticDipoleUser v).
Proof.
  split; [|split].
  - intro H. revert H. unfold VoltageSource_create.
    unfold required, lift, bind, gets, modify, ret, raise.
    destruct (kw_p1 kw) as [p1|] eqn:Hp1; [|discriminate].
    destruct (kw_polarisation kw) as [pol|] eqn:Hpol; [|discriminate].
    destruct (kw_resistance kw) as [res|] eqn:Hres; [|discriminate].
    destruct (kw_waveform_id kw) as [wid|] eqn:Hwid; [|discriminate].
    cbn [option_map]. cbv beta iota.
    assert (Hst := check_polarisation_state (lower pol) w).
    assert (Hal := check_polarisation_allowed (lower pol) w).
    destruct (check_polarisation (lower pol) w) as [[e|[]] w1];
      cbn [fst snd] in *; [discriminate|]. subst w1.
    destruct (check_src_rx_point uip p1) as [e|[[x y] z]] eqn:Hpt;
      [discriminate|]. cbv beta iota.
    destruct (Qltb res 0) eqn:Eres; [discriminate|]. cbv beta iota.
    destruct (mem wid (waveforms (G w))) eqn:Ew;
      [|cbn; discriminate]. cbn [negb]. cbv beta iota.
    destruct (start_stop kw w) as [[e|t] w2] eqn:Et; [discriminate|].
    destruct (start_stop_bounds _ _ _ _ Et) as [-> [Hs He]].
    cbn [fst snd]. intros _. eexists. eexists. split; [reflexivity|].
    split.
    + unfold well_formed. cbn.
      split; [reflexivity|]. split; [exists p1; split; [exact Hp1|exact Hpt]|].
      split; [reflexivity|]. split; [exists pol; split; [exact Hpol|reflexivity]|].
      split; [apply Hal; reflexivity|]. split; [exact Hwid|].
      split; [apply mem_In; exact Ew|]. split; assumption.
    + cbn. exists res. split; [reflexivity|].
      apply Qle_not_lt. apply Qltb_le. exact Eres.
  - intro H. revert H. unfold HertzianDipole_create.
    unfold required, lift, bind, gets, modify, ret, raise.
    destruct (kw_polarisation kw) as [pol|] eqn:Hpol; [|discriminate].
    destruct (kw_p1 kw) as [p1|] eqn:Hp1; [|discriminate].
    destruct (kw_waveform_id kw) as [wid|] eqn:Hwid; [|discriminate].
    cbn [option_map]. cbv beta iota.
    assert (Hst := check_polarisation_state (lower pol) w).
    assert (Hal := check_polarisation_allowed (lower pol) w).
    destruct (check_polarisation (lower pol) w) as [[e|[]] w1];
      cbn [fst snd] in *; [discriminate|]. subst w1.
    destruct (check_src_rx_point uip p1) as [e|[[x y] z]] eqn:Hpt;
      [discriminate|]. cbv beta iota.
    destruct (mem wid (waveforms (G w))) eqn:Ew;
      [|cbn; discriminate]. cbn [negb]. cbv beta iota.
    destruct (start_stop kw w) as [[e|t] w2] eqn:Et; [discriminate|].
    destruct (start_stop_bounds _ _ _ _ Et) as [-> [Hs He]].
    cbn [fst snd]. intros _. eexists. eexists. split; [reflexivity|].
    assert (Hal' := proj1 Hal eq_refl).
    split.
    + unfold well_formed. cbn.
      split; [reflexivity|]. split; [exists p1; split; [exact Hp1|exact Hpt]|].
      split; [reflexivity|]. split; [exists pol; split; [exact Hpol|reflexivity]|].
      split; [exact Hal'|]. split; [exact Hwid|].
      split; [apply mem_In; exact Ew|]. split; assumption.
    + cbn [polarisation dl].
      destruct (polarisation_cases _ (proj1 Hal'))
        as [[Hp [-> _]]|[[Hp [-> [-> _]]]|[Hp [-> [-> ->]]]]]; auto.
  - intro H. revert H. unfold MagneticDipole_create.
    unfold required, lift, bind, gets, modify, ret, raise.
    destruct (kw_polarisation kw) as [pol|] eqn:Hpol; [|discriminate].
    destruct (kw_p1 kw) as [p1|] eqn:Hp1; [|discriminate].
    destruct (kw_waveform_id kw) as [wid|] eqn:Hwid; [|discriminate].
    cbn [option_map]. cbv beta iota.
    assert (Hst := check_polarisation_state (lower pol) w).
    assert (Hal := check_polarisation_allowed (lower pol) w).
    destruct (check_polarisation (lower pol) w) as [[e|[]] w1];
      cbn [fst snd] in *; [discriminate|]. subst w1.
    destruct (check_src_rx_point uip p1) as [e|[[x y] z]] eqn:Hpt;
      [discriminate|]. cbv beta iota.
    destruct (mem wid (waveforms (G w))) eqn:Ew;
      [|cbn; discriminate]. cbn [negb]. cbv beta iota.
    destruct (start_stop kw w) as [[e|t] w2] eqn:Et; [discriminate|].
    destruct (start_stop_bounds _ _ _ _ Et) as [-> [Hs He]].
    cbn [fst snd]. intros _. eexists. eexists. split; [reflexivity|].
    unfold well_formed. cbn.
    split; [reflexivity|]. split; [exists p1; split; [exact Hp1|exact Hpt]|].
    split; [reflexivity|]. split; [exists pol; split; [exact Hpol|reflexivity]|].
    split; [apply Hal; reflexivity|]. split; [exact Hwid|].
    split; [apply mem_In; exact Ew|]. split; assumption.
Qed.

(** X9. A source command that names no waveform of the grid stores
    nothing.  The magnetic dipole is refused with [CmdInputError]; the
    voltage source and the Hertzian dipole build their message from the
    name [tmp], which is bound nowhere in the module, and raise
    [NameError] instead. *)
Theorem source_unknown_waveform (kw : SourceKwargs) (uip : UserInput)
    (w : World) (p1 : Q * Q * Q) (pol wid : string) (c : Z * Z * Z) :
  kw_p1 kw = Some p1 -> kw_polarisation kw = Some pol ->
  kw_waveform_id kw = Some wid ->
  fst (check_polarisation (lower pol) w) = inr tt ->
  check_src_rx_point uip p1 = inr c ->
  ~ In wid (waveforms (G w)) ->
  HertzianDipole_create run kw uip w = (inl (NameError "tmp"), w)
  /\ (exists msg, MagneticDipole_create run kw uip w
                  = (inl (CmdInputError msg), w))
  /\ (forall res, kw_resistance kw = Some res -> (0 <= res)%Q ->
      VoltageSource_create run kw uip w = (inl (NameError "tmp"), w)).
Proof.
  intros Hp1 Hpol Hwid Hcheck Hpoint Hnone.
  assert (Hw : mem wid (waveforms (G w)) = false).
  { destruct (mem wid (waveforms (G w))) eqn:E; [|reflexivity].
    apply mem_In in E. contradiction. }
  assert (Hst := check_polarisation_state (lower pol) w).
  split; [|split].
  - unfold HertzianDipole_create, required, lift, bind, gets, ret, raise.
    rewrite Hp1, Hpol, Hwid. cbn [option_map]. cbv beta iota.
    destruct (check_polarisation (lower pol) w) as [[e|[]] w1];
      cbn [fst snd] in *; [discriminate|]. subst w1.
    rewrite Hpoint, Hw. reflexivity.
  - unfold MagneticDipole_create, required, lift, bind, gets, ret, raise.
    rewrite Hp1, Hpol, Hwid. cbn [option_map]. cbv beta iota.
    destruct (check_polarisation (lower pol) w) as [[e|[]] w1];
      cbn [fst snd] in *; [discriminate|]. subst w1.
    rewrite Hpoint, Hw. eexists. reflexivity.
  - intros res Hres Hpos. apply Qltb_le in Hpos.
    unfold VoltageSource_create, required, lift, bind, gets, ret, raise.
    rewrite Hp1, Hpol, Hres, Hwid. cbn [option_map]. cbv beta iota.
    destruct (check_polarisation (lower pol) w) as [[e|[]] w1];
      cbn [fst snd] in *; [discriminate|]. subst w1.
    rewrite Hpoint. cbv beta iota. rewrite Hpos, Hw. reflexivity.
Qed.

End Sources.

(** * More of the dispersion commands

    What [AddDebyeDispersion.create], [AddLorentzDispersion.create] and
    [AddDrudeDispersion.create] do to the grid beside testing the poles. *)

Section Dispersion.

Context {Arrays : Type}.

#[local] Abbreviation World := (World Arrays).
#[local] Abbreviation py := (py Arrays).

(** A material marked as dispersive of type [t] with [n] poles. *)
Definition dispersive_as (t : string) (n : Z) (x : Material) : Prop :=
  mat_type x = t /\ poles x = n /\ averagable x = false.

(** What every assignment of the commands keeps of a material: its ID and
    number, and the mark once it is set. *)
Definition kept (t : string) (n : Z) (x y : Material) : Prop :=
  mat_ID y = mat_ID x /\ numID y = numID x
  /\ (dispersive_as t n x -> dispersive_as t n y).

(** [s'] differs from [s] in attributes of materials only, and in the class
    attribute [Material.maxpoles], which has not decreased. *)
Definition frame (t : string) (n : Z) (s s' : World) : Prop :=
  exists l k,
    s' = set_MaterialUser_maxpoles k (set_G (set_materials l (G s)) s)
    /\ Forall2 (kept t n) (materials (G s)) l
    /\ MaterialUser_maxpoles s <= k.

Lemma kept_refl t n x : kept t n x x.
Proof. unfold kept. tauto. Qed.

Lemma kept_trans t n x y z : kept t n x y -> kept t n y z -> kept t n x z.
Proof.
  intros [H1 [H2 H3]] [K1 [K2 K3]].
  split; [congruence|]. split; [congruence|]. intro H. apply K3, H3, H.
Qed.

Lemma Forall2_kept_refl t n (l : list Material) : Forall2 (kept t n) l l.
Proof. induction l; constructor; auto using kept_refl. Qed.

Lemma Forall2_kept_trans t n (l1 l2 l3 : list Material) :
  Forall2 (kept t n) l1 l2 -> Forall2 (kept t n) l2 l3 -> Forall2 (kept t n) l1 l3.
Proof.
  intro H. revert l3. induction H; intros l3 K; inversion K; subst; constructor.
  - eapply kept_trans; eassumption.
  - auto.
Qed.

Lemma frame_refl t n (s : World) : frame t n s s.
Proof.
  exists (materials (G s)), (MaterialUser_maxpoles s).
  split; [|split; [apply Forall2_kept_refl|lia]].
  destruct s as [g ? ? ? ? ? ? ?]. destruct g. reflexivity.
Qed.

Lemma frame_trans t n (s1 s2 s3 : World) :
  frame t n s1 s2 -> frame t n s2 s3 -> frame t n s1 s3.
Proof.
  intros [l [k [-> [H1 H2]]]] [l' [k' [-> [K1 K2]]]].
  exists l', k'. split; [reflexivity|]. simpl in *. split.
  - eapply Forall2_kept_trans; eassumption.
  - lia.
Qed.

(** A computation that keeps the frame from every state, however it ends. *)
Definition framed (t : string) (n : Z) {A : Type} (c : py A) : Prop :=
  forall s, frame t n s (snd (c s)).

Lemma framed_ret t n {A : Type} (a : A) : framed t n (ret a : py A).
Proof. intro s. apply frame_refl. Qed.

Lemma framed_raise t n {A : Type} (e : exn) : framed t n (raise e : py A).
Proof. intro s. apply frame_refl. Qed.

Lemma framed_gets t n {A : Type} (f : World -> A) : framed t n (gets f).
Proof. intro s. apply frame_refl. Qed.

Lemma framed_index t n {A : Type} (l : list A) (i : nat) :
  framed t n (index l i : py A).
Proof. intro s. unfold index. destruct (nth_error l i); apply frame_refl. Qed.

Lemma framed_required t n {A : Type} (o : option A) (msg : string) :
  framed t n (required o msg : py A).
Proof. intro s. unfold required. destruct o; apply frame_refl. Qed.

Lemma framed_bind t n {A B : Type} (m : py A) (k : A -> py B) :
  framed t n m -> (forall a, framed t n (k a)) -> framed t n (bind m k).
Proof.
  intros Hm Hk s. unfold bind. specialize (Hm s).
  destruct (m s) as [[e|a] s1]; simpl in *; [exact Hm|].
  eapply frame_trans; [exact Hm|apply Hk].
Qed.

Lemma framed_for_each t n {A : Type} (l : list A) (body : A -> py unit) :
  (forall x, framed t n (body x)) -> framed t n (for_each l body).
Proof.
  intro Hb. induction l as [|x l IH]; simpl.
  - apply framed_ret.
  - apply framed_bind; auto.
Qed.

Lemma Forall2_alter_nth t n (f : Material -> Material) (m : nat)
    (l : list Material) :
  (forall x, kept t n x (f x)) -> Forall2 (kept t n) l (alter_nth m f l).
Proof.
  intro Hf. revert m. induction l as [|x l IH]; intros [|m]; simpl;
    constructor; auto using kept_refl, Forall2_kept_refl.
Qed.

Lemma framed_alter t n (m : nat) (f : Material -> Material) :
  (forall x, kept t n x (f x)) -> framed t n (alter_material m f).
Proof.
  intros Hf s. unfold alter_material, modify. simpl.
  exists (alter_nth m f (materials (G s))), (MaterialUser_maxpoles s).
  split; [|split; [apply Forall2_alter_nth; exact Hf|lia]].
  destruct s as [g ? ? ? ? ? ? ?]. destruct g. reflexivity.
Qed.

Lemma kept_make_dispersive t n x : kept t n x (make_dispersive t n x).
Proof. repeat split. Qed.

Lemma kept_append_deltaer t n q x : kept t n x (append_deltaer q x).
Proof. unfold kept, dispersive_as. simpl. tauto. Qed.

Lemma kept_append_tau t n q x : kept t n x (append_tau q x).
Proof. unfold kept, dispersive_as. simpl. tauto. Qed.

Lemma kept_append_alpha t n q x : kept t n x (append_alpha q x).
Proof. unfold kept, dispersive_as. simpl. tauto. Qed.

Ltac framed_steps :=
  repeat first
    [ apply framed_ret | apply framed_raise | apply framed_gets
    | apply framed_index | apply framed_required
    | apply framed_alter;
      first [ apply kept_make_dispersive | apply kept_append_deltaer
            | apply kept_append_tau | apply kept_append_alpha ]
    | apply framed_bind; [|intro]
    | match goal with
      | |- framed _ _ (if ?c then _ else _) => destruct c
      end ].

Lemma framed_debye_pole t n er taus m i : framed t n (debye_pole er taus m i).
Proof. unfold debye_pole. framed_steps. Qed.

Lemma framed_lorentz_pole t n er taus alphas m i :
  framed t n (lorentz_pole er taus alphas m i).
Proof. unfold lorentz_pole. framed_steps. Qed.

Lemma framed_drude_pole t n taus alphas m i :
  framed t n (drude_pole taus alphas m i).
Proof. unfold drude_pole. framed_steps. Qed.

Section Poles.

Variable t : string.
Variable n : Z.
Variable pole : nat -> nat -> py unit.
Hypothesis pole_framed : forall m i, framed t n (pole m i).

(** A pole writes no class attribute. *)
Hypothesis pole_maxpoles :
  forall m i s, MaterialUser_maxpoles (snd (pole m i s)) = MaterialUser_maxpoles s.

(** The body of the loop over the materials found. *)
Definition dispersion_body (m : nat) : py unit :=
  alter_material m (make_dispersive t n) ;;
  for_each (range n) (pole m) ;;
  mx <- gets MaterialUser_maxpoles ;;
  when (n >? mx) (modify (set_MaterialUser_maxpoles n)).

Lemma frame_set_maxpoles (s : World) :
  MaterialUser_maxpoles s <= n -> frame t n s (set_MaterialUser_maxpoles n s).
Proof.
  intro H. exists (materials (G s)), n.
  split; [|split; [apply Forall2_kept_refl|exact H]].
  destruct s as [g ? ? ? ? ? ? ?]. destruct g. reflexivity.
Qed.

Lemma framed_after_alter (m : nat) :
  framed t n (for_each (range n) (pole m) ;;
              mx <- gets MaterialUser_maxpoles ;;
              when (n >? mx) (modify (set_MaterialUser_maxpoles n))).
Proof.
  apply framed_bind; [apply framed_for_each; apply pole_framed|]. intros _.
  intro s. unfold bind, gets, when, modify. simpl.
  destruct (n >? MaterialUser_maxpoles s) eqn:E; simpl.
  - apply frame_set_maxpoles. apply Z.gtb_lt in E. lia.
  - apply frame_refl.
Qed.

Lemma framed_dispersion_body (m : nat) : framed t n (dispersion_body m).
Proof.
  unfold dispersion_body. apply framed_bind.
  - apply framed_alter. apply kept_make_dispersive.
  - intros _. apply framed_after_alter.
Qed.

Lemma framed_add_dispersion (ids : list string) :
  framed t n (add_dispersion t n ids pole).
Proof.
  unfold add_dispersion.
  apply framed_bind; [destruct (n <? 0); framed_steps|]. intros _.
  apply framed_bind; [apply framed_gets|]. intro g.
  apply framed_bind.
  - match goal with |- framed _ _ (if ?c then _ else _) => destruct c end;
      framed_steps.
  - intros _. apply framed_for_each. intro m. apply framed_dispersion_body.
Qed.

(** The mark of the material at a position, carried along a frame. *)
Definition marked (m : nat) (s : World) : Prop :=
  exists x, nth_error (materials (G s)) m = Some x /\ dispersive_as t n x.

Lemma marked_frame (m : nat) (s s' : World) :
  frame t n s s' -> marked m s -> marked m s'.
Proof.
  intros [l [k [-> [H _]]]] [x [Hx Hd]]. unfold marked. simpl.
  revert m Hx. induction H as [|a b l1 l2 Hab _ IH]; intros [|m] Hx;
    simpl in *; try discriminate.
  - injection Hx as ->. exists b. split; [reflexivity|]. apply Hab. exact Hd.
  - apply IH. exact Hx.
Qed.

Lemma marked_alter (m : nat) (s : World) (x : Material) :
  nth_error (materials (G s)) m = Some x ->
  marked m (snd (alter_material m (make_dispersive t n) s)).
Proof.
  intro Hx. unfold marked, alter_material, modify. simpl.
  exists (make_dispersive t n x). split; [|repeat split].
  revert m Hx. induction (materials (G s)) as [|a l IH]; intros [|m] Hx;
    simpl in *; try discriminate.
  - injection Hx as ->. reflexivity.
  - apply IH. exact Hx.
Qed.

(** Once its body has started, a material is marked, however the body and
    the rest of the loop end. *)
Lemma marked_body (m : nat) (s : World) (x : Material) :
  nth_error (materials (G s)) m = Some x ->
  marked m (snd (dispersion_body m s)).
Proof.
  intro Hx. unfold dispersion_body. unfold bind at 1.
  assert (Ha := marked_alter m s x Hx).
  destruct (alter_material m (make_dispersive t n) s) as [[e|[]] s1] eqn:E;
    [unfold alter_material, modify in E; discriminate|].
  simpl in Ha. eapply marked_frame; [apply framed_after_alter|exact Ha].
Qed.

Lemma nth_error_frame (m : nat) (s s' : World) (x : Material) :
  frame t n s s' -> nth_error (materials (G s)) m = Some x ->
  exists y, nth_error (materials (G s')) m = Some y.
Proof.
  intros [l [k [-> [H _]]]] Hx. simpl.
  revert m Hx. induction H as [|a b l1 l2 Hab _ IH]; intros [|m] Hx;
    simpl in *; try discriminate; eauto.
Qed.

Lemma marked_loop (found : list nat) (s s' : World) :
  (forall m, In m found -> exists x, nth_error (materials (G s)) m = Some x) ->
  for_each found dispersion_body s = (inr tt, s') ->
  forall m, In m found -> marked m s'.
Proof.
  revert s. induction found as [|m0 found IH]; intros s Hpos Hrun m Hin.
  - destruct Hin.
  - simpl in Hrun. unfold bind in Hrun.
    assert (Hf := framed_dispersion_body m0 s).
    destruct (Hpos m0 (or_introl eq_refl)) as [x0 Hx0].
    assert (Hm0 := marked_body m0 s x0 Hx0).
    destruct (dispersion_body m0 s) as [[e|[]] s1]; [discriminate|].
    simpl in Hf, Hm0.
    assert (Hrest : frame t n s1 s').
    { assert (H := framed_for_each t n found dispersion_body
                     framed_dispersion_body s1).
      rewrite Hrun in H. exact H. }
    destruct Hin as [<-|Hin].
    + eapply marked_frame; eassumption.
    + apply (IH s1); auto. intros m' Hm'.
      destruct (Hpos m' (or_intror Hm')) as [x' Hx'].
      eapply nth_error_frame; eassumption.
Qed.

Lemma marked_first (m0 : nat) (found : list nat) (s : World) (x : Material) :
  nth_error (materials (G s)) m0 = Some x ->
  marked m0 (snd (for_each (m0 :: found) dispersion_body s)).
Proof.
  intro Hx. simpl. unfold bind.
  assert (Hm0 := marked_body m0 s x Hx).
  destruct (dispersion_body m0 s) as [[e|[]] s1]; simpl in *; [exact Hm0|].
  eapply marked_frame; [|exact Hm0].
  apply (framed_for_each t n found dispersion_body framed_dispersion_body).
Qed.

(** The class attribute after the loop has returned. *)
Lemma maxpoles_loop_poles (m : nat) (l : list nat) (s : World) :
  MaterialUser_maxpoles (snd (for_each l (pole m) s)) = MaterialUser_maxpoles s.
Proof.
  apply (for_each_invariant
           (fun s' => MaterialUser_maxpoles s' = MaterialUser_maxpoles s)).
  - intros i s' H. rewrite pole_maxpoles. exact H.
  - reflexivity.
Qed.

Lemma maxpoles_body (m : nat) (s s' : World) :
  dispersion_body m s = (inr tt, s') ->
  MaterialUser_maxpoles s' = Z.max (MaterialUser_maxpoles s) n.
Proof.
  unfold dispersion_body. unfold bind at 1.
  unfold alter_material at 1. unfold modify at 1.
  set (s1 := set_G _ s). unfold bind at 1.
  assert (H := maxpoles_loop_poles m (range n) s1).
  destruct (for_each (range n) (pole m) s1) as [[e|[]] s2]; [discriminate|].
  simpl in H. unfold bind, gets, when, modify. simpl.
  change (MaterialUser_maxpoles s1) with (MaterialUser_maxpoles s) in H.
  destruct (n >? MaterialUser_maxpoles s2) eqn:E; simpl;
    intro K; injection K as <-; simpl.
  - apply Z.gtb_lt in E. lia.
  - assert (~ MaterialUser_maxpoles s2 < n) by (rewrite <- Z.gtb_lt; congruence).
    lia.
Qed.

Lemma maxpoles_loop (found : list nat) (s s' : World) :
  found <> [] ->
  for_each found dispersion_body s = (inr tt, s') ->
  MaterialUser_maxpoles s' = Z.max (MaterialUser_maxpoles s) n.
Proof.
  revert s. induction found as [|m0 found IH]; intros s Hne Hrun;
    [contradiction|].
  simpl in Hrun. unfold bind in Hrun.
  destruct (dispersion_body m0 s) as [[e|[]] s1] eqn:E; [discriminate|].
  apply maxpoles_body in E.
  destruct found as [|m1 found].
  - simpl in Hrun. injection Hrun as <-. exact E.
  - rewrite (IH s1 ltac:(discriminate) Hrun), E. lia.
Qed.

End Poles.

(** Positions found are positions of the list. *)
Lemma find_materials_positions (ids : list string) (ms : list Material) (m : nat) :
  In m (find_materials ids ms) ->
  exists x, nth_error ms m = Some x /\ In (mat_ID x) ids.
Proof.
  unfold find_materials. rewrite in_flat_map. intros [id [Hid Hm]].
  apply in_map_iff in Hm. destruct Hm as [[m' x] [Heq Hin]]. simpl in Heq.
  subst m'. apply filter_In in Hin. destruct Hin as [Hin Hx]. simpl in Hx.
  apply in_enumerate in Hin. apply String.eqb_eq in Hx.
  exists x. split; [exact Hin|]. rewrite Hx. exact Hid.
Qed.

Lemma find_materials_complete_positions (ids : list string) (ms : list Material)
    (m : nat) (x : Material) :
  nth_error ms m = Some x -> In (mat_ID x) ids -> In m (find_materials ids ms).
Proof.
  intros Hx Hid. unfold find_materials. rewrite in_flat_map.
  exists (mat_ID x). split; [exact Hid|].
  apply in_map_iff. exists (m, x). split; [reflexivity|].
  apply filter_In. split; [apply in_enumerate; exact Hx|].
  simpl. apply String.eqb_refl.
Qed.


(** A computation that leaves the class attribute [Material.maxpoles] as it
    is, however it ends. *)
Definition quiet {A : Type} (c : py A) : Prop :=
  forall s, MaterialUser_maxpoles (snd (c s)) = MaterialUser_maxpoles s.

Lemma quiet_bind {A B : Type} (m : py A) (k : A -> py B) :
  quiet m -> (forall a, quiet (k a)) -> quiet (bind m k).
Proof.
  intros Hm Hk s. unfold bind. specialize (Hm s).
  destruct (m s) as [[e|a] s1]; simpl in *; [exact Hm|].
  rewrite Hk. exact Hm.
Qed.

Lemma quiet_index {A : Type} (l : list A) (i : nat) : quiet (index l i : py A).
Proof. intro s. unfold index. destruct (nth_error l i); reflexivity. Qed.

Lemma quiet_alter (m : nat) (f : Material -> Material) : quiet (alter_material m f).
Proof. intro s. reflexivity. Qed.

Ltac quiet_steps :=
  repeat first
    [ apply quiet_index | apply quiet_alter
    | apply quiet_bind; [|intro]
    | match goal with
      | |- quiet (if ?c then _ else _) => destruct c
      end
    | intro; reflexivity ].

Lemma quiet_debye_pole er taus m i : quiet (debye_pole er taus m i).
Proof. unfold debye_pole. quiet_steps. Qed.

Lemma quiet_lorentz_pole er taus alphas m i :
  quiet (lorentz_pole er taus alphas m i).
Proof. unfold lorentz_pole. quiet_steps. Qed.

Lemma quiet_drude_pole taus alphas m i : quiet (drude_pole taus alphas m i).
Proof. unfold drude_pole. quiet_steps. Qed.

(** The three commands. *)
Inductive Dispersion : Type := Debye | Lorentz | Drude.

Definition dispersion_create (d : Dispersion) : DispersionKwargs -> py unit :=
  match d with
  | Debye => AddDebyeDispersion_create
  | Lorentz => AddLorentzDispersion_create
  | Drude => AddDrudeDispersion_create
  end.

(** [material.type] as each command sets it. *)
Definition type_tag (d : Dispersion) : string :=
  match d with Debye => "debye" | Lorentz => "lorentz" | Drude => "drude" end.

(** The pole parameters each command reads from its keywords. *)
Definition pole_of (d : Dispersion) (kw : DispersionKwargs)
  : option (nat -> nat -> py unit) :=
  match d with
  | Debye =>
      match kw_er_delta kw, kw_tau kw with
      | Some er, Some taus => Some (debye_pole er taus)
      | _, _ => None
      end
  | Lorentz =>
      match kw_er_delta kw, kw_omega kw, kw_delta kw with
      | Some er, Some omega, Some delta => Some (lorentz_pole er omega delta)
      | _, _, _ => None
      end
  | Drude =>
      match kw_tau kw, kw_alpha kw with
      | Some taus, Some alphas => Some (drude_pole taus alphas)
      | _, _ => None
      end
  end.

(** A command with a keyword left out is refused and changes nothing;
    otherwise it is the shared body run on its own pole test. *)
Lemma dispersion_create_body (d : Dispersion) (kw : DispersionKwargs) (w : World) :
  match kw_n_poles kw, pole_of d kw, kw_material_ids kw with
  | Some n, Some pole, Some ids =>
      dispersion_create d kw w = add_dispersion (type_tag d) n ids pole w
  | _, _, _ =>
      exists msg, dispersion_create d kw w = (inl (CmdInputError msg), w)
  end.
Proof.
  destruct d; simpl;
    unfold AddDebyeDispersion_create, AddLorentzDispersion_create,
      AddDrudeDispersion_create, required, bind;
    destruct (kw_n_poles kw); try (eexists; reflexivity);
    destruct (kw_er_delta kw); try (eexists; reflexivity);
    destruct (kw_tau kw); try (eexists; reflexivity);
    destruct (kw_omega kw); try (eexists; reflexivity);
    destruct (kw_delta kw); try (eexists; reflexivity);
    destruct (kw_alpha kw); try (eexists; reflexivity);
    destruct (kw_material_ids kw); try (eexists; reflexivity);
    reflexivity.
Qed.

Lemma pole_of_framed (d : Dispersion) (kw : DispersionKwargs) pole t n :
  pole_of d kw = Some pole ->
  (forall m i, framed t n (pole m i)) /\ (forall m i, quiet (pole m i)).
Proof.
  destruct d; simpl;
    repeat match goal with
           | |- context [match ?o with Some _ => _ | None => _ end] => destruct o
           end;
    intro H; try discriminate H; injection H as <-; split; intros m i;
    auto using framed_debye_pole, framed_lorentz_pole, framed_drude_pole,
      quiet_debye_pole, quiet_lorentz_pole, quiet_drude_pole.
Qed.

Lemma frame_nth t n (m : nat) (s s' : World) (x : Material) :
  frame t n s s' -> nth_error (materials (G s)) m = Some x ->
  exists y, nth_error (materials (G s')) m = Some y /\ kept t n x y.
Proof.
  intros [l [k [-> [H _]]]] Hx. simpl.
  revert m Hx. induction H as [|a b l1 l2 Hab _ IH]; intros [|m] Hx;
    simpl in *; try discriminate.
  - injection Hx as ->. eauto.
  - apply IH. exact Hx.
Qed.

Lemma frame_lists t n (s s' : World) :
  frame t n s s' ->
  map mat_ID (materials (G s')) = map mat_ID (materials (G s))
  /\ map numID (materials (G s')) = map numID (materials (G s))
  /\ MaterialUser_maxpoles s <= MaterialUser_maxpoles s'
  /\ s' = set_MaterialUser_maxpoles (MaterialUser_maxpoles s')
            (set_G (set_materials (materials (G s')) (G s)) s).
Proof.
  intros [l [k [-> [H Hk]]]]. simpl.
  split; [|split; [|split; [exact Hk|reflexivity]]].
  - induction H as [|a b l1 l2 [Hab _] _ IH]; simpl; [reflexivity|].
    now rewrite Hab, IH.
  - induction H as [|a b l1 l2 [_ [Hab _]] _ IH]; simpl; [reflexivity|].
    now rewrite Hab, IH.
Qed.

(** X10. Whether a dispersion command is accepted or refused, it changes
    nothing but attributes of materials and the class attribute
    [Material.maxpoles]: the materials of the grid keep their number, their
    order, their IDs and their numeric IDs, [Material.maxpoles] does not
    decrease, and the rest of the state is as it was. *)
Theorem dispersion_commands_frame (d : Dispersion) (kw : DispersionKwargs)
    (w : World) :
  let w' := snd (dispersion_create d kw w) in
  map mat_ID (materials (G w')) = map mat_ID (materials (G w))
  /\ map numID (materials (G w')) = map numID (materials (G w))
  /\ MaterialUser_maxpoles w <= MaterialUser_maxpoles w'
  /\ w' = set_MaterialUser_maxpoles (MaterialUser_maxpoles w')
            (set_G (set_materials (materials (G w')) (G w)) w).
Proof.
  cbv zeta. assert (H := dispersion_create_body d kw w).
  assert (Hrefused : forall msg,
            dispersion_create d kw w = (inl (CmdInputError msg), w) ->
            frame "" 0 w (snd (dispersion_create d kw w))).
  { intros msg ->. apply frame_refl. }
  destruct (kw_n_poles kw) as [n|];
    [|destruct H as [msg H]; apply (frame_lists "" 0); eauto].
  destruct (pole_of d kw) as [pole|] eqn:Ep;
    [|destruct H as [msg H]; apply (frame_lists "" 0); eauto].
  destruct (kw_material_ids kw) as [ids|];
    [|destruct H as [msg H]; apply (frame_lists "" 0); eauto].
  rewrite H. apply (frame_lists (type_tag d) n).
  apply framed_add_dispersion.
  apply (pole_of_framed d kw pole (type_tag d) n Ep).
Qed.

(** The keywords of the pole parameters are all given. *)
Definition keys_present (d : Dispersion) (kw : DispersionKwargs) : Prop :=
  match d with
  | Debye => kw_er_delta kw <> None /\ kw_tau kw <> None
  | Lorentz => kw_er_delta kw <> None /\ kw_omega kw <> None
               /\ kw_delta kw <> None
  | Drude => kw_tau kw <> None /\ kw_alpha kw <> None
  end.

Lemma keys_present_pole (d : Dispersion) (kw : DispersionKwargs) :
  keys_present d kw <-> exists pole, pole_of d kw = Some pole.
Proof.
  destruct d; simpl;
    repeat match goal with
           | |- context [match ?o with Some _ => _ | None => _ end] => destruct o
           end;
    split; try (intros _; eexists; reflexivity);
    try (intros [pole H]; discriminate H);
    try (intros _; repeat split; discriminate);
    intro H; exfalso; tauto.
Qed.

(** What an accepted command has read and run. *)
Lemma dispersion_create_accepted (d : Dispersion) (kw : DispersionKwargs)
    (w w' : World) :
  dispersion_create d kw w = (inr tt, w') ->
  exists n ids pole,
    kw_n_poles kw = Some n /\ kw_material_ids kw = Some ids
    /\ pole_of d kw = Some pole
    /\ 0 <= n
    /\ List.length (find_materials ids (materials (G w))) = List.length ids
    /\ for_each (find_materials ids (materials (G w)))
         (dispersion_body (type_tag d) n pole) w = (inr tt, w').
Proof.
  intro Hrun. assert (H := dispersion_create_body d kw w).
  destruct (kw_n_poles kw) as [n|];
    [|destruct H as [msg H]; rewrite H in Hrun; discriminate].
  destruct (pole_of d kw) as [pole|] eqn:Ep;
    [|destruct H as [msg H]; rewrite H in Hrun; discriminate].
  destruct (kw_material_ids kw) as [ids|];
    [|destruct H as [msg H]; rewrite H in Hrun; discriminate].
  rewrite H in Hrun. exists n, ids, pole.
  split; [reflexivity|]. split; [reflexivity|]. split; [reflexivity|].
  unfold add_dispersion, bind, gets in Hrun.
  destruct (n <? 0) eqn:En; [discriminate|]. simpl in Hrun.
  destruct (List.length (find_materials ids (materials (G w)))
            =? List.length ids)%nat eqn:El; [|discriminate].
  simpl in Hrun. split; [apply Z.ltb_ge; exact En|].
  split; [apply Nat.eqb_eq; exact El|exact Hrun].
Qed.

(** X11. When a dispersion command is accepted, every material of the
    grid whose ID the command names is marked: its type is the type of the
    command, its pole count the count given, and it is no longer
    averagable; its ID is as before.  If the command names a material,
    [Material.maxpoles] is the larger of its earlier value and the pole
    count. *)
Theorem dispersion_marks_materials (d : Dispersion) (kw : DispersionKwargs)
    (w w' : World) :
  dispersion_create d kw w = (inr tt, w') ->
  exists n ids,
    kw_n_poles kw = Some n /\ kw_material_ids kw = Some ids /\ 0 <= n
    /\ (forall m x,
          nth_error (materials (G w)) m = Some x -> In (mat_ID x) ids ->
          exists y, nth_error (materials (G w')) m = Some y
                    /\ mat_ID y = mat_ID x
                    /\ mat_type y = type_tag d /\ poles y = n
                    /\ averagable y = false)
    /\ (ids <> [] ->
        MaterialUser_maxpoles w' = Z.max (MaterialUser_maxpoles w) n).
Proof.
  intro Hrun.
  destruct (dispersion_create_accepted d kw w w' Hrun)
    as [n [ids [pole [Hn [Hids [Hp [Hpos [Hlen Hloop]]]]]]]].
  destruct (pole_of_framed d kw pole (type_tag d) n Hp) as [Hf Hq].
  exists n, ids. split; [exact Hn|]. split; [exact Hids|]. split; [exact Hpos|].
  split.
  - intros m x Hx Hid.
    assert (Hin := find_materials_complete_positions ids _ m x Hx Hid).
    assert (Hm : marked (type_tag d) n m w').
    { apply (marked_loop (type_tag d) n pole Hf
               (find_materials ids (materials (G w))) w w');
        [|exact Hloop|exact Hin].
      intros m' Hm'. apply find_materials_positions in Hm'.
      destruct Hm' as [x' [Hx' _]]. eauto. }
    assert (Hfr : frame (type_tag d) n w w').
    { assert (K := framed_for_each (type_tag d) n
                     (find_materials ids (materials (G w)))
                     (dispersion_body (type_tag d) n pole)
                     (framed_dispersion_body (type_tag d) n pole Hf) w).
      rewrite Hloop in K. exact K. }
    destruct (frame_nth _ _ m w w' x Hfr Hx) as [y [Hy [Hid' _]]].
    destruct Hm as [y' [Hy' [Ht [Hpo Ha]]]].
    rewrite Hy in Hy'. injection Hy' as <-.
    exists y. auto.
  - intro Hne.
    apply (maxpoles_loop (type_tag d) n pole Hq
             (find_materials ids (materials (G w))) w w'); [|exact Hloop].
    intro E. rewrite E in Hlen. destruct ids; [contradiction|discriminate].
Qed.

(** X12. A dispersion command does not undo what it has done when it is
    refused for a bad pole: once the keywords are read, the pole count is
    not negative and the materials named are found, the first material
    found is marked with the type and the pole count of the command and is
    no longer averagable, whether the command returns or raises. *)
Theorem dispersion_no_rollback (d : Dispersion) (kw : DispersionKwargs)
    (w : World) (n : Z) (ids : list string) (m : nat) (rest : list nat) :
  keys_present d kw ->
  kw_n_poles kw = Some n -> kw_material_ids kw = Some ids -> 0 <= n ->
  find_materials ids (materials (G w)) = m :: rest ->
  List.length (m :: rest) = List.length ids ->
  exists y, nth_error (materials (G (snd (dispersion_create d kw w)))) m = Some y
            /\ mat_type y = type_tag d /\ poles y = n /\ averagable y = false.
Proof.
  intros Hkeys Hn Hids Hpos Hfound Hlen.
  apply keys_present_pole in Hkeys. destruct Hkeys as [pole Hp].
  destruct (pole_of_framed d kw pole (type_tag d) n Hp) as [Hf _].
  assert (H := dispersion_create_body d kw w). rewrite Hn, Hp, Hids in H.
  rewrite H. unfold add_dispersion, bind, gets.
  apply Z.ltb_ge in Hpos. rewrite Hpos. simpl.
  rewrite Hfound. apply Nat.eqb_eq in Hlen. rewrite Hlen. simpl.
  assert (Hin : In m (find_materials ids (materials (G w))))
    by (rewrite Hfound; left; reflexivity).
  apply find_materials_positions in Hin. destruct Hin as [x [Hx _]].
  apply (marked_first (type_tag d) n pole Hf m rest w x Hx).
Qed.

(** With distinct IDs a name finds at most one material. *)
Lemma filter_none (x : string) (ms : list Material) (a : nat) :
  ~ In x (map mat_ID ms) ->
  filter (fun p : nat * Material => String.eqb (mat_ID (snd p)) x)
    (combine (seq a (List.length ms)) ms) = [].
Proof.
  revert a. induction ms as [|y ms IH]; intros a Hx; simpl; [reflexivity|].
  destruct (String.eqb (mat_ID y) x) eqn:E.
  - apply String.eqb_eq in E. exfalso. apply Hx. left. exact E.
  - apply IH. intro H. apply Hx. right. exact H.
Qed.

Lemma filter_at_most_one (x : string) (ms : list Material) (a : nat) :
  NoDup (map mat_ID ms) ->
  (List.length
     (filter (fun p : nat * Material => String.eqb (mat_ID (snd p)) x)
        (combine (seq a (List.length ms)) ms)) <= 1)%nat.
Proof.
  revert a. induction ms as [|y ms IH]; intros a Hnd; simpl; [lia|].
  inversion Hnd as [|? ? Hy Hrest]; subst.
  destruct (String.eqb (mat_ID y) x) eqn:E.
  - apply String.eqb_eq in E. subst x. rewrite filter_none by exact Hy.
    simpl. lia.
  - apply IH. exact Hrest.
Qed.

Lemma find_materials_count (ids : list string) (ms : list Material) :
  NoDup (map mat_ID ms) ->
  (List.length (find_materials ids ms) <= List.length ids)%nat
  /\ ((exists id, In id ids /\ ~ In id (map mat_ID ms)) ->
      (List.length (find_materials ids ms) < List.length ids)%nat).
Proof.
  intro Hnd. unfold find_materials, enumerate.
  induction ids as [|x ids [IH1 IH2]]; simpl.
  - split; [lia|]. intros [id [[] _]].
  - rewrite length_app, length_map.
    assert (H1 := filter_at_most_one x ms 0 Hnd).
    split; [lia|]. intros [id [[<-|Hin] Hid]].
    + rewrite (filter_none _ _ _ Hid). simpl. lia.
    + assert (K := IH2 (ex_intro _ id (conj Hin Hid))). lia.
Qed.

(** X13. On a grid whose materials have distinct IDs, a dispersion
    command that names an ID no material has is refused with
    [CmdInputError] and changes nothing, whatever its poles are. *)
Theorem dispersion_unknown_material (d : Dispersion) (kw : DispersionKwargs)
    (w : World) (n : Z) (ids : list string) (id : string) :
  keys_present d kw ->
  kw_n_poles kw = Some n -> kw_material_ids kw = Some ids ->
  NoDup (map mat_ID (materials (G w))) ->
  In id ids -> ~ In id (map mat_ID (materials (G w))) ->
  exists msg, dispersion_create d kw w = (inl (CmdInputError msg), w).
Proof.
  intros Hkeys Hn Hids Hnd Hin Hid.
  apply keys_present_pole in Hkeys. destruct Hkeys as [pole Hp].
  assert (H := dispersion_create_body d kw w). rewrite Hn, Hp, Hids in H.
  rewrite H. unfold add_dispersion, bind, gets.
  destruct (n <? 0); [eexists; reflexivity|]. simpl.
  destruct (find_materials_count ids (materials (G w)) Hnd) as [_ Hlt].
  specialize (Hlt (ex_intro _ id (conj Hin Hid))).
  destruct (List.length (find_materials ids (materials (G w)))
            =? List.length ids)%nat eqn:E.
  - apply Nat.eqb_eq in E. lia.
  - simpl. eexists. reflexivity.
Qed.

End Dispersion.

(** ** Concrete runs of the further properties *)

Lemma CPUUpdates_fresh_dispersive_phases_witness :
  CPUUpdates_update_electric_a run_count CPUUpdates_init dispersive_world
  = (inl (TypeError "'NoneType' object is not callable"), dispersive_world)
  /\ CPUUpdates_update_electric_b run_count CPUUpdates_init dispersive_world
     = (inl (TypeError "'NoneType' object is not callable"), dispersive_world).
Proof.
  assert (Hmp : config_maxpoles dispersive_world <> 0) by (simpl; lia).
  destruct (CPUUpdates_fresh_dispersive_phases run_count dispersive_world Hmp)
    as [Ha [Hb _]].
  split; [exact Ha|exact Hb].
Defined.

Lemma CUDAUpdates_finalise_copies_snapshots_witness :
  events (CUDAUpdates_finalise run_count updates_globals CUDAUpdates_all_attrs)
    accelerator_world
  = [call_gpu_get_snapshot_array 0].
Proof.
  apply (proj2 (CUDAUpdates_finalise_copies_snapshots run_count
                  CUDAUpdates_all_attrs accelerator_world eq_refl eq_refl)).
Defined.

(** The source keywords of the example, naming a waveform the grid does not
    have. *)
Definition unknown_waveform_kwargs : SourceKwargs :=
  {| kw_p1 := Some (5 # 1, 5 # 1, 5 # 1); kw_polarisation := Some "Z";
     kw_resistance := Some (50 # 1); kw_waveform_id := Some "ricker";
     kw_start := None; kw_stop := None |}.

Lemma source_unknown_waveform_witness :
  HertzianDipole_create run_count unknown_waveform_kwargs example_uip host_world
  = (inl (NameError "tmp"), host_world).
Proof.
  apply (proj1 (source_unknown_waveform run_count unknown_waveform_kwargs
                  example_uip host_world (5 # 1, 5 # 1, 5 # 1) "Z" "ricker"
                  (5, 5, 5) eq_refl eq_refl eq_refl eq_refl eq_refl
                  ltac:(simpl; intros [H|[]]; discriminate H))).
Defined.

Lemma stored_source_well_formed_witness :
  exists v before,
    voltagesources
      (G (snd (VoltageSource_create run_count example_source_kwargs example_uip
                 host_world))) = before ++ [v]
    /\ well_formed example_source_kwargs example_uip host_world
         VoltageSourceUser v.
Proof.
  destruct (proj1 (stored_source_well_formed run_count example_source_kwargs
                     example_uip host_world) eq_refl)
    as [v [before [Hl [Hw _]]]].
  exists v, before. split; [exact Hl|exact Hw].
Defined.

Lemma dispersion_marks_materials_witness :
  exists y,
    nth_error
      (materials (G (snd (AddLorentzDispersion_create good_poles host_world))))
      0 = Some y
    /\ mat_type y = "lorentz" /\ poles y = 1 /\ averagable y = false.
Proof.
  destruct (dispersion_marks_materials Lorentz good_poles host_world
              (snd (AddLorentzDispersion_create good_poles host_world)) eq_refl)
    as [n [ids [Hn [Hids [_ [Hmark _]]]]]].
  injection Hn as <-. injection Hids as <-.
  destruct (Hmark 0%nat example_material eq_refl (or_introl eq_refl))
    as [y [Hy [_ [Ht [Hp Ha]]]]].
  exists y. auto.
Defined.

Lemma dispersion_no_rollback_witness :
  (exists msg, fst (AddLorentzDispersion_create slow_poles host_world)
               = inl (CmdInputError msg))
  /\ exists y,
       nth_error
         (materials (G (snd (AddLorentzDispersion_create slow_poles host_world))))
         0 = Some y
       /\ mat_type y = "lorentz" /\ poles y = 1 /\ averagable y = false.
Proof.
  split; [eexists; reflexivity|].
  apply (dispersion_no_rollback Lorentz slow_poles host_world 1 ["soil"] 0 []).
  - simpl. repeat split; discriminate.
  - reflexivity.
  - reflexivity.
  - lia.
  - reflexivity.
  - reflexivity.
Defined.

(** The poles of the example, for a material the grid does not have. *)
Definition clay_poles : DispersionKwargs :=
  {| kw_n_poles := Some 1; kw_er_delta := Some [2 # 1]; kw_tau := Some [3 # 1];
     kw_omega := Some [3 # 1]; kw_delta := Some [4 # 1];
     kw_alpha := Some [4 # 1]; kw_material_ids := Some ["soil"; "clay"] |}.

Lemma dispersion_unknown_material_witness :
  exists msg, AddDebyeDispersion_create clay_poles host_world
              = (inl (CmdInputError msg), host_world).
Proof.
  apply (dispersion_unknown_material Debye clay_poles host_world 1
           ["soil"; "clay"] "clay").
  - simpl. split; discriminate.
  - reflexivity.
  - reflexivity.
  - simpl. constructor; [intros []|constructor].
  - simpl. auto.
  - simpl. intros [H|[]]. discriminate H.
Defined.

(** * The receiver commands

    [Rx.create] and [RxArray.create] of [cmds_multiple.py]. *)

Section Receivers.

Context {Arrays : Type}.

#[local] Abbreviation World := (World Arrays).
#[local] Abbreviation py := (py Arrays).

(** Class attributes of [gprMax.receivers.Rx], imported as [RxUser]. *)
Variable RxUser_allowableoutputs : list string.
Variable RxUser_gpu_allowableoutputs : list string.
Variable RxUser_defaultoutputs : list string.

Definition set_rxs (l : list Rx) (g : FDTDGrid Arrays) : FDTDGrid Arrays :=
  {| iteration := iteration g; iterations := iterations g; dt := dt g;
     timewindow := timewindow g; dx := dx g; dy := dy g; dz := dz g;
     mode := mode g; gpu := gpu g; is_subgrid := is_subgrid g;
     waveforms := waveforms g; materials := materials g;
     voltagesources := voltagesources g; hertziandipoles := hertziandipoles g;
     magneticdipoles := magneticdipoles g;
     transmissionlines := transmissionlines g; rxs := l;
     snapshots := snapshots g; pmls := pmls g; snapsgpu2cpu := snapsgpu2cpu g;
     updatecoeffsE_nbytes := updatecoeffsE_nbytes g;
     updatecoeffsH_nbytes := updatecoeffsH_nbytes g; arrays := arrays g |}.

(** [grid.rxs.append(r)] *)
Definition append_rx (r : Rx) : py unit :=
  modify (fun w => set_G (set_rxs (rxs (G w) ++ [r]) (G w)) w).

(** [r.__class__.__name__ + '(' + str(x) + ',' + str(y) + ',' + str(z) + ')'],
    for the class [Rx] of [gprMax.receivers]. *)
Definition Rx_name (x y z : Z) : string :=
  ("Rx(" ++ str_Z x ++ "," ++ str_Z y ++ "," ++ str_Z z ++ ")")%string.

(** The keys of [r.outputs] after [for key in l: r.outputs[key] = ...] on a
    receiver whose outputs are [keys]: a key already there keeps its
    place. *)
Definition add_keys (keys l : list string) : list string :=
  fold_left (fun acc k => if mem k acc then acc else acc ++ [k]) l keys.

Record RxKwargs : Type := {
  rx_kw_p1 : option (Q * Q * Q);
  rx_kw_id : option string;
  rx_kw_outputs : option (list string)
}.

(** [for field in outputs: if field in allowableoutputs: r.outputs[field] = ...
     else: raise CmdInputError] *)
Fixpoint add_outputs (allowable : list string) (keys outputs : list string)
  : py (list string) :=
  match outputs with
  | [] => ret keys
  | field :: rest =>
      if mem field allowable then
        add_outputs allowable (add_keys keys [field]) rest
      else
        raise (CmdInputError "contains an output type that is not allowable.")
  end.

(** [Rx.create] returns the receiver it appends; the result is the receiver
    with the keys of its [outputs], a dictionary that is empty on a new
    receiver. *)
Definition Rx_create (kw : RxKwargs) (uip : UserInput) : py (Rx * list string) :=
  p1 <- required (rx_kw_p1 kw) "has an incorrect number of parameters" ;;
  p <- lift (check_src_rx_point uip p1) ;;
  let x := fst (fst p) in
  let y := snd (fst p) in
  let z := snd p in
  r <- match rx_kw_id kw, rx_kw_outputs kw with
       | Some id, Some outputs =>
           g <- gets G ;;
           let allowable := match gpu g with
                            | Some _ => RxUser_gpu_allowableoutputs
                            | None => RxUser_allowableoutputs
                            end in
           keys <- add_outputs allowable [] outputs ;;
           ret ({| rx_ID := id; rx_xcoord := x; rx_ycoord := y; rx_zcoord := z |},
                keys)
       | _, _ =>
           (* except KeyError: the default name and the default outputs *)
           ret ({| rx_ID := Rx_name x y z;
                   rx_xcoord := x; rx_ycoord := y; rx_zcoord := z |},
                add_keys [] RxUser_defaultoutputs)
       end ;;
  append_rx (fst r) ;;
  ret r.

Record RxArrayKwargs : Type := {
  rxa_kw_p1 : option (Q * Q * Q);
  rxa_kw_p2 : option (Q * Q * Q);
  rxa_kw_dl : option (Q * Q * Q)
}.

(** [range(a, b, step)]; a zero step, which [range] refuses, is never
    passed by the command (see [array_step_positive]). *)
Definition range3 (a b step : Z) : list Z :=
  if 0 <? step then
    map (fun k => a + Z.of_nat k * step)
        (seq 0 (Z.to_nat ((b - a + step - 1) / step)))
  else if step <? 0 then
    map (fun k => a + Z.of_nat k * step)
        (seq 0 (Z.to_nat ((a - b - step - 1) / (- step))))
  else [].

(** [if d < 1: if d == 0: d = 1 else: raise CmdInputError] *)
Definition array_step (d : Z) : py Z :=
  if d <? 1 then
    if d =? 0 then ret 1
    else raise (CmdInputError
           "the step size should not be less than the spatial discretisation")
  else ret d.

(** The receiver of the array at the cell [(x, y, z)]; its outputs are the
    default outputs. *)
Definition array_rx (x y z : Z) : Rx :=
  {| rx_ID := Rx_name x y z; rx_xcoord := x; rx_ycoord := y; rx_zcoord := z |}.

Definition RxArray_create (kw : RxArrayKwargs) (uip : UserInput) : py unit :=
  let missing := "requires exactly 9 parameters" in
  p1 <- required (rxa_kw_p1 kw) missing ;;
  p2 <- required (rxa_kw_p2 kw) missing ;;
  dl <- required (rxa_kw_dl kw) missing ;;
  lo <- lift (check_src_rx_point uip p1) ;;
  hi <- lift (check_src_rx_point uip p2) ;;
  let d := discretise_point uip dl in
  let xs := fst (fst lo) in let ys := snd (fst lo) in let zs := snd lo in
  let xf := fst (fst hi) in let yf := snd (fst hi) in let zf := snd hi in
  let sx := fst (fst d) in let sy := snd (fst d) in let sz := snd d in
  (if (xs >? xf) || (ys >? yf) || (zs >? zf) then
     raise (CmdInputError
       "the lower coordinates should be less than the upper coordinates")
   else ret tt) ;;
  (if (sx <? 0) || (sy <? 0) || (sz <? 0) then
     raise (CmdInputError "the step size should not be less than zero")
   else ret tt) ;;
  sx <- array_step sx ;;
  sy <- array_step sy ;;
  sz <- array_step sz ;;
  for_each (range3 xs (xf + 1) sx) (fun x =>
    for_each (range3 ys (yf + 1) sy) (fun y =>
      for_each (range3 zs (zf + 1) sz) (fun z =>
        append_rx (array_rx x y z)))).

(** ** Properties of the receiver commands *)

(** The state with the receivers [l] appended to [grid.rxs]. *)
Definition with_rxs (l : list Rx) (w : World) : World :=
  set_G (set_rxs (rxs (G w) ++ l) (G w)) w.

Lemma with_rxs_nil (w : World) : with_rxs [] w = w.
Proof.
  unfold with_rxs. rewrite app_nil_r.
  destruct w as [g ? ? ? ? ? ? ?]. destruct g. reflexivity.
Qed.

Lemma with_rxs_app (l1 l2 : list Rx) (w : World) :
  with_rxs l2 (with_rxs l1 w) = with_rxs (l1 ++ l2) w.
Proof. unfold with_rxs. simpl. rewrite app_assoc. reflexivity. Qed.

Lemma for_each_with_rxs {A : Type} (body : A -> py unit) (added : A -> list Rx) :
  (forall x s, body x s = (inr tt, with_rxs (added x) s)) ->
  forall l w, for_each l body w = (inr tt, with_rxs (flat_map added l) w).
Proof.
  intros Hbody l. induction l as [|x l IH]; intro w; simpl.
  - rewrite with_rxs_nil. reflexivity.
  - unfold bind. rewrite Hbody, IH, with_rxs_app. reflexivity.
Qed.

Lemma flat_map_singleton {A B : Type} (f : A -> B) (l : list A) :
  flat_map (fun x => [f x]) l = map f l.
Proof. induction l as [|x l IH]; simpl; congruence. Qed.

Lemma append_rx_run (r : Rx) (w : World) :
  append_rx r w = (inr tt, with_rxs [r] w).
Proof. reflexivity. Qed.

(** The receivers of an array between two cells, in the order the three
    nested loops append them. *)
Definition rx_lattice (lo hi step : Z * Z * Z) : list Rx :=
  flat_map (fun x =>
    flat_map (fun y =>
      map (fun z => array_rx x y z)
          (range3 (snd lo) (snd hi + 1) (snd step)))
      (range3 (snd (fst lo)) (snd (fst hi) + 1) (snd (fst step))))
    (range3 (fst (fst lo)) (fst (fst hi) + 1) (fst (fst step))).

Lemma array_loops_run (lo hi step : Z * Z * Z) (w : World) :
  for_each (range3 (fst (fst lo)) (fst (fst hi) + 1) (fst (fst step))) (fun x =>
    for_each (range3 (snd (fst lo)) (snd (fst hi) + 1) (snd (fst step))) (fun y =>
      for_each (range3 (snd lo) (snd hi + 1) (snd step)) (fun z =>
        append_rx (array_rx x y z)))) w
  = (inr tt, with_rxs (rx_lattice lo hi step) w).
Proof.
  unfold rx_lattice.
  apply (for_each_with_rxs _ (fun x =>
    flat_map (fun y =>
      map (fun z => array_rx x y z)
          (range3 (snd lo) (snd hi + 1) (snd step)))
      (range3 (snd (fst lo)) (snd (fst hi) + 1) (snd (fst step))))).
  intros x s.
  apply (for_each_with_rxs _ (fun y =>
      map (fun z => array_rx x y z)
          (range3 (snd lo) (snd hi + 1) (snd step)))).
  intros y s'.
  rewrite (for_each_with_rxs _ (fun z => [array_rx x y z])).
  - rewrite flat_map_singleton. reflexivity.
  - intros z s''. apply append_rx_run.
Qed.

(** The step of the array along an axis: the discretised spacing, or 1 when
    that is 0. *)
Definition lattice_step (d : Z) : Z := if d =? 0 then 1 else d.

Lemma array_step_run (d : Z) (w : World) :
  0 <= d -> array_step d w = (inr (lattice_step d), w).
Proof.
  intro H. unfold array_step, lattice_step.
  destruct (d =? 0) eqn:E0.
  - apply Z.eqb_eq in E0. subst d. reflexivity.
  - apply Z.eqb_neq in E0. destruct (d <? 1) eqn:E1; [|reflexivity].
    apply Z.ltb_lt in E1. lia.
Qed.

Lemma array_step_positive (d d' : Z) (w w' : World) :
  array_step d w = (inr d', w') -> 1 <= d'.
Proof.
  unfold array_step. destruct (d <? 1) eqn:E1.
  - destruct (d =? 0); [|discriminate]. intro H. injection H as <- _. lia.
  - intro H. injection H as <- _. apply Z.ltb_ge in E1. exact E1.
Qed.

(** The test of the two corners and of the three spacings. *)
Definition array_ok (lo hi d : Z * Z * Z) : bool :=
  negb ((fst (fst lo) >? fst (fst hi)) || (snd (fst lo) >? snd (fst hi))
        || (snd lo >? snd hi))
  && negb ((fst (fst d) <? 0) || (snd (fst d) <? 0) || (snd d <? 0)).

Lemma array_ok_spec (lo hi d : Z * Z * Z) :
  array_ok lo hi d = true
  <-> (fst (fst lo) <= fst (fst hi) /\ snd (fst lo) <= snd (fst hi)
       /\ snd lo <= snd hi)
      /\ (0 <= fst (fst d) /\ 0 <= snd (fst d) /\ 0 <= snd d).
Proof.
  unfold array_ok.
  rewrite andb_true_iff, !negb_true_iff, !orb_false_iff, !Z.gtb_ltb,
    !Z.ltb_ge. tauto.
Qed.

Definition lattice_steps (d : Z * Z * Z) : Z * Z * Z :=
  (lattice_step (fst (fst d)), lattice_step (snd (fst d)), lattice_step (snd d)).

Lemma RxArray_create_run (kw : RxArrayKwargs) (uip : UserInput) (w : World)
    (p1 p2 dl : Q * Q * Q) (lo hi : Z * Z * Z) :
  rxa_kw_p1 kw = Some p1 -> rxa_kw_p2 kw = Some p2 -> rxa_kw_dl kw = Some dl ->
  check_src_rx_point uip p1 = inr lo -> check_src_rx_point uip p2 = inr hi ->
  let d := discretise_point uip dl in
  if array_ok lo hi d
  then RxArray_create kw uip w
       = (inr tt, with_rxs (rx_lattice lo hi (lattice_steps d)) w)
  else exists msg, RxArray_create kw uip w = (inl (CmdInputError msg), w).
Proof.
  intros Hp1 Hp2 Hdl Hlo Hhi d. subst d.
  set (d := discretise_point uip dl).
  assert (Hok := array_ok_spec lo hi d).
  destruct (array_ok lo hi d) eqn:Eok.
  - unfold array_ok in Eok. apply andb_prop in Eok. destruct Eok as [E1 E2].
    apply negb_true_iff in E1, E2.
    destruct (proj1 Hok eq_refl) as [_ [Hx [Hy Hz]]].
    unfold RxArray_create, required, lift. rewrite Hp1, Hp2, Hdl.
    unfold bind. unfold ret at 1 2 3. cbv beta iota. rewrite Hlo, Hhi.
    unfold ret at 1 2. cbv beta iota zeta. fold d. rewrite E1, E2.
    unfold ret at 1 2. cbv beta iota.
    rewrite (array_step_run _ w Hx). cbv beta iota.
    rewrite (array_step_run _ w Hy). cbv beta iota.
    rewrite (array_step_run _ w Hz). cbv beta iota.
    apply (array_loops_run lo hi (lattice_steps d) w).
  - unfold array_ok in Eok. apply andb_false_iff in Eok.
    destruct ((fst (fst lo) >? fst (fst hi)) || (snd (fst lo) >? snd (fst hi))
              || (snd lo >? snd hi)) eqn:E1.
    + eexists. unfold RxArray_create, required, lift. rewrite Hp1, Hp2, Hdl.
      unfold bind. unfold ret at 1 2 3. cbv beta iota. rewrite Hlo, Hhi.
      unfold ret at 1 2. cbv beta iota zeta. rewrite E1. reflexivity.
    + destruct Eok as [E|E]; [discriminate E|].
      apply negb_false_iff in E. eexists.
      unfold RxArray_create, required, lift. rewrite Hp1, Hp2, Hdl.
      unfold bind. unfold ret at 1 2 3. cbv beta iota. rewrite Hlo, Hhi.
      unfold ret at 1 2. cbv beta iota zeta. fold d. rewrite E1, E.
      reflexivity.
Qed.

(** X14. [RxArray.create], once its three keywords are read and the input
    helper has accepted the two corners: when a lower coordinate exceeds
    the upper one or a spacing is negative the command is refused with
    [CmdInputError] and changes nothing; otherwise it returns, and what it
    appends to [grid.rxs] is one receiver named [Rx(x,y,z)] for every cell
    of the lattice between the corners, x outermost and z innermost, where
    a spacing of 0 counts as 1; the rest of the state is as it was. *)
Theorem RxArray_create_lattice (kw : RxArrayKwargs) (uip : UserInput) (w : World)
    (p1 p2 dl : Q * Q * Q) (lo hi : Z * Z * Z) :
  rxa_kw_p1 kw = Some p1 -> rxa_kw_p2 kw = Some p2 -> rxa_kw_dl kw = Some dl ->
  check_src_rx_point uip p1 = inr lo -> check_src_rx_point uip p2 = inr hi ->
  let d := discretise_point uip dl in
  let ok := (fst (fst lo) <= fst (fst hi) /\ snd (fst lo) <= snd (fst hi)
             /\ snd lo <= snd hi)
            /\ (0 <= fst (fst d) /\ 0 <= snd (fst d) /\ 0 <= snd d) in
  (ok ->
   RxArray_create kw uip w
   = (inr tt,
      set_G (set_rxs (rxs (G w) ++ rx_lattice lo hi (lattice_steps d)) (G w)) w))
  /\ (~ ok -> exists msg, RxArray_create kw uip w = (inl (CmdInputError msg), w)).
Proof.
  intros Hp1 Hp2 Hdl Hlo Hhi d ok.
  assert (H := RxArray_create_run kw uip w p1 p2 dl lo hi Hp1 Hp2 Hdl Hlo Hhi).
  cbv zeta in H. fold d in H.
  assert (S := array_ok_spec lo hi d). fold ok in S.
  destruct (array_ok lo hi d).
  - split; [intros _; exact H|]. intro Hn. exfalso. apply Hn, S. reflexivity.
  - split; [|intros _; exact H]. intro Hok. apply S in Hok. discriminate.
Qed.

(** The cells of [range(a, f + 1, s)] for a positive step. *)
Lemma range3_length (a f s : Z) :
  1 <= s -> a <= f ->
  Z.of_nat (List.length (range3 a (f + 1) s)) = (f - a) / s + 1.
Proof.
  intros Hs Haf. unfold range3.
  replace (0 <? s) with true by (symmetry; apply Z.ltb_lt; lia).
  rewrite length_map, length_seq.
  replace (f + 1 - a + s - 1) with (f - a + 1 * s) by lia.
  rewrite Z.div_add by lia.
  assert (0 <= (f - a) / s) by (apply Z.div_pos; lia).
  lia.
Qed.

Lemma range3_in (a f s v : Z) :
  1 <= s -> In v (range3 a (f + 1) s) ->
  a <= v <= f /\ (v - a) mod s = 0.
Proof.
  intros Hs. unfold range3.
  replace (0 <? s) with true by (symmetry; apply Z.ltb_lt; lia).
  rewrite in_map_iff. intros [k [<- Hk]]. apply in_seq in Hk.
  replace (f + 1 - a + s - 1) with (f - a + 1 * s) in Hk by lia.
  rewrite Z.div_add in Hk by lia.
  assert (Hk' : Z.of_nat k <= (f - a) / s) by lia.
  assert (Hm : s * ((f - a) / s) <= f - a).
  { destruct (Z_le_gt_dec a f) as [Haf|Haf].
    - apply Z.mul_div_le. lia.
    - exfalso. assert ((f - a) / s < 0) by (apply Z.div_lt_upper_bound; lia).
      lia. }
  split; [nia|].
  replace (a + Z.of_nat k * s - a) with (Z.of_nat k * s) by lia.
  apply Z.mod_mul. lia.
Qed.

Lemma range3_first (a f s : Z) :
  1 <= s -> a <= f -> exists rest, range3 a (f + 1) s = a :: rest.
Proof.
  intros Hs Haf. assert (H := range3_length a f s Hs Haf).
  unfold range3 in *.
  replace (0 <? s) with true in * by (symmetry; apply Z.ltb_lt; lia).
  rewrite length_map, length_seq in H.
  assert (0 <= (f - a) / s) by (apply Z.div_pos; lia).
  destruct (Z.to_nat ((f + 1 - a + s - 1) / s)) as [|n]; [lia|].
  simpl. eexists. f_equal. lia.
Qed.

Lemma lattice_step_positive (d : Z) : 0 <= d -> 1 <= lattice_step d.
Proof.
  unfold lattice_step. destruct (d =? 0) eqn:E; [lia|].
  apply Z.eqb_neq in E. lia.
Qed.

Lemma flat_map_length_const {A B : Type} (f : A -> list B) (k : nat)
    (l : list A) :
  (forall x, List.length (f x) = k) ->
  List.length (flat_map f l) = (List.length l * k)%nat.
Proof.
  intro H. induction l as [|x l IH]; simpl; [reflexivity|].
  rewrite length_app, H, IH. reflexivity.
Qed.

Lemma rx_lattice_length (lo hi step : Z * Z * Z) :
  List.length (rx_lattice lo hi step)
  = (List.length (range3 (fst (fst lo)) (fst (fst hi) + 1) (fst (fst step)))
     * (List.length (range3 (snd (fst lo)) (snd (fst hi) + 1) (snd (fst step)))
        * List.length (range3 (snd lo) (snd hi + 1) (snd step))))%nat.
Proof.
  unfold rx_lattice. apply flat_map_length_const. intro x.
  apply flat_map_length_const. intro y. apply length_map.
Qed.

Lemma rx_lattice_in (lo hi step : Z * Z * Z) (r : Rx) :
  In r (rx_lattice lo hi step) ->
  In (rx_xcoord r) (range3 (fst (fst lo)) (fst (fst hi) + 1) (fst (fst step)))
  /\ In (rx_ycoord r)
        (range3 (snd (fst lo)) (snd (fst hi) + 1) (snd (fst step)))
  /\ In (rx_zcoord r) (range3 (snd lo) (snd hi + 1) (snd step))
  /\ rx_ID r = Rx_name (rx_xcoord r) (rx_ycoord r) (rx_zcoord r).
Proof.
  unfold rx_lattice. rewrite in_flat_map. intros [x [Hx H]].
  rewrite in_flat_map in H. destruct H as [y [Hy H]].
  rewrite in_map_iff in H. destruct H as [z [<- Hz]]. simpl. auto.
Qed.

(** X15. The array that [RxArray.create] appends for corners
    [lo <= hi] and spacings that are not negative has
    [((xf - xs) / dx + 1) * ((yf - ys) / dy + 1) * ((zf - zs) / dz + 1)]
    receivers (integer division, a spacing of 0 counted as 1); every one
    of them lies between the two corners, at a whole number of steps from
    the lower corner along each axis, and the first one is at the lower
    corner.  Two equal corners give exactly one receiver. *)
Theorem RxArray_create_count (kw : RxArrayKwargs) (uip : UserInput) (w : World)
    (p1 p2 dl : Q * Q * Q) (xs ys zs xf yf zf : Z) :
  rxa_kw_p1 kw = Some p1 -> rxa_kw_p2 kw = Some p2 -> rxa_kw_dl kw = Some dl ->
  check_src_rx_point uip p1 = inr (xs, ys, zs) ->
  check_src_rx_point uip p2 = inr (xf, yf, zf) ->
  xs <= xf -> ys <= yf -> zs <= zf ->
  0 <= fst (fst (discretise_point uip dl)) ->
  0 <= snd (fst (discretise_point uip dl)) ->
  0 <= snd (discretise_point uip dl) ->
  let sx := lattice_step (fst (fst (discretise_point uip dl))) in
  let sy := lattice_step (snd (fst (discretise_point uip dl))) in
  let sz := lattice_step (snd (discretise_point uip dl)) in
  exists added,
    RxArray_create kw uip w
    = (inr tt, set_G (set_rxs (rxs (G w) ++ added) (G w)) w)
    /\ Z.of_nat (List.length added)
       = ((xf - xs) / sx + 1) * ((yf - ys) / sy + 1) * ((zf - zs) / sz + 1)
    /\ (forall r, In r added ->
         (xs <= rx_xcoord r <= xf /\ (rx_xcoord r - xs) mod sx = 0)
         /\ (ys <= rx_ycoord r <= yf /\ (rx_ycoord r - ys) mod sy = 0)
         /\ (zs <= rx_zcoord r <= zf /\ (rx_zcoord r - zs) mod sz = 0)
         /\ rx_ID r = Rx_name (rx_xcoord r) (rx_ycoord r) (rx_zcoord r))
    /\ (exists rest, added = array_rx xs ys zs :: rest)
    /\ (xs = xf -> ys = yf -> zs = zf -> added = [array_rx xs ys zs]).
Proof.
  intros Hp1 Hp2 Hdl Hlo Hhi Hx Hy Hz Hsx Hsy Hsz sx sy sz.
  assert (H := RxArray_create_run kw uip w p1 p2 dl _ _ Hp1 Hp2 Hdl Hlo Hhi).
  cbv zeta in H.
  assert (Hok : array_ok (xs, ys, zs) (xf, yf, zf) (discretise_point uip dl)
                = true).
  { apply array_ok_spec. simpl. auto. }
  rewrite Hok in H.
  assert (Px := lattice_step_positive _ Hsx).
  assert (Py := lattice_step_positive _ Hsy).
  assert (Pz := lattice_step_positive _ Hsz).
  fold sx in Px. fold sy in Py. fold sz in Pz.
  exists (rx_lattice (xs, ys, zs) (xf, yf, zf)
            (lattice_steps (discretise_point uip dl))).
  split; [exact H|]. unfold lattice_steps. fold sx sy sz.
  split; [|split; [|split]].
  - rewrite rx_lattice_length. simpl fst. simpl snd.
    rewrite !Nat2Z.inj_mul, !range3_length by assumption. ring.
  - intros r Hr. apply rx_lattice_in in Hr. simpl fst in Hr. simpl snd in Hr.
    destruct Hr as [Hrx [Hry [Hrz Hid]]].
    apply range3_in in Hrx, Hry, Hrz; try assumption. auto.
  - unfold rx_lattice. simpl fst. simpl snd.
    destruct (range3_first xs xf sx Px Hx) as [rx ->].
    destruct (range3_first ys yf sy Py Hy) as [ry ->].
    destruct (range3_first zs zf sz Pz Hz) as [rz ->].
    simpl. eexists. reflexivity.
  - intros <- <- <-. unfold rx_lattice. simpl fst. simpl snd.
    assert (L : forall a s, 1 <= s -> range3 a (a + 1) s = [a]).
    { intros a s Hs. destruct (range3_first a a s Hs (Z.le_refl a)) as [rest E].
      assert (Hl := range3_length a a s Hs (Z.le_refl a)).
      rewrite E in *. rewrite Z.sub_diag, Z.div_0_l in Hl by lia.
      destruct rest; [reflexivity|simpl in Hl; lia]. }
    rewrite !L by assumption. reflexivity.
Qed.

(** The keys of a dictionary after more keys are set. *)
Lemma add_keys_In (keys l : list string) (k : string) :
  In k (add_keys keys l) <-> In k keys \/ In k l.
Proof.
  unfold add_keys. revert keys. induction l as [|x l IH]; intro keys; simpl.
  - tauto.
  - rewrite IH. destruct (mem x keys) eqn:E.
    + apply mem_In in E. split; [tauto|].
      intros [H|[<-|H]]; auto.
    + rewrite in_app_iff. simpl. tauto.
Qed.

Lemma add_keys_NoDup (keys l : list string) :
  NoDup keys -> NoDup (add_keys keys l).
Proof.
  unfold add_keys. revert keys. induction l as [|x l IH]; intros keys H; simpl.
  - exact H.
  - apply IH. destruct (mem x keys) eqn:E; [exact H|].
    apply NoDup_app; [exact H|constructor; [intros []|constructor]|].
    intros a Ha [<-|[]]. apply (proj2 (mem_In _ _)) in Ha. congruence.
Qed.

Lemma add_outputs_run (allowable keys outputs : list string) (w : World) :
  add_outputs allowable keys outputs w
  = if forallb (fun f => mem f allowable) outputs
    then (inr (add_keys keys outputs), w)
    else (inl (CmdInputError "contains an output type that is not allowable."),
          w).
Proof.
  revert keys. induction outputs as [|f rest IH]; intro keys; simpl.
  - reflexivity.
  - destruct (mem f allowable); simpl; [|reflexivity].
    rewrite IH. reflexivity.
Qed.

(** X16. [Rx.create], once [p1] is read and the input helper has accepted
    the point, stores one receiver at the cell the helper returned and
    returns it.  When both [id] and [outputs] are given, the receiver has
    the given ID and its outputs are the given fields, each once, provided
    every field is allowable for the backend of the grid (the accelerator
    list when [grid.gpu] is set); a field that is not allowable makes the
    command raise [CmdInputError] and store nothing.  When either keyword
    is missing the other is ignored: the receiver is named [Rx(x,y,z)] and
    has the default outputs. *)
Theorem Rx_create_outcome (kw : RxKwargs) (uip : UserInput) (w : World)
    (p1 : Q * Q * Q) (x y z : Z) :
  rx_kw_p1 kw = Some p1 -> check_src_rx_point uip p1 = inr (x, y, z) ->
  let allowable := match gpu (G w) with
                   | Some _ => RxUser_gpu_allowableoutputs
                   | None => RxUser_allowableoutputs
                   end in
  let at_cell id :=
    {| rx_ID := id; rx_xcoord := x; rx_ycoord := y; rx_zcoord := z |} in
  match rx_kw_id kw, rx_kw_outputs kw with
  | Some id, Some outputs =>
      if forallb (fun f => mem f allowable) outputs
      then exists keys,
             Rx_create kw uip w
             = (inr (at_cell id, keys),
                set_G (set_rxs (rxs (G w) ++ [at_cell id]) (G w)) w)
             /\ NoDup keys
             /\ (forall k, In k keys <-> In k outputs)
             /\ (forall k, In k keys -> In k allowable)
      else exists msg, Rx_create kw uip w = (inl (CmdInputError msg), w)
  | _, _ =>
      Rx_create kw uip w
      = (inr (at_cell (Rx_name x y z), add_keys [] RxUser_defaultoutputs),
         set_G (set_rxs (rxs (G w) ++ [at_cell (Rx_name x y z)]) (G w)) w)
  end.
Proof.
  intros Hp1 Hpt allowable at_cell.
  assert (Hopen : forall k : Z * Z * Z -> py (Rx * list string),
            (p1' <- required (rx_kw_p1 kw) "has an incorrect number of parameters" ;;
             p <- lift (check_src_rx_point uip p1') ;; k p) w
            = k (x, y, z) w).
  { intro k. unfold required, lift, bind. rewrite Hp1. unfold ret at 1.
    cbv beta iota. rewrite Hpt. reflexivity. }
  unfold Rx_create.
  destruct (rx_kw_id kw) as [id|]; [destruct (rx_kw_outputs kw) as [outputs|]|];
    try (rewrite Hopen; reflexivity).
  destruct (forallb (fun f => mem f allowable) outputs) eqn:Eall.
  - exists (add_keys [] outputs). split; [|split; [|split]].
    + rewrite Hopen. cbv beta iota zeta. simpl fst. simpl snd.
      unfold bind, gets. fold allowable. rewrite add_outputs_run, Eall.
      reflexivity.
    + apply add_keys_NoDup. constructor.
    + intro k. rewrite add_keys_In. simpl. tauto.
    + intros k Hk. apply add_keys_In in Hk. destruct Hk as [[]|Hk].
      rewrite forallb_forall in Eall. apply mem_In. apply Eall. exact Hk.
  - eexists. rewrite Hopen. cbv beta iota zeta. simpl fst. simpl snd.
    unfold bind, gets. fold allowable. rewrite add_outputs_run, Eall.
    reflexivity.
Qed.

End Receivers.

(** * The commands that build the rest of the model

    [Waveform.create], [Material.create], [SoilPeplinski.create],
    [GeometryView.create] and [PMLCFS.create] of [cmds_multiple.py].  They
    read and extend parts of the grid the update engine does not touch;
    the state of the first part is carried along in [world]. *)

Section Building.

Context {Arrays : Type}.

#[local] Abbreviation World := (World Arrays).

(** A Python float: a number, an infinity or a NaN. *)
Inductive PyFloat : Type :=
| number (q : Q)
| infinity
| minus_infinity
| nan.

(** [x < c] and [x <= c] for a float [x] and a number [c]; a comparison with
    a NaN is false. *)
Definition float_lt (x : PyFloat) (c : Q) : bool :=
  match x with
  | number q => Qltb q c
  | minus_infinity => true
  | infinity | nan => false
  end.

Definition float_le (x : PyFloat) (c : Q) : bool :=
  match x with
  | number q => Qle_bool q c
  | minus_infinity => true
  | infinity | nan => false
  end.

(** [float(v)] of a string that spells no float raises [ValueError], inside
    the built-in. *)
Definition float_ValueError : exn :=
  ExternalError "ValueError: could not convert string to float".

(** A keyword that the command hands to [float()]: a number or a string
    that [float()] turns into [x], or a string it refuses. *)
Inductive Text : Type :=
| reads (x : PyFloat)
| unreadable.

(** [float(t)] *)
Definition to_float {St : Type} (t : Text) : M St PyFloat :=
  match t with
  | reads x => ret x
  | unreadable => raise float_ValueError
  end.

(** The attributes of a waveform beside its ID, of a material beside the
    ones [Material] holds, each kept under the ID of its object. *)
Record WaveformAttrs : Type := {
  wave_type : string;
  wave_amp : PyFloat;
  wave_freq : PyFloat
}.

(** The keyword [se] of a material: the string ['inf'], or anything else,
    which goes through [float()]. *)
Inductive Conductivity : Type :=
| inf_text
| other_text (t : Text).

Record MaterialAttrs : Type := {
  mat_er : PyFloat;
  mat_se : PyFloat;
  mat_mr : PyFloat;
  mat_sm : PyFloat
}.

(** [gprMax.materials.PeplinskiSoil(ID, S, C, rb, rs, mu)] *)
Record PeplinskiSoilUser : Type := {
  soil_ID : string;
  soil_S : Q;          (* sand fraction *)
  soil_C : Q;          (* clay fraction *)
  soil_rb : Q;         (* bulk density *)
  soil_rs : Q;         (* sand particle density *)
  soil_mu : Q * Q      (* lower and upper water volumetric fraction *)
}.

(** [GeometryViewUser(xs, ys, zs, xf, yf, zf, dx, dy, dz, filename, fileext,
    grid)], and which of the two classes of [gprMax.geometry_outputs] built
    it. *)
Record GeometryViewUser : Type := {
  gv_xs : Z; gv_ys : Z; gv_zs : Z;
  gv_xf : Z; gv_yf : Z; gv_zf : Z;
  gv_dx : Z; gv_dy : Z; gv_dz : Z;
  gv_filename : string;
  gv_fileext : string;
  gv_multi_grid : bool      (* GeometryViewFineMultiGrid, not GeometryView *)
}.

(** [gprMax.pml.CFSParameter] and [gprMax.pml.CFS] *)
Record CFSParameter : Type := {
  cfs_ID : string;
  scalingprofile : string;
  scalingdirection : string;
  cfs_min : PyFloat;
  cfs_max : option PyFloat  (* None for sigma, when 'None' is given *)
}.

Record CFS : Type := {
  cfs_alpha : CFSParameter;
  cfs_kappa : CFSParameter;
  cfs_sigma : CFSParameter
}.

Record Scene : Type := {
  world : World;
  nx : Z;
  ny : Z;
  nz : Z;
  waveform_attrs : list (string * WaveformAttrs);
  material_attrs : list (string * MaterialAttrs);
  mixingmodels : list PeplinskiSoilUser;
  geometryviews : list GeometryViewUser;
  cfs : list CFS
}.

Definition set_world (w : World) (s : Scene) : Scene :=
  {| world := w; nx := nx s; ny := ny s; nz := nz s;
     waveform_attrs := waveform_attrs s; material_attrs := material_attrs s;
     mixingmodels := mixingmodels s; geometryviews := geometryviews s;
     cfs := cfs s |}.

Definition set_waveform_attrs (l : list (string * WaveformAttrs)) (s : Scene)
  : Scene :=
  {| world := world s; nx := nx s; ny := ny s; nz := nz s;
     waveform_attrs := l; material_attrs := material_attrs s;
     mixingmodels := mixingmodels s; geometryviews := geometryviews s;
     cfs := cfs s |}.

Definition set_material_attrs (l : list (string * MaterialAttrs)) (s : Scene)
  : Scene :=
  {| world := world s; nx := nx s; ny := ny s; nz := nz s;
     waveform_attrs := waveform_attrs s; material_attrs := l;
     mixingmodels := mixingmodels s; geometryviews := geometryviews s;
     cfs := cfs s |}.

Definition set_mixingmodels (l : list PeplinskiSoilUser) (s : Scene) : Scene :=
  {| world := world s; nx := nx s; ny := ny s; nz := nz s;
     waveform_attrs := waveform_attrs s; material_attrs := material_attrs s;
     mixingmodels := l; geometryviews := geometryviews s; cfs := cfs s |}.

Definition set_geometryviews (l : list GeometryViewUser) (s : Scene) : Scene :=
  {| world := world s; nx := nx s; ny := ny s; nz := nz s;
     waveform_attrs := waveform_attrs s; material_attrs := material_attrs s;
     mixingmodels := mixingmodels s; geometryviews := l; cfs := cfs s |}.

Definition set_cfs (l : list CFS) (s : Scene) : Scene :=
  {| world := world s; nx := nx s; ny := ny s; nz := nz s;
     waveform_attrs := waveform_attrs s; material_attrs := material_attrs s;
     mixingmodels := mixingmodels s; geometryviews := geometryviews s;
     cfs := l |}.

Definition set_waveforms (l : list string) (g : FDTDGrid Arrays)
  : FDTDGrid Arrays :=
  {| iteration := iteration g; iterations := iterations g; dt := dt g;
     timewindow := timewindow g; dx := dx g; dy := dy g; dz := dz g;
     mode := mode g; gpu := gpu g; is_subgrid := is_subgrid g;
     waveforms := l; materials := materials g;
     voltagesources := voltagesources g; hertziandipoles := hertziandipoles g;
     magneticdipoles := magneticdipoles g;
     transmissionlines := transmissionlines g; rxs := rxs g;
     snapshots := snapshots g; pmls := pmls g; snapsgpu2cpu := snapsgpu2cpu g;
     updatecoeffsE_nbytes := updatecoeffsE_nbytes g;
     updatecoeffsH_nbytes := updatecoeffsH_nbytes g; arrays := arrays g |}.

(** The grid of a scene. *)
Definition grid (s : Scene) : FDTDGrid Arrays := G (world s).

(** [self.kwargs[k]] inside [try: ... except KeyError: raise CmdInputError],
    in any state. *)
Definition kwarg {St A : Type} (o : option A) (msg : string) : M St A :=
  match o with
  | Some a => ret a
  | None => raise (CmdInputError msg)
  end.

(** [if c: raise CmdInputError(msg)] *)
Definition refuse_if {St : Type} (c : bool) (msg : string) : M St unit :=
  if c then raise (CmdInputError msg) else ret tt.

(** ** [Waveform.create] *)

Record WaveformKwargs : Type := {
  kw_wave_type : option string;
  kw_amp : option PyFloat;
  kw_freq : option PyFloat;
  kw_wave_id : option string
}.

(** The class attribute [types] of [gprMax.waveforms.Waveform]. *)
Variable WaveformUser_types : list string.

Definition Waveform_create (kw : WaveformKwargs) : M Scene unit :=
  let missing := "requires exactly four parameters" in
  wavetype <- kwarg (option_map lower (kw_wave_type kw)) missing ;;
  amp <- kwarg (kw_amp kw) missing ;;
  freq <- kwarg (kw_freq kw) missing ;;
  ID <- kwarg (kw_wave_id kw) missing ;;
  refuse_if (negb (mem wavetype WaveformUser_types))
    "must have one of the following types" ;;
  refuse_if (float_le freq 0)
    "requires an excitation frequency value of greater than zero" ;;
  g <- gets grid ;;
  refuse_if (mem ID (waveforms g)) "already exists" ;;
  (* w = WaveformUser(); w.ID = ID; w.type = wavetype; w.amp = amp;
     w.freq = freq; grid.waveforms.append(w) *)
  modify (fun s =>
    set_waveform_attrs
      (waveform_attrs s
       ++ [(ID, {| wave_type := wavetype; wave_amp := amp; wave_freq := freq |})])
      (set_world
         (set_G (set_waveforms (waveforms (grid s) ++ [ID]) (grid s)) (world s))
         s)).

(** ** [Material.create] *)

Record MaterialKwargs : Type := {
  kw_er : option PyFloat;
  kw_se : option Conductivity;
  kw_mr : option PyFloat;
  kw_sm : option PyFloat;
  kw_mat_id : option string
}.

(** [gprMax.materials.Material(numID, ID)], imported as [MaterialUser]. *)
Variable MaterialUser : Z -> string -> Material.

(** [m.averagable = False] *)
Definition not_averagable (x : Material) : Material :=
  {| numID := numID x; mat_ID := mat_ID x; mat_type := mat_type x;
     poles := poles x; averagable := false;
     deltaer := deltaer x; tau := tau x; alpha := alpha x |}.

Definition Material_create (kw : MaterialKwargs) : M Scene unit :=
  let missing := "requires exactly five parameters" in
  er <- kwarg (kw_er kw) missing ;;
  se <- kwarg (kw_se kw) missing ;;
  mr <- kwarg (kw_mr kw) missing ;;
  sm <- kwarg (kw_sm kw) missing ;;
  material_id <- kwarg (kw_mat_id kw) missing ;;
  refuse_if (float_lt er 1)
    "requires a positive value of one or greater for static (DC) permittivity" ;;
  (* if se != 'inf': se = float(se); if se < 0: raise ...
     else: se = float('inf') *)
  se <- match se with
        | other_text t =>
            x <- to_float t ;;
            refuse_if (float_lt x 0)
              "requires a positive value for conductivity" ;;
            ret x
        | inf_text => ret infinity
        end ;;
  refuse_if (float_lt mr 1)
    "requires a positive value of one or greater for permeability" ;;
  refuse_if (float_lt sm 0)
    "requires a positive value for magnetic conductivity" ;;
  g <- gets grid ;;
  refuse_if (mem material_id (map mat_ID (materials g))) "already exists" ;;
  let m := MaterialUser (Z.of_nat (List.length (materials g))) material_id in
  (* if m.se == float('inf'): m.averagable = False *)
  let m := match se with infinity => not_averagable m | _ => m end in
  modify (fun s =>
    set_material_attrs
      (material_attrs s
       ++ [(material_id,
            {| mat_er := er; mat_se := se; mat_mr := mr; mat_sm := sm |})])
      (set_world
         (set_G (set_materials (materials (grid s) ++ [m]) (grid s)) (world s))
         s)).

(** ** [SoilPeplinski.create] *)

Record SoilKwargs : Type := {
  kw_sand_fraction : option Q;
  kw_clay_fraction : option Q;
  kw_bulk_density : option Q;
  kw_sand_density : option Q;
  kw_water_fraction_lower : option Q;
  kw_water_fraction_upper : option Q;
  kw_soil_id : option string
}.

Definition SoilPeplinski_create (kw : SoilKwargs) : M Scene unit :=
  let missing := "requires at exactly seven parameters" in
  sand_fraction <- kwarg (kw_sand_fraction kw) missing ;;
  clay_fraction <- kwarg (kw_clay_fraction kw) missing ;;
  bulk_density <- kwarg (kw_bulk_density kw) missing ;;
  sand_density <- kwarg (kw_sand_density kw) missing ;;
  water_fraction_lower <- kwarg (kw_water_fraction_lower kw) missing ;;
  water_fraction_upper <- kwarg (kw_water_fraction_upper kw) missing ;;
  ID <- kwarg (kw_soil_id kw) missing ;;
  refuse_if (Qltb sand_fraction 0)
    "requires a positive value for the sand fraction" ;;
  refuse_if (Qltb clay_fraction 0)
    "requires a positive value for the clay fraction" ;;
  refuse_if (Qltb bulk_density 0)
    "requires a positive value for the bulk density" ;;
  refuse_if (Qltb sand_density 0)
    "requires a positive value for the sand particle density" ;;
  refuse_if (Qltb water_fraction_lower 0)
    "requires a positive value for the lower limit of the water volumetric fraction" ;;
  refuse_if (Qltb water_fraction_upper 0)
    "requires a positive value for the upper limit of the water volumetric fraction" ;;
  models <- gets mixingmodels ;;
  refuse_if (mem ID (map soil_ID models)) "already exists" ;;
  let s := {| soil_ID := ID; soil_S := sand_fraction; soil_C := clay_fraction;
              soil_rb := bulk_density; soil_rs := sand_density;
              soil_mu := (water_fraction_lower, water_fraction_upper) |} in
  modify (fun sc => set_mixingmodels (mixingmodels sc ++ [s]) sc).

(** ** [GeometryView.create] *)

Record GeometryViewKwargs : Type := {
  gv_kw_p1 : option (Q * Q * Q);
  gv_kw_p2 : option (Q * Q * Q);
  gv_kw_dl : option (Q * Q * Q);
  gv_kw_output_type : option string;
  gv_kw_filename : option string;
  gv_kw_multi_grid : bool       (* 'multi_grid' in kwargs; its value is not read *)
}.

(** [geometry_view_constructor]: whether the view is built by
    [GeometryViewFineMultiGrid]. *)
Definition geometry_view_constructor (kw : GeometryViewKwargs)
    (output_type : string) : M Scene bool :=
  if gv_kw_multi_grid kw then
    g <- gets grid ;;
    refuse_if (is_subgrid g)
      "do not add multi_grid output to subgrid user object. Please add to Scene" ;;
    refuse_if (String.eqb output_type "n")
      "voxel output type (n) is not supported for multigrid output." ;;
    ret true
  else ret false.

Definition GeometryView_create (kw : GeometryViewKwargs) (uip : UserInput)
  : M Scene unit :=
  let missing := "requires exactly eleven parameters" in
  p1 <- kwarg (gv_kw_p1 kw) missing ;;
  p2 <- kwarg (gv_kw_p2 kw) missing ;;
  dl <- kwarg (gv_kw_dl kw) missing ;;
  output_type <- kwarg (option_map lower (gv_kw_output_type kw)) missing ;;
  filename <- kwarg (gv_kw_filename kw) missing ;;
  multi <- geometry_view_constructor kw output_type ;;
  box <- lift (check_box_points uip p1 p2) ;;
  let lo := fst box in
  let hi := snd box in
  let d := discretise_point uip dl in
  let sx := fst (fst d) in
  let sy := snd (fst d) in
  let sz := snd d in
  refuse_if ((sx <? 0) || (sy <? 0) || (sz <? 0))
    "the step size should not be less than zero" ;;
  s <- gets (fun s => s) ;;
  refuse_if ((sx >? nx s) || (sy >? ny s) || (sz >? nz s))
    "the step size should be less than the domain size" ;;
  refuse_if ((sx <? 1) || (sy <? 1) || (sz <? 1))
    "the step size should not be less than the spatial discretisation" ;;
  refuse_if (negb (String.eqb output_type "n")
             && negb (String.eqb output_type "f"))
    "requires type to be either n (normal) or f (fine)" ;;
  let g := grid s in
  refuse_if (String.eqb output_type "f"
             && (negb (Qeq_bool (inject_Z sx * dx g) (dx g))
                 || negb (Qeq_bool (inject_Z sy * dy g) (dy g))
                 || negb (Qeq_bool (inject_Z sz * dz g) (dz g))))
    "requires the spatial discretisation for the geometry view to be the same as the model for geometry view of type f (fine)" ;;
  let fileext := if String.eqb output_type "n" then ".vti" else ".vtp" in
  let v := {| gv_xs := fst (fst lo); gv_ys := snd (fst lo); gv_zs := snd lo;
              gv_xf := fst (fst hi); gv_yf := snd (fst hi); gv_zf := snd hi;
              gv_dx := sx; gv_dy := sy; gv_dz := sz;
              gv_filename := filename; gv_fileext := fileext;
              gv_multi_grid := multi |} in
  modify (fun sc => set_geometryviews (geometryviews sc ++ [v]) sc).

(** ** [PMLCFS.create] *)

(** The keyword [sigmamax]: the string ['None'], or anything else, which
    goes through [float()]. *)
Inductive SigmaMax : Type :=
| none_text
| bound_text (t : Text).

Record CFSKwargs : Type := {
  kw_alphascalingprofile : option string;
  kw_alphascalingdirection : option string;
  kw_alphamin : option Text;
  kw_alphamax : option Text;
  kw_kappascalingprofile : option string;
  kw_kappascalingdirection : option string;
  kw_kappamin : option Text;
  kw_kappamax : option Text;
  kw_sigmascalingprofile : option string;
  kw_sigmascalingdirection : option string;
  kw_sigmamin : option Text;
  kw_sigmamax : option SigmaMax
}.

(** [CFSParameter.scalingprofiles.keys()] and
    [CFSParameter.scalingdirections] of [gprMax.pml]. *)
Variable scalingprofiles : list string.
Variable scalingdirections : list string.

(** [float(t) < c] *)
Definition is_below {St : Type} (t : Text) (c : Q) : M St bool :=
  x <- to_float t ;; ret (float_lt x c).

(** [a or b]: [b] is evaluated only when [a] is false. *)
Definition or_else {St : Type} (a b : M St bool) : M St bool :=
  x <- a ;; if x then ret true else b.

Definition PMLCFS_create (kw : CFSKwargs) : M Scene unit :=
  let missing := "requires exactly twelve parameters" in
  alphascalingprofile <- kwarg (kw_alphascalingprofile kw) missing ;;
  alphascalingdirection <- kwarg (kw_alphascalingdirection kw) missing ;;
  alphamin <- kwarg (kw_alphamin kw) missing ;;
  alphamax <- kwarg (kw_alphamax kw) missing ;;
  kappascalingprofile <- kwarg (kw_kappascalingprofile kw) missing ;;
  kappascalingdirection <- kwarg (kw_kappascalingdirection kw) missing ;;
  kappamin <- kwarg (kw_kappamin kw) missing ;;
  kappamax <- kwarg (kw_kappamax kw) missing ;;
  sigmascalingprofile <- kwarg (kw_sigmascalingprofile kw) missing ;;
  sigmascalingdirection <- kwarg (kw_sigmascalingdirection kw) missing ;;
  sigmamin <- kwarg (kw_sigmamin kw) missing ;;
  sigmamax <- kwarg (kw_sigmamax kw) missing ;;
  refuse_if (negb (mem alphascalingprofile scalingprofiles)
             || negb (mem kappascalingprofile scalingprofiles)
             || negb (mem sigmascalingprofile scalingprofiles))
    "must have scaling type" ;;
  refuse_if (negb (mem alphascalingdirection scalingdirections)
             || negb (mem kappascalingdirection scalingdirections)
             || negb (mem sigmascalingdirection scalingdirections))
    "must have scaling type" ;;
  negative <- or_else (is_below alphamin 0)
                (or_else (is_below alphamax 0)
                   (or_else (is_below kappamin 0)
                      (or_else (is_below kappamax 0)
                         (is_below sigmamin 0)))) ;;
  refuse_if negative
    "minimum and maximum scaling values must be greater than zero" ;;
  small <- is_below kappamin 1 ;;
  refuse_if small
    "minimum scaling value for kappa must be greater than or equal to one" ;;
  amin <- to_float alphamin ;;
  amax <- to_float alphamax ;;
  kmin <- to_float kappamin ;;
  kmax <- to_float kappamax ;;
  smin <- to_float sigmamin ;;
  (* if sigmamax == 'None': cfssigma.max = None
     else: cfssigma.max = float(sigmamax) *)
  smax <- match sigmamax with
          | none_text => ret None
          | bound_text t => x <- to_float t ;; ret (Some x)
          end ;;
  (* log.info(f'... max: {cfssigma.max:g}) created.'), ahead of the append *)
  match smax with
  | None =>
      raise (TypeError "unsupported format string passed to NoneType.__format__")
  | Some _ => ret tt
  end ;;
  let c := {| cfs_alpha := {| cfs_ID := "alpha";
                              scalingprofile := alphascalingprofile;
                              scalingdirection := alphascalingdirection;
                              cfs_min := amin; cfs_max := Some amax |};
              cfs_kappa := {| cfs_ID := "kappa";
                              scalingprofile := kappascalingprofile;
                              scalingdirection := kappascalingdirection;
                              cfs_min := kmin; cfs_max := Some kmax |};
              cfs_sigma := {| cfs_ID := "sigma";
                              scalingprofile := sigmascalingprofile;
                              scalingdirection := sigmascalingdirection;
                              cfs_min := smin; cfs_max := smax |} |} in
  modify (fun sc => set_cfs (cfs sc ++ [c]) sc).

(** ** Floats and the tests of the commands *)


Definition not_lt (x : PyFloat) (c : Q) : Prop :=
  match x with
  | number q => (c <= q)%Q
  | infinity | nan => True
  | minus_infinity => False
  end.

Lemma not_mem_In (n : string) (l : list string) : mem n l = false <-> ~ In n l.
Proof.
  rewrite <- mem_In. destruct (mem n l); split; congruence.
Qed.



Lemma float_lt_false (x : PyFloat) (c : Q) :
  float_lt x c = false <-> not_lt x c.
Proof.
  destruct x as [q| | |]; simpl.
  - apply Qltb_le.
  - tauto.
  - split; [discriminate|intros []].
  - tauto.
Qed.

(** ** Properties of [Waveform.create] *)

(** The state after a waveform is appended. *)
Definition with_waveform (ID wavetype : string) (amp freq : PyFloat)
    (s : Scene)
  : Scene :=
  set_waveform_attrs
    (waveform_attrs s
     ++ [(ID, {| wave_type := wavetype; wave_amp := amp; wave_freq := freq |})])
    (set_world
       (set_G (set_waveforms (waveforms (grid s) ++ [ID]) (grid s)) (world s))
       s).

Lemma Waveform_create_cases (kw : WaveformKwargs) (s : Scene) :
  match kw_wave_type kw, kw_amp kw, kw_freq kw, kw_wave_id kw with
  | Some t, Some a, Some f, Some i =>
      if mem (lower t) WaveformUser_types && negb (float_le f 0)
         && negb (mem i (waveforms (grid s)))
      then Waveform_create kw s = (inr tt, with_waveform i (lower t) a f s)
      else exists msg, Waveform_create kw s = (inl (CmdInputError msg), s)
  | _, _, _, _ =>
      exists msg, Waveform_create kw s = (inl (CmdInputError msg), s)
  end.
Proof.
  unfold Waveform_create, kwarg, refuse_if, bind, gets, modify, ret, raise.
  destruct (kw_wave_type kw) as [t|]; cbn [option_map];
    [|eexists; reflexivity].
  destruct (kw_amp kw) as [a|]; [|eexists; reflexivity].
  destruct (kw_freq kw) as [f|]; [|eexists; reflexivity].
  destruct (kw_wave_id kw) as [i|]; [|eexists; reflexivity].
  destruct (mem (lower t) WaveformUser_types); cbn [negb andb];
    [|eexists; reflexivity].
  destruct (float_le f 0); cbn [negb andb]; [eexists; reflexivity|].
  destruct (mem i (waveforms (grid s))); cbn [negb];
    [eexists; reflexivity|reflexivity].
Qed.



(** ** Properties of [Material.create] *)

(** The keyword [se] is accepted and [x] is the conductivity stored: the
    string ['inf'] gives plus infinity, anything else what [float()] makes
    of it, which has to fail the test [se < 0]. *)
Definition se_accepted (se : Conductivity) (x : PyFloat) : Prop :=
  (se = inf_text /\ x = infinity)
  \/ (se = other_text (reads x) /\ not_lt x 0).

Lemma se_accepted_unique (se : Conductivity) (x y : PyFloat) :
  se_accepted se x -> se_accepted se y -> x = y.
Proof.
  intros [[-> ->]|[-> _]] [[E ->]|[E _]]; congruence.
Qed.

(** The material the command builds for the conductivity [x], and the state
    after it is appended. *)
Definition new_material (i : string) (x : PyFloat) (s : Scene) : Material :=
  let m := MaterialUser (Z.of_nat (List.length (materials (grid s)))) i in
  match x with infinity => not_averagable m | _ => m end.

Definition with_material (i : string) (er x mr sm : PyFloat) (s : Scene)
  : Scene :=
  set_material_attrs
    (material_attrs s
     ++ [(i, {| mat_er := er; mat_se := x; mat_mr := mr; mat_sm := sm |})])
    (set_world
       (set_G (set_materials (materials (grid s) ++ [new_material i x s])
                 (grid s)) (world s))
       s).

(** The command from the test on the permeability on, for the conductivity
    [x]. *)
Definition material_rest (kw : MaterialKwargs) (s : Scene) (i : string)
    (er x mr sm : PyFloat) : Prop :=
  if negb (float_lt mr 1) && negb (float_lt sm 0)
     && negb (mem i (map mat_ID (materials (grid s))))
  then Material_create kw s = (inr tt, with_material i er x mr sm s)
  else exists msg, Material_create kw s = (inl (CmdInputError msg), s).

Lemma Material_create_cases (kw : MaterialKwargs) (s : Scene) :
  match kw_er kw, kw_se kw, kw_mr kw, kw_sm kw, kw_mat_id kw with
  | Some er, Some se, Some mr, Some sm, Some i =>
      if float_lt er 1
      then exists msg, Material_create kw s = (inl (CmdInputError msg), s)
      else match se with
           | inf_text => material_rest kw s i er infinity mr sm
           | other_text (reads x) =>
               if float_lt x 0
               then exists msg,
                      Material_create kw s = (inl (CmdInputError msg), s)
               else material_rest kw s i er x mr sm
           | other_text unreadable =>
               Material_create kw s = (inl float_ValueError, s)
           end
  | _, _, _, _, _ =>
      exists msg, Material_create kw s = (inl (CmdInputError msg), s)
  end.
Proof.
  unfold material_rest, Material_create, kwarg, refuse_if, to_float, bind,
    gets, modify, ret, raise.
  destruct (kw_er kw) as [er|]; [|eexists; reflexivity].
  destruct (kw_se kw) as [se|]; [|eexists; reflexivity].
  destruct (kw_mr kw) as [mr|]; [|eexists; reflexivity].
  destruct (kw_sm kw) as [sm|]; [|eexists; reflexivity].
  destruct (kw_mat_id kw) as [i|]; [|eexists; reflexivity].
  destruct (float_lt er 1); [eexists; reflexivity|].
  destruct se as [|[x|]]; [| |reflexivity].
  - destruct (float_lt mr 1); cbn [negb andb]; [eexists; reflexivity|].
    destruct (float_lt sm 0); cbn [negb andb]; [eexists; reflexivity|].
    destruct (mem i (map mat_ID (materials (grid s)))); cbn [negb];
      [eexists; reflexivity|reflexivity].
  - destruct (float_lt x 0); [eexists; reflexivity|].
    destruct (float_lt mr 1); cbn [negb andb]; [eexists; reflexivity|].
    destruct (float_lt sm 0); cbn [negb andb]; [eexists; reflexivity|].
    destruct (mem i (map mat_ID (materials (grid s)))); cbn [negb];
      [eexists; reflexivity|reflexivity].
Qed.

(** What the command accepts: every number has to fail the test made on
    it. *)
Definition material_accepted (kw : MaterialKwargs) (s : Scene) : Prop :=
  exists er se mr sm i x,
    kw_er kw = Some er /\ kw_se kw = Some se /\ kw_mr kw = Some mr
    /\ kw_sm kw = Some sm /\ kw_mat_id kw = Some i
    /\ not_lt er 1 /\ se_accepted se x /\ not_lt mr 1 /\ not_lt sm 0
    /\ ~ In i (map mat_ID (materials (grid s))).

Lemma material_rest_dichotomy (kw : MaterialKwargs) (s : Scene) (i : string)
    (er x mr sm : PyFloat) :
  material_rest kw s i er x mr sm ->
  (not_lt mr 1 /\ not_lt sm 0 /\ ~ In i (map mat_ID (materials (grid s)))
   /\ Material_create kw s = (inr tt, with_material i er x mr sm s))
  \/ (~ (not_lt mr 1 /\ not_lt sm 0
         /\ ~ In i (map mat_ID (materials (grid s))))
      /\ exists msg, Material_create kw s = (inl (CmdInputError msg), s)).
Proof.
  unfold material_rest.
  rewrite <- !float_lt_false, <- not_mem_In.
  destruct (float_lt mr 1); destruct (float_lt sm 0);
    destruct (mem i (map mat_ID (materials (grid s)))); cbn [negb andb];
    intro H; first [left; repeat split; [exact H] | right; split; [|exact H]];
    intros [H1 [H2 H3]]; discriminate.
Qed.

Lemma Material_create_dichotomy (kw : MaterialKwargs) (s : Scene) :
  (material_accepted kw s
   /\ exists er se mr sm i x,
        kw_er kw = Some er /\ kw_se kw = Some se /\ kw_mr kw = Some mr
        /\ kw_sm kw = Some sm /\ kw_mat_id kw = Some i
        /\ se_accepted se x
        /\ ~ In i (map mat_ID (materials (grid s)))
        /\ Material_create kw s = (inr tt, with_material i er x mr sm s))
  \/ (~ material_accepted kw s
      /\ exists e, Material_create kw s = (inl e, s)
                   /\ ((exists msg, e = CmdInputError msg)
                       \/ (e = float_ValueError
                           /\ kw_se kw = Some (other_text unreadable)))).
Proof.
  assert (H := Material_create_cases kw s).
  unfold material_accepted. revert H.
  destruct (kw_er kw) as [er|];
    [|intros [msg H]; right; split;
      [intros [? [? [? [? [? [? [K _]]]]]]]; discriminate K|eauto]].
  destruct (kw_se kw) as [se|];
    [|intros [msg H]; right; split;
      [intros [? [? [? [? [? [? [_ [K _]]]]]]]]; discriminate K|eauto]].
  destruct (kw_mr kw) as [mr|];
    [|intros [msg H]; right; split;
      [intros [? [? [? [? [? [? [_ [_ [K _]]]]]]]]]; discriminate K|eauto]].
  destruct (kw_sm kw) as [sm|];
    [|intros [msg H]; right; split;
      [intros [? [? [? [? [? [? [_ [_ [_ [K _]]]]]]]]]]; discriminate K|eauto]].
  destruct (kw_mat_id kw) as [i|];
    [|intros [msg H]; right; split;
      [intros [? [? [? [? [? [? [_ [_ [_ [_ [K _]]]]]]]]]]]; discriminate K
      |eauto]].
  assert (Hrest : forall x, se_accepted se x -> not_lt er 1 ->
            material_rest kw s i er x mr sm ->
            ((exists er0 se0 mr0 sm0 i0 x0,
                Some er = Some er0 /\ Some se = Some se0 /\ Some mr = Some mr0
                /\ Some sm = Some sm0 /\ Some i = Some i0
                /\ not_lt er0 1 /\ se_accepted se0 x0 /\ not_lt mr0 1
                /\ not_lt sm0 0
                /\ ~ In i0 (map mat_ID (materials (grid s))))
             /\ exists er0 se0 mr0 sm0 i0 x0,
                  Some er = Some er0 /\ Some se = Some se0
                  /\ Some mr = Some mr0 /\ Some sm = Some sm0
                  /\ Some i = Some i0 /\ se_accepted se0 x0
                  /\ ~ In i0 (map mat_ID (materials (grid s)))
                  /\ Material_create kw s
                     = (inr tt, with_material i0 er0 x0 mr0 sm0 s))
            \/ (~ (exists er0 se0 mr0 sm0 i0 x0,
                     Some er = Some er0 /\ Some se = Some se0
                     /\ Some mr = Some mr0 /\ Some sm = Some sm0
                     /\ Some i = Some i0
                     /\ not_lt er0 1 /\ se_accepted se0 x0 /\ not_lt mr0 1
                     /\ not_lt sm0 0
                     /\ ~ In i0 (map mat_ID (materials (grid s))))
                /\ exists e, Material_create kw s = (inl e, s)
                             /\ ((exists msg, e = CmdInputError msg)
                                 \/ (e = float_ValueError
                                     /\ Some se
                                        = Some (other_text unreadable))))).
  { intros x Hse Her Hr.
    destruct (material_rest_dichotomy _ _ _ _ _ _ _ Hr)
      as [[Hmr [Hsm [Hi E]]]|[Hn [msg E]]].
    - left. split.
      + exists er, se, mr, sm, i, x. repeat split; assumption.
      + exists er, se, mr, sm, i, x. repeat split; assumption.
    - right. split; [|eauto].
      intros [er0 [se0 [mr0 [sm0 [i0 [x0 [K1 [K2 [K3 [K4 [K5
               [_ [_ [Hmr [Hsm Hi]]]]]]]]]]]]]]].
      injection K3 as <-. injection K4 as <-. injection K5 as <-.
      apply Hn. auto. }
  destruct (float_lt er 1) eqn:Eer.
  - intros [msg H]. right. split; [|eauto].
    intros [er0 [? [? [? [? [? [K1 [_ [_ [_ [_ [Her _]]]]]]]]]]]].
    injection K1 as <-. apply float_lt_false in Her. congruence.
  - apply float_lt_false in Eer.
    destruct se as [|[x|]].
    + apply Hrest; [left; auto|exact Eer].
    + destruct (float_lt x 0) eqn:Ex.
      * intros [msg H]. right. split; [|eauto].
        intros [? [se0 [? [? [? [x0 [_ [K2 [_ [_ [_ [_ [Hse _]]]]]]]]]]]]].
        injection K2 as <-.
        destruct Hse as [[K _]|[K Hx]]; [discriminate K|].
        injection K as <-. apply float_lt_false in Hx. congruence.
      * apply Hrest; [right; split; [reflexivity|]|exact Eer].
        apply float_lt_false. exact Ex.
    + intro H. right. split; [|exists float_ValueError; auto].
      intros [? [se0 [? [? [? [x0 [_ [K2 [_ [_ [_ [_ [Hse _]]]]]]]]]]]]].
      injection K2 as <-.
      destruct Hse as [[K _]|[K _]]; discriminate K.
Qed.

(** X18. [Material.create] returns exactly when its five keywords are given,
    the tests [er < 1], [mr < 1] and [sm < 0] are false, the keyword [se] is
    the string ['inf'] or something [float()] reads for which the test
    [se < 0] is false, and no material of the grid has the ID: a number has
    to be at or above its bound, and a NaN passes every test.  The command
    then appends one material, numbered by the count of materials before
    it, with its averaging switched off when the conductivity stored is
    plus infinity, and changes nothing else.  Otherwise it raises and
    changes nothing: a [ValueError] when the relative permittivity passes
    and [float()] refuses [se], a [CmdInputError] in every other case. *)
Theorem Material_create_outcome (kw : MaterialKwargs) (s : Scene) :
  (fst (Material_create kw s) = inr tt <-> material_accepted kw s)
  /\ (forall er se mr sm i x,
        kw_er kw = Some er -> kw_se kw = Some se -> kw_mr kw = Some mr ->
        kw_sm kw = Some sm -> kw_mat_id kw = Some i ->
        se_accepted se x -> material_accepted kw s ->
        Material_create kw s = (inr tt, with_material i er x mr sm s)
        /\ materials (grid (snd (Material_create kw s)))
           = materials (grid s)
             ++ [match x with
                 | infinity => not_averagable
                 | _ => fun m => m
                 end (MaterialUser (Z.of_nat (List.length (materials (grid s))))
                        i)])
  /\ (~ material_accepted kw s ->
      exists e, Material_create kw s = (inl e, s)
                /\ ((exists msg, e = CmdInputError msg)
                    \/ (e = float_ValueError
                        /\ kw_se kw = Some (other_text unreadable))))
  /\ (forall er mr sm i,
        kw_er kw = Some er -> kw_se kw = Some (other_text unreadable) ->
        kw_mr kw = Some mr -> kw_sm kw = Some sm -> kw_mat_id kw = Some i ->
        not_lt er 1 ->
        Material_create kw s = (inl float_ValueError, s)).
Proof.
  assert (Hvalue : forall er mr sm i,
            kw_er kw = Some er -> kw_se kw = Some (other_text unreadable) ->
            kw_mr kw = Some mr -> kw_sm kw = Some sm ->
            kw_mat_id kw = Some i -> not_lt er 1 ->
            Material_create kw s = (inl float_ValueError, s)).
  { intros er mr sm i K1 K2 K3 K4 K5 Her.
    assert (H := Material_create_cases kw s).
    rewrite K1, K2, K3, K4, K5 in H.
    apply float_lt_false in Her. rewrite Her in H. exact H. }
  split; [|split; [|split; [|exact Hvalue]]];
    destruct (Material_create_dichotomy kw s)
      as [[Ha [er [se [mr [sm [i [x [K1 [K2 [K3 [K4 [K5 [Hse [Hi E]]]]]]]]]]]]]]
         |[Hn [e [E He]]]]; rewrite E; cbn [fst snd].
  - tauto.
  - split; [discriminate|tauto].
  - intros er0 se0 mr0 sm0 i0 x0 L1 L2 L3 L4 L5 Hse0 _.
    rewrite K1 in L1. rewrite K2 in L2. rewrite K3 in L3. rewrite K4 in L4.
    rewrite K5 in L5.
    injection L1 as <-. injection L2 as <-. injection L3 as <-.
    injection L4 as <-. injection L5 as <-.
    rewrite (se_accepted_unique _ _ _ Hse0 Hse).
    split; [reflexivity|].
    simpl. unfold new_material. destruct x; reflexivity.
  - intros; contradiction.
  - intro Hn. contradiction.
  - intros _. exists e. split; [reflexivity|exact He].
Qed.

Lemma enumerate_snoc {A : Type} (l : list A) (x : A) :
  enumerate (l ++ [x]) = enumerate l ++ [(List.length l, x)].
Proof.
  unfold enumerate.
  assert (H : forall k,
    combine (seq k (List.length (l ++ [x]))) (l ++ [x])
    = combine (seq k (List.length l)) l ++ [((k + List.length l)%nat, x)]).
  { induction l as [|y l IH]; intro k; simpl.
    - rewrite Nat.add_0_r. reflexivity.
    - rewrite (IH (S k)), Nat.add_succ_r. reflexivity. }
  exact (H 0%nat).
Qed.

Lemma find_new_material (i : string) (ms : list Material) (m : Material) :
  mat_ID m = i -> ~ In i (map mat_ID ms) ->
  find_materials [i] (ms ++ [m]) = [List.length ms].
Proof.
  intros Hm Hi. unfold find_materials. simpl. rewrite app_nil_r.
  rewrite enumerate_snoc, filter_app. simpl. rewrite Hm, String.eqb_refl.
  assert (E : filter (fun p : nat * Material => String.eqb (mat_ID (snd p)) i)
                (enumerate ms) = []).
  { assert (F : forall l : list (nat * Material),
              (forall p, In p l -> In (mat_ID (snd p)) (map mat_ID ms)) ->
              filter (fun p : nat * Material => String.eqb (mat_ID (snd p)) i) l
              = []).
    { induction l as [|p l IH]; intro Hl; [reflexivity|]. simpl.
      destruct (String.eqb (mat_ID (snd p)) i) eqn:Ep.
      - apply String.eqb_eq in Ep. exfalso. apply Hi. rewrite <- Ep.
        apply Hl. left. reflexivity.
      - apply IH. intros q Hq. apply Hl. right. exact Hq. }
    apply F. intros [k y] Hin. simpl. apply in_enumerate in Hin.
    apply in_map. eapply nth_error_In. exact Hin. }
  rewrite E. reflexivity.
Qed.

(** X19. With a [Material] class whose constructor keeps the number and the
    ID it is given, [Material.create] keeps the IDs of the materials of the
    grid distinct and every material numbered by its position; an accepted
    material is the one the dispersion commands find under its ID, and its
    averaging is switched off when its conductivity is infinite, given as
    the string ['inf'] or as something [float()] reads as plus infinity. *)
Theorem Material_create_invariants (kw : MaterialKwargs) (s : Scene)
    (constructor_ID : forall n i, mat_ID (MaterialUser n i) = i)
    (constructor_numID : forall n i, numID (MaterialUser n i) = n) :
  let s' := snd (Material_create kw s) in
  (NoDup (map mat_ID (materials (grid s))) ->
   NoDup (map mat_ID (materials (grid s'))))
  /\ ((forall k x, nth_error (materials (grid s)) k = Some x ->
                  numID x = Z.of_nat k) ->
      forall k x, nth_error (materials (grid s')) k = Some x ->
                  numID x = Z.of_nat k)
  /\ (forall se i, kw_se kw = Some se -> kw_mat_id kw = Some i ->
        fst (Material_create kw s) = inr tt ->
        find_materials [i] (materials (grid s'))
        = [List.length (materials (grid s))]
        /\ exists m,
             nth_error (materials (grid s')) (List.length (materials (grid s)))
             = Some m
             /\ mat_ID m = i
             /\ (se = inf_text \/ se = other_text (reads infinity) ->
                 averagable m = false)).
Proof.
  assert (Hid : forall i x, mat_ID (new_material i x s) = i).
  { intros i x. unfold new_material. destruct x; simpl; apply constructor_ID. }
  assert (Hnum : forall i x, numID (new_material i x s)
                             = Z.of_nat (List.length (materials (grid s)))).
  { intros i x. unfold new_material.
    destruct x; simpl; apply constructor_numID. }
  destruct (Material_create_dichotomy kw s)
    as [[_ [er [se [mr [sm [i [x [_ [K2 [_ [_ [K5 [Hse [Ei E]]]]]]]]]]]]]]
       |[_ [e [E _]]]]; rewrite E; cbn [fst snd];
    [|split; [auto|split; [auto|intros; discriminate]]].
  simpl.
  split; [|split].
  - intro Hnd. rewrite map_app. simpl. rewrite Hid.
    apply NoDup_app; [exact Hnd|constructor; [intros []|constructor]|].
    intros y Hy [<-|[]]. contradiction.
  - intros Hn k y Hk.
    destruct (Nat.lt_ge_cases k (List.length (materials (grid s)))) as [Hlt|Hge].
    + rewrite nth_error_app1 in Hk by exact Hlt. apply Hn. exact Hk.
    + rewrite nth_error_app2 in Hk by exact Hge.
      destruct (k - List.length (materials (grid s)))%nat as [|j] eqn:Ek.
      * simpl in Hk. injection Hk as <-. rewrite Hnum.
        f_equal. lia.
      * simpl in Hk. destruct j; discriminate Hk.
  - intros se0 i0 L2 L5 _. rewrite K2 in L2. rewrite K5 in L5.
    injection L2 as <-. injection L5 as <-.
    split; [apply find_new_material; [apply Hid|exact Ei]|].
    exists (new_material i x s). split; [|split].
    + rewrite nth_error_app2 by apply Nat.le_refl.
      rewrite Nat.sub_diag. reflexivity.
    + apply Hid.
    + intro Hinf.
      assert (Ex : x = infinity).
      { destruct Hinf as [->| ->].
        - apply (se_accepted_unique inf_text); [exact Hse|left; auto].
        - apply (se_accepted_unique (other_text (reads infinity)));
            [exact Hse|right; split; [reflexivity|exact I]]. }
      rewrite Ex. reflexivity.
Qed.

(** ** Properties of [SoilPeplinski.create] *)

Definition new_soil (i : string) (sand clay bulk density lower upper : Q)
  : PeplinskiSoilUser :=
  {| soil_ID := i; soil_S := sand; soil_C := clay; soil_rb := bulk;
     soil_rs := density; soil_mu := (lower, upper) |}.

Lemma SoilPeplinski_create_cases (kw : SoilKwargs) (s : Scene) :
  match kw_sand_fraction kw, kw_clay_fraction kw, kw_bulk_density kw,
        kw_sand_density kw, kw_water_fraction_lower kw,
        kw_water_fraction_upper kw, kw_soil_id kw with
  | Some sand, Some clay, Some bulk, Some density, Some lower, Some upper,
    Some i =>
      if negb (Qltb sand 0) && negb (Qltb clay 0) && negb (Qltb bulk 0)
         && negb (Qltb density 0) && negb (Qltb lower 0)
         && negb (Qltb upper 0)
         && negb (mem i (map soil_ID (mixingmodels s)))
      then SoilPeplinski_create kw s
           = (inr tt,
              set_mixingmodels
                (mixingmodels s
                 ++ [new_soil i sand clay bulk density lower upper]) s)
      else exists msg, SoilPeplinski_create kw s = (inl (CmdInputError msg), s)
  | _, _, _, _, _, _, _ =>
      exists msg, SoilPeplinski_create kw s = (inl (CmdInputError msg), s)
  end.
Proof.
  unfold SoilPeplinski_create, kwarg, refuse_if, bind, gets, modify, ret, raise.
  destruct (kw_sand_fraction kw) as [sand|]; [|eexists; reflexivity].
  destruct (kw_clay_fraction kw) as [clay|]; [|eexists; reflexivity].
  destruct (kw_bulk_density kw) as [bulk|]; [|eexists; reflexivity].
  destruct (kw_sand_density kw) as [density|]; [|eexists; reflexivity].
  destruct (kw_water_fraction_lower kw) as [lower|]; [|eexists; reflexivity].
  destruct (kw_water_fraction_upper kw) as [upper|]; [|eexists; reflexivity].
  destruct (kw_soil_id kw) as [i|]; [|eexists; reflexivity].
  destruct (Qltb sand 0); cbn [negb andb]; [eexists; reflexivity|].
  destruct (Qltb clay 0); cbn [negb andb]; [eexists; reflexivity|].
  destruct (Qltb bulk 0); cbn [negb andb]; [eexists; reflexivity|].
  destruct (Qltb density 0); cbn [negb andb]; [eexists; reflexivity|].
  destruct (Qltb lower 0); cbn [negb andb]; [eexists; reflexivity|].
  destruct (Qltb upper 0); cbn [negb andb]; [eexists; reflexivity|].
  destruct (mem i (map soil_ID (mixingmodels s))); cbn [negb];
    [eexists; reflexivity|reflexivity].
Qed.

(** What the command accepts. *)
Definition soil_accepted (kw : SoilKwargs) (s : Scene) : Prop :=
  match kw_sand_fraction kw, kw_clay_fraction kw, kw_bulk_density kw,
        kw_sand_density kw, kw_water_fraction_lower kw,
        kw_water_fraction_upper kw, kw_soil_id kw with
  | Some sand, Some clay, Some bulk, Some density, Some lower, Some upper,
    Some i =>
      (0 <= sand)%Q /\ (0 <= clay)%Q /\ (0 <= bulk)%Q /\ (0 <= density)%Q
      /\ (0 <= lower)%Q /\ (0 <= upper)%Q
      /\ ~ In i (map soil_ID (mixingmodels s))
  | _, _, _, _, _, _, _ => False
  end.

Lemma SoilPeplinski_create_dichotomy (kw : SoilKwargs) (s : Scene) :
  (soil_accepted kw s
   /\ exists sand clay bulk density lower upper i,
        kw_sand_fraction kw = Some sand /\ kw_clay_fraction kw = Some clay
        /\ kw_bulk_density kw = Some bulk /\ kw_sand_density kw = Some density
        /\ kw_water_fraction_lower kw = Some lower
        /\ kw_water_fraction_upper kw = Some upper /\ kw_soil_id kw = Some i
        /\ ~ In i (map soil_ID (mixingmodels s))
        /\ SoilPeplinski_create kw s
           = (inr tt,
              set_mixingmodels
                (mixingmodels s
                 ++ [new_soil i sand clay bulk density lower upper]) s))
  \/ (~ soil_accepted kw s
      /\ exists msg, SoilPeplinski_create kw s = (inl (CmdInputError msg), s)).
Proof.
  assert (H := SoilPeplinski_create_cases kw s).
  unfold soil_accepted. revert H.
  destruct (kw_sand_fraction kw) as [sand|];
    [|intros [msg H]; right; split; [tauto|eauto]].
  destruct (kw_clay_fraction kw) as [clay|];
    [|intros [msg H]; right; split; [tauto|eauto]].
  destruct (kw_bulk_density kw) as [bulk|];
    [|intros [msg H]; right; split; [tauto|eauto]].
  destruct (kw_sand_density kw) as [density|];
    [|intros [msg H]; right; split; [tauto|eauto]].
  destruct (kw_water_fraction_lower kw) as [lower|];
    [|intros [msg H]; right; split; [tauto|eauto]].
  destruct (kw_water_fraction_upper kw) as [upper|];
    [|intros [msg H]; right; split; [tauto|eauto]].
  destruct (kw_soil_id kw) as [i|];
    [|intros [msg H]; right; split; [tauto|eauto]].
  rewrite <- !Qltb_le, <- not_mem_In, <- !negb_true_iff, <- !andb_true_iff.
  rewrite !andb_assoc.
  destruct (negb (Qltb sand 0) && negb (Qltb clay 0) && negb (Qltb bulk 0)
            && negb (Qltb density 0) && negb (Qltb lower 0)
            && negb (Qltb upper 0)
            && negb (mem i (map soil_ID (mixingmodels s)))) eqn:E; intro H.
  - left. split; [reflexivity|].
    exists sand, clay, bulk, density, lower, upper, i.
    repeat split; try reflexivity; [|exact H].
    rewrite !andb_true_iff in E. destruct E as [_ E].
    apply negb_true_iff in E. apply not_mem_In in E. exact E.
  - right. destruct H as [msg H]. split; [discriminate|eauto].
Qed.

(** X20. [SoilPeplinski.create] returns exactly when its seven keywords are
    given, none of the six numbers is negative and no mixing model of the
    grid has the ID: fractions above one and a lower water fraction above
    the upper one are accepted.  It then appends the soil model with the
    values given and changes nothing else; otherwise it raises
    [CmdInputError] and changes nothing.  The IDs of the mixing models stay
    distinct. *)
Theorem SoilPeplinski_create_outcome (kw : SoilKwargs) (s : Scene) :
  (fst (SoilPeplinski_create kw s) = inr tt <-> soil_accepted kw s)
  /\ (forall sand clay bulk density lower upper i,
        kw_sand_fraction kw = Some sand -> kw_clay_fraction kw = Some clay ->
        kw_bulk_density kw = Some bulk -> kw_sand_density kw = Some density ->
        kw_water_fraction_lower kw = Some lower ->
        kw_water_fraction_upper kw = Some upper -> kw_soil_id kw = Some i ->
        soil_accepted kw s ->
        SoilPeplinski_create kw s
        = (inr tt,
           set_mixingmodels
             (mixingmodels s
              ++ [{| soil_ID := i; soil_S := sand; soil_C := clay;
                     soil_rb := bulk; soil_rs := density;
                     soil_mu := (lower, upper) |}]) s))
  /\ (~ soil_accepted kw s ->
      exists msg, SoilPeplinski_create kw s = (inl (CmdInputError msg), s))
  /\ (NoDup (map soil_ID (mixingmodels s)) ->
      NoDup (map soil_ID (mixingmodels (snd (SoilPeplinski_create kw s))))).
Proof.
  destruct (SoilPeplinski_create_dichotomy kw s)
    as [[Ha [sand [clay [bulk [density [lower [upper [i
         [K1 [K2 [K3 [K4 [K5 [K6 [K7 [Hi E]]]]]]]]]]]]]]]]|[Hn [msg E]]];
    rewrite E; cbn [fst snd].
  - split; [tauto|]. split; [|split; [tauto|]].
    + intros sand0 clay0 bulk0 density0 lower0 upper0 i0
        L1 L2 L3 L4 L5 L6 L7 _.
      rewrite K1 in L1. rewrite K2 in L2. rewrite K3 in L3. rewrite K4 in L4.
      rewrite K5 in L5. rewrite K6 in L6. rewrite K7 in L7.
      injection L1 as <-. injection L2 as <-. injection L3 as <-.
      injection L4 as <-. injection L5 as <-. injection L6 as <-.
      injection L7 as <-. reflexivity.
    + intro Hnd. simpl. rewrite map_app. simpl.
      apply NoDup_app; [exact Hnd|constructor; [intros []|constructor]|].
      intros x Hx [<-|[]]. contradiction.
  - split; [split; [discriminate|tauto]|]. split; [tauto|].
    split; [eauto|auto].
Qed.

(** ** Properties of [PMLCFS.create] *)

Definition new_cfs (ap ad : string) (amin amax : PyFloat) (kp kd : string)
    (kmin kmax : PyFloat) (sp sd : string) (smin : PyFloat)
    (smax : option PyFloat) : CFS :=
  {| cfs_alpha := {| cfs_ID := "alpha"; scalingprofile := ap;
                     scalingdirection := ad;
                     cfs_min := amin; cfs_max := Some amax |};
     cfs_kappa := {| cfs_ID := "kappa"; scalingprofile := kp;
                     scalingdirection := kd;
                     cfs_min := kmin; cfs_max := Some kmax |};
     cfs_sigma := {| cfs_ID := "sigma"; scalingprofile := sp;
                     scalingdirection := sd;
                     cfs_min := smin; cfs_max := smax |} |}.

(** Every keyword of the command is given. *)
Definition cfs_keys (kw : CFSKwargs)
    (ap ad : string) (amin amax : Text) (kp kd : string) (kmin kmax : Text)
    (sp sd : string) (smin : Text) (smax : SigmaMax) : Prop :=
  kw_alphascalingprofile kw = Some ap /\ kw_alphascalingdirection kw = Some ad
  /\ kw_alphamin kw = Some amin /\ kw_alphamax kw = Some amax
  /\ kw_kappascalingprofile kw = Some kp
  /\ kw_kappascalingdirection kw = Some kd
  /\ kw_kappamin kw = Some kmin /\ kw_kappamax kw = Some kmax
  /\ kw_sigmascalingprofile kw = Some sp
  /\ kw_sigmascalingdirection kw = Some sd
  /\ kw_sigmamin kw = Some smin /\ kw_sigmamax kw = Some smax.

(** The scaling profiles and directions are known ones. *)
Definition cfs_known (ap ad kp kd sp sd : string) : Prop :=
  In ap scalingprofiles /\ In kp scalingprofiles /\ In sp scalingprofiles
  /\ In ad scalingdirections /\ In kd scalingdirections
  /\ In sd scalingdirections.

(** The tests on the five bounds are false: none is below 0, and the
    minimum of kappa is not below 1. *)
Definition cfs_bounds (amin amax kmin kmax smin : PyFloat) : Prop :=
  not_lt amin 0 /\ not_lt amax 0 /\ not_lt kmin 0 /\ not_lt kmax 0
  /\ not_lt smin 0 /\ not_lt kmin 1.

(** What the command accepts: [float()] reads the six bounds, the maximum of
    sigma among them. *)
Definition cfs_accepted (kw : CFSKwargs) : Prop :=
  exists ap ad amin amax kp kd kmin kmax sp sd smin smax,
    cfs_keys kw ap ad (reads amin) (reads amax) kp kd (reads kmin)
      (reads kmax) sp sd (reads smin) (bound_text (reads smax))
    /\ cfs_known ap ad kp kd sp sd
    /\ cfs_bounds amin amax kmin kmax smin.

(** The error of the log line for a sigma without a maximum. *)
Definition no_format : exn :=
  TypeError "unsupported format string passed to NoneType.__format__".

(** The errors of the command. *)
Definition cfs_error (e : exn) : Prop :=
  e = no_format \/ e = float_ValueError \/ exists msg, e = CmdInputError msg.

Ltac cfs_open :=
  unfold PMLCFS_create, kwarg, refuse_if, or_else, is_below, to_float, bind,
    gets, modify, ret, raise.

Lemma PMLCFS_create_reads (kw : CFSKwargs) (s : Scene)
    (ap ad : string) (amin amax : PyFloat) (kp kd : string)
    (kmin kmax : PyFloat) (sp sd : string) (smin : PyFloat)
    (smax : SigmaMax) :
  cfs_keys kw ap ad (reads amin) (reads amax) kp kd (reads kmin) (reads kmax)
    sp sd (reads smin) smax ->
  cfs_known ap ad kp kd sp sd ->
  cfs_bounds amin amax kmin kmax smin ->
  PMLCFS_create kw s
  = match smax with
    | bound_text (reads x) =>
        (inr tt,
         set_cfs (cfs s ++ [new_cfs ap ad amin amax kp kd kmin kmax sp sd smin
                              (Some x)]) s)
    | bound_text unreadable => (inl float_ValueError, s)
    | none_text => (inl no_format, s)
    end.
Proof.
  intros [K1 [K2 [K3 [K4 [K5 [K6 [K7 [K8 [K9 [K10 [K11 K12]]]]]]]]]]]
         [H1 [H2 [H3 [H4 [H5 H6]]]]] [B1 [B2 [B3 [B4 [B5 B6]]]]].
  apply (proj2 (mem_In _ _)) in H1, H2, H3, H4, H5, H6.
  apply float_lt_false in B1, B2, B3, B4, B5, B6.
  cfs_open.
  rewrite K1, K2, K3, K4, K5, K6, K7, K8, K9, K10, K11, K12.
  rewrite H1, H2, H3, H4, H5, H6. cbn [negb orb].
  rewrite B1, B2, B3, B4, B5, B6.
  destruct smax as [|[x|]]; reflexivity.
Qed.

Lemma cfs_accepted_returns (kw : CFSKwargs) (s : Scene) :
  cfs_accepted kw -> fst (PMLCFS_create kw s) = inr tt.
Proof.
  intros [ap [ad [amin [amax [kp [kd [kmin [kmax [sp [sd [smin [smax
            [K [Hk Hb]]]]]]]]]]]]]].
  rewrite (PMLCFS_create_reads kw s _ _ _ _ _ _ _ _ _ _ _ _ K Hk Hb).
  reflexivity.
Qed.

(** The command raises one of its errors, or it has read every bound but the
    maximum of sigma and every test has passed. *)
Lemma PMLCFS_create_total (kw : CFSKwargs) (s : Scene) :
  (exists e, PMLCFS_create kw s = (inl e, s) /\ cfs_error e)
  \/ (exists ap ad amin amax kp kd kmin kmax sp sd smin smax,
        cfs_keys kw ap ad (reads amin) (reads amax) kp kd (reads kmin)
          (reads kmax) sp sd (reads smin) smax
        /\ cfs_known ap ad kp kd sp sd
        /\ cfs_bounds amin amax kmin kmax smin).
Proof.
  unfold cfs_keys, cfs_known, cfs_bounds, cfs_error. cfs_open.
  destruct (kw_alphascalingprofile kw) as [ap|];
    [|left; eexists; split; [reflexivity|right; right; eauto]].
  destruct (kw_alphascalingdirection kw) as [ad|];
    [|left; eexists; split; [reflexivity|right; right; eauto]].
  destruct (kw_alphamin kw) as [tamin|];
    [|left; eexists; split; [reflexivity|right; right; eauto]].
  destruct (kw_alphamax kw) as [tamax|];
    [|left; eexists; split; [reflexivity|right; right; eauto]].
  destruct (kw_kappascalingprofile kw) as [kp|];
    [|left; eexists; split; [reflexivity|right; right; eauto]].
  destruct (kw_kappascalingdirection kw) as [kd|];
    [|left; eexists; split; [reflexivity|right; right; eauto]].
  destruct (kw_kappamin kw) as [tkmin|];
    [|left; eexists; split; [reflexivity|right; right; eauto]].
  destruct (kw_kappamax kw) as [tkmax|];
    [|left; eexists; split; [reflexivity|right; right; eauto]].
  destruct (kw_sigmascalingprofile kw) as [sp|];
    [|left; eexists; split; [reflexivity|right; right; eauto]].
  destruct (kw_sigmascalingdirection kw) as [sd|];
    [|left; eexists; split; [reflexivity|right; right; eauto]].
  destruct (kw_sigmamin kw) as [tsmin|];
    [|left; eexists; split; [reflexivity|right; right; eauto]].
  destruct (kw_sigmamax kw) as [tsmax|];
    [|left; eexists; split; [reflexivity|right; right; eauto]].
  destruct (mem ap scalingprofiles) eqn:H1; cbn [negb orb];
    [|left; eexists; split; [reflexivity|right; right; eauto]].
  destruct (mem kp scalingprofiles) eqn:H2; cbn [negb orb];
    [|left; eexists; split; [reflexivity|right; right; eauto]].
  destruct (mem sp scalingprofiles) eqn:H3; cbn [negb orb];
    [|left; eexists; split; [reflexivity|right; right; eauto]].
  destruct (mem ad scalingdirections) eqn:H4; cbn [negb orb];
    [|left; eexists; split; [reflexivity|right; right; eauto]].
  destruct (mem kd scalingdirections) eqn:H5; cbn [negb orb];
    [|left; eexists; split; [reflexivity|right; right; eauto]].
  destruct (mem sd scalingdirections) eqn:H6; cbn [negb orb];
    [|left; eexists; split; [reflexivity|right; right; eauto]].
  destruct tamin as [amin|];
    [|left; eexists; split; [reflexivity|right; left; reflexivity]].
  destruct (float_lt amin 0) eqn:B1;
    [left; eexists; split; [reflexivity|right; right; eauto]|].
  destruct tamax as [amax|];
    [|left; eexists; split; [reflexivity|right; left; reflexivity]].
  destruct (float_lt amax 0) eqn:B2;
    [left; eexists; split; [reflexivity|right; right; eauto]|].
  destruct tkmin as [kmin|];
    [|left; eexists; split; [reflexivity|right; left; reflexivity]].
  destruct (float_lt kmin 0) eqn:B3;
    [left; eexists; split; [reflexivity|right; right; eauto]|].
  destruct tkmax as [kmax|];
    [|left; eexists; split; [reflexivity|right; left; reflexivity]].
  destruct (float_lt kmax 0) eqn:B4;
    [left; eexists; split; [reflexivity|right; right; eauto]|].
  destruct tsmin as [smin|];
    [|left; eexists; split; [reflexivity|right; left; reflexivity]].
  destruct (float_lt smin 0) eqn:B5;
    [left; eexists; split; [reflexivity|right; right; eauto]|].
  destruct (float_lt kmin 1) eqn:B6;
    [left; eexists; split; [reflexivity|right; right; eauto]|].
  right.
  exists ap, ad, amin, amax, kp, kd, kmin, kmax, sp, sd, smin, tsmax.
  split; [repeat split; reflexivity|].
  split; [repeat split; apply mem_In; assumption|].
  repeat split; apply float_lt_false; assumption.
Qed.

Lemma PMLCFS_create_dichotomy (kw : CFSKwargs) (s : Scene) :
  (cfs_accepted kw /\ fst (PMLCFS_create kw s) = inr tt)
  \/ (~ cfs_accepted kw
      /\ exists e, PMLCFS_create kw s = (inl e, s) /\ cfs_error e).
Proof.
  assert (Hno : forall e, PMLCFS_create kw s = (inl e, s) -> ~ cfs_accepted kw).
  { intros e E Ha. apply (cfs_accepted_returns kw s) in Ha.
    rewrite E in Ha. discriminate Ha. }
  destruct (PMLCFS_create_total kw s)
    as [[e [E He]]
       |[ap [ad [amin [amax [kp [kd [kmin [kmax [sp [sd [smin [smax
          [K [Hk Hb]]]]]]]]]]]]]]].
  - right. split; [exact (Hno e E)|eauto].
  - assert (E := PMLCFS_create_reads kw s _ _ _ _ _ _ _ _ _ _ _ _ K Hk Hb).
    destruct smax as [|[x|]].
    + right. split; [exact (Hno _ E)|].
      exists no_format. split; [exact E|left; reflexivity].
    + left. split; [|rewrite E; reflexivity].
      exists ap, ad, amin, amax, kp, kd, kmin, kmax, sp, sd, smin, x. auto.
    + right. split; [exact (Hno _ E)|].
      exists float_ValueError. split; [exact E|right; left; reflexivity].
Qed.

(** X21. [PMLCFS.create] returns exactly when its twelve keywords are given,
    the three scaling profiles and the three scaling directions are known
    ones, [float()] reads the six bounds, the tests on the five bounds other
    than the maximum of sigma are false (none is below zero, the minimum of
    kappa is not below one; a NaN passes them) and the maximum of sigma is
    not the string 'None'.  The value of that maximum, and whether a maximum
    is below its minimum, are not looked at.  The command then appends one
    CFS with the three parameters as read and changes nothing else.  With
    the maximum of sigma given as 'None' and every test passed, the log line
    fails to format it: the command raises [TypeError] and appends nothing;
    with a maximum of sigma that [float()] refuses it raises [ValueError].
    Whenever it raises, nothing is changed, and the error is that
    [TypeError], the [ValueError] of [float()], or a [CmdInputError]. *)
Theorem PMLCFS_create_outcome (kw : CFSKwargs) (s : Scene) :
  (fst (PMLCFS_create kw s) = inr tt <-> cfs_accepted kw)
  /\ (forall ap ad amin amax kp kd kmin kmax sp sd smin smax,
        cfs_keys kw ap ad (reads amin) (reads amax) kp kd (reads kmin)
          (reads kmax) sp sd (reads smin) smax ->
        cfs_known ap ad kp kd sp sd ->
        cfs_bounds amin amax kmin kmax smin ->
        PMLCFS_create kw s
        = match smax with
          | bound_text (reads x) =>
              (inr tt,
               set_cfs
                 (cfs s
                  ++ [{| cfs_alpha :=
                           {| cfs_ID := "alpha"; scalingprofile := ap;
                              scalingdirection := ad;
                              cfs_min := amin; cfs_max := Some amax |};
                         cfs_kappa :=
                           {| cfs_ID := "kappa"; scalingprofile := kp;
                              scalingdirection := kd;
                              cfs_min := kmin; cfs_max := Some kmax |};
                         cfs_sigma :=
                           {| cfs_ID := "sigma"; scalingprofile := sp;
                              scalingdirection := sd;
                              cfs_min := smin; cfs_max := Some x |} |}])
                 s)
          | bound_text unreadable => (inl float_ValueError, s)
          | none_text =>
              (inl (TypeError
                      "unsupported format string passed to NoneType.__format__"),
               s)
          end)
  /\ (~ cfs_accepted kw ->
      exists e, PMLCFS_create kw s = (inl e, s)
                /\ (e = TypeError
                          "unsupported format string passed to NoneType.__format__"
                    \/ e = float_ValueError
                    \/ exists msg, e = CmdInputError msg)).
Proof.
  split; [|split].
  - destruct (PMLCFS_create_dichotomy kw s) as [[Ha E]|[Hn [e [E _]]]].
    + tauto.
    + rewrite E. split; [discriminate|tauto].
  - intros ap ad amin amax kp kd kmin kmax sp sd smin smax K Hk Hb.
    exact (PMLCFS_create_reads kw s _ _ _ _ _ _ _ _ _ _ _ _ K Hk Hb).
  - intro Hn.
    destruct (PMLCFS_create_dichotomy kw s) as [[Ha _]|[_ [e [E He]]]];
      [contradiction|].
    exists e. split; [exact E|exact He].
Qed.

(** ** Properties of [GeometryView.create] *)

Definition view_of (lo hi d : Z * Z * Z) (filename fileext : string)
    (multi : bool) : GeometryViewUser :=
  {| gv_xs := fst (fst lo); gv_ys := snd (fst lo); gv_zs := snd lo;
     gv_xf := fst (fst hi); gv_yf := snd (fst hi); gv_zf := snd hi;
     gv_dx := fst (fst d); gv_dy := snd (fst d); gv_dz := snd d;
     gv_filename := filename; gv_fileext := fileext;
     gv_multi_grid := multi |}.

(** The step of a fine view: one cell, along every axis whose spacing is not
    zero. *)
Definition fine_step (step : Z) (spacing : Q) : Prop :=
  step = 1 \/ spacing == 0%Q.

(** What the command asks of the type [t] and of the step [d] in cells. *)
Definition view_ok (s : Scene) (t : string) (d : Z * Z * Z) : Prop :=
  1 <= fst (fst d) <= nx s /\ 1 <= snd (fst d) <= ny s /\ 1 <= snd d <= nz s
  /\ (t = "n"
      \/ (t = "f" /\ fine_step (fst (fst d)) (dx (grid s))
          /\ fine_step (snd (fst d)) (dy (grid s))
          /\ fine_step (snd d) (dz (grid s)))).

(** What it asks when the keyword [multi_grid] is given. *)
Definition multi_ok (kw : GeometryViewKwargs) (s : Scene) (t : string) : Prop :=
  gv_kw_multi_grid kw = true -> is_subgrid (grid s) = false /\ t <> "n".

Lemma fine_step_spec (step : Z) (spacing : Q) :
  Qeq_bool (inject_Z step * spacing) spacing = true <-> fine_step step spacing.
Proof.
  unfold fine_step. rewrite Qeq_bool_iff. split.
  - intro H.
    assert (E : (inject_Z (step - 1) * spacing == 0)%Q).
    { unfold Z.sub. rewrite inject_Z_plus, inject_Z_opp.
      setoid_replace ((inject_Z step + - inject_Z 1) * spacing)%Q
        with (inject_Z step * spacing - spacing)%Q by (simpl; ring).
      rewrite H. ring. }
    apply Qmult_integral in E. destruct E as [E|E]; [left|right; exact E].
    unfold Qeq in E. simpl in E. lia.
  - intros [->|E]; [simpl; ring|rewrite E; ring].
Qed.

(** Every check of the command but the one of the box. *)
Definition view_checks (kw : GeometryViewKwargs) (s : Scene) (t : string)
    (d : Z * Z * Z) : bool :=
  let sx := fst (fst d) in
  let sy := snd (fst d) in
  let sz := snd d in
  negb (gv_kw_multi_grid kw && (is_subgrid (grid s) || String.eqb t "n"))
  && negb ((sx <? 0) || (sy <? 0) || (sz <? 0))
  && negb ((sx >? nx s) || (sy >? ny s) || (sz >? nz s))
  && negb ((sx <? 1) || (sy <? 1) || (sz <? 1))
  && negb (negb (String.eqb t "n") && negb (String.eqb t "f"))
  && negb (String.eqb t "f"
           && (negb (Qeq_bool (inject_Z sx * dx (grid s)) (dx (grid s)))
               || negb (Qeq_bool (inject_Z sy * dy (grid s)) (dy (grid s)))
               || negb (Qeq_bool (inject_Z sz * dz (grid s)) (dz (grid s))))).

Lemma GeometryView_create_cases (kw : GeometryViewKwargs) (uip : UserInput)
    (s : Scene) (p1 p2 dl : Q * Q * Q) (t f : string) :
  gv_kw_p1 kw = Some p1 -> gv_kw_p2 kw = Some p2 -> gv_kw_dl kw = Some dl ->
  gv_kw_output_type kw = Some t -> gv_kw_filename kw = Some f ->
  match check_box_points uip p1 p2 with
  | inr box =>
      if view_checks kw s (lower t) (discretise_point uip dl)
      then GeometryView_create kw uip s
           = (inr tt,
              set_geometryviews
                (geometryviews s
                 ++ [view_of (fst box) (snd box) (discretise_point uip dl) f
                       (if String.eqb (lower t) "n" then ".vti" else ".vtp")
                       (gv_kw_multi_grid kw)]) s)
      else exists msg,
             GeometryView_create kw uip s = (inl (CmdInputError msg), s)
  | inl e => exists e', GeometryView_create kw uip s = (inl e', s)
  end.
Proof.
  intros K1 K2 K3 K4 K5.
  unfold GeometryView_create, geometry_view_constructor, view_checks, view_of.
  rewrite K1, K2, K3, K4, K5.
  unfold kwarg, refuse_if, lift, bind, gets, modify, ret, raise.
  cbn [option_map]. cbv beta iota.
  set (d := discretise_point uip dl).
  destruct (gv_kw_multi_grid kw); cbn [andb orb negb]; cbv beta iota.
  - destruct (is_subgrid (grid s)); cbn [andb orb negb]; cbv beta iota;
      [destruct (check_box_points uip p1 p2); eexists; reflexivity|].
    destruct (String.eqb (lower t) "n") eqn:En; cbn [andb orb negb];
      cbv beta iota;
      [destruct (check_box_points uip p1 p2); eexists; reflexivity|].
    destruct (check_box_points uip p1 p2) as [e|box]; cbv beta iota;
      [eexists; reflexivity|].
    destruct ((fst (fst d) <? 0) || (snd (fst d) <? 0) || (snd d <? 0));
      cbn [andb negb]; cbv beta iota; [eexists; reflexivity|].
    destruct ((fst (fst d) >? nx s) || (snd (fst d) >? ny s)
              || (snd d >? nz s));
      cbn [andb negb]; cbv beta iota; [eexists; reflexivity|].
    destruct ((fst (fst d) <? 1) || (snd (fst d) <? 1) || (snd d <? 1));
      cbn [andb negb]; cbv beta iota; [eexists; reflexivity|].
    destruct (String.eqb (lower t) "f"); cbn [andb negb]; cbv beta iota;
      [|eexists; reflexivity].
    destruct (negb (Qeq_bool (inject_Z (fst (fst d)) * dx (grid s))
                      (dx (grid s)))
              || negb (Qeq_bool (inject_Z (snd (fst d)) * dy (grid s))
                         (dy (grid s)))
              || negb (Qeq_bool (inject_Z (snd d) * dz (grid s))
                         (dz (grid s))));
      cbn [andb negb]; cbv beta iota; [eexists; reflexivity|reflexivity].
  - destruct (check_box_points uip p1 p2) as [e|box]; cbv beta iota;
      [eexists; reflexivity|].
    destruct ((fst (fst d) <? 0) || (snd (fst d) <? 0) || (snd d <? 0));
      cbn [andb negb]; cbv beta iota; [eexists; reflexivity|].
    destruct ((fst (fst d) >? nx s) || (snd (fst d) >? ny s)
              || (snd d >? nz s));
      cbn [andb negb]; cbv beta iota; [eexists; reflexivity|].
    destruct ((fst (fst d) <? 1) || (snd (fst d) <? 1) || (snd d <? 1));
      cbn [andb negb]; cbv beta iota; [eexists; reflexivity|].
    destruct (String.eqb (lower t) "n"); cbn [andb negb]; cbv beta iota.
    + destruct (String.eqb (lower t) "f"); cbn [andb negb]; cbv beta iota;
        [|reflexivity].
      destruct (negb (Qeq_bool (inject_Z (fst (fst d)) * dx (grid s))
                        (dx (grid s)))
                || negb (Qeq_bool (inject_Z (snd (fst d)) * dy (grid s))
                           (dy (grid s)))
                || negb (Qeq_bool (inject_Z (snd d) * dz (grid s))
                           (dz (grid s))));
        cbn [andb negb]; cbv beta iota; [eexists; reflexivity|reflexivity].
    + destruct (String.eqb (lower t) "f"); cbn [andb negb]; cbv beta iota;
        [|eexists; reflexivity].
      destruct (negb (Qeq_bool (inject_Z (fst (fst d)) * dx (grid s))
                        (dx (grid s)))
                || negb (Qeq_bool (inject_Z (snd (fst d)) * dy (grid s))
                           (dy (grid s)))
                || negb (Qeq_bool (inject_Z (snd d) * dz (grid s))
                           (dz (grid s))));
        cbn [andb negb]; cbv beta iota; [eexists; reflexivity|reflexivity].
Qed.

Lemma view_checks_spec (kw : GeometryViewKwargs) (s : Scene) (t : string)
    (d : Z * Z * Z) :
  view_checks kw s t d = true <-> multi_ok kw s t /\ view_ok s t d.
Proof.
  unfold view_checks, multi_ok, view_ok. cbv zeta.
  assert (Hm : negb (gv_kw_multi_grid kw
                     && (is_subgrid (grid s) || String.eqb t "n")) = true
               <-> (gv_kw_multi_grid kw = true ->
                    is_subgrid (grid s) = false /\ t <> "n")).
  { destruct (gv_kw_multi_grid kw); destruct (is_subgrid (grid s));
      destruct (String.eqb_spec t "n"); simpl; intuition congruence. }
  assert (Hstep :
    negb ((fst (fst d) <? 0) || (snd (fst d) <? 0) || (snd d <? 0))
    && negb ((fst (fst d) >? nx s) || (snd (fst d) >? ny s)
             || (snd d >? nz s))
    && negb ((fst (fst d) <? 1) || (snd (fst d) <? 1) || (snd d <? 1)) = true
    <-> 1 <= fst (fst d) <= nx s /\ 1 <= snd (fst d) <= ny s
        /\ 1 <= snd d <= nz s).
  { rewrite !Z.gtb_ltb.
    destruct (Z.ltb_spec (fst (fst d)) 0); destruct (Z.ltb_spec (snd (fst d)) 0);
      destruct (Z.ltb_spec (snd d) 0);
      destruct (Z.ltb_spec (nx s) (fst (fst d)));
      destruct (Z.ltb_spec (ny s) (snd (fst d)));
      destruct (Z.ltb_spec (nz s) (snd d));
      destruct (Z.ltb_spec (fst (fst d)) 1);
      destruct (Z.ltb_spec (snd (fst d)) 1);
      destruct (Z.ltb_spec (snd d) 1); simpl; split;
      first [discriminate | lia | reflexivity]. }
  assert (Hfine :
    negb (negb (Qeq_bool (inject_Z (fst (fst d)) * dx (grid s)) (dx (grid s)))
          || negb (Qeq_bool (inject_Z (snd (fst d)) * dy (grid s))
                     (dy (grid s)))
          || negb (Qeq_bool (inject_Z (snd d) * dz (grid s)) (dz (grid s))))
    = true
    <-> fine_step (fst (fst d)) (dx (grid s))
        /\ fine_step (snd (fst d)) (dy (grid s))
        /\ fine_step (snd d) (dz (grid s))).
  { rewrite <- !fine_step_spec.
    destruct (Qeq_bool (inject_Z (fst (fst d)) * dx (grid s)) (dx (grid s)));
      destruct (Qeq_bool (inject_Z (snd (fst d)) * dy (grid s)) (dy (grid s)));
      destruct (Qeq_bool (inject_Z (snd d) * dz (grid s)) (dz (grid s)));
      simpl; intuition congruence. }
  assert (Htype :
    negb (negb (String.eqb t "n") && negb (String.eqb t "f"))
    && negb (String.eqb t "f"
             && (negb (Qeq_bool (inject_Z (fst (fst d)) * dx (grid s))
                         (dx (grid s)))
                 || negb (Qeq_bool (inject_Z (snd (fst d)) * dy (grid s))
                            (dy (grid s)))
                 || negb (Qeq_bool (inject_Z (snd d) * dz (grid s))
                            (dz (grid s))))) = true
    <-> t = "n"
        \/ (t = "f" /\ fine_step (fst (fst d)) (dx (grid s))
            /\ fine_step (snd (fst d)) (dy (grid s))
            /\ fine_step (snd d) (dz (grid s)))).
  { rewrite <- Hfine.
    destruct (String.eqb_spec t "n") as [En|En];
      destruct (String.eqb_spec t "f") as [Ef|Ef]; cbn [negb andb].
    - exfalso. rewrite En in Ef. discriminate Ef.
    - split; [intros _; left; exact En|reflexivity].
    - split; [intro H; right; split; [exact Ef|exact H]|].
      intros [H|[_ H]]; [contradiction|exact H].
    - split; [discriminate|]. intros [H|[H _]]; contradiction. }
  rewrite !andb_true_iff in Hstep. rewrite !andb_true_iff in Htype.
  rewrite !andb_true_iff. clear Hfine. tauto.
Qed.

(** X22. With its five keywords given, [GeometryView.create] returns exactly
    when [uip] accepts the box, the step is at least one cell and at most
    the size of the domain along each axis, the lower-cased type is n, or f
    with a step of one cell along every axis whose spacing is not zero, and,
    if [multi_grid] is given, the grid is no subgrid and the type is not n.
    It then appends one view, with the extension .vti for n and .vtp for f,
    and changes nothing else; when it raises, nothing is changed. *)
Theorem GeometryView_create_outcome (kw : GeometryViewKwargs)
    (uip : UserInput) (s : Scene) :
  (forall p1 p2 dl t f,
     gv_kw_p1 kw = Some p1 -> gv_kw_p2 kw = Some p2 ->
     gv_kw_dl kw = Some dl -> gv_kw_output_type kw = Some t ->
     gv_kw_filename kw = Some f ->
     (fst (GeometryView_create kw uip s) = inr tt <->
      multi_ok kw s (lower t)
      /\ (exists box, check_box_points uip p1 p2 = inr box)
      /\ view_ok s (lower t) (discretise_point uip dl))
     /\ (forall lo hi,
           check_box_points uip p1 p2 = inr (lo, hi) ->
           fst (GeometryView_create kw uip s) = inr tt ->
           GeometryView_create kw uip s
           = (inr tt,
              set_geometryviews
                (geometryviews s
                 ++ [view_of lo hi (discretise_point uip dl) f
                       (if String.eqb (lower t) "n" then ".vti" else ".vtp")
                       (gv_kw_multi_grid kw)]) s))
     /\ (forall e, fst (GeometryView_create kw uip s) = inl e ->
                   snd (GeometryView_create kw uip s) = s))
  /\ ((gv_kw_p1 kw = None \/ gv_kw_p2 kw = None \/ gv_kw_dl kw = None
       \/ gv_kw_output_type kw = None \/ gv_kw_filename kw = None) ->
      exists msg,
        GeometryView_create kw uip s = (inl (CmdInputError msg), s)).
Proof.
  split.
  - intros p1 p2 dl t f K1 K2 K3 K4 K5.
    assert (H := GeometryView_create_cases kw uip s p1 p2 dl t f K1 K2 K3 K4 K5).
    assert (Hs := view_checks_spec kw s (lower t) (discretise_point uip dl)).
    destruct (check_box_points uip p1 p2) as [e|box].
    + destruct H as [e' H]. rewrite H. cbn [fst snd]. split; [|split].
      * split; [discriminate|]. intros [_ [[box K] _]]. discriminate K.
      * intros lo hi K. discriminate K.
      * reflexivity.
    + destruct (view_checks kw s (lower t) (discretise_point uip dl)).
      * rewrite H. cbn [fst snd]. split; [|split].
        -- split; [intros _|reflexivity].
           destruct (proj1 Hs eq_refl) as [Hm Hv]. eauto.
        -- intros lo hi K _. injection K as ->. reflexivity.
        -- intros e K. discriminate K.
      * destruct H as [msg H]. rewrite H. cbn [fst snd]. split; [|split].
        -- split; [discriminate|]. intros [Hm [_ Hv]].
           assert (K : false = true) by (apply Hs; split; assumption).
           discriminate K.
        -- intros lo hi _ K. discriminate K.
        -- reflexivity.
  - unfold GeometryView_create, kwarg, bind, raise.
    intros [K|[K|[K|[K|K]]]].
    + rewrite K. eexists; reflexivity.
    + rewrite K. destruct (gv_kw_p1 kw); eexists; reflexivity.
    + rewrite K. destruct (gv_kw_p1 kw); [|eexists; reflexivity].
      destruct (gv_kw_p2 kw); eexists; reflexivity.
    + rewrite K. destruct (gv_kw_p1 kw); [|eexists; reflexivity].
      destruct (gv_kw_p2 kw); [|eexists; reflexivity].
      destruct (gv_kw_dl kw); eexists; reflexivity.
    + rewrite K. destruct (gv_kw_p1 kw); [|eexists; reflexivity].
      destruct (gv_kw_p2 kw); [|eexists; reflexivity].
      destruct (gv_kw_dl kw); [|eexists; reflexivity].
      destruct (gv_kw_output_type kw); eexists; reflexivity.
Qed.

End Building.

Arguments Scene : clear implicits.

(** ** Concrete runs of the building commands *)

(** A receiver array from cell (1, 1, 1) to cell (3, 2, 1), with a step of
    one cell along x and none given along y and z. *)
Definition example_array_kwargs : RxArrayKwargs :=
  {| rxa_kw_p1 := Some (1 # 1, 1 # 1, 1 # 1);
     rxa_kw_p2 := Some (3 # 1, 2 # 1, 1 # 1);
     rxa_kw_dl := Some (1 # 1, 0 # 1, 0 # 1) |}.

Lemma RxArray_create_lattice_witness :
  RxArray_create example_array_kwargs example_uip host_world
  = (inr tt,
     set_G (set_rxs (rxs (G host_world)
                     ++ rx_lattice (1, 1, 1) (3, 2, 1) (1, 1, 1))
              (G host_world)) host_world).
Proof.
  apply (proj1 (RxArray_create_lattice example_array_kwargs example_uip
                  host_world (1 # 1, 1 # 1, 1 # 1) (3 # 1, 2 # 1, 1 # 1)
                  (1 # 1, 0 # 1, 0 # 1) (1, 1, 1) (3, 2, 1)
                  eq_refl eq_refl eq_refl eq_refl eq_refl)).
  repeat split; apply Z.leb_le; reflexivity.
Defined.

Lemma RxArray_create_count_witness :
  exists added,
    RxArray_create example_array_kwargs example_uip host_world
    = (inr tt, set_G (set_rxs (rxs (G host_world) ++ added) (G host_world))
                 host_world)
    /\ List.length added = 6%nat.
Proof.
  destruct (RxArray_create_count example_array_kwargs example_uip host_world
              (1 # 1, 1 # 1, 1 # 1) (3 # 1, 2 # 1, 1 # 1)
              (1 # 1, 0 # 1, 0 # 1) 1 1 1 3 2 1
              eq_refl eq_refl eq_refl eq_refl eq_refl
              ltac:(lia) ltac:(lia) ltac:(lia)
              ltac:(apply Z.leb_le; reflexivity)
              ltac:(apply Z.leb_le; reflexivity)
              ltac:(apply Z.leb_le; reflexivity))
    as [added [Hrun [Hlen _]]].
  exists added. split; [exact Hrun|].
  apply Nat2Z.inj. rewrite Hlen. reflexivity.
Defined.

(** The output lists of a receiver class, and a receiver command that names
    one field twice. *)
Definition example_allowableoutputs : list string :=
  ["Ex"; "Ey"; "Ez"; "Hx"; "Hy"; "Hz"; "Ix"; "Iy"; "Iz"].

Definition example_gpu_allowableoutputs : list string :=
  ["Ex"; "Ey"; "Ez"; "Hx"; "Hy"; "Hz"].

Definition example_rx_kwargs : RxKwargs :=
  {| rx_kw_p1 := Some (5 # 1, 5 # 1, 5 # 1); rx_kw_id := Some "probe";
     rx_kw_outputs := Some ["Ez"; "Iz"; "Ez"] |}.

Lemma Rx_create_outcome_witness :
  exists keys,
    Rx_create example_allowableoutputs example_gpu_allowableoutputs
      example_gpu_allowableoutputs example_rx_kwargs example_uip host_world
    = (inr ({| rx_ID := "probe"; rx_xcoord := 5; rx_ycoord := 5;
               rx_zcoord := 5 |}, keys),
       set_G (set_rxs (rxs (G host_world)
                       ++ [{| rx_ID := "probe"; rx_xcoord := 5; rx_ycoord := 5;
                              rx_zcoord := 5 |}]) (G host_world)) host_world)
    /\ NoDup keys.
Proof.
  destruct (Rx_create_outcome example_allowableoutputs
              example_gpu_allowableoutputs example_gpu_allowableoutputs
              example_rx_kwargs example_uip host_world
              (5 # 1, 5 # 1, 5 # 1) 5 5 5 eq_refl eq_refl)
    as [keys [Hrun [Hnd _]]].
  exists keys. split; [exact Hrun|exact Hnd].
Defined.

(** A material class that fills in the attributes the dispersion commands
    set, a scene of 100 cells a side on the host grid, and a perfect
    conductor. *)
Definition example_MaterialUser (n : Z) (i : string) : Material :=
  {| numID := n; mat_ID := i; mat_type := EmptyString; poles := 0;
     averagable := true; deltaer := []; tau := []; alpha := [] |}.

Definition example_scene : Scene nat :=
  {| world := host_world; nx := 100; ny := 100; nz := 100;
     waveform_attrs := []; material_attrs := []; mixingmodels := [];
     geometryviews := []; cfs := [] |}.

Definition metal_kwargs : MaterialKwargs :=
  {| kw_er := Some (number (1 # 1)); kw_se := Some inf_text;
     kw_mr := Some (number (1 # 1)); kw_sm := Some (number (0 # 1));
     kw_mat_id := Some "metal" |}.

Lemma Material_create_invariants_witness :
  NoDup (map mat_ID
           (materials (grid (snd (Material_create example_MaterialUser
                                    metal_kwargs example_scene)))))
  /\ find_materials ["metal"]
       (materials (grid (snd (Material_create example_MaterialUser
                                metal_kwargs example_scene))))
     = [1%nat].
Proof.
  destruct (Material_create_invariants example_MaterialUser metal_kwargs
              example_scene (fun _ _ => eq_refl) (fun _ _ => eq_refl))
    as [Hnd [_ Hfind]].
  split.
  - apply Hnd. simpl. constructor; [intros []|constructor].
  - exact (proj1 (Hfind inf_text "metal" eq_refl eq_refl eq_refl)).
Defined.

(** * The surface roughness command

    [AddSurfaceRoughness.create] of [cmds_geometry/add_surface_roughness.py]:
    it puts a fractal surface on one face of a fractal box of the grid. *)

Section Roughness.

Context {Arrays : Type}.

(** [gprMax.fractals.FractalSurface(xs, xf, ys, yf, zs, zf, dimension)], with
    the attributes the command sets on it. *)
Record FractalSurface : Type := {
  fs_xs : Z; fs_xf : Z; fs_ys : Z; fs_yf : Z; fs_zs : Z; fs_zf : Z;
  fs_dimension : Q;
  surfaceID : string;
  fractalrange : Z * Z;
  operatingonID : string;
  fs_seed : option Z;
  fs_weighting : list Q
}.

(** A fractal box of the grid: its ID, its extent and the surfaces put on
    it so far. *)
Record FractalVolume : Type := {
  vol_ID : string;
  vol_xs : Z; vol_xf : Z; vol_ys : Z; vol_yf : Z; vol_zs : Z; vol_zf : Z;
  fractalsurfaces : list FractalSurface
}.

(** The grid with its fractal boxes. *)
Record Terrain : Type := {
  scene : Scene Arrays;
  fractalvolumes : list FractalVolume
}.

Definition set_fractalvolumes (l : list FractalVolume) (m : Terrain) : Terrain :=
  {| scene := scene m; fractalvolumes := l |}.

(** [volume.fractalsurfaces.append(surface)] *)
Definition append_surface (sf : FractalSurface) (v : FractalVolume)
  : FractalVolume :=
  {| vol_ID := vol_ID v;
     vol_xs := vol_xs v; vol_xf := vol_xf v; vol_ys := vol_ys v;
     vol_yf := vol_yf v; vol_zs := vol_zs v; vol_zf := vol_zf v;
     fractalsurfaces := fractalsurfaces v ++ [sf] |}.

(** [gprMax.utilities.round_value], and [surface.generate_fractal_surface(grid)]
    of [gprMax.fractals], which works on the surface it is called on. *)
Variable round_value : Q -> Z.
Variable generate_fractal_surface :
  FractalSurface -> FDTDGrid Arrays -> FractalSurface.

Record RoughnessKwargs : Type := {
  rg_p1 : option (Q * Q * Q);
  rg_p2 : option (Q * Q * Q);
  rg_frac_dim : option Q;
  rg_weighting : option (list Q);
  rg_limits : option (list Q);
  rg_fractal_box_id : option string;
  rg_seed : option Z                  (* [None] when the keyword is missing *)
}.

(** [a[i]] for a numpy array [a] of one axis. *)
Definition item {St : Type} (a : list Q) (i : nat) : M St Q :=
  match nth_error a i with
  | Some x => ret x
  | None => raise (IndexError "index is out of bounds for axis 0")
  end.

(** [volumes = [volume for volume in grid.fractalvolumes if volume.ID == id]]
    and [volumes[0]]: the first box with the ID, an object of the grid, so it
    is kept with its position in [grid.fractalvolumes]. *)
Definition first_volume (id : string) (vols : list FractalVolume)
  : option (nat * FractalVolume) :=
  find (fun p => String.eqb (vol_ID (snd p)) id) (enumerate vols).

(** One branch of the check for valid orientations: the surface is flat
    along the axis where it runs from [s] to [f]; [other] tells whether it is
    flat along one of the two axes the branch compares, [vs] and [vf] are the
    bounds of the box and [n] the size of the domain along the axis.  The
    result is the name given to [requestedsurface], if one is, and
    [fractalrange]. *)
Definition face {St : Type} (other : bool) (s f vs vf n : Z) (spacing : Q)
    (limits : list Q) (minus plus towards_minus towards_plus : string)
  : M St (option string * (Z * Z)) :=
  refuse_if other " dimensions are not specified correctly" ;;
  refuse_if (negb (s =? vs) && negb (s =? vf))
    " can only be used on the external surfaces of a fractal box" ;;
  l0 <- item limits 0 ;;
  l1 <- item limits 1 ;;
  let fractalrange :=
    (round_value (l0 / spacing), round_value (l1 / spacing)) in
  if s =? vs then
    refuse_if ((fst fractalrange <? 0) || (snd fractalrange >? vf))
      (" cannot apply fractal surface to fractal box as it would exceed either the upper coordinates of the fractal box or the domain in the "
       ++ towards_minus ++ " direction") ;;
    ret (Some minus, fractalrange)
  else if f =? vf then
    refuse_if ((fst fractalrange <? vs) || (snd fractalrange >? n))
      (" cannot apply fractal surface to fractal box as it would exceed either the lower coordinates of the fractal box or the domain in the "
       ++ towards_plus ++ " direction") ;;
    ret (Some plus, fractalrange)
  else
    (* neither branch assigns requestedsurface *)
    ret (None, fractalrange).

(** The check for valid orientations, on the box [(lo, hi)] that [uip]
    returned. *)
Definition orientation {St : Type} (sc : Scene Arrays) (volume : FractalVolume)
    (limits : list Q) (lo hi : Z * Z * Z)
  : M St (option string * (Z * Z)) :=
  let xs := fst (fst lo) in
  let ys := snd (fst lo) in
  let zs := snd lo in
  let xf := fst (fst hi) in
  let yf := snd (fst hi) in
  let zf := snd hi in
  let g := grid sc in
  if xs =? xf then
    face ((ys =? yf) || (zs =? zf)) xs xf (vol_xs volume) (vol_xf volume)
      (nx sc) (dx g) limits "xminus" "xplus" "x" "x"
  else if ys =? yf then
    face ((xs =? xf) || (zs =? zf)) ys yf (vol_ys volume) (vol_yf volume)
      (ny sc) (dy g) limits "yminus" "yplus" "y" "y"
  else if zs =? zf then
    face ((xs =? xf) || (ys =? yf)) zs zf (vol_zs volume) (vol_zf volume)
      (nz sc) (dz g) limits "zminus" "zplus" "x" "z"
  else
    raise (CmdInputError " dimensions are not specified correctly").

(** [FractalSurface(xs, xf, ys, yf, zs, zf, frac_dim)] with [surfaceID],
    [fractalrange], [operatingonID], [seed] and [weighting] set. *)
Definition new_surface (lo hi : Z * Z * Z) (frac_dim : Q)
    (requestedsurface : string) (range : Z * Z) (volume : FractalVolume)
    (seed : option Z) (weighting : list Q) : FractalSurface :=
  {| fs_xs := fst (fst lo); fs_xf := fst (fst hi);
     fs_ys := snd (fst lo); fs_yf := snd (fst hi);
     fs_zs := snd lo; fs_zf := snd hi;
     fs_dimension := frac_dim;
     surfaceID := requestedsurface; fractalrange := range;
     operatingonID := vol_ID volume; fs_seed := seed;
     fs_weighting := weighting |}.

Definition AddSurfaceRoughness_create (kw : RoughnessKwargs) (uip : UserInput)
  : M Terrain unit :=
  let missing := " incorrect parameters" in
  p1 <- kwarg (rg_p1 kw) missing ;;
  p2 <- kwarg (rg_p2 kw) missing ;;
  frac_dim <- kwarg (rg_frac_dim kw) missing ;;
  weighting <- kwarg (rg_weighting kw) missing ;;
  limits <- kwarg (rg_limits kw) missing ;;
  fractal_box_id <- kwarg (rg_fractal_box_id kw) missing ;;
  let seed := rg_seed kw in
  vols <- gets fractalvolumes ;;
  match first_volume fractal_box_id vols with
  | None => raise (CmdInputError " cannot find FractalBox {fractal_box_id}")
  | Some (k, volume) =>
      box <- lift (check_box_points uip p1 p2) ;;
      refuse_if (Qltb frac_dim 0)
        " requires a positive value for the fractal dimension" ;;
      w0 <- item weighting 0 ;;
      refuse_if (Qltb w0 0)
        " requires a positive value for the fractal weighting in the first direction of the surface" ;;
      w1 <- item weighting 1 ;;
      refuse_if (Qltb w1 0)
        " requires a positive value for the fractal weighting in the second direction of the surface" ;;
      sc <- gets scene ;;
      r <- orientation sc volume limits (fst box) (snd box) ;;
      requestedsurface <-
        match fst r with
        | Some name => ret name
        | None => raise (NameError "requestedsurface")
        end ;;
      let surface :=
        new_surface (fst box) (snd box) frac_dim requestedsurface (snd r)
          volume seed weighting in
      let existingsurfaceIDs := map surfaceID (fractalsurfaces volume) in
      refuse_if (mem (surfaceID surface) existingsurfaceIDs)
        (" has already been used on the " ++ surfaceID surface ++ " surface") ;;
      modify (fun m =>
        set_fractalvolumes
          (alter_nth k
             (append_surface (generate_fractal_surface surface (grid sc)))
             (fractalvolumes m)) m)
  end.

(** ** Properties of the command *)

(** The errors of the command itself: a refused input, or a list of
    weightings or limits that is too short. *)
Definition input_error (e : exn) : Prop :=
  match e with
  | CmdInputError _ | IndexError _ => True
  | _ => False
  end.

(** The surface named [id] is on the lower or on the upper side of a box
    that runs from [vs] to [vf] in a domain of [n] cells, with a range from
    [lo] to [hi]. *)
Definition on_side (id minus plus : string) (s vs vf n lo hi : Z) : Prop :=
  (id = minus /\ s = vs /\ 0 <= lo /\ hi <= vf)
  \/ (id = plus /\ s <> vs /\ s = vf /\ vs <= lo /\ hi <= n).

Lemma face_outcome {St : Type} (other : bool) (s f vs vf n : Z) (spacing : Q)
    (limits : list Q) (minus plus towards_minus towards_plus : string)
    (st : St) :
  s = f ->
  (exists name lo hi,
     face other s f vs vf n spacing limits minus plus towards_minus
       towards_plus st = (inr (Some name, (lo, hi)), st)
     /\ other = false
     /\ on_side name minus plus s vs vf n lo hi)
  \/ (exists e,
        face other s f vs vf n spacing limits minus plus towards_minus
          towards_plus st = (inl e, st)
        /\ input_error e).
Proof.
  intros <-. unfold face, refuse_if, item, bind, ret, raise, on_side.
  destruct other; [right; eexists; split; [reflexivity|exact I]|].
  destruct (Z.eqb_spec s vs) as [Evs|Evs]; cbn [negb andb].
  - destruct (nth_error limits 0) as [l0|];
      [|right; eexists; split; [reflexivity|exact I]].
    destruct (nth_error limits 1) as [l1|];
      [|right; eexists; split; [reflexivity|exact I]].
    cbn [fst snd].
    destruct (Z.ltb_spec (round_value (l0 / spacing)) 0) as [H0|H0];
      cbn [orb]; [right; eexists; split; [reflexivity|exact I]|].
    rewrite Z.gtb_ltb.
    destruct (Z.ltb_spec vf (round_value (l1 / spacing))) as [H1|H1];
      [right; eexists; split; [reflexivity|exact I]|].
    left. exists minus, (round_value (l0 / spacing)),
      (round_value (l1 / spacing)).
    split; [reflexivity|]. split; [reflexivity|]. left. auto.
  - destruct (Z.eqb_spec s vf) as [Evf|Evf]; cbn [negb];
      [|right; eexists; split; [reflexivity|exact I]].
    destruct (nth_error limits 0) as [l0|];
      [|right; eexists; split; [reflexivity|exact I]].
    destruct (nth_error limits 1) as [l1|];
      [|right; eexists; split; [reflexivity|exact I]].
    cbn [fst snd].
    destruct (Z.ltb_spec (round_value (l0 / spacing)) vs) as [H0|H0];
      cbn [orb]; [right; eexists; split; [reflexivity|exact I]|].
    rewrite Z.gtb_ltb.
    destruct (Z.ltb_spec n (round_value (l1 / spacing))) as [H1|H1];
      [right; eexists; split; [reflexivity|exact I]|].
    left. exists plus, (round_value (l0 / spacing)),
      (round_value (l1 / spacing)).
    split; [reflexivity|]. split; [reflexivity|]. right. auto.
Qed.

(** The surface [sf] is flat along exactly one axis and lies on a face of the
    box [v] across that axis, under the name of that face. *)
Definition on_face (sc : Scene Arrays) (v : FractalVolume)
    (sf : FractalSurface) : Prop :=
  let lo := fst (fractalrange sf) in
  let hi := snd (fractalrange sf) in
  (fs_xs sf = fs_xf sf /\ fs_ys sf <> fs_yf sf /\ fs_zs sf <> fs_zf sf
   /\ on_side (surfaceID sf) "xminus" "xplus" (fs_xs sf) (vol_xs v) (vol_xf v)
        (nx sc) lo hi)
  \/ (fs_xs sf <> fs_xf sf /\ fs_ys sf = fs_yf sf /\ fs_zs sf <> fs_zf sf
      /\ on_side (surfaceID sf) "yminus" "yplus" (fs_ys sf) (vol_ys v)
           (vol_yf v) (ny sc) lo hi)
  \/ (fs_xs sf <> fs_xf sf /\ fs_ys sf <> fs_yf sf /\ fs_zs sf = fs_zf sf
      /\ on_side (surfaceID sf) "zminus" "zplus" (fs_zs sf) (vol_zs v)
           (vol_zf v) (nz sc) lo hi).

Lemma orientation_outcome {St : Type} (sc : Scene Arrays) (v : FractalVolume)
    (limits : list Q) (lo hi : Z * Z * Z) (st : St) :
  (exists name range,
     orientation sc v limits lo hi st = (inr (Some name, range), st)
     /\ forall frac_dim seed weighting,
          on_face sc v (new_surface lo hi frac_dim name range v seed weighting))
  \/ (exists e, orientation sc v limits lo hi st = (inl e, st)
                /\ input_error e).
Proof.
  unfold orientation, on_face. cbv zeta.
  destruct (Z.eqb_spec (fst (fst lo)) (fst (fst hi))) as [Ex|Ex].
  - destruct (face_outcome ((snd (fst lo) =? snd (fst hi)) || (snd lo =? snd hi))
                (fst (fst lo)) (fst (fst hi)) (vol_xs v) (vol_xf v) (nx sc)
                (dx (grid sc)) limits "xminus" "xplus" "x" "x" st Ex)
      as [[name [l [h [E [Ho Hs]]]]]|[e [E He]]]; [left|right; eauto].
    exists name, (l, h). split; [exact E|]. intros frac_dim seed weighting.
    apply orb_false_iff in Ho. destruct Ho as [Hy Hz].
    apply Z.eqb_neq in Hy. apply Z.eqb_neq in Hz.
    left. simpl. auto.
  - destruct (Z.eqb_spec (snd (fst lo)) (snd (fst hi))) as [Ey|Ey].
    + destruct (face_outcome false (snd (fst lo)) (snd (fst hi)) (vol_ys v)
                  (vol_yf v) (ny sc) (dy (grid sc)) limits "yminus" "yplus"
                  "y" "y" st Ey)
        as [[name [l [h [E [_ Hs]]]]]|[e [E He]]].
      * destruct (Z.eqb_spec (snd lo) (snd hi)) as [Ez|Ez].
        -- right. unfold face, refuse_if, bind, raise. cbn [orb].
           eexists. split; [reflexivity|exact I].
        -- left. exists name, (l, h). split; [exact E|].
           intros frac_dim seed weighting. right. left. simpl. auto.
      * destruct (Z.eqb_spec (snd lo) (snd hi)) as [Ez|Ez].
        -- right. unfold face, refuse_if, bind, raise. cbn [orb].
           eexists. split; [reflexivity|exact I].
        -- right. eauto.
    + destruct (Z.eqb_spec (snd lo) (snd hi)) as [Ez|Ez].
      * destruct (face_outcome false (snd lo) (snd hi) (vol_zs v) (vol_zf v)
                    (nz sc) (dz (grid sc)) limits "zminus" "zplus" "x" "z"
                    st Ez)
          as [[name [l [h [E [_ Hs]]]]]|[e [E He]]]; [left|right; eauto].
        exists name, (l, h). split; [exact E|].
        intros frac_dim seed weighting. right. right. simpl. auto.
      * right. eexists. split; [reflexivity|exact I].
Qed.

Lemma find_first_position {A : Type} (f : A -> bool) (l : list A) (a k : nat)
    (x : A) :
  find (fun p => f (snd p)) (combine (seq a (List.length l)) l) = Some (k, x) ->
  (a <= k)%nat
  /\ forall j y, (j < k - a)%nat -> nth_error l j = Some y -> f y = false.
Proof.
  revert a. induction l as [|z l IH]; intros a H; [discriminate H|].
  simpl in H. destruct (f z) eqn:Ez.
  - injection H as <- <-. split; [apply Nat.le_refl|].
    intros j y Hj. rewrite Nat.sub_diag in Hj. inversion Hj.
  - destruct (IH (S a) H) as [Hle Hbefore]. split; [lia|].
    intros j y Hj Hy. destruct j as [|j]; simpl in Hy.
    + injection Hy as <-. exact Ez.
    + apply (Hbefore j y); [lia|exact Hy].
Qed.

Lemma first_volume_found (id : string) (vols : list FractalVolume) (k : nat)
    (v : FractalVolume) :
  first_volume id vols = Some (k, v) ->
  nth_error vols k = Some v /\ vol_ID v = id
  /\ forall j u, (j < k)%nat -> nth_error vols j = Some u -> vol_ID u <> id.
Proof.
  unfold first_volume. intro H. split; [|split].
  - apply find_some in H. destruct H as [Hin _].
    apply in_enumerate in Hin. exact Hin.
  - apply find_some in H. destruct H as [_ Hid].
    apply String.eqb_eq in Hid. exact Hid.
  - intros j u Hj Hu. unfold enumerate in H.
    destruct (find_first_position (fun y => String.eqb (vol_ID y) id)
                vols 0 k v H) as [_ Hb].
    apply String.eqb_neq. apply (Hb j u); [lia|exact Hu].
Qed.

(** What an accepted command has checked and stored: the box [v], the first
    one with the ID, at position [k], and the surface [sf] as it is handed
    to [generate_fractal_surface]. *)
Definition roughness_stored (kw : RoughnessKwargs) (m : Terrain) (k : nat)
    (v : FractalVolume) (sf : FractalSurface) : Prop :=
  nth_error (fractalvolumes m) k = Some v
  /\ rg_fractal_box_id kw = Some (vol_ID v)
  /\ (forall j u, (j < k)%nat -> nth_error (fractalvolumes m) j = Some u ->
                  vol_ID u <> vol_ID v)
  /\ on_face (scene m) v sf
  /\ operatingonID sf = vol_ID v
  /\ (0 <= fs_dimension sf)%Q
  /\ (exists w0 w1, nth_error (fs_weighting sf) 0 = Some w0
                    /\ nth_error (fs_weighting sf) 1 = Some w1
                    /\ (0 <= w0)%Q /\ (0 <= w1)%Q)
  /\ ~ In (surfaceID sf) (map surfaceID (fractalsurfaces v)).

Definition with_surface (k : nat) (sf : FractalSurface) (m : Terrain)
  : Terrain :=
  set_fractalvolumes
    (alter_nth k
       (append_surface (generate_fractal_surface sf (grid (scene m))))
       (fractalvolumes m)) m.

Lemma AddSurfaceRoughness_create_cases (kw : RoughnessKwargs)
    (uip : UserInput) (m : Terrain) :
  (exists k v sf,
     roughness_stored kw m k v sf
     /\ AddSurfaceRoughness_create kw uip m = (inr tt, with_surface k sf m))
  \/ (exists e,
        AddSurfaceRoughness_create kw uip m = (inl e, m)
        /\ (input_error e
            \/ exists p1 p2, rg_p1 kw = Some p1 /\ rg_p2 kw = Some p2
                             /\ check_box_points uip p1 p2 = inl e)).
Proof.
  unfold AddSurfaceRoughness_create, roughness_stored, with_surface, kwarg,
    bind, gets, raise, ret.
  destruct (rg_p1 kw) as [p1|];
    [|right; eexists; split; [reflexivity|left; exact I]].
  destruct (rg_p2 kw) as [p2|];
    [|right; eexists; split; [reflexivity|left; exact I]].
  destruct (rg_frac_dim kw) as [frac_dim|];
    [|right; eexists; split; [reflexivity|left; exact I]].
  destruct (rg_weighting kw) as [weighting|];
    [|right; eexists; split; [reflexivity|left; exact I]].
  destruct (rg_limits kw) as [limits|];
    [|right; eexists; split; [reflexivity|left; exact I]].
  destruct (rg_fractal_box_id kw) as [id|];
    [|right; eexists; split; [reflexivity|left; exact I]].
  destruct (first_volume id (fractalvolumes m)) as [[k v]|] eqn:Efv;
    [|right; eexists; split; [reflexivity|left; exact I]].
  apply first_volume_found in Efv. destruct Efv as [Hk [Hid Hfirst]].
  unfold lift, raise, ret.
  destruct (check_box_points uip p1 p2) as [e|box] eqn:Eb;
    [right; exists e; split; [reflexivity|right; eauto]|].
  unfold refuse_if, item, raise, ret.
  destruct (Qltb frac_dim 0) eqn:Ed;
    [right; eexists; split; [reflexivity|left; exact I]|].
  destruct (nth_error weighting 0) as [w0|] eqn:E0;
    [|right; eexists; split; [reflexivity|left; exact I]].
  destruct (Qltb w0 0) eqn:Ew0;
    [right; eexists; split; [reflexivity|left; exact I]|].
  destruct (nth_error weighting 1) as [w1|] eqn:E1;
    [|right; eexists; split; [reflexivity|left; exact I]].
  destruct (Qltb w1 0) eqn:Ew1;
    [right; eexists; split; [reflexivity|left; exact I]|].
  destruct (orientation_outcome (scene m) v limits (fst box) (snd box) m)
    as [[name [range [E F]]]|[e [E He]]]; rewrite E;
    [|right; exists e; split; [reflexivity|left; exact He]].
  cbn [fst snd].
  change (surfaceID (new_surface (fst box) (snd box) frac_dim name range v
                       (rg_seed kw) weighting)) with name.
  destruct (mem name (map surfaceID (fractalsurfaces v))) eqn:Em;
    [right; eexists; split; [reflexivity|left; exact I]|].
  left.
  exists k, v,
    (new_surface (fst box) (snd box) frac_dim name range v (rg_seed kw)
       weighting).
  split; [|reflexivity].
  split; [exact Hk|]. split; [rewrite Hid; reflexivity|].
  split; [rewrite Hid; exact Hfirst|].
  split; [apply F|]. split; [reflexivity|].
  split; [apply Qltb_le; exact Ed|].
  split.
  - exists w0, w1. split; [exact E0|]. split; [exact E1|].
    split; apply Qltb_le; assumption.
  - apply not_mem_In. exact Em.
Qed.

(** X23. When [AddSurfaceRoughness.create] returns, it has put one surface on
    the first fractal box of the grid that has the ID asked for, and changed
    nothing else.  The surface is flat along exactly one axis and lies on
    the lower or the upper face of the box across that axis, named
    accordingly (xminus, xplus, ...); its range starts at zero or above and
    ends within the box on a lower face, starts within the box and ends
    within the domain on an upper face; its dimension and its first two
    weightings are not negative, and the box had no surface of that name. *)
Theorem AddSurfaceRoughness_create_face (kw : RoughnessKwargs)
    (uip : UserInput) (m : Terrain) :
  fst (AddSurfaceRoughness_create kw uip m) = inr tt ->
  exists k v sf,
    roughness_stored kw m k v sf
    /\ snd (AddSurfaceRoughness_create kw uip m)
       = set_fractalvolumes
           (alter_nth k
              (append_surface (generate_fractal_surface sf (grid (scene m))))
              (fractalvolumes m)) m.
Proof.
  intro Hok.
  destruct (AddSurfaceRoughness_create_cases kw uip m)
    as [[k [v [sf [Hs E]]]]|[e [E _]]];
    [|rewrite E in Hok; discriminate Hok].
  exists k, v, sf. split; [exact Hs|]. rewrite E. reflexivity.
Qed.

(** The names of the six faces of a box. *)
Definition faces : list string :=
  ["xminus"; "xplus"; "yminus"; "yplus"; "zminus"; "zplus"].

(** Every surface of the box is on a face of its own. *)
Definition one_per_face (v : FractalVolume) : Prop :=
  NoDup (map surfaceID (fractalsurfaces v))
  /\ incl (map surfaceID (fractalsurfaces v)) faces.

Lemma on_face_named (sc : Scene Arrays) (v : FractalVolume)
    (sf : FractalSurface) :
  on_face sc v sf -> In (surfaceID sf) faces.
Proof.
  unfold on_face, on_side, faces. cbv zeta.
  intros [[_ [_ [_ [[-> _]|[-> _]]]]]|[[_ [_ [_ [[-> _]|[-> _]]]]]
         |[_ [_ [_ [[-> _]|[-> _]]]]]]]; simpl; auto 7.
Qed.

Lemma alter_nth_In {A : Type} (k : nat) (f : A -> A) (l : list A) (x : A) :
  In x (alter_nth k f l) ->
  In x l \/ exists y, nth_error l k = Some y /\ x = f y.
Proof.
  revert k. induction l as [|z l IH]; intros k H; [destruct k; destruct H|].
  destruct k as [|k]; simpl in H.
  - destruct H as [<-|H]; [right; exists z; auto|left; right; exact H].
  - destruct H as [<-|H]; [left; left; reflexivity|].
    destruct (IH k H) as [Hin|[y [Hy ->]]]; [left; right; exact Hin|].
    right. exists y. auto.
Qed.

Lemma alter_nth_map {A B : Type} (g : A -> B) (k : nat) (f : A -> A)
    (l : list A) :
  (forall y, g (f y) = g y) -> map g (alter_nth k f l) = map g l.
Proof.
  intro H. revert k. induction l as [|z l IH]; intro k; [destruct k; reflexivity|].
  destruct k as [|k]; simpl; [rewrite H; reflexivity|].
  rewrite IH. reflexivity.
Qed.

Lemma one_per_face_count (v : FractalVolume) :
  one_per_face v -> (List.length (fractalsurfaces v) <= 6)%nat.
Proof.
  intros [Hnd Hincl]. rewrite <- (length_map surfaceID).
  apply (NoDup_incl_length Hnd Hincl).
Qed.

(** X24. With a [generate_fractal_surface] that keeps the name of the surface
    it works on, [AddSurfaceRoughness.create] keeps the surfaces of every
    fractal box on faces of their own: no face gets a second surface, so no
    box ever holds more than six.  The boxes themselves, their IDs and the
    rest of the grid stay as they are, whether the command returns or
    raises. *)
Theorem AddSurfaceRoughness_one_per_face (kw : RoughnessKwargs)
    (uip : UserInput) (m : Terrain)
    (keeps_name : forall sf g,
       surfaceID (generate_fractal_surface sf g) = surfaceID sf)
    (before : forall v, In v (fractalvolumes m) -> one_per_face v) :
  let m' := snd (AddSurfaceRoughness_create kw uip m) in
  (forall v, In v (fractalvolumes m') ->
     one_per_face v /\ (List.length (fractalsurfaces v) <= 6)%nat)
  /\ map vol_ID (fractalvolumes m') = map vol_ID (fractalvolumes m)
  /\ scene m' = scene m.
Proof.
  destruct (AddSurfaceRoughness_create_cases kw uip m)
    as [[k [v [sf [Hs E]]]]|[e [E _]]]; rewrite E; cbn [snd].
  - destruct Hs as [Hk [_ [_ [Hface [_ [_ [_ Hnew]]]]]]].
    split; [|split; [apply alter_nth_map; reflexivity|reflexivity]].
    intros u Hu.
    assert (Hone : one_per_face u).
    { simpl in Hu. apply alter_nth_In in Hu.
      destruct Hu as [Hu|[y [Hy ->]]]; [apply before; exact Hu|].
      rewrite Hk in Hy. injection Hy as <-.
      destruct (before v (nth_error_In _ _ Hk)) as [Hnd Hincl].
      unfold one_per_face. simpl. rewrite map_app. simpl.
      rewrite keeps_name. split.
      - apply NoDup_app; [exact Hnd|constructor; [intros []|constructor]|].
        intros x Hx [<-|[]]. contradiction.
      - apply incl_app; [exact Hincl|].
        intros x [<-|[]]. apply (on_face_named _ _ _ Hface). }
    split; [exact Hone|apply one_per_face_count; exact Hone].
  - split; [|split; reflexivity].
    intros u Hu. split; [apply before; exact Hu|].
    apply one_per_face_count. apply before. exact Hu.
Qed.

(** The spacings of a grid that has been set up. *)
Definition spaced (g : FDTDGrid Arrays) : Prop :=
  ~ dx g == 0%Q /\ ~ dy g == 0%Q /\ ~ dz g == 0%Q.

(** X25. On a grid with spacings that are not zero, whatever
    [AddSurfaceRoughness.create] raises leaves the grid and its fractal
    boxes as they were, and is either the error [uip] raised for the two
    points, a [CmdInputError], or the [IndexError] of a list of weightings
    or limits with fewer than two entries: in particular the name
    [requestedsurface] is never read unbound. *)
Theorem AddSurfaceRoughness_create_errors (kw : RoughnessKwargs)
    (uip : UserInput) (m : Terrain) (e : exn) :
  spaced (grid (scene m)) ->
  fst (AddSurfaceRoughness_create kw uip m) = inl e ->
  snd (AddSurfaceRoughness_create kw uip m) = m
  /\ (input_error e
      \/ exists p1 p2, rg_p1 kw = Some p1 /\ rg_p2 kw = Some p2
                       /\ check_box_points uip p1 p2 = inl e).
Proof.
  intros _ Herr.
  destruct (AddSurfaceRoughness_create_cases kw uip m)
    as [[k [v [sf [_ E]]]]|[e' [E He]]]; rewrite E in Herr |- *;
    [discriminate Herr|].
  injection Herr as <-. split; [reflexivity|exact He].
Qed.

End Roughness.

Arguments Terrain : clear implicits.

(** ** A concrete run of the surface roughness command *)

(** A fractal box from cell 10 to cell 20 along each axis, on the scene of
    the example; a rough surface on its lower x face, with a range from
    0.05 m to 0.15 m, five to fifteen cells; and a surface generator that
    leaves the attributes of the surface alone. *)
Definition example_box : FractalVolume :=
  {| vol_ID := "rough";
     vol_xs := 10; vol_xf := 20; vol_ys := 10; vol_yf := 20;
     vol_zs := 10; vol_zf := 20;
     fractalsurfaces := [] |}.

Definition example_terrain : Terrain nat :=
  {| scene := example_scene; fractalvolumes := [example_box] |}.

Definition example_roughness_kwargs : RoughnessKwargs :=
  {| rg_p1 := Some (10 # 1, 12 # 1, 12 # 1);
     rg_p2 := Some (10 # 1, 18 # 1, 18 # 1);
     rg_frac_dim := Some (3 # 2);
     rg_weighting := Some [1 # 1; 1 # 1];
     rg_limits := Some [5 # 100; 15 # 100];
     rg_fractal_box_id := Some "rough";
     rg_seed := None |}.

Definition keep_surface (sf : FractalSurface) (g : FDTDGrid nat)
  : FractalSurface := sf.

(** The same command with one weighting only. *)
Definition one_weighting_kwargs : RoughnessKwargs :=
  {| rg_p1 := Some (10 # 1, 12 # 1, 12 # 1);
     rg_p2 := Some (10 # 1, 18 # 1, 18 # 1);
     rg_frac_dim := Some (3 # 2);
     rg_weighting := Some [1 # 1];
     rg_limits := Some [5 # 100; 15 # 100];
     rg_fractal_box_id := Some "rough";
     rg_seed := None |}.

Lemma AddSurfaceRoughness_create_face_witness :
  exists k v sf,
    roughness_stored example_roughness_kwargs example_terrain k v sf
    /\ snd (AddSurfaceRoughness_create round_half_up keep_surface
              example_roughness_kwargs example_uip example_terrain)
       = set_fractalvolumes
           (alter_nth k
              (append_surface (keep_surface sf (grid (scene example_terrain))))
              (fractalvolumes example_terrain)) example_terrain.
Proof.
  apply (AddSurfaceRoughness_create_face round_half_up keep_surface
           example_roughness_kwargs example_uip example_terrain).
  vm_compute. reflexivity.
Defined.

Lemma AddSurfaceRoughness_one_per_face_witness :
  Forall (fun v => one_per_face v
                   /\ (List.length (fractalsurfaces v) <= 6)%nat)
    (fractalvolumes
       (snd (AddSurfaceRoughness_create round_half_up keep_surface
               example_roughness_kwargs example_uip example_terrain)))
  /\ map vol_ID
       (fractalvolumes
          (snd (AddSurfaceRoughness_create round_half_up keep_surface
                  example_roughness_kwargs example_uip example_terrain)))
     = ["rough"].
Proof.
  destruct (AddSurfaceRoughness_one_per_face round_half_up keep_surface
              example_roughness_kwargs example_uip example_terrain
              (fun _ _ => eq_refl)) as [Hone [Hids _]].
  - intros v [<-|[]]. split; [constructor|intros x []].
  - split; [apply Forall_forall; exact Hone|exact Hids].
Defined.

Lemma AddSurfaceRoughness_create_errors_witness :
  snd (AddSurfaceRoughness_create round_half_up keep_surface
         one_weighting_kwargs example_uip example_terrain) = example_terrain
  /\ (input_error (IndexError "index is out of bounds for axis 0")
      \/ exists p1 p2,
           rg_p1 one_weighting_kwargs = Some p1
           /\ rg_p2 one_weighting_kwargs = Some p2
           /\ check_box_points example_uip p1 p2
              = inl (IndexError "index is out of bounds for axis 0")).
Proof.
  apply (AddSurfaceRoughness_create_errors round_half_up keep_surface
           one_weighting_kwargs example_uip example_terrain).
  - repeat split; intro H; discriminate H.
  - vm_compute. reflexivity.
Defined.

(** * A waveform and the sources that name it *)

Section WaveformSources.

Context {Arrays : Type}.
Variable run : Call -> FDTDGrid Arrays -> FDTDGrid Arrays.
Variable WaveformUser_types : list string.

(** X26. A Hertzian dipole that names a waveform the grid does not have yet
    is refused, with the [NameError] of the unbound [tmp]; once
    [Waveform.create] has returned for that ID, the same dipole command,
    with a point [uip] accepts, a polarisation the mode of the grid allows
    and no times of its own, returns and stores a dipole that names the
    waveform. *)
Theorem Waveform_create_enables_source (wkw : WaveformKwargs)
    (s : Scene Arrays) (kw : SourceKwargs) (uip : UserInput) (i pol : string)
    (p1 : Q * Q * Q) (cell : Z * Z * Z) :
  kw_wave_id wkw = Some i ->
  fst (Waveform_create WaveformUser_types wkw s) = inr tt ->
  kw_waveform_id kw = Some i -> kw_p1 kw = Some p1 ->
  kw_polarisation kw = Some pol ->
  check_src_rx_point uip p1 = inr cell ->
  allowed_polarisation (grid s) (lower pol) ->
  kw_start kw = None \/ kw_stop kw = None ->
  let s' := snd (Waveform_create WaveformUser_types wkw s) in
  HertzianDipole_create run kw uip (world s) = (inl (NameError "tmp"), world s)
  /\ fst (HertzianDipole_create run kw uip (world s')) = inr tt
  /\ exists h before,
       hertziandipoles (G (snd (HertzianDipole_create run kw uip (world s'))))
       = before ++ [h]
       /\ waveformID h = i /\ In i (waveforms (grid s')).
Proof.
  intros Hi Hok Hwid Hp1 Hpol Hpoint Hallowed Htimes s'.
  assert (Hcases := Waveform_create_cases WaveformUser_types wkw s).
  assert (Hs' : exists t a f,
            s' = with_waveform i t a f s /\ ~ In i (waveforms (grid s))).
  { subst s'. revert Hok Hcases.
    destruct (kw_wave_type wkw) as [t|];
      [|intros Hok [msg E]; rewrite E in Hok; discriminate Hok].
    destruct (kw_amp wkw) as [a|];
      [|intros Hok [msg E]; rewrite E in Hok; discriminate Hok].
    destruct (kw_freq wkw) as [f|];
      [|intros Hok [msg E]; rewrite E in Hok; discriminate Hok].
    rewrite Hi.
    destruct (mem (lower t) WaveformUser_types);
      [|intros Hok [msg E]; rewrite E in Hok; discriminate Hok].
    destruct (float_le f 0);
      [intros Hok [msg E]; rewrite E in Hok; discriminate Hok|].
    destruct (mem i (waveforms (grid s))) eqn:Ei;
      [intros Hok [msg E]; rewrite E in Hok; discriminate Hok|].
    cbn [negb andb]. intros _ E. rewrite E.
    exists (lower t), a, f. split; [reflexivity|].
    apply not_mem_In. exact Ei. }
  destruct Hs' as [t [a [f [Es' Hnew]]]].
  assert (Hcheck : forall w : World Arrays,
            mode (G w) = mode (grid s) ->
            check_polarisation (lower pol) w = (inr tt, w)).
  { intros w Hmode.
    assert (H1 := proj2 (check_polarisation_allowed (lower pol) w)).
    assert (H2 := check_polarisation_state (lower pol) w).
    destruct (check_polarisation (lower pol) w) as [r w1].
    cbn [fst snd] in *. subst w1. rewrite H1; [reflexivity|].
    unfold allowed_polarisation in *. rewrite Hmode. exact Hallowed. }
  assert (Htime : forall w : World Arrays,
            start_stop kw w = (inr (0%Q, timewindow (G w)), w)).
  { intro w. unfold start_stop.
    destruct Htimes as [E|E]; rewrite E; [reflexivity|].
    destruct (kw_start kw); reflexivity. }
  split; [|split].
  - unfold HertzianDipole_create, required, lift, bind, gets, ret, raise.
    rewrite Hp1, Hpol, Hwid. cbn [option_map]. cbv beta iota.
    rewrite (Hcheck (world s) eq_refl), Hpoint.
    apply not_mem_In in Hnew. unfold grid in Hnew. rewrite Hnew. reflexivity.
  - rewrite Es'.
    unfold HertzianDipole_create, required, lift, bind, gets, ret, raise.
    rewrite Hp1, Hpol, Hwid. cbn [option_map]. cbv beta iota.
    rewrite (Hcheck (world (with_waveform i t a f s)) eq_refl), Hpoint.
    assert (Hm : mem i (waveforms (G (world (with_waveform i t a f s))))
                 = true).
    { apply mem_In. simpl. apply in_or_app. right. left. reflexivity. }
    rewrite Hm. cbn [negb]. cbv beta iota.
    rewrite Htime. reflexivity.
  - rewrite Es'.
    unfold HertzianDipole_create, required, lift, bind, gets, ret, raise.
    rewrite Hp1, Hpol, Hwid. cbn [option_map]. cbv beta iota.
    rewrite (Hcheck (world (with_waveform i t a f s)) eq_refl), Hpoint.
    assert (Hm : mem i (waveforms (G (world (with_waveform i t a f s))))
                 = true).
    { apply mem_In. simpl. apply in_or_app. right. left. reflexivity. }
    rewrite Hm. cbn [negb]. cbv beta iota.
    rewrite Htime. unfold call, modify. cbn [fst snd].
    eexists. eexists. split; [reflexivity|].
    split; [reflexivity|].
    simpl. apply in_or_app. right. left. reflexivity.
Qed.

End WaveformSources.

(** * Sub-grids and the text of a command *)

Section Commands.

(** The objects handed to [Subgrid.add]: a [UserObjectMulti], a
    [UserObjectGeometry], or anything else. *)
Inductive Node : Type :=
| multi_object (hash : string)
| geometry_object (hash : string)
| other_object.

Record Subgrid : Type := {
  children_multiple : list Node;
  children_geometry : list Node
}.

(** [Subgrid.add]; [GeneralError] is a name the method reads. *)
Definition Subgrid_add (globals : list string) (node : Node) : M Subgrid unit :=
  match node with
  | multi_object _ =>
      modify (fun s =>
        {| children_multiple := children_multiple s ++ [node];
           children_geometry := children_geometry s |})
  | geometry_object _ =>
      modify (fun s =>
        {| children_multiple := children_multiple s;
           children_geometry := children_geometry s ++ [node] |})
  | other_object =>
      lookup_name ["self"; "node"] globals "GeneralError" ;;
      raise (GeneralError "This object is unknown to gprMax")
  end.

Definition is_multi (n : Node) : bool :=
  match n with multi_object _ => true | _ => false end.

Definition is_geometry (n : Node) : bool :=
  match n with geometry_object _ => true | _ => false end.

(** The sub-grid after the objects [l], none of them unknown, are added. *)
Definition with_children (l : list Node) (s : Subgrid) : Subgrid :=
  {| children_multiple := children_multiple s ++ filter is_multi l;
     children_geometry := children_geometry s ++ filter is_geometry l |}.

Lemma Subgrid_add_known (globals : list string) (l : list Node) (s : Subgrid) :
  Forall (fun n => n <> other_object) l ->
  for_each l (Subgrid_add globals) s = (inr tt, with_children l s).
Proof.
  intro H. revert s. induction H as [|n l Hn _ IH]; intro s.
  - unfold with_children. simpl. rewrite !app_nil_r. destruct s; reflexivity.
  - simpl. unfold bind.
    destruct n as [h|h|]; [| |contradiction]; simpl; rewrite IH;
      unfold with_children; simpl; rewrite <- app_assoc; reflexivity.
Qed.

(** X27. [Subgrid.add] sorts the objects it is given: added one after the
    other, the multiple-use objects end up in [children_multiple] and the
    geometry objects in [children_geometry], each in the order they came.
    An object that is neither stops the sequence with the objects before it
    kept; the error is the [NameError] of [GeneralError], a name the module
    [cmds_multiple.py] does not bind, and not the [GeneralError] the method
    means to raise. *)
Theorem Subgrid_add_sorts (known rest : list Node) (s : Subgrid) :
  Forall (fun n => n <> other_object) known ->
  for_each known (Subgrid_add cmds_globals) s = (inr tt, with_children known s)
  /\ for_each (known ++ other_object :: rest) (Subgrid_add cmds_globals) s
     = (inl (NameError "GeneralError"), with_children known s)
  /\ (forall globals, In "GeneralError" globals ->
        for_each (known ++ other_object :: rest) (Subgrid_add globals) s
        = (inl (GeneralError "This object is unknown to gprMax"),
           with_children known s)).
Proof.
  intro H. split; [apply Subgrid_add_known; exact H|]. split.
  - rewrite for_each_app. unfold bind.
    rewrite (Subgrid_add_known cmds_globals known s H). reflexivity.
  - intros globals Hg. rewrite for_each_app. unfold bind.
    rewrite (Subgrid_add_known globals known s H). simpl.
    unfold bind, lookup_name.
    apply mem_In in Hg. rewrite Hg. rewrite orb_true_r. reflexivity.
Qed.

(** A value of [self.kwargs] as [__str__] sees it: a tuple or a list, with
    [str(el)] of each of its elements, or anything else, with its [str]. *)
Inductive Value : Type :=
| sequence (elements : list string)
| scalar (text : string).

(** [' '.join(...)] for a tuple or a list, [str(v)] otherwise. *)
Definition value_str (v : Value) : string :=
  match v with
  | sequence elements => String.concat " " elements
  | scalar text => text
  end.

(** [s[:-1]] *)
Fixpoint drop_last (s : string) : string :=
  match s with
  | EmptyString => EmptyString
  | String c EmptyString => EmptyString
  | String c s' => String c (drop_last s')
  end.

(** [UserObjectMulti.__str__] *)
Definition UserObjectMulti_str (hash : string) (kwargs : list (string * Value))
  : string :=
  let s := fold_left (fun s kv => (s ++ value_str (snd kv) ++ " ")%string) kwargs
             EmptyString in
  (hash ++ ": " ++ drop_last s)%string.

Lemma string_app_assoc (a b c : string) : ((a ++ b) ++ c = a ++ b ++ c)%string.
Proof. induction a as [|x a IH]; simpl; [reflexivity|rewrite IH; reflexivity]. Qed.

Lemma string_app_nil (a : string) : (a ++ EmptyString)%string = a.
Proof. induction a as [|x a IH]; simpl; [reflexivity|rewrite IH; reflexivity]. Qed.

Lemma drop_last_app (a b : string) :
  b <> EmptyString -> drop_last (a ++ b) = (a ++ drop_last b)%string.
Proof.
  intro Hb. induction a as [|x a IH]; [reflexivity|].
  simpl. rewrite IH.
  destruct (a ++ b)%string eqn:E; [|reflexivity].
  destruct a; [simpl in E; contradiction|discriminate E].
Qed.

Lemma fold_values (l : list (string * Value)) (acc : string) :
  fold_left (fun s kv => (s ++ value_str (snd kv) ++ " ")%string) l acc
  = (acc ++ String.concat EmptyString
              (map (fun kv => (value_str (snd kv) ++ " ")%string) l))%string.
Proof.
  revert acc. induction l as [|kv l IH]; intro acc; simpl.
  - rewrite string_app_nil. reflexivity.
  - rewrite IH. rewrite string_app_assoc.
    destruct l as [|kv' l]; simpl; [rewrite !string_app_nil|];
      reflexivity.
Qed.

Lemma drop_last_spaced (l : list string) :
  drop_last (String.concat EmptyString
               (map (fun x => (x ++ " ")%string) l))
  = String.concat " " l.
Proof.
  induction l as [|x l IH]; [reflexivity|].
  destruct l as [|y l].
  - simpl. rewrite drop_last_app by discriminate. simpl.
    apply string_app_nil.
  - change (String.concat EmptyString
              (map (fun x => (x ++ " ")%string) (x :: y :: l)))
      with ((x ++ " ") ++ EmptyString
            ++ String.concat EmptyString
                 (map (fun x => (x ++ " ")%string) (y :: l)))%string.
    change (String.concat " " (x :: y :: l))
      with (x ++ " " ++ String.concat " " (y :: l))%string.
    rewrite <- IH. simpl (EmptyString ++ _)%string.
    rewrite string_app_assoc.
    rewrite drop_last_app.
    + rewrite drop_last_app; [reflexivity|].
      destruct l; simpl; destruct y; discriminate.
    + simpl. discriminate.
Qed.

(** X28. [UserObjectMulti.__str__] gives the hash of the command, a colon and
    a space, and then what [' '.join] gives for the values of the keyword
    arguments in their order, a tuple or a list being itself joined by
    spaces first: the one space the loop puts after the last value is the
    character [s[:-1]] drops.  With no arguments it gives the hash, the
    colon and the space. *)
Theorem UserObjectMulti_str_joined (hash : string)
    (kwargs : list (string * Value)) :
  UserObjectMulti_str hash kwargs
  = (hash ++ ": "
     ++ String.concat " " (map (fun kv => value_str (snd kv)) kwargs))%string
  /\ UserObjectMulti_str hash [] = (hash ++ ": ")%string.
Proof.
  split; [|reflexivity].
  unfold UserObjectMulti_str. rewrite fold_values. simpl (EmptyString ++ _)%string.
  rewrite <- (map_map (fun kv => value_str (snd kv)) (fun x => (x ++ " ")%string)).
  rewrite drop_last_spaced. reflexivity.
Qed.

End Commands.

(** ** Concrete runs of the last properties *)

(** The waveform types of the example, and a Ricker waveform under the ID
    the dipole of [unknown_waveform_kwargs] asks for. *)
Definition example_waveform_types : list string :=
  ["gaussian"; "gaussiandot"; "ricker"; "sine"; "contsine"; "impulse"; "user"].

Definition ricker_kwargs : WaveformKwargs :=
  {| kw_wave_type := Some "Ricker"; kw_amp := Some (number (1 # 1));
     kw_freq := Some (number (1000000000 # 1)); kw_wave_id := Some "ricker" |}.

Lemma Waveform_create_enables_source_witness :
  HertzianDipole_create run_count unknown_waveform_kwargs example_uip
    (world example_scene)
  = (inl (NameError "tmp"), world example_scene)
  /\ fst (HertzianDipole_create run_count unknown_waveform_kwargs example_uip
            (world (snd (Waveform_create example_waveform_types ricker_kwargs
                           example_scene))))
     = inr tt.
Proof.
  destruct (Waveform_create_enables_source run_count example_waveform_types
              ricker_kwargs example_scene unknown_waveform_kwargs example_uip
              "ricker" "Z" (5 # 1, 5 # 1, 5 # 1) (5, 5, 5)
              eq_refl eq_refl eq_refl eq_refl eq_refl eq_refl)
    as [Hbefore [Hafter _]].
  - split; [simpl; auto|].
    repeat split; intro H; discriminate H.
  - left. reflexivity.
  - split; [exact Hbefore|exact Hafter].
Defined.

Lemma Subgrid_add_sorts_witness :
  for_each
    [multi_object "#waveform"; geometry_object "#box"; multi_object "#rx";
     other_object; multi_object "#snapshot"]
    (Subgrid_add cmds_globals)
    {| children_multiple := []; children_geometry := [] |}
  = (inl (NameError "GeneralError"),
     {| children_multiple := [multi_object "#waveform"; multi_object "#rx"];
        children_geometry := [geometry_object "#box"] |}).
Proof.
  apply (proj1 (proj2 (Subgrid_add_sorts
                         [multi_object "#waveform"; geometry_object "#box";
                          multi_object "#rx"]
                         [multi_object "#snapshot"]
                         {| children_multiple := []; children_geometry := [] |}
                         ltac:(repeat constructor; discriminate)))).
Defined.
